(** * Structure indexer, call-graph builder and history recorder

    A shallow embedding of the three incremental services of the
    workbench:

    - [CodeStructureService] (services/codeStructure/browser/codeStructureService.ts),
    - [CodeGraphService]     (services/codeGraph, the in-memory implementation),
    - [CodeHistoryService]   (services/codeHistory, the in-memory implementation),

    and of two of their users, the graph commands and the timeline
    provider, together with the theorems that settle the properties
    stated about them.  JavaScript strings are modelled by [string]; a character is a
    code unit of the Latin-1 range.  Numbers that the source uses as line
    numbers, columns, versions and time stamps are [Z]; offsets into a
    string are [nat].  Maps whose iteration order is never observed are
    [gmap string _]; maps that are iterated ([symbolByName], [prevById],
    [nextById]) are insertion-ordered association lists, as a JavaScript
    [Map] is. *)

From Stdlib Require Import ZArith Ascii String List Bool Lia.
From stdpp Require Import base option list gmap strings pretty.
Import ListNotations.

Local Open Scope string_scope.
Local Open Scope list_scope.
Local Open Scope Z_scope.

(* ===================================================================== *)
(** ** Results of fallible code and the handler monad *)
(* ===================================================================== *)

(** A JavaScript computation either returns or throws. *)
Inductive outcome (A : Type) : Type :=
| Return (a : A)
| Throw (e : string).
Arguments Return {A} a.
Arguments Throw {A} e.

(** What a handler does to the outside world, in program order.  A fired
    event carries the component state that is visible to the listeners at
    the moment of firing (listeners run synchronously inside [fire]). *)
Inductive Effect (P V : Type) : Type :=
| Log (message context : string)
| Fire (payload : P) (visible : V).
Arguments Log {P V} message context.
Arguments Fire {P V} payload visible.

Module Handler.

(** State, exceptions and an effect trace.  A state change made before a
    throw persists, as it does in JavaScript. *)
Definition M (S P A : Type) : Type := S -> outcome A * S * list (Effect P S).

Definition ret {S P A} (a : A) : M S P A := fun s => (Return a, s, []).

Definition bind {S P A B} (c : M S P A) (k : A -> M S P B) : M S P B :=
  fun s =>
    match c s with
    | (Return a, s1, t1) =>
        match k a s1 with
        | (r, s2, t2) => (r, s2, t1 ++ t2)
        end
    | (Throw e, s1, t1) => (Throw e, s1, t1)
    end.

Definition throw {S P A} (e : string) : M S P A := fun s => (Throw e, s, []).

(** [try { c } catch (error) { h error }] *)
Definition try_catch {S P A} (c : M S P A) (h : string -> M S P A) : M S P A :=
  fun s =>
    match c s with
    | (Return a, s1, t1) => (Return a, s1, t1)
    | (Throw e, s1, t1) =>
        match h e s1 with
        | (r, s2, t2) => (r, s2, t1 ++ t2)
        end
    end.

Definition get {S P} : M S P S := fun s => (Return s, s, []).
Definition modify {S P} (f : S -> S) : M S P unit := fun s => (Return tt, f s, []).
Definition lift {S P A} (o : outcome A) : M S P A := fun s => (o, s, []).
Definition log {S P} (message context : string) : M S P unit :=
  fun s => (Return tt, s, [Log message context]).
Definition fire {S P} (payload : P) : M S P unit :=
  fun s => (Return tt, s, [Fire payload s]).

(** [for (const x of xs) { body x }] *)
Fixpoint for_each {S P A} (xs : list A) (body : A -> M S P unit) : M S P unit :=
  match xs with
  | [] => ret tt
  | x :: xs' => bind (body x) (fun _ => for_each xs' body)
  end.

End Handler.

Declare Scope handler_scope.
Delimit Scope handler_scope with handler.
Notation "'let!' x ':=' c 'in' k" := (Handler.bind c (fun x => k))
  (at level 10, x name, c at level 100, k at level 200) : handler_scope.
Notation "'run!' c 'in' k" := (Handler.bind c (fun _ => k))
  (at level 10, c at level 100, k at level 200) : handler_scope.

(** The events a trace fired, and the lines it logged. *)
Definition fired {P V} (t : list (Effect P V)) : list P :=
  flat_map (fun e => match e with Fire p _ => [p] | Log _ _ => [] end) t.

Definition logged {P V} (t : list (Effect P V)) : list string :=
  flat_map (fun e => match e with Log m _ => [m] | Fire _ _ => [] end) t.

(* ===================================================================== *)
(** ** Strings *)
(* ===================================================================== *)

Module Text.

Definition code (c : ascii) : N := N_of_ascii c.

Definition in_range (lo hi c : ascii) : bool :=
  ((code lo <=? code c) && (code c <=? code hi))%N.

(** [\s]: tab, line feed, vertical tab, form feed, carriage return,
    space and no-break space. *)
Definition is_space (c : ascii) : bool :=
  ((9 <=? code c) && (code c <=? 13) || (code c =? 32) || (code c =? 160))%N.

(** [\w]: [[A-Za-z0-9_]]. *)
Definition is_word (c : ascii) : bool :=
  in_range "A" "Z" c || in_range "a" "z" c || in_range "0" "9" c
  || Ascii.eqb c "_".

(** [[A-Za-z0-9_$]]. *)
Definition is_ident (c : ascii) : bool :=
  is_word c || Ascii.eqb c "$".

Definition LF : ascii := ascii_of_N 10.
Definition CR : ascii := ascii_of_N 13.

(** [text.split(/\r\n|\r|\n/)] *)
Fixpoint split_lines (s : string) : list string :=
  match s with
  | EmptyString => [EmptyString]
  | String c s' =>
      if Ascii.eqb c CR then
        match s' with
        | String c' s'' =>
            if Ascii.eqb c' LF then EmptyString :: split_lines s''
            else EmptyString :: split_lines s'
        | EmptyString => EmptyString :: split_lines s'
        end
      else if Ascii.eqb c LF then EmptyString :: split_lines s'
      else
        match split_lines s' with
        | l :: ls => String c l :: ls
        | [] => [String c EmptyString]
        end
  end.

(** [hay.indexOf(needle)]: the offset of the first occurrence, or -1. *)
Definition indexOf (hay needle : string) : Z :=
  match String.index 0 needle hay with
  | Some n => Z.of_nat n
  | None => -1
  end.

(** [s.length] *)
Definition len (s : string) : Z := Z.of_nat (String.length s).

(** The decimal rendering of a number inside a template literal. *)
Definition decimal (n : Z) : string := pretty n.

End Text.

(* ===================================================================== *)
(** ** Regular expressions *)
(* ===================================================================== *)

(** The fragment of JavaScript regular expressions that the services use,
    with the backtracking semantics of [RegExp.prototype.exec]: quantifiers
    are greedy, alternatives are tried left to right, and the first
    successful path wins.  Quantifiers only ever apply to character
    classes in the source. *)
Module RegExp.

Inductive t : Type :=
| Bol                              (* ^  (no multiline flag) *)
| Eol                              (* $  (no multiline flag) *)
| WordBoundary                     (* \b *)
| Lit (s : string)                 (* literal text *)
| Star (cls : ascii -> bool)       (* cls*  *)
| Plus (cls : ascii -> bool)       (* cls+  *)
| Seq (r1 r2 : t)
| Opt (r : t)                      (* (r)?  *)
| Alt (r1 r2 : t)                  (* r1|r2 *)
| Group (n : nat) (r : t).         (* capture group number n *)

Fixpoint seq (rs : list t) : t :=
  match rs with
  | [] => Lit EmptyString
  | [r] => r
  | r :: rs' => Seq r (seq rs')
  end.

(** A cursor into the subject: the code unit before it, the text from it
    on, and its offset. *)
Record cursor := { before : option ascii; rest : string; offset : nat }.

Definition start_of (s : string) : cursor :=
  {| before := None; rest := s; offset := 0 |}.

Definition advance (cur : cursor) : option (ascii * cursor) :=
  match rest cur with
  | EmptyString => None
  | String c s' => Some (c, {| before := Some c; rest := s'; offset := S (offset cur) |})
  end.

Definition captures := list (nat * string).

Definition capture (n : nat) (caps : captures) : option string :=
  snd <$> List.find (fun p => Nat.eqb (fst p) n) caps.

Definition at_word_boundary (cur : cursor) : bool :=
  let left := match before cur with Some c => Text.is_word c | None => false end in
  let right := match rest cur with String c _ => Text.is_word c | EmptyString => false end in
  xorb left right.

Fixpoint lit {R} (s : string) (cur : cursor) (k : cursor -> option R) : option R :=
  match s with
  | EmptyString => k cur
  | String c s' =>
      match advance cur with
      | Some (d, cur') => if Ascii.eqb c d then lit s' cur' k else None
      | None => None
      end
  end.

(** Greedy repetition of a character class: take as many as possible,
    then give back one at a time. *)
Fixpoint star {R} (cls : ascii -> bool) (subject : string) (cur : cursor)
    (k : cursor -> option R) : option R :=
  match subject with
  | String c s' =>
      if cls c then
        match star cls s' {| before := Some c; rest := s'; offset := S (offset cur) |} k with
        | Some r => Some r
        | None => k cur
        end
      else k cur
  | EmptyString => k cur
  end.

Fixpoint run {R} (r : t) (cur : cursor) (caps : captures)
    (k : cursor -> captures -> option R) : option R :=
  match r with
  | Bol => if Nat.eqb (offset cur) 0 then k cur caps else None
  | Eol => match rest cur with EmptyString => k cur caps | String _ _ => None end
  | WordBoundary => if at_word_boundary cur then k cur caps else None
  | Lit s => lit s cur (fun cur' => k cur' caps)
  | Star cls => star cls (rest cur) cur (fun cur' => k cur' caps)
  | Plus cls =>
      match advance cur with
      | Some (c, cur') =>
          if cls c then star cls (rest cur') cur' (fun cur'' => k cur'' caps) else None
      | None => None
      end
  | Seq r1 r2 => run r1 cur caps (fun cur' caps' => run r2 cur' caps' k)
  | Opt r1 =>
      match run r1 cur caps k with
      | Some x => Some x
      | None => k cur caps
      end
  | Alt r1 r2 =>
      match run r1 cur caps k with
      | Some x => Some x
      | None => run r2 cur caps k
      end
  | Group n r1 =>
      run r1 cur caps (fun cur' caps' =>
        k cur' ((n, String.substring 0 (offset cur' - offset cur) (rest cur)) :: caps'))
  end.

(** A successful match: where it starts, the cursor just after it, and
    its capture groups. *)
Record result := { index : nat; last : cursor; groups : captures }.

Definition match_at (r : t) (cur : cursor) : option result :=
  run r cur [] (fun cur' caps => Some {| index := offset cur; last := cur'; groups := caps |}).

(** The leftmost match at or after the cursor. *)
Fixpoint search (r : t) (subject : string) (cur : cursor) : option result :=
  match match_at r cur with
  | Some m => Some m
  | None =>
      match subject with
      | String c s' => search r s' {| before := Some c; rest := s'; offset := S (offset cur) |}
      | EmptyString => None
      end
  end.

(** [re.exec(s)] for a regular expression without the [g] flag. *)
Definition exec (r : t) (s : string) : option result :=
  search r s (start_of s).

(** [re.test(s)] *)
Definition test (r : t) (s : string) : bool :=
  match exec r s with Some _ => true | None => false end.

(** The successive results of [re.exec(s)] for a regular expression with
    the [g] flag, until it returns [null]: each search resumes at
    [lastIndex], the end of the previous match.  [fuel] bounds the
    number of matches; every match of the patterns used here consumes
    at least one code unit, so [S (length s)] is enough. *)
Fixpoint exec_all_from (fuel : nat) (r : t) (cur : cursor) : list result :=
  match fuel with
  | O => []
  | S fuel' =>
      match search r (rest cur) cur with
      | Some m => m :: exec_all_from fuel' r (last m)
      | None => []
      end
  end.

Definition exec_all (r : t) (s : string) : list result :=
  exec_all_from (S (String.length s)) r (start_of s).

End RegExp.

(* ===================================================================== *)
(** ** The editor's collaborators *)
(* ===================================================================== *)

(** Modelled from the spec: the file identity ([URI] of base/common/uri,
    not part of the sources), observed through [toString()], the key of
    every per-file map, and through [basename] of base/common/resources,
    the name of the file symbol. *)
Record URI := { uri_toString : string; uri_basename : string }.

Record Position := { lineNumber : Z; column : Z }.

Record IRange := {
  startLineNumber : Z;
  startColumn : Z;
  endLineNumber : Z;
  endColumn : Z
}.

(** Modelled from the spec: the range of a symbol (start and end line
    and column), built by [new Range(startLineNumber, startColumn,
    endLineNumber, endColumn)] of editor/common/core/range, which is not
    part of the sources; the constructor orders its two end points. *)
Definition Range (sl sc el ec : Z) : IRange :=
  if (el <? sl) || ((sl =? el) && (ec <? sc))
  then {| startLineNumber := el; startColumn := ec; endLineNumber := sl; endColumn := sc |}
  else {| startLineNumber := sl; startColumn := sc; endLineNumber := el; endColumn := ec |}.

(** Modelled from the spec: the text-buffer provider ([ITextModel] of
    editor/common/model, not part of the sources), which exposes the
    content, language and version of a document and the position of an
    offset.  Once the buffer is disposed its content accessors throw;
    that is how extraction can fail. *)
Record ITextModel := {
  uri : URI;
  languageId : string;
  versionId : Z;
  value : string;
  isDisposed : bool
}.

Module TextModel.

Definition assertNotDisposed {A} (m : ITextModel) (a : A) : outcome A :=
  if isDisposed m then Throw "Model is disposed!" else Return a.

Definition getLanguageId (m : ITextModel) : string := languageId m.
Definition getVersionId (m : ITextModel) : outcome Z := assertNotDisposed m (versionId m).
Definition getValue (m : ITextModel) : outcome string := assertNotDisposed m (value m).
Definition getValueLength (m : ITextModel) : outcome Z :=
  assertNotDisposed m (Text.len (value m)).

(** The position of an offset: lines are numbered from 1 and end at
    [\r\n], [\r] or [\n]; columns are numbered from 1. *)
Fixpoint position_from (s : string) (n : nat) (line col : Z) : Position :=
  match n, s with
  | O, _ | _, EmptyString => {| lineNumber := line; column := col |}
  | S n', String c s' =>
      if Ascii.eqb c Text.LF then position_from s' n' (line + 1) 1
      else if Ascii.eqb c Text.CR then
        match s' with
        | String c' _ =>
            if Ascii.eqb c' Text.LF then position_from s' n' line (col + 1)
            else position_from s' n' (line + 1) 1
        | EmptyString => position_from s' n' (line + 1) 1
        end
      else position_from s' n' line (col + 1)
  end.

Definition getPositionAt (m : ITextModel) (offset : nat) : outcome Position :=
  assertNotDisposed m (position_from (value m) offset 1 1).

(** The full range of a document: from the first column of line 1 to
    the column after the last code unit of the last line. *)
Definition fullRange (text : string) : IRange :=
  let lines := Text.split_lines text in
  {| startLineNumber := 1;
     startColumn := 1;
     endLineNumber := Z.of_nat (length lines);
     endColumn := Text.len (default EmptyString (last lines)) + 1 |}.

End TextModel.

(** Modelled from the spec: the model service ([IModelService], not part
    of the sources), observed through [getModel]: the live text buffers,
    by [uri.toString()]. *)
Definition IModelService := gmap string ITextModel.

Definition getModel (ms : IModelService) (u : URI) : option ITextModel :=
  ms !! uri_toString u.

(** Modelled from the spec: [RunOnceScheduler] of base/common/async, which
    is not part of the sources; the spec describes it as a cancellable,
    reschedule-on-retrigger timer task per file key. *)
Module RunOnceScheduler.

Record t := { isScheduled : bool; disposed : bool }.

Definition create : t := {| isScheduled := false; disposed := false |}.

(** [schedule()]: cancel the pending timeout, if any, and set a new one. *)
Definition schedule (s : t) : t :=
  {| isScheduled := true; disposed := disposed s |}.

(** [cancel()] *)
Definition cancel (s : t) : t :=
  {| isScheduled := false; disposed := disposed s |}.

(** [dispose()]: cancel and drop the runner. *)
Definition dispose (s : t) : t :=
  {| isScheduled := false; disposed := true |}.

End RunOnceScheduler.

(* ===================================================================== *)
(** ** Data model (codeStructure.ts, codeGraph.ts, codeHistory.ts) *)
(* ===================================================================== *)

Inductive CodeSymbolKind :=
| File | Class | Method | Function | Property_ | Variable_ | Unknown.

Record Metrics := { loc : Z; complexity : option Z }.

Record SymbolNodeLite := {
  id : string;
  name : string;
  kind : CodeSymbolKind;
  sym_uri : URI;
  range : IRange;
  selectionRange : IRange;
  containerId : option string;
  jsDocSummary : option string;
  metrics : option Metrics
}.

Record FileStructureSnapshot := {
  snap_uri : URI;
  version : Z;
  snap_languageId : string;
  symbols : list SymbolNodeLite;
  createdAt : Z
}.

Inductive GraphEdgeKind := Call | Import | Export.

(** A [GraphEdge] object.  [edge_ref] is the identity of the object: the
    call-graph service compares edges with [!==], so two edges with equal
    fields are still two objects. *)
Record GraphEdge := {
  edge_ref : nat;
  from : string;
  to : string;
  edge_kind : GraphEdgeKind
}.

Inductive HistoryEventKind := SymbolAdded | SymbolRemoved | SymbolChanged.

Record SnapshotRef := { ref_uri : URI; ref_version : Z }.

Record CodeHistoryEvent := {
  event_id : string;
  event_uri : URI;
  symbolId : option string;
  event_kind : HistoryEventKind;
  timestamp : Z;
  summary : string;
  snapshot : SnapshotRef
}.

#[global] Instance CodeSymbolKind_eq_dec : EqDecision CodeSymbolKind.
Proof. solve_decision. Defined.
#[global] Instance GraphEdgeKind_eq_dec : EqDecision GraphEdgeKind.
Proof. solve_decision. Defined.
#[global] Instance HistoryEventKind_eq_dec : EqDecision HistoryEventKind.
Proof. solve_decision. Defined.

Module Outcome.

Definition bind {A B} (c : outcome A) (k : A -> outcome B) : outcome B :=
  match c with
  | Return a => k a
  | Throw e => Throw e
  end.

End Outcome.

Declare Scope outcome_scope.
Delimit Scope outcome_scope with outcome.
Notation "'let?' x ':=' c 'in' k" := (Outcome.bind c (fun x => k))
  (at level 10, x name, c at level 100, k at level 200) : outcome_scope.

(* ===================================================================== *)
(** ** CodeStructureService (codeStructureService.ts) *)
(* ===================================================================== *)

Module CodeStructureService.

Definition RECOMPUTE_DELAY : Z := 250.

(** The private fields.  A scheduler is an object: [_recomputeSchedulers]
    holds references into [schedulers], the scheduler objects created so
    far, because the content-change listener keeps the reference it
    captured even after the map entry is deleted. *)
Record state := {
  _snapshots : gmap string FileStructureSnapshot;
  _recomputeSchedulers : gmap string nat;
  schedulers : list RunOnceScheduler.t
}.

Definition initial : state :=
  {| _snapshots := ∅; _recomputeSchedulers := ∅; schedulers := [] |}.

Definition M := Handler.M state URI.

Definition set_snapshots (f : gmap string FileStructureSnapshot -> gmap string FileStructureSnapshot)
    (s : state) : state :=
  {| _snapshots := f (_snapshots s);
     _recomputeSchedulers := _recomputeSchedulers s;
     schedulers := schedulers s |}.

Definition set_recomputeSchedulers (f : gmap string nat -> gmap string nat) (s : state) : state :=
  {| _snapshots := _snapshots s;
     _recomputeSchedulers := f (_recomputeSchedulers s);
     schedulers := schedulers s |}.

Definition set_schedulers (f : list RunOnceScheduler.t -> list RunOnceScheduler.t)
    (s : state) : state :=
  {| _snapshots := _snapshots s;
     _recomputeSchedulers := _recomputeSchedulers s;
     schedulers := f (schedulers s) |}.

(** Apply a method to the scheduler object behind a reference. *)
Definition on_scheduler (ref : nat) (f : RunOnceScheduler.t -> RunOnceScheduler.t) : state -> state :=
  set_schedulers (fun h => match h !! ref with Some o => <[ref := f o]> h | None => h end).

Definition isSupported (model : ITextModel) : bool :=
  let languageId := TextModel.getLanguageId model in
  String.eqb languageId "typescript"
  || String.eqb languageId "typescriptreact"
  || String.eqb languageId "javascript"
  || String.eqb languageId "javascriptreact".

(** [`${uri.toString()}::${name}@${lineNumber}`] *)
Definition buildSymbolId (uri : URI) (name : string) (lineNumber : Z) : string :=
  uri_toString uri +:+ "::" +:+ name +:+ "@" +:+ Text.decimal lineNumber.

(** [/^\s*(export\s+)?(abstract\s+)?class\s+([A-Za-z0-9_$]+)/] *)
Definition classRe : RegExp.t :=
  RegExp.seq
    [ RegExp.Bol; RegExp.Star Text.is_space;
      RegExp.Opt (RegExp.Group 1 (RegExp.Seq (RegExp.Lit "export") (RegExp.Plus Text.is_space)));
      RegExp.Opt (RegExp.Group 2 (RegExp.Seq (RegExp.Lit "abstract") (RegExp.Plus Text.is_space)));
      RegExp.Lit "class"; RegExp.Plus Text.is_space;
      RegExp.Group 3 (RegExp.Plus Text.is_ident) ].

(** [/^\s*(export\s+)?(async\s+)?function\s+([A-Za-z0-9_$]+)/] *)
Definition functionRe : RegExp.t :=
  RegExp.seq
    [ RegExp.Bol; RegExp.Star Text.is_space;
      RegExp.Opt (RegExp.Group 1 (RegExp.Seq (RegExp.Lit "export") (RegExp.Plus Text.is_space)));
      RegExp.Opt (RegExp.Group 2 (RegExp.Seq (RegExp.Lit "async") (RegExp.Plus Text.is_space)));
      RegExp.Lit "function"; RegExp.Plus Text.is_space;
      RegExp.Group 3 (RegExp.Plus Text.is_ident) ].

(** [/^\s*(public\s+|private\s+|protected\s+)?(static\s+)?(async\s+)?([A-Za-z0-9_$]+)\s*\(/] *)
Definition methodRe : RegExp.t :=
  RegExp.seq
    [ RegExp.Bol; RegExp.Star Text.is_space;
      RegExp.Opt (RegExp.Group 1
        (RegExp.Alt (RegExp.Seq (RegExp.Lit "public") (RegExp.Plus Text.is_space))
          (RegExp.Alt (RegExp.Seq (RegExp.Lit "private") (RegExp.Plus Text.is_space))
             (RegExp.Seq (RegExp.Lit "protected") (RegExp.Plus Text.is_space)))));
      RegExp.Opt (RegExp.Group 2 (RegExp.Seq (RegExp.Lit "static") (RegExp.Plus Text.is_space)));
      RegExp.Opt (RegExp.Group 3 (RegExp.Seq (RegExp.Lit "async") (RegExp.Plus Text.is_space)));
      RegExp.Group 4 (RegExp.Plus Text.is_ident);
      RegExp.Star Text.is_space; RegExp.Lit "(" ].

(** [/^\s*$/] *)
Definition blankRe : RegExp.t :=
  RegExp.seq [ RegExp.Bol; RegExp.Star Text.is_space; RegExp.Eol ].

(** [match[n]] of a successful match; the groups read by the extractor
    always take part in the match. *)
Definition group (n : nat) (m : RegExp.result) : string :=
  default EmptyString (RegExp.capture n (RegExp.groups m)).

(** The symbol that the three declaration branches of [buildSnapshot]
    build: its range is the span of the name on the declaration line. *)
Definition declared (uri : URI) (kind : CodeSymbolKind) (idName name line : string)
    (lineNumber : Z) (containerId : option string) : SymbolNodeLite :=
  let nameColumn := Text.indexOf line name + 1 in
  let range := Range lineNumber nameColumn lineNumber (nameColumn + Text.len name) in
  {| id := buildSymbolId uri idName lineNumber;
     name := name;
     kind := kind;
     sym_uri := uri;
     range := range;
     selectionRange := range;
     containerId := containerId;
     jsDocSummary := None;
     metrics := None |}.

(** One iteration of the loop over the lines: the symbols pushed so far
    and [currentClassId]. *)
Definition scanLine (uri : URI) (lineNumber : Z) (line : string)
    (acc : list SymbolNodeLite * option string) : list SymbolNodeLite * option string :=
  let '(symbols, currentClassId) := acc in
  match RegExp.exec classRe line with
  | Some classMatch =>
      let name := group 3 classMatch in
      let symbol := declared uri Class name name line lineNumber None in
      (symbols ++ [symbol], Some (id symbol))
  | None =>
      match RegExp.exec functionRe line with
      | Some functionMatch =>
          let name := group 3 functionMatch in
          let symbol := declared uri Function name name line lineNumber None in
          (symbols ++ [symbol], currentClassId)
      | None =>
          (* [methodMatch && currentClassId]: an id is never the empty
             string, so it is truthy whenever it is defined *)
          match RegExp.exec methodRe line, currentClassId with
          | Some methodMatch, Some classId =>
              let name := group 4 methodMatch in
              let symbol :=
                declared uri Method (name +:+ "@" +:+ classId) name line lineNumber
                  (Some classId) in
              (symbols ++ [symbol], currentClassId)
          | _, _ =>
              if RegExp.test blankRe line then (symbols, None)
              else (symbols, currentClassId)
          end
      end
  end.

(** [for (let i = 0; i < lines.length; i++)], with [lineNumber = i + 1]. *)
Fixpoint scanLines (uri : URI) (lineNumber : Z) (lines : list string)
    (acc : list SymbolNodeLite * option string) : list SymbolNodeLite * option string :=
  match lines with
  | [] => acc
  | line :: lines' => scanLines uri (lineNumber + 1) lines' (scanLine uri lineNumber line acc)
  end.

(** [a || b] on numbers, where [None] stands for [NaN]. *)
Definition number_or (a : option Z) (b : Z) : Z :=
  match a with
  | Some v => if v =? 0 then b else v
  | None => b
  end.

Definition fileSymbol (uri : URI) (lines : list string) : SymbolNodeLite :=
  {| id := buildSymbolId uri "<file>" 1;
     name := uri_basename uri;
     kind := File;
     sym_uri := uri;
     range :=
       Range 1 1 (Z.max 1 (Z.of_nat (length lines)))
         (number_or ((fun l => Text.len l + 1) <$> last lines) 1);
     selectionRange := Range 1 1 1 1;
     containerId := None;
     jsDocSummary := None;
     metrics := Some {| loc := Z.of_nat (length lines); complexity := None |} |}.

(** [now] is the reading of [Date.now()]. *)
Definition buildSnapshot (now : Z) (model : ITextModel) : outcome FileStructureSnapshot :=
  (let uri := uri model in
   let languageId := TextModel.getLanguageId model in
   let? version := TextModel.getVersionId model in
   let? text := TextModel.getValue model in
   let lines := Text.split_lines text in
   let '(symbols, _) := scanLines uri 1 lines ([], None) in
   Return
     {| snap_uri := uri;
        version := version;
        snap_languageId := languageId;
        symbols := fileSymbol uri lines :: symbols;
        createdAt := now |})%outcome.

Definition recomputeSnapshot (now : Z) (model : ITextModel) : M unit :=
  (Handler.try_catch
     (let! snapshot := Handler.lift (buildSnapshot now model) in
      let key := uri_toString (uri model) in
      run! Handler.modify (set_snapshots (fun m => <[key := snapshot]> m)) in
      Handler.fire (uri model))
     (fun error =>
        Handler.log "[CodeStructureService] Failed to compute snapshot"
          (uri_toString (uri model))))%handler.

Definition getSnapshot (s : state) (uri : URI) : option FileStructureSnapshot :=
  _snapshots s !! uri_toString uri.

Definition containsPosition (range : IRange) (position : Position) : bool :=
  if (lineNumber position <? startLineNumber range)
     || (endLineNumber range <? lineNumber position) then false
  else if (lineNumber position =? startLineNumber range)
          && (column position <? startColumn range) then false
  else if (lineNumber position =? endLineNumber range)
          && (endColumn range <? column position) then false
  else true.

(** The loop of [getSymbolAtPosition]. *)
Fixpoint firstContaining (symbols : list SymbolNodeLite) (position : Position)
    : option SymbolNodeLite :=
  match symbols with
  | [] => None
  | symbol :: symbols' =>
      if containsPosition (range symbol) position then Some symbol
      else firstContaining symbols' position
  end.

Definition getSymbolAtPosition (s : state) (uri : URI) (position : Position)
    : option SymbolNodeLite :=
  match getSnapshot s uri with
  | None => None
  | Some snapshot => firstContaining (symbols snapshot) position
  end.

(** The listener that [onModelAdded] registers on [model.onDidChangeContent];
    [scheduler] is the reference captured by the closure. *)
Definition onDidChangeContent (scheduler : nat) (model : ITextModel) : M unit :=
  if negb (isSupported model) then Handler.ret tt
  else Handler.modify (on_scheduler scheduler RunOnceScheduler.schedule).

(** The listener that [onModelAdded] registers on [model.onWillDispose]. *)
Definition onWillDispose (key : string) : M unit :=
  (run! Handler.modify (set_recomputeSchedulers (fun m => delete key m)) in
   Handler.modify (set_snapshots (fun m => delete key m)))%handler.

(** Returns the scheduler that the two listeners capture. *)
Definition onModelAdded (model : ITextModel) : M (option nat) :=
  (if negb (isSupported model) then Handler.ret None
   else
     let key := uri_toString (uri model) in
     let! s := Handler.get in
     let! scheduler :=
       match _recomputeSchedulers s !! key with
       | Some scheduler => Handler.ret scheduler
       | None =>
           let scheduler := length (schedulers s) in
           run! Handler.modify (set_schedulers (fun h => h ++ [RunOnceScheduler.create])) in
           run! Handler.modify (set_recomputeSchedulers (fun m => <[key := scheduler]> m)) in
           Handler.ret scheduler
       end in
     run! Handler.modify (on_scheduler scheduler RunOnceScheduler.schedule) in
     Handler.ret (Some scheduler))%handler.

Definition onModelRemoved (model : ITextModel) : M unit :=
  (let key := uri_toString (uri model) in
   let! s := Handler.get in
   run! match _recomputeSchedulers s !! key with
        | Some scheduler => Handler.modify (on_scheduler scheduler RunOnceScheduler.dispose)
        | None => Handler.ret tt
        end in
   Handler.modify (set_recomputeSchedulers (fun m => delete key m)))%handler.

(** The timeout of a scheduler elapses: the runner
    [() => this.recomputeSnapshot(model)] runs if the timer is pending. *)
Definition onTimeout (scheduler : nat) (now : Z) (model : ITextModel) : M unit :=
  (let! s := Handler.get in
   match schedulers s !! scheduler with
   | Some o =>
       if RunOnceScheduler.isScheduled o then
         run! Handler.modify (on_scheduler scheduler RunOnceScheduler.cancel) in
         recomputeSnapshot now model
       else Handler.ret tt
   | None => Handler.ret tt
   end)%handler.

End CodeStructureService.

(* ===================================================================== *)
(** ** JavaScript [Map]: insertion-ordered, keyed by strings *)
(* ===================================================================== *)

Module JsMap.

Definition t (V : Type) : Type := list (string * V).

Definition get {V} (m : t V) (k : string) : option V :=
  snd <$> List.find (fun p => String.eqb (fst p) k) m.

Definition has {V} (m : t V) (k : string) : bool :=
  existsb (fun p => String.eqb (fst p) k) m.

(** [m.set(k, v)]: an existing key keeps its place in the iteration
    order, a new key goes last. *)
Fixpoint set {V} (m : t V) (k : string) (v : V) : t V :=
  match m with
  | [] => [(k, v)]
  | (k', v') :: m' =>
      if String.eqb k' k then (k', v) :: m' else (k', v') :: set m' k v
  end.

Definition keys {V} (m : t V) : list string := List.map fst m.

End JsMap.

(* ===================================================================== *)
(** ** CodeGraphService (the in-memory call-graph service) *)
(* ===================================================================== *)

Module CodeGraphService.

Definition MAX_FILE_LENGTH_FOR_SCAN : Z := 200000.

Record FileGraphData := { fg_uri : URI; edges : list GraphEdge }.

(** The private fields, and the number of [GraphEdge] objects created
    so far, which names the next object. *)
Record state := {
  _fileGraphs : gmap string FileGraphData;
  _outgoingEdges : gmap string (list GraphEdge);
  _incomingEdges : gmap string (list GraphEdge);
  _symbolToFile : gmap string string;
  allocated : nat
}.

Definition initial : state :=
  {| _fileGraphs := ∅; _outgoingEdges := ∅; _incomingEdges := ∅;
     _symbolToFile := ∅; allocated := 0 |}.

Definition M := Handler.M state URI.

Definition set_fileGraphs (f : gmap string FileGraphData -> gmap string FileGraphData)
    (s : state) : state :=
  {| _fileGraphs := f (_fileGraphs s); _outgoingEdges := _outgoingEdges s;
     _incomingEdges := _incomingEdges s; _symbolToFile := _symbolToFile s;
     allocated := allocated s |}.

Definition set_outgoingEdges (f : gmap string (list GraphEdge) -> gmap string (list GraphEdge))
    (s : state) : state :=
  {| _fileGraphs := _fileGraphs s; _outgoingEdges := f (_outgoingEdges s);
     _incomingEdges := _incomingEdges s; _symbolToFile := _symbolToFile s;
     allocated := allocated s |}.

Definition set_incomingEdges (f : gmap string (list GraphEdge) -> gmap string (list GraphEdge))
    (s : state) : state :=
  {| _fileGraphs := _fileGraphs s; _outgoingEdges := _outgoingEdges s;
     _incomingEdges := f (_incomingEdges s); _symbolToFile := _symbolToFile s;
     allocated := allocated s |}.

Definition set_symbolToFile (f : gmap string string -> gmap string string) (s : state) : state :=
  {| _fileGraphs := _fileGraphs s; _outgoingEdges := _outgoingEdges s;
     _incomingEdges := _incomingEdges s; _symbolToFile := f (_symbolToFile s);
     allocated := allocated s |}.

Definition set_allocated (f : nat -> nat) (s : state) : state :=
  {| _fileGraphs := _fileGraphs s; _outgoingEdges := _outgoingEdges s;
     _incomingEdges := _incomingEdges s; _symbolToFile := _symbolToFile s;
     allocated := f (allocated s) |}.

Definition getCallees (s : state) (symbolId : string) : list GraphEdge :=
  default [] (_outgoingEdges s !! symbolId).

Definition getCallers (s : state) (symbolId : string) : list GraphEdge :=
  default [] (_incomingEdges s !! symbolId).

Definition getEdgesForFile (s : state) (uri : URI) : list GraphEdge :=
  default [] (edges <$> _fileGraphs s !! uri_toString uri).

Definition getExportedSymbols (structure : CodeStructureService.state) (uri : URI)
    : list SymbolNodeLite :=
  match CodeStructureService.getSnapshot structure uri with
  | None => []
  | Some snapshot =>
      List.filter
        (fun symbol =>
           negb (bool_decide (kind symbol = File))
           && match containerId symbol with
              | Some c => String.eqb c EmptyString   (* [!symbol.containerId] *)
              | None => true
              end)
        (symbols snapshot)
  end.

Definition getImportsOfFile (uri : URI) : list URI := [].

(** [e !== edge] *)
Definition not_same (edge e : GraphEdge) : bool :=
  negb (Nat.eqb (edge_ref e) (edge_ref edge)).

Definition addEdge (edge : GraphEdge) (s : state) : state :=
  let outgoing := default [] (_outgoingEdges s !! from edge) in
  let s := set_outgoingEdges (fun m => <[from edge := outgoing ++ [edge]]> m) s in
  let incoming := default [] (_incomingEdges s !! to edge) in
  set_incomingEdges (fun m => <[to edge := incoming ++ [edge]]> m) s.

Definition addEdges (edges : list GraphEdge) (s : state) : state :=
  fold_left (fun s edge => addEdge edge s) edges s.

Definition removeEdge (edge : GraphEdge) (s : state) : state :=
  let s :=
    match _outgoingEdges s !! from edge with
    | Some outgoing =>
        set_outgoingEdges (fun m => <[from edge := List.filter (not_same edge) outgoing]> m) s
    | None => s
    end in
  match _incomingEdges s !! to edge with
  | Some incoming =>
      set_incomingEdges (fun m => <[to edge := List.filter (not_same edge) incoming]> m) s
  | None => s
  end.

Definition removeEdges (edges : list GraphEdge) (s : state) : state :=
  fold_left (fun s edge => removeEdge edge s) edges s.

Fixpoint findContainingSymbol (symbols : list SymbolNodeLite) (position : Position)
    : option SymbolNodeLite :=
  match symbols with
  | [] => None
  | symbol :: symbols' =>
      let range := range symbol in
      if (lineNumber position <? startLineNumber range)
         || (endLineNumber range <? lineNumber position)
      then findContainingSymbol symbols' position
      else if (lineNumber position =? startLineNumber range)
              && (column position <? startColumn range)
      then findContainingSymbol symbols' position
      else if (lineNumber position =? endLineNumber range)
              && (endColumn range <? column position)
      then findContainingSymbol symbols' position
      else if negb (bool_decide (kind symbol = File)) then Some symbol
      else findContainingSymbol symbols' position
  end.

Definition is_callable (symbol : SymbolNodeLite) : bool :=
  bool_decide (kind symbol = Function) || bool_decide (kind symbol = Method).

(** The body of the first loop of [computeIntraFileCallEdges]. *)
Definition groupSymbol (symbolByName : JsMap.t (list SymbolNodeLite)) (symbol : SymbolNodeLite)
    : JsMap.t (list SymbolNodeLite) :=
  if is_callable symbol then
    let list := default [] (JsMap.get symbolByName (name symbol)) in
    JsMap.set symbolByName (name symbol) (list ++ [symbol])
  else symbolByName.

Definition groupByName (symbols : list SymbolNodeLite) : JsMap.t (list SymbolNodeLite) :=
  fold_left groupSymbol symbols [].

(** [new RegExp(`\\b${escapeRegExpCharacters(name)}\\s*\\(`, 'g')]: the
    escaped name matches itself, code unit by code unit. *)
Definition callRe (name : string) : RegExp.t :=
  RegExp.seq
    [ RegExp.WordBoundary; RegExp.Lit name; RegExp.Star Text.is_space; RegExp.Lit "(" ].

(** [`${fromSymbol.id}->${target.id}`] *)
Definition edgeKey (fromId toId : string) : string := fromId +:+ "->" +:+ toId.

(** The edges pushed so far and the keys seen so far. *)
Definition progress : Type := list GraphEdge * gset string.

(** The body of [for (const target of candidates)]; the object pushed
    after [n] others of this pass is object number [base + n]. *)
Definition linkCandidate (base : nat) (fromSymbol : SymbolNodeLite) (acc : progress)
    (target : SymbolNodeLite) : progress :=
  let key := edgeKey (id fromSymbol) (id target) in
  if bool_decide (key ∈ snd acc) then acc
  else
    let edge :=
      {| edge_ref := (base + length (fst acc))%nat;
         from := id fromSymbol; to := id target; edge_kind := Call |} in
    (fst acc ++ [edge], {[key]} ∪ snd acc).

Definition linkCandidates (base : nat) (fromSymbol : SymbolNodeLite)
    (candidates : list SymbolNodeLite) (acc : progress) : progress :=
  fold_left (linkCandidate base fromSymbol) candidates acc.

(** The body of the [while (true)] loop, for one match. *)
Definition linkOccurrence (base : nat) (model : ITextModel) (symbols : list SymbolNodeLite)
    (fileSymbol : option SymbolNodeLite) (candidates : list SymbolNodeLite)
    (acc : progress) (m : RegExp.result) : outcome progress :=
  (let offset := RegExp.index m in
   let? position := TextModel.getPositionAt model offset in
   match
     match findContainingSymbol symbols position with
     | Some symbol => Some symbol
     | None => fileSymbol
     end
   with
   | None => Return acc
   | Some fromSymbol => Return (linkCandidates base fromSymbol candidates acc)
   end)%outcome.

Fixpoint linkOccurrences (base : nat) (model : ITextModel) (symbols : list SymbolNodeLite)
    (fileSymbol : option SymbolNodeLite) (candidates : list SymbolNodeLite)
    (matches : list RegExp.result) (acc : progress) : outcome progress :=
  match matches with
  | [] => Return acc
  | m :: matches' =>
      (let? acc' := linkOccurrence base model symbols fileSymbol candidates acc m in
       linkOccurrences base model symbols fileSymbol candidates matches' acc')%outcome
  end.

(** [for (const [name, candidates] of symbolByName)] *)
Fixpoint linkNames (base : nat) (model : ITextModel) (text : string)
    (symbols : list SymbolNodeLite) (fileSymbol : option SymbolNodeLite)
    (symbolByName : JsMap.t (list SymbolNodeLite)) (acc : progress) : outcome progress :=
  match symbolByName with
  | [] => Return acc
  | (name, candidates) :: rest =>
      (let regex := callRe name in
       let? acc' :=
         linkOccurrences base model symbols fileSymbol candidates
           (RegExp.exec_all regex text) acc in
       linkNames base model text symbols fileSymbol rest acc')%outcome
  end.

(** [base] is the number of edge objects that exist before the call. *)
Definition computeIntraFileCallEdges (base : nat) (snapshot : FileStructureSnapshot)
    (model : ITextModel) : outcome (list GraphEdge) :=
  (let? text := TextModel.getValue model in
   let symbols := symbols snapshot in
   let fileSymbol := List.find (fun s => bool_decide (kind s = File)) symbols in
   let symbolByName := groupByName symbols in
   let? result := linkNames base model text symbols fileSymbol symbolByName ([], ∅) in
   Return (fst result))%outcome.

Definition rebuildForUri (structure : CodeStructureService.state) (modelService : IModelService)
    (uri : URI) : M unit :=
  (match CodeStructureService.getSnapshot structure uri with
   | None => Handler.ret tt
   | Some snapshot =>
       match getModel modelService uri with
       | None => Handler.ret tt
       | Some model =>
           let! valueLength := Handler.lift (TextModel.getValueLength model) in
           if MAX_FILE_LENGTH_FOR_SCAN <? valueLength then
             Handler.log "[CodeGraphService] Skipping graph rebuild for large file"
               (uri_toString uri)
           else
             Handler.try_catch
               (let fileKey := uri_toString uri in
                let! s := Handler.get in
                run! match _fileGraphs s !! fileKey with
                     | Some oldFileGraph => Handler.modify (removeEdges (edges oldFileGraph))
                     | None => Handler.ret tt
                     end in
                let! newEdges :=
                  Handler.lift (computeIntraFileCallEdges (allocated s) snapshot model) in
                run! Handler.modify (set_allocated (fun n => (n + length newEdges)%nat)) in
                run! Handler.modify
                       (set_fileGraphs
                          (fun m => <[fileKey := {| fg_uri := uri; edges := newEdges |}]> m)) in
                run! Handler.modify (addEdges newEdges) in
                run! Handler.for_each (symbols snapshot)
                       (fun symbol =>
                          Handler.modify
                            (set_symbolToFile (fun m => <[id symbol := fileKey]> m))) in
                Handler.fire uri)
               (fun error =>
                  Handler.log "[CodeGraphService] Failed to rebuild graph for"
                    (uri_toString uri))
       end
   end)%handler.

End CodeGraphService.

(* ===================================================================== *)
(** ** CodeHistoryService (the in-memory history service) *)
(* ===================================================================== *)

Module CodeHistoryService.

Record PerFileHistory := {
  h_uri : URI;
  events : list CodeHistoryEvent;
  lastSnapshot : option FileStructureSnapshot
}.

(** The private field, and the module variable [NEXT_EVENT_ID]. *)
Record state := {
  _perFile : gmap string PerFileHistory;
  NEXT_EVENT_ID : Z
}.

Definition initial : state := {| _perFile := ∅; NEXT_EVENT_ID := 1 |}.

Definition M := Handler.M state CodeHistoryEvent.

Definition set_perFile (f : gmap string PerFileHistory -> gmap string PerFileHistory)
    (s : state) : state :=
  {| _perFile := f (_perFile s); NEXT_EVENT_ID := NEXT_EVENT_ID s |}.

Definition set_NEXT_EVENT_ID (f : Z -> Z) (s : state) : state :=
  {| _perFile := _perFile s; NEXT_EVENT_ID := f (NEXT_EVENT_ID s) |}.

Definition getEventsForFile (s : state) (uri : URI) : list CodeHistoryEvent :=
  default [] (events <$> _perFile s !! uri_toString uri).

Definition getSnapshotAt (structure : CodeStructureService.state) (event : CodeHistoryEvent)
    : option FileStructureSnapshot :=
  CodeStructureService.getSnapshot structure (event_uri event).

(** The separator of the rename summary, as the source file encodes it. *)
Definition renameSeparator : string :=
  string_of_list_ascii
    (List.map ascii_of_N [195; 162; 226; 128; 160; 226; 128; 153]%N).

(** [clock n] is the reading of [Date.now()] in the call that takes the
    event number [n]; [n] is the value of [NEXT_EVENT_ID] before the
    call increments it. *)
Definition createEvent (clock : Z -> Z) (n : Z) (uri : URI) (symbolId : option string)
    (kind : HistoryEventKind) (summary : string) (snapshot : SnapshotRef) : CodeHistoryEvent :=
  {| event_id := Text.decimal n;
     event_uri := uri;
     symbolId := symbolId;
     event_kind := kind;
     timestamp := clock n;
     summary := summary;
     snapshot := snapshot |}.

(** [for (const symbol of snapshot.symbols) byId.set(symbol.id, { name: symbol.name })] *)
Definition byId (snapshot : FileStructureSnapshot) : JsMap.t string :=
  fold_left (fun m symbol => JsMap.set m (id symbol) (name symbol)) (symbols snapshot) [].

(** The events pushed so far and the current value of [NEXT_EVENT_ID]. *)
Definition progress : Type := list CodeHistoryEvent * Z.

Definition push (acc : progress) (mk : Z -> CodeHistoryEvent) : progress :=
  (fst acc ++ [mk (snd acc)], snd acc + 1).

Definition removals (clock : Z -> Z) (next : FileStructureSnapshot) (snapshotRef : SnapshotRef)
    (prevById nextById : JsMap.t string) (acc : progress) : progress :=
  fold_left
    (fun acc '(id, prevName) =>
       if negb (JsMap.has nextById id) then
         push acc (fun n =>
           createEvent clock n (snap_uri next) (Some id) SymbolRemoved
             ("Removed symbol " +:+ prevName) snapshotRef)
       else acc)
    prevById acc.

Definition additionsAndChanges (clock : Z -> Z) (next : FileStructureSnapshot)
    (snapshotRef : SnapshotRef) (prevById nextById : JsMap.t string) (acc : progress)
    : progress :=
  fold_left
    (fun acc '(id, nextName) =>
       match JsMap.get prevById id with
       | None =>
           push acc (fun n =>
             createEvent clock n (snap_uri next) (Some id) SymbolAdded
               ("Added symbol " +:+ nextName) snapshotRef)
       | Some prevName =>
           if negb (String.eqb prevName nextName) then
             push acc (fun n =>
               createEvent clock n (snap_uri next) (Some id) SymbolChanged
                 ("Renamed symbol " +:+ prevName +:+ " " +:+ renameSeparator +:+ " "
                  +:+ nextName) snapshotRef)
           else acc
       end)
    nextById acc.

(** Returns the events and the new value of [NEXT_EVENT_ID]. *)
Definition computeDiffEvents (clock : Z -> Z) (nextEventId : Z)
    (previous next : FileStructureSnapshot) : progress :=
  let prevById := byId previous in
  let nextById := byId next in
  let snapshotRef := {| ref_uri := snap_uri next; ref_version := version next |} in
  let acc := removals clock next snapshotRef prevById nextById ([], nextEventId) in
  additionsAndChanges clock next snapshotRef prevById nextById acc.

Definition update_history (key : string) (f : PerFileHistory -> PerFileHistory) : state -> state :=
  set_perFile (fun m => match m !! key with Some h => <[key := f h]> m | None => m end).

(** The body of [for (const event of events)] in [onSnapshotUpdated]. *)
Definition record (key : string) (event : CodeHistoryEvent) : M unit :=
  (run! Handler.modify
          (update_history key (fun h =>
             {| h_uri := h_uri h; events := events h ++ [event];
                lastSnapshot := lastSnapshot h |})) in
   Handler.fire event)%handler.

Definition onSnapshotUpdated (clock : Z -> Z) (structure : CodeStructureService.state)
    (modelService : IModelService) (uri : URI) : M unit :=
  (match getModel modelService uri with
   | None => Handler.ret tt
   | Some model =>
       match CodeStructureService.getSnapshot structure uri with
       | None => Handler.ret tt
       | Some snapshot =>
           Handler.try_catch
             (let key := uri_toString uri in
              let! s := Handler.get in
              let! history :=
                match _perFile s !! key with
                | Some history => Handler.ret history
                | None =>
                    let history := {| h_uri := uri; events := []; lastSnapshot := None |} in
                    run! Handler.modify (set_perFile (fun m => <[key := history]> m)) in
                    Handler.ret history
                end in
              let previousSnapshot := lastSnapshot history in
              run! Handler.modify
                     (update_history key (fun h =>
                        {| h_uri := h_uri h; events := events h;
                           lastSnapshot := Some snapshot |})) in
              match previousSnapshot with
              | None => Handler.ret tt
              | Some previousSnapshot =>
                  let! s := Handler.get in
                  let '(diff, nextEventId) :=
                    computeDiffEvents clock (NEXT_EVENT_ID s) previousSnapshot snapshot in
                  run! Handler.modify (set_NEXT_EVENT_ID (fun _ => nextEventId)) in
                  Handler.for_each diff (record key)
              end)
             (fun error =>
                Handler.log "[CodeHistoryService] Failed to record history for"
                  (uri_toString uri))
       end
   end)%handler.

Definition onModelRemoved (model : ITextModel) : M unit :=
  let key := uri_toString (uri model) in
  Handler.modify
    (update_history key (fun existing =>
       {| h_uri := h_uri existing; events := events existing; lastSnapshot := None |})).

End CodeHistoryService.

(* ===================================================================== *)
(** ** The three services together *)
(* ===================================================================== *)

(** The services are singletons wired by events: both the call-graph
    service and the history service listen to [onDidUpdateSnapshot]; the
    structure service and the history service listen to the model
    service's [onModelRemoved]; the call-graph service listens to nothing
    else. *)
Module Workbench.

Record state := {
  models : IModelService;
  structure : CodeStructureService.state;
  graph : CodeGraphService.state;
  history : CodeHistoryService.state
}.

Definition initial : state :=
  {| models := ∅;
     structure := CodeStructureService.initial;
     graph := CodeGraphService.initial;
     history := CodeHistoryService.initial |}.

(** Run a handler of one service; an exception that escapes a listener
    is swallowed by the emitter. *)
Definition after {S P A} (c : Handler.M S P A) (s : S) : S := snd (fst (c s)).
Definition trace {S P A} (c : Handler.M S P A) (s : S) : list (Effect P S) := snd (c s).

(** Deliver the [onDidUpdateSnapshot] events of a structure-service
    trace to the two listeners. *)
Definition deliver (clock : Z -> Z) (w : state) (t : list (Effect URI CodeStructureService.state))
    : state :=
  fold_left
    (fun w e =>
       match e with
       | Log _ _ => w
       | Fire uri visible =>
           {| models := models w;
              structure := structure w;
              graph := after (CodeGraphService.rebuildForUri visible (models w) uri) (graph w);
              history :=
                after (CodeHistoryService.onSnapshotUpdated clock visible (models w) uri)
                  (history w) |}
       end)
    t w.

(** A step of the structure service, then the reactions to what it fired. *)
Definition structure_step {A} (clock : Z -> Z) (c : CodeStructureService.M A) (w : state) : state :=
  let w' :=
    {| models := models w; structure := after c (structure w);
       graph := graph w; history := history w |} in
  deliver clock w' (trace c (structure w)).

(** The model service adds a document. *)
Definition addModel (clock : Z -> Z) (model : ITextModel) (w : state) : state :=
  let w' :=
    {| models := <[uri_toString (uri model) := model]> (models w);
       structure := structure w; graph := graph w; history := history w |} in
  structure_step clock (CodeStructureService.onModelAdded model) w'.

(** The content of a document changes: [model] is the buffer after the
    change, [scheduler] the reference held by the content listener. *)
Definition changeContent (clock : Z -> Z) (scheduler : nat) (model : ITextModel) (w : state)
    : state :=
  let w' :=
    {| models := <[uri_toString (uri model) := model]> (models w);
       structure := structure w; graph := graph w; history := history w |} in
  structure_step clock (CodeStructureService.onDidChangeContent scheduler model) w'.

(** The debounce timer of a document elapses. *)
Definition timeout (clock : Z -> Z) (now : Z) (model : ITextModel) (w : state) : state :=
  match CodeStructureService._recomputeSchedulers (structure w) !! uri_toString (uri model) with
  | Some scheduler =>
      structure_step clock (CodeStructureService.onTimeout scheduler now model) w
  | None => w
  end.

(** The model service removes a document: it forgets the model and
    fires [onModelRemoved]; the buffer then runs the remaining
    [onWillDispose] listeners. *)
Definition removeModel (clock : Z -> Z) (model : ITextModel) (w : state) : state :=
  let key := uri_toString (uri model) in
  let w1 :=
    {| models := delete key (models w);
       structure := after (CodeStructureService.onModelRemoved model) (structure w);
       graph := graph w;
       history := after (CodeHistoryService.onModelRemoved model) (history w) |} in
  structure_step clock (CodeStructureService.onWillDispose key) w1.

End Workbench.

(* ===================================================================== *)
(** ** Sample documents *)
(* ===================================================================== *)

Module Samples.

Definition nl : string := String Text.LF EmptyString.

Definition sampleUri : URI :=
  {| uri_toString := "file:///sample.ts"; uri_basename := "sample.ts" |}.

Definition document (versionId : Z) (text : string) : ITextModel :=
  {| uri := sampleUri; languageId := "typescript"; versionId := versionId;
     value := text; isDisposed := false |}.

Definition disposed (versionId : Z) (text : string) : ITextModel :=
  {| uri := sampleUri; languageId := "typescript"; versionId := versionId;
     value := text; isDisposed := true |}.

(** ["function a(){ b(); }\nfunction b(){}"] *)
Definition callsDocument : ITextModel :=
  document 1 ("function a(){ b(); }" +:+ nl +:+ "function b(){}").

(** ["class Foo {\n  bar() {}\n}"] *)
Definition classDocument : ITextModel :=
  document 1 ("class Foo {" +:+ nl +:+ "  bar() {}" +:+ nl +:+ "}").

(** ["function f(){}"]: the name also occurs inside the keyword. *)
Definition keywordDocument : ITextModel := document 1 "function f(){}".

(** The first sample after an edit: [a] renamed, [b] deleted, [c] added
    on line 3. *)
Definition editedDocument : ITextModel :=
  document 2 ("function a2(){ b(); }" +:+ nl +:+ nl +:+ "function c(){}").

(** A document of 200001 line feeds. *)
Fixpoint lineFeeds (n : nat) : string :=
  match n with
  | O => EmptyString
  | S n' => String Text.LF (lineFeeds n')
  end.

Definition largeDocument : ITextModel := document 1 (lineFeeds (Z.to_nat 200001)).

Definition clock (n : Z) : Z := 1000 + n.

(** The workbench after a document was opened and its first snapshot
    computed. *)
Definition opened (model : ITextModel) : Workbench.state :=
  Workbench.timeout clock 0 model (Workbench.addModel clock model Workbench.initial).

End Samples.

(* ===================================================================== *)
(** ** Vocabulary of the properties *)
(* ===================================================================== *)

(** A position is inside a range when it is neither before its start nor
    after its end; both end points belong to the range. *)
Definition inside (range : IRange) (position : Position) : Prop :=
  startLineNumber range <= lineNumber position <= endLineNumber range
  /\ (lineNumber position = startLineNumber range -> startColumn range <= column position)
  /\ (lineNumber position = endLineNumber range -> column position <= endColumn range).

Definition startOf (range : IRange) : Position :=
  {| lineNumber := startLineNumber range; column := startColumn range |}.

Definition endOf (range : IRange) : Position :=
  {| lineNumber := endLineNumber range; column := endColumn range |}.

(** A range is contained within another when both its end points are. *)
Definition within (inner outer : IRange) : Prop :=
  inside outer (startOf inner) /\ inside outer (endOf inner).

(** The containment invariant: every symbol other than the file symbol
    whose [containerId] names a symbol of the snapshot has its range
    within the range of that symbol. *)
Definition containment_invariant (snapshot : FileStructureSnapshot) : Prop :=
  forall symbol container,
    In symbol (symbols snapshot) ->
    In container (symbols snapshot) ->
    kind symbol <> File ->
    containerId symbol = Some (id container) ->
    within (range symbol) (range container).

(** A range that lies on one line. *)
Definition on_line (n : Z) (range : IRange) : Prop :=
  startLineNumber range = n /\ endLineNumber range = n.

(** What the loop over the lines maintains, before it reads line
    [lineNumber]: every symbol pushed so far lies on one earlier line;
    every container id was taken from a class pushed on an earlier line
    than the symbol that carries it; and [currentClassId], when defined,
    is the id of a class pushed so far. *)
Definition scan_invariant (lineNumber : Z) (acc : list SymbolNodeLite * option string) : Prop :=
  let '(symbols, currentClassId) := acc in
  (forall symbol, In symbol symbols ->
     exists n, 1 <= n < lineNumber /\ on_line n (range symbol))
  /\ (forall symbol classId,
        In symbol symbols -> containerId symbol = Some classId ->
        kind symbol = Method
        /\ exists container,
             In container symbols /\ id container = classId /\ kind container = Class
             /\ endLineNumber (range container) < startLineNumber (range symbol))
  /\ (forall classId,
        currentClassId = Some classId ->
        exists container,
          In container symbols /\ id container = classId /\ kind container = Class).

(** The ids of the symbols of a snapshot, in order. *)
Definition ids (snapshot : FileStructureSnapshot) : list string :=
  List.map id (symbols snapshot).

(** The name that a snapshot gives to an id: that of the last symbol that
    carries the id (of the only one, when ids are not repeated). *)
Definition nameOf (snapshot : FileStructureSnapshot) (i : string) : option string :=
  name <$> last (List.filter (fun symbol => String.eqb (id symbol) i) (symbols snapshot)).

(** What an event says, apart from its number and its time stamp. *)
Definition shape (e : CodeHistoryEvent) : HistoryEventKind * option string * SnapshotRef :=
  (event_kind e, symbolId e, snapshot e).

(** The number of events of a kind that refer to a symbol id. *)
Definition count_events (kind : HistoryEventKind) (i : string) (events : list CodeHistoryEvent)
    : nat :=
  length
    (List.filter
       (fun e => bool_decide (event_kind e = kind) && bool_decide (symbolId e = Some i))
       events).

(** [n] is one when [P] holds and zero when it does not. *)
Definition one_iff (P : Prop) (n : nat) : Prop :=
  (P -> n = 1%nat) /\ (~ P -> n = 0%nat).

(** The snapshot that the history service remembers for a file. *)
Definition remembered (s : CodeHistoryService.state) (uri : URI) : option FileStructureSnapshot :=
  match CodeHistoryService._perFile s !! uri_toString uri with
  | Some history => CodeHistoryService.lastSnapshot history
  | None => None
  end.

(** One step of the loop that fills an id map. *)
Definition byId_step (m : JsMap.t string) (symbol : SymbolNodeLite) : JsMap.t string :=
  JsMap.set m (id symbol) (name symbol).

(** The shapes of the events of a diff pass, as the two loops produce
    them from the two id maps. *)
Definition removedShapes (ref : SnapshotRef) (prevById nextById : JsMap.t string)
    : list (HistoryEventKind * option string * SnapshotRef) :=
  List.map (fun p => (SymbolRemoved, Some (fst p), ref))
    (List.filter (fun p => negb (JsMap.has nextById (fst p))) prevById).

Definition addedOrChangedShape (ref : SnapshotRef) (prevById : JsMap.t string)
    (p : string * string) : list (HistoryEventKind * option string * SnapshotRef) :=
  match JsMap.get prevById (fst p) with
  | None => [(SymbolAdded, Some (fst p), ref)]
  | Some prevName =>
      if negb (String.eqb prevName (snd p)) then [(SymbolChanged, Some (fst p), ref)] else []
  end.

Definition addedOrChangedShapes (ref : SnapshotRef) (prevById nextById : JsMap.t string)
    : list (HistoryEventKind * option string * SnapshotRef) :=
  flat_map (addedOrChangedShape ref prevById) nextById.

Definition count_shapes (kind : HistoryEventKind) (i : string)
    (l : list (HistoryEventKind * option string * SnapshotRef)) : nat :=
  length
    (List.filter
       (fun sh => bool_decide (fst (fst sh) = kind) && bool_decide (snd (fst sh) = Some i)) l).

(** The condition under which an entry of the next id map yields an event
    of a given kind. *)
Definition yields (kind0 : HistoryEventKind) (prevById : JsMap.t string) (p : string * string)
    : bool :=
  match kind0, JsMap.get prevById (fst p) with
  | SymbolAdded, None => true
  | SymbolChanged, Some prevName => negb (String.eqb prevName (snd p))
  | _, _ => false
  end.

(** What one diff pass emits, for a remembered snapshot and a new one:
    one removal for each id of the previous snapshot that the next one
    lacks, one addition for each id of the next snapshot that the
    previous one lacks, one change for each id of both whose name
    differs, and nothing else; the removals come first; every event is
    pinned to the next snapshot. *)
Definition is_diff (previous next : FileStructureSnapshot) (emitted : list CodeHistoryEvent)
    : Prop :=
  (forall i,
     one_iff (In i (ids previous) /\ ~ In i (ids next))
       (count_events SymbolRemoved i emitted))
  /\ (forall i,
        one_iff (In i (ids next) /\ ~ In i (ids previous))
          (count_events SymbolAdded i emitted))
  /\ (forall i,
        one_iff (In i (ids previous) /\ In i (ids next) /\ nameOf previous i <> nameOf next i)
          (count_events SymbolChanged i emitted))
  /\ Forall (fun e => exists i, symbolId e = Some i) emitted
  /\ (exists removed rest,
        emitted = removed ++ rest
        /\ Forall (fun e => event_kind e = SymbolRemoved) removed
        /\ Forall (fun e => event_kind e <> SymbolRemoved) rest)
  /\ Forall
       (fun e => snapshot e = {| ref_uri := snap_uri next; ref_version := version next |})
       emitted.

(** An edge object survives the removal of the objects [old] from the
    list kept for [sid] unless it is one of those filed under [sid];
    [select] is [from] for the callee index and [to] for the caller
    index. *)
Definition survives (select : GraphEdge -> string) (old : list GraphEdge) (sid : string)
    (e : GraphEdge) : bool :=
  forallb (fun d => negb (String.eqb (select d) sid && Nat.eqb (edge_ref e) (edge_ref d))) old.

(** The edge objects that the call-graph service holds for some file. *)
Definition recorded (s : CodeGraphService.state) (e : GraphEdge) : Prop :=
  exists key fileGraph,
    CodeGraphService._fileGraphs s !! key = Some fileGraph
    /\ In e (CodeGraphService.edges fileGraph).

(** The consistency of the call-graph state: the two indexes serve
    exactly the recorded edge objects, each under its source and its
    target; the objects recorded for a file are distinct, objects
    recorded for different files are different objects, and every
    recorded object was created before the next one to be created. *)
Definition consistent (s : CodeGraphService.state) : Prop :=
  (forall sid e, In e (CodeGraphService.getCallees s sid) <-> recorded s e /\ from e = sid)
  /\ (forall sid e, In e (CodeGraphService.getCallers s sid) <-> recorded s e /\ to e = sid)
  /\ (forall key fileGraph,
        CodeGraphService._fileGraphs s !! key = Some fileGraph ->
        NoDup (List.map edge_ref (CodeGraphService.edges fileGraph)))
  /\ (forall key key' fileGraph fileGraph' e e',
        CodeGraphService._fileGraphs s !! key = Some fileGraph ->
        CodeGraphService._fileGraphs s !! key' = Some fileGraph' ->
        In e (CodeGraphService.edges fileGraph) ->
        In e' (CodeGraphService.edges fileGraph') ->
        edge_ref e = edge_ref e' -> key = key')
  /\ (forall e, recorded s e -> (edge_ref e < CodeGraphService.allocated s)%nat).

(** What the loops of [computeIntraFileCallEdges] maintain: the objects
    pushed so far are numbered from [base] on; every key seen is the key
    of an edge pushed so far; and every edge pushed so far is a call
    between two symbols of the snapshot. *)
Definition linked (base : nat) (symbols : list SymbolNodeLite)
    (acc : CodeGraphService.progress) : Prop :=
  List.map edge_ref (fst acc) = seq base (length (fst acc))
  /\ (forall key, key ∈ snd acc ->
        exists e, In e (fst acc) /\ CodeGraphService.edgeKey (from e) (to e) = key)
  /\ (forall e, In e (fst acc) ->
        edge_kind e = Call
        /\ (exists a, In a symbols /\ from e = id a)
        /\ (exists b, In b symbols /\ to e = id b)).

(** The loops only ever push edges and add keys. *)
Definition extends (acc acc' : CodeGraphService.progress) : Prop :=
  (exists more, fst acc' = fst acc ++ more) /\ snd acc ⊆ snd acc'.

(** The symbol that an occurrence at [position] is attributed to. *)
Definition resolve (symbols : list SymbolNodeLite) (position : Position)
    : option SymbolNodeLite :=
  match CodeGraphService.findContainingSymbol symbols position with
  | Some symbol => Some symbol
  | None => List.find (fun s => bool_decide (kind s = File)) symbols
  end.

(** What the grouping loop maintains, for the symbols processed so far. *)
Definition grouped (processed : list SymbolNodeLite) (m : JsMap.t (list SymbolNodeLite))
    : Prop :=
  NoDup (JsMap.keys m)
  /\ (forall n candidates c,
        In (n, candidates) m -> In c candidates ->
        In c processed /\ CodeGraphService.is_callable c = true /\ name c = n)
  /\ (forall s,
        In s processed -> CodeGraphService.is_callable s = true ->
        exists candidates, In (name s, candidates) m /\ In s candidates).

(** Every edge that a query returns is an edge recorded for some file. *)
Definition serves_recorded (s : CodeGraphService.state) : Prop :=
  (forall sid e, In e (CodeGraphService.getCallees s sid) -> recorded s e)
  /\ (forall sid e, In e (CodeGraphService.getCallers s sid) -> recorded s e)
  /\ (forall u e, In e (CodeGraphService.getEdgesForFile s u) -> recorded s e).

(** A completed pass for [uri0], from state [s] to state [s'] with trace
    [t]: the edge set of the file is the one computed from the current
    snapshot; each index holds what it held without the edges of the
    prior edge set, followed by the new edges; the event is the only
    effect and carries the final state; and no query returns an edge
    object of the prior edge set any more. *)
Definition replaced_as_a_unit (structure : CodeStructureService.state)
    (modelService : IModelService) (uri0 : URI) (s s' : CodeGraphService.state)
    (t : list (Effect URI CodeGraphService.state)) : Prop :=
  exists snapshot model,
    CodeStructureService.getSnapshot structure uri0 = Some snapshot
    /\ getModel modelService uri0 = Some model
    /\ t = [Fire uri0 s']
    /\ CodeGraphService.computeIntraFileCallEdges (CodeGraphService.allocated s)
         snapshot model = Return (CodeGraphService.getEdgesForFile s' uri0)
    /\ (forall sid,
          CodeGraphService.getCallees s' sid =
            List.filter (survives from (CodeGraphService.getEdgesForFile s uri0) sid)
              (CodeGraphService.getCallees s sid)
            ++ List.filter (fun e => String.eqb (from e) sid)
                 (CodeGraphService.getEdgesForFile s' uri0))
    /\ (forall sid,
          CodeGraphService.getCallers s' sid =
            List.filter (survives to (CodeGraphService.getEdgesForFile s uri0) sid)
              (CodeGraphService.getCallers s sid)
            ++ List.filter (fun e => String.eqb (to e) sid)
                 (CodeGraphService.getEdgesForFile s' uri0))
    /\ (forall e,
          In e (CodeGraphService.getEdgesForFile s uri0) ->
          (forall u, ~ In e (CodeGraphService.getEdgesForFile s' u))
          /\ (forall sid, ~ In e (CodeGraphService.getCallees s' sid))
          /\ (forall sid, ~ In e (CodeGraphService.getCallers s' sid))).



(** The source, target and kind of an edge. *)
Definition ends (e : GraphEdge) : string * string * GraphEdgeKind :=
  (from e, to e, edge_kind e).

(** The states that the call-graph service reaches: it starts empty, and
    its state changes only in [rebuildForUri], the listener of
    [onDidUpdateSnapshot]. *)
Inductive reachable : CodeGraphService.state -> Prop :=
| reach_initial : reachable CodeGraphService.initial
| reach_rebuild s structure modelService uri0 :
    reachable s ->
    reachable
      (Workbench.after (CodeGraphService.rebuildForUri structure modelService uri0) s).

(* ===================================================================== *)
(** ** Vocabulary of the properties of the matcher *)
(* ===================================================================== *)

(** Every code unit of a string belongs to a class. *)
Fixpoint all_of (cls : ascii -> bool) (w : string) : bool :=
  match w with
  | EmptyString => true
  | String c w' => cls c && all_of cls w'
  end.

(** The cursor [cur'] is the one reached from [cur] by reading the text
    [w]. *)
Definition reads (w : string) (cur cur' : RegExp.cursor) : Prop :=
  RegExp.lit w cur Some = Some cur'.

(** A successful path of the matcher through an expression: from a
    cursor and the captures made so far to the cursor after the matched
    text and the captures made by then. *)
Inductive matches :
  RegExp.t -> RegExp.cursor -> RegExp.captures -> RegExp.cursor -> RegExp.captures -> Prop :=
| matches_Bol cur caps :
    RegExp.offset cur = 0%nat -> matches RegExp.Bol cur caps cur caps
| matches_Eol cur caps :
    RegExp.rest cur = EmptyString -> matches RegExp.Eol cur caps cur caps
| matches_WordBoundary cur caps :
    RegExp.at_word_boundary cur = true -> matches RegExp.WordBoundary cur caps cur caps
| matches_Lit s cur caps cur' :
    reads s cur cur' -> matches (RegExp.Lit s) cur caps cur' caps
| matches_Star cls w cur caps cur' :
    all_of cls w = true -> reads w cur cur' -> matches (RegExp.Star cls) cur caps cur' caps
| matches_Plus cls w cur caps cur' :
    w <> EmptyString -> all_of cls w = true -> reads w cur cur' ->
    matches (RegExp.Plus cls) cur caps cur' caps
| matches_Seq r1 r2 cur caps cur1 caps1 cur2 caps2 :
    matches r1 cur caps cur1 caps1 -> matches r2 cur1 caps1 cur2 caps2 ->
    matches (RegExp.Seq r1 r2) cur caps cur2 caps2
| matches_Opt_taken r cur caps cur' caps' :
    matches r cur caps cur' caps' -> matches (RegExp.Opt r) cur caps cur' caps'
| matches_Opt_skipped r cur caps :
    matches (RegExp.Opt r) cur caps cur caps
| matches_Alt_left r1 r2 cur caps cur' caps' :
    matches r1 cur caps cur' caps' -> matches (RegExp.Alt r1 r2) cur caps cur' caps'
| matches_Alt_right r1 r2 cur caps cur' caps' :
    matches r2 cur caps cur' caps' -> matches (RegExp.Alt r1 r2) cur caps cur' caps'
| matches_Group n r cur caps cur' caps' :
    matches r cur caps cur' caps' ->
    matches (RegExp.Group n r) cur caps cur'
      ((n, String.substring 0 (RegExp.offset cur' - RegExp.offset cur) (RegExp.rest cur))
         :: caps').

(** A well-formed identifier: one or more of [[A-Za-z0-9_$]]. *)
Definition is_identifier (name : string) : Prop :=
  name <> EmptyString /\ all_of Text.is_ident name = true.

(** The text [piece] is a piece of [subject]. *)
Definition occurs (piece subject : string) : Prop :=
  exists pre post, subject = pre +:+ piece +:+ post.

(** The text [name] stands at offset [i] of [line], and nowhere before. *)
Definition first_at (i : nat) (name line : string) : Prop :=
  String.substring i (String.length name) line = name
  /\ (i + String.length name <= String.length line)%nat
  /\ (forall j, (j < i)%nat -> String.substring j (String.length name) line <> name).

(** The line on which a symbol is declared. *)
Definition lineOf (symbol : SymbolNodeLite) : Z := startLineNumber (range symbol).

(** The name part of the id of a declared symbol: the name, followed for
    a method by the id of its class. *)
Definition idName (symbol : SymbolNodeLite) : string :=
  match containerId symbol with
  | Some classId => name symbol +:+ "@" +:+ classId
  | None => name symbol
  end.

(** A symbol declared by one of the lines [lines] of a document: its
    name is an identifier; its range and selection range are the span of
    the first occurrence of the name on its line; its id is built from
    its name and its line; a class or a function has no container, and
    the container of a method is the id of a class declared on an earlier
    line. *)
Definition declaration (uri0 : URI) (lines : list string) (symbol : SymbolNodeLite) : Prop :=
  exists (k i : nat) (line : string),
    lines !! k = Some line
    /\ is_identifier (name symbol)
    /\ first_at i (name symbol) line
    /\ range symbol =
         {| startLineNumber := Z.of_nat k + 1;
            startColumn := Z.of_nat i + 1;
            endLineNumber := Z.of_nat k + 1;
            endColumn := Z.of_nat i + 1 + Text.len (name symbol) |}
    /\ selectionRange symbol = range symbol
    /\ sym_uri symbol = uri0
    /\ id symbol = CodeStructureService.buildSymbolId uri0 (idName symbol) (Z.of_nat k + 1)
    /\ jsDocSummary symbol = None
    /\ metrics symbol = None
    /\ match kind symbol with
       | Class | Function => containerId symbol = None
       | Method =>
           exists (className : string) (j : nat),
             (j < k)%nat
             /\ is_identifier className
             /\ containerId symbol =
                  Some (CodeStructureService.buildSymbolId uri0 className (Z.of_nat j + 1))
       | _ => False
       end.

(** The symbols are listed in the order of their lines, no two on the
    same line. *)
Definition in_line_order (symbols : list SymbolNodeLite) : Prop :=
  forall (i j : nat) a b,
    (i < j)%nat -> symbols !! i = Some a -> symbols !! j = Some b -> lineOf a < lineOf b.

(** What the loop over the lines maintains, after it has read the lines
    [done]: the symbols pushed so far are declarations of these lines, in
    line order, and [currentClassId], when defined, is the id of a class
    declared on one of them. *)
Definition scanned (uri0 : URI) (done : list string)
    (acc : list SymbolNodeLite * option string) : Prop :=
  Forall (declaration uri0 done) (fst acc)
  /\ in_line_order (fst acc)
  /\ (forall classId,
        snd acc = Some classId ->
        exists (className : string) (j : nat),
          (j < length done)%nat
          /\ is_identifier className
          /\ classId = CodeStructureService.buildSymbolId uri0 className (Z.of_nat j + 1)).

(** Any code unit but [@], which separates the parts of a symbol id. *)
Definition not_at (c : ascii) : bool := negb (Ascii.eqb c "@").

(** The states that the structure service reaches: it starts empty, and
    its state changes only in its listeners and when a timer elapses. *)
Inductive indexed : CodeStructureService.state -> Prop :=
| indexed_initial : indexed CodeStructureService.initial
| indexed_onModelAdded model s :
    indexed s -> indexed (Workbench.after (CodeStructureService.onModelAdded model) s)
| indexed_onModelRemoved model s :
    indexed s -> indexed (Workbench.after (CodeStructureService.onModelRemoved model) s)
| indexed_onDidChangeContent scheduler model s :
    indexed s ->
    indexed (Workbench.after (CodeStructureService.onDidChangeContent scheduler model) s)
| indexed_onWillDispose key s :
    indexed s -> indexed (Workbench.after (CodeStructureService.onWillDispose key) s)
| indexed_onTimeout scheduler now model s :
    indexed s ->
    indexed (Workbench.after (CodeStructureService.onTimeout scheduler now model) s).

(** Every snapshot that the service holds was built from a text buffer
    of the file it is stored for. *)
Definition snapshots_built (s : CodeStructureService.state) : Prop :=
  forall key snapshot,
    CodeStructureService._snapshots s !! key = Some snapshot ->
    exists now model,
      CodeStructureService.buildSnapshot now model = Return snapshot
      /\ uri_toString (uri model) = key.

(* ===================================================================== *)
(** ** Vocabulary of the properties of the history *)
(* ===================================================================== *)

(** The events pushed so far carry the consecutive numbers from [n] on,
    each with the reading of the clock taken for its number, and
    [NEXT_EVENT_ID] is the number after the last. *)
Definition numbered (clock : Z -> Z) (n : Z) (acc : CodeHistoryService.progress) : Prop :=
  snd acc = n + Z.of_nat (length (fst acc))
  /\ forall (i : nat) e,
       fst acc !! i = Some e ->
       event_id e = Text.decimal (n + Z.of_nat i) /\ timestamp e = clock (n + Z.of_nat i).

(** The states that the history service reaches from a state [s]: its
    state changes only in its two listeners. *)
Inductive history_steps (s : CodeHistoryService.state) : CodeHistoryService.state -> Prop :=
| history_stays : history_steps s s
| history_onSnapshotUpdated clock structure modelService uri0 s' :
    history_steps s s' ->
    history_steps s
      (Workbench.after
         (CodeHistoryService.onSnapshotUpdated clock structure modelService uri0) s')
| history_onModelRemoved model s' :
    history_steps s s' ->
    history_steps s (Workbench.after (CodeHistoryService.onModelRemoved model) s').



(* ===================================================================== *)
(** ** Vocabulary of the properties of the edge set *)
(* ===================================================================== *)

(** The key under which a pass remembers an edge. *)
Definition keyOf (e : GraphEdge) : string := CodeGraphService.edgeKey (from e) (to e).

(** The edge [e] is a call found in the text: some occurrence of the
    call pattern of the name of a function or method [target] of the
    snapshot is attributed to the symbol [source], and the edge runs from
    [source] to [target]. *)
Definition call_found (text : string) (symbols : list SymbolNodeLite) (e : GraphEdge) : Prop :=
  edge_kind e = Call
  /\ exists source target m,
       In target symbols
       /\ CodeGraphService.is_callable target = true
       /\ In m (RegExp.exec_all (CodeGraphService.callRe (name target)) text)
       /\ resolve symbols (TextModel.position_from text (RegExp.index m) 1 1) = Some source
       /\ from e = id source
       /\ to e = id target.

(** What the loops of [computeIntraFileCallEdges] maintain beside
    [linked]: no two edges pushed so far have the same key, the key of
    every edge pushed so far has been seen, and every edge pushed so far
    is a call found in the text. *)
Definition justified (text : string) (symbols : list SymbolNodeLite)
    (acc : CodeGraphService.progress) : Prop :=
  NoDup (List.map keyOf (fst acc))
  /\ (forall e, In e (fst acc) -> keyOf e ∈ snd acc)
  /\ (forall e, In e (fst acc) -> call_found text symbols e).



(* ===================================================================== *)
(** ** The graph commands (registered with the [CommandsRegistry]) *)
(* ===================================================================== *)

Module Commands.

(** Modelled from the spec: the editor service and the notification
    service are user-interface collaborators outside the sources.  The
    active code editor is observed through the file of its model and
    the position of its cursor ([None] when there is no active code
    editor, or it has no model or no position); a notification is
    observed through its message. *)
Definition ActiveEditor : Type := option (URI * Position).

Record ActiveSymbol := {
  active_uri : URI;
  active_position : Position;
  active_symbolId : string
}.

Definition getActiveSymbol (editor : ActiveEditor) (structure : CodeStructureService.state)
    : option ActiveSymbol :=
  match editor with
  | None => None
  | Some (uri, position) =>
      match CodeStructureService.getSymbolAtPosition structure uri position with
      | None => None
      | Some symbol =>
          Some {| active_uri := uri; active_position := position;
                  active_symbolId := id symbol |}
      end
  end.

(** The three local variables of the loop of [codeGraph.deletionImpact]. *)
Record search := {
  visited : gset string;
  queue : list string;
  impacted : gset string
}.

(** The body of [for (const edge of graphService.getCallers(current))]. *)
Definition enqueueCaller (st : search) (edge : GraphEdge) : search :=
  if bool_decide (from edge ∈ impacted st) then st
  else
    {| visited := visited st;
       queue := queue st ++ [from edge];
       impacted := {[from edge]} ∪ impacted st |}.

(** [while (queue.length) { ... }]; [fuel] bounds the number of
    iterations. *)
Fixpoint impactLoop (fuel : nat) (graph : CodeGraphService.state) (st : search)
    : option search :=
  match fuel with
  | O => None
  | S fuel' =>
      match queue st with
      | [] => Some st
      | current :: rest =>
          if bool_decide (current ∈ visited st) then
            impactLoop fuel' graph
              {| visited := visited st; queue := rest; impacted := impacted st |}
          else
            impactLoop fuel' graph
              (fold_left enqueueCaller (CodeGraphService.getCallers graph current)
                 {| visited := {[current]} ∪ visited st;
                    queue := rest;
                    impacted := impacted st |})
      end
  end.

Definition start (symbolId : string) : search :=
  {| visited := ∅; queue := [symbolId]; impacted := ∅ |}.

(** The message of the notification of [codeGraph.deletionImpact];
    [None] when the loop has not ended within [fuel] iterations. *)
Definition deletionImpact (fuel : nat) (editor : ActiveEditor)
    (structure : CodeStructureService.state) (graph : CodeGraphService.state)
    : option string :=
  match getActiveSymbol editor structure with
  | None => Some "No symbol found at cursor to analyse deletion impact."
  | Some active =>
      match impactLoop fuel graph (start (active_symbolId active)) with
      | None => None
      | Some st =>
          let impactedCount := Z.of_nat (size (impacted st)) in
          Some
            (if impactedCount =? 0
             then "No direct impact detected from deleting this symbol in the current graph."
             else "Potentially impacted symbols if deleted: " +:+ Text.decimal impactedCount)
      end
  end.

(** The message of the notification of [codeGraph.explainSymbol];
    [fsPath] renders the location of a file. *)
Definition explainSymbol (fsPath : URI -> string) (editor : ActiveEditor)
    (structure : CodeStructureService.state) (graph : CodeGraphService.state) : string :=
  match getActiveSymbol editor structure with
  | None => "No symbol found at cursor to explain."
  | Some active =>
      let snapshot := CodeStructureService.getSnapshot structure (active_uri active) in
      let symbol :=
        match snapshot with
        | Some snapshot =>
            List.find (fun s => String.eqb (id s) (active_symbolId active)) (symbols snapshot)
        | None => None
        end in
      let callers := CodeGraphService.getCallers graph (active_symbolId active) in
      let callees := CodeGraphService.getCallees graph (active_symbolId active) in
      let callerCount := Z.of_nat (length callers) in
      let calleeCount := Z.of_nat (length callees) in
      let messageParts :=
        match symbol with
        | Some symbol =>
            [ "Symbol: " +:+ name symbol; "Location: " +:+ fsPath (sym_uri symbol) ]
        | None => []
        end
        ++ [ "Direct callers: " +:+ Text.decimal callerCount;
             "Direct callees: " +:+ Text.decimal calleeCount ] in
      String.concat Samples.nl messageParts
  end.

End Commands.

(** A symbol is hit by the deletion of [symbolId] when it calls that
    symbol or a symbol that is hit: every edge to one of them comes from
    a symbol that is hit. *)
Inductive hit (graph : CodeGraphService.state) (symbolId : string) : string -> Prop :=
| hit_caller e :
    In e (CodeGraphService.getCallers graph symbolId) -> hit graph symbolId (from e)
| hit_further x e :
    hit graph symbolId x ->
    In e (CodeGraphService.getCallers graph x) -> hit graph symbolId (from e).

(** Every symbol that any edge of the caller index comes from. *)
Definition callers_of_all (graph : CodeGraphService.state) : gset string :=
  list_to_set
    (concat (List.map (fun p => List.map from (snd p))
               (map_to_list (CodeGraphService._incomingEdges graph)))).

(** A number of iterations within which the loop of the deletion impact
    ends. *)
Definition impactFuel (graph : CodeGraphService.state) : nat :=
  S (S (size (callers_of_all graph))).

(** What the loop maintains: every impacted symbol is hit and is a
    source of the caller index; the symbols still in the queue are the
    start or impacted; every caller of a visited symbol is impacted;
    and the start and every impacted symbol is visited or still in the
    queue. *)
Definition searching (graph : CodeGraphService.state) (symbolId : string)
    (st : Commands.search) : Prop :=
  (forall x, x ∈ Commands.impacted st -> hit graph symbolId x)
  /\ Commands.impacted st ⊆ callers_of_all graph
  /\ (forall x, In x (Commands.queue st) -> x = symbolId \/ x ∈ Commands.impacted st)
  /\ (forall v e,
        v ∈ Commands.visited st ->
        In e (CodeGraphService.getCallers graph v) -> from e ∈ Commands.impacted st)
  /\ (forall x,
        x = symbolId \/ x ∈ Commands.impacted st ->
        x ∈ Commands.visited st \/ In x (Commands.queue st)).

(** The states that the workbench reaches: the model service adds,
    changes and removes documents, and timers elapse. *)
Inductive running : Workbench.state -> Prop :=
| running_initial : running Workbench.initial
| running_addModel clock model w :
    running w -> running (Workbench.addModel clock model w)
| running_changeContent clock scheduler model w :
    running w -> running (Workbench.changeContent clock scheduler model w)
| running_timeout clock now model w :
    running w -> running (Workbench.timeout clock now model w)
| running_removeModel clock model w :
    running w -> running (Workbench.removeModel clock model w).

(** Every edge that the call-graph service holds leads to a declared
    symbol: a class, a function or a method of some document. *)
Definition targets_declared (g : CodeGraphService.state) : Prop :=
  forall e,
    recorded g e ->
    exists uri0 lines target, declaration uri0 lines target /\ to e = id target.

(** Every snapshot that the listeners of a fired event see was built
    from a text buffer. *)
Definition fires_built (t : list (Effect URI CodeStructureService.state)) : Prop :=
  Forall (fun e => match e with
                   | Fire _ visible => snapshots_built visible
                   | Log _ _ => True
                   end) t.

(** The last code unit of a string. *)
Fixpoint last_char (s : string) : option ascii :=
  match s with
  | EmptyString => None
  | String c EmptyString => Some c
  | String _ s' => last_char s'
  end.

(** The code units of a decimal rendering: digits and the minus sign. *)
Definition is_decimal_char (c : ascii) : bool :=
  Text.in_range "0" "9" c || Ascii.eqb c "-".

(* ===================================================================== *)
(** ** Vocabulary of the properties of the timers *)
(* ===================================================================== *)

(** Every scheduler that the service keeps for a file is one of the
    scheduler objects created so far. *)
Definition schedulers_valid (s : CodeStructureService.state) : Prop :=
  forall key scheduler,
    CodeStructureService._recomputeSchedulers s !! key = Some scheduler ->
    (scheduler < length (CodeStructureService.schedulers s))%nat.

(** The timer of a scheduler is pending. *)
Definition pending (s : CodeStructureService.state) (scheduler : nat) : Prop :=
  exists o,
    CodeStructureService.schedulers s !! scheduler = Some o
    /\ RunOnceScheduler.isScheduled o = true.

(** The state after a burst of content changes, each delivered to the
    listener that holds [scheduler]; [edits] are the states of the
    buffer after each change. *)
Definition afterChanges (scheduler : nat) (edits : list ITextModel)
    (s : CodeStructureService.state) : CodeStructureService.state :=
  fold_left
    (fun s edit => Workbench.after (CodeStructureService.onDidChangeContent scheduler edit) s)
    edits s.

(* ===================================================================== *)
(** ** The timeline provider (codeHistoryTimeline.ts) *)
(* ===================================================================== *)

Module CodeHistoryTimeline.





End CodeHistoryTimeline.

(* ===================================================================== *)
(** ** Vocabulary of the properties of the current class *)
(* ===================================================================== *)

(** The class with id [classId] is the class that is open at line index
    [k] of [lines]: it is declared by a line above, and no line between
    that line and line [k] is blank or declares another class. *)
Definition open_class (uri0 : URI) (lines : list string) (k : nat) (classId : string) : Prop :=
  exists (j : nat) (line : string) (classMatch : RegExp.result),
    (j < k)%nat
    /\ lines !! j = Some line
    /\ RegExp.exec CodeStructureService.classRe line = Some classMatch
    /\ classId =
         CodeStructureService.buildSymbolId uri0 (CodeStructureService.group 3 classMatch)
           (Z.of_nat j + 1)
    /\ forall (l : nat) (between : string),
         (j < l < k)%nat ->
         lines !! l = Some between ->
         RegExp.test CodeStructureService.blankRe between = false
         /\ RegExp.exec CodeStructureService.classRe between = None.

(** What the loop over the lines maintains about [currentClassId] and
    the containers of the methods pushed so far. *)
Definition tracking (uri0 : URI) (done : list string)
    (acc : list SymbolNodeLite * option string) : Prop :=
  (forall symbol classId,
     In symbol (fst acc) -> containerId symbol = Some classId ->
     exists k : nat,
       lineOf symbol = Z.of_nat k + 1 /\ (k < length done)%nat
       /\ open_class uri0 done k classId)
  /\ (forall classId,
        snd acc = Some classId -> open_class uri0 done (length done) classId).

(** Every line read so far that declares a class or, failing that, a
    function has its symbol among the symbols pushed so far. *)
Definition all_indexed (uri0 : URI) (done : list string) (symbols0 : list SymbolNodeLite)
    : Prop :=
  forall (k : nat) (line : string),
    done !! k = Some line ->
    match RegExp.exec CodeStructureService.classRe line with
    | Some classMatch =>
        In (CodeStructureService.declared uri0 Class
              (CodeStructureService.group 3 classMatch)
              (CodeStructureService.group 3 classMatch) line (Z.of_nat k + 1) None)
           symbols0
    | None =>
        match RegExp.exec CodeStructureService.functionRe line with
        | Some functionMatch =>
            In (CodeStructureService.declared uri0 Function
                  (CodeStructureService.group 3 functionMatch)
                  (CodeStructureService.group 3 functionMatch) line (Z.of_nat k + 1) None)
               symbols0
        | None => True
        end
    end.

(** Every recorded event is filed under the file it is about: its uri
    and the uri of its snapshot reference are that file, and it names a
    symbol. *)
Definition events_filed (h : CodeHistoryService.state) : Prop :=
  forall key hist e,
    CodeHistoryService._perFile h !! key = Some hist ->
    In e (CodeHistoryService.events hist) ->
    uri_toString (event_uri e) = key
    /\ ref_uri (snapshot e) = event_uri e
    /\ exists i, symbolId e = Some i.

(* ===================================================================== *)
(** * Proofs *)
(* ===================================================================== *)

(* ===================================================================== *)
(** ** The embedding on concrete inputs *)
(* ===================================================================== *)

Section Checks.

Let CR := String Text.CR EmptyString.
Let LF := String Text.LF EmptyString.

Example split_lines_mixed :
  Text.split_lines ("a" +:+ CR +:+ LF +:+ "b" +:+ CR +:+ "c" +:+ LF)
  = ["a"; "b"; "c"; EmptyString].
Proof. reflexivity. Qed.

Example split_lines_empty : Text.split_lines EmptyString = [EmptyString].
Proof. reflexivity. Qed.

Example indexOf_first_occurrence : Text.indexOf "function f(){}" "f" = 0.
Proof. reflexivity. Qed.

Example decimal_line_number : Text.decimal 12 = "12".
Proof. reflexivity. Qed.

Example class_with_modifiers :
  CodeStructureService.group 3
    <$> RegExp.exec CodeStructureService.classRe "export abstract class Foo extends Bar {"
  = Some "Foo".
Proof. reflexivity. Qed.

Example class_needs_a_name :
  RegExp.exec CodeStructureService.classRe "class {" = None.
Proof. reflexivity. Qed.

Example function_without_parenthesis :
  CodeStructureService.group 3
    <$> RegExp.exec CodeStructureService.functionRe "  export async function load<T>(x)"
  = Some "load".
Proof. reflexivity. Qed.

Example generator_is_not_a_function :
  RegExp.exec CodeStructureService.functionRe "function* gen() {}" = None.
Proof. reflexivity. Qed.

Example method_with_modifiers :
  CodeStructureService.group 4
    <$> RegExp.exec CodeStructureService.methodRe "  private static async run (x) {"
  = Some "run".
Proof. reflexivity. Qed.

(** The optional modifier gives back what it took when the rest of the
    pattern cannot match after it. *)
Example method_named_like_a_modifier :
  CodeStructureService.group 4
    <$> RegExp.exec CodeStructureService.methodRe "  public (x) {}"
  = Some "public".
Proof. reflexivity. Qed.

Example blank_line : RegExp.test CodeStructureService.blankRe "   " = true.
Proof. reflexivity. Qed.

Example closing_brace_is_not_blank : RegExp.test CodeStructureService.blankRe "}" = false.
Proof. reflexivity. Qed.

Example call_occurrences :
  List.map RegExp.index
    (RegExp.exec_all (CodeGraphService.callRe "b") (value Samples.callsDocument))
  = [14%nat; 30%nat].
Proof. reflexivity. Qed.

(** A call pattern matches whole identifiers only. *)
Example call_of_a_longer_name :
  RegExp.exec_all (CodeGraphService.callRe "b") "ab(); b (); b2()" <> []
  /\ List.map RegExp.index (RegExp.exec_all (CodeGraphService.callRe "b") "ab(); b (); b2()")
     = [6%nat].
Proof. split; [discriminate|reflexivity]. Qed.

(** No word boundary precedes a name that starts with a dollar sign
    after a space. *)
Example call_of_a_dollar_name :
  RegExp.exec_all (CodeGraphService.callRe "$x") "function $x(){}" = [].
Proof. reflexivity. Qed.

Example position_of_the_call :
  TextModel.position_from (value Samples.callsDocument) 14 1 1
  = {| lineNumber := 1; column := 15 |}.
Proof. reflexivity. Qed.

Example position_on_the_second_line :
  TextModel.position_from (value Samples.callsDocument) 30 1 1
  = {| lineNumber := 2; column := 10 |}.
Proof. reflexivity. Qed.

Example class_document_symbols :
  (fun snapshot => List.map (fun s => (name s, kind s, containerId s)) (symbols snapshot))
    <$> match CodeStructureService.buildSnapshot 0 Samples.classDocument with
        | Return snapshot => Some snapshot
        | Throw _ => None
        end
  = Some [ ("sample.ts", File, None);
           ("Foo", Class, None);
           ("bar", Method, Some "file:///sample.ts::Foo@1") ].
Proof. reflexivity. Qed.

Example blank_line_leaves_the_class :
  (fun snapshot => List.map (fun s => (name s, kind s)) (symbols snapshot))
    <$> match CodeStructureService.buildSnapshot 0
                (Samples.document 1 ("class Foo {" +:+ LF +:+ LF +:+ "  bar() {}" +:+ LF +:+ "}"))
        with
        | Return snapshot => Some snapshot
        | Throw _ => None
        end
  = Some [ ("sample.ts", File); ("Foo", Class) ].
Proof. reflexivity. Qed.

End Checks.

(* ===================================================================== *)
(** ** Facts about the handler monad *)
(* ===================================================================== *)

Section HandlerFacts.

Context {S P : Type}.

Lemma fired_app (t1 t2 : list (Effect P S)) : fired (t1 ++ t2) = fired t1 ++ fired t2.
Proof. unfold fired. apply flat_map_app. Qed.

Lemma logged_app (t1 t2 : list (Effect P S)) : logged (t1 ++ t2) = logged t1 ++ logged t2.
Proof. unfold logged. apply flat_map_app. Qed.

End HandlerFacts.

(* ===================================================================== *)
(** ** Ranges and positions *)
(* ===================================================================== *)

Lemma containsPosition_inside range position :
  CodeStructureService.containsPosition range position = true <-> inside range position.
Proof.
  unfold CodeStructureService.containsPosition, inside.
  destruct (lineNumber position <? startLineNumber range) eqn:E1;
  destruct (endLineNumber range <? lineNumber position) eqn:E2;
  destruct (lineNumber position =? startLineNumber range) eqn:E3;
  destruct (column position <? startColumn range) eqn:E4;
  destruct (lineNumber position =? endLineNumber range) eqn:E5;
  destruct (endColumn range <? column position) eqn:E6;
  simpl; split; intros H; try discriminate; try reflexivity; lia.
Qed.

Lemma containsPosition_outside range position :
  CodeStructureService.containsPosition range position = false <-> ~ inside range position.
Proof.
  rewrite <- containsPosition_inside.
  destruct (CodeStructureService.containsPosition range position); split; congruence.
Qed.

Lemma Range_ordered sl sc el ec :
  sl < el \/ (sl = el /\ sc <= ec) ->
  Range sl sc el ec =
    {| startLineNumber := sl; startColumn := sc; endLineNumber := el; endColumn := ec |}.
Proof.
  intros H. unfold Range.
  destruct (el <? sl) eqn:E1; destruct (sl =? el) eqn:E2; destruct (ec <? sc) eqn:E3;
    simpl; try reflexivity; lia.
Qed.

(* ===================================================================== *)
(** ** The structure service: extraction never fails on a live buffer *)
(* ===================================================================== *)

Lemma split_lines_not_nil text : Text.split_lines text <> [].
Proof.
  destruct text as [|c text]; simpl; [discriminate|].
  destruct (Ascii.eqb c Text.CR).
  - destruct text as [|c' text]; [discriminate|].
    destruct (Ascii.eqb c' Text.LF); discriminate.
  - destruct (Ascii.eqb c Text.LF); [discriminate|].
    destruct (Text.split_lines text); discriminate.
Qed.

Lemma len_nonneg s : 0 <= Text.len s.
Proof. unfold Text.len. lia. Qed.

Lemma buildSnapshot_live now model :
  isDisposed model = false ->
  CodeStructureService.buildSnapshot now model =
    Return
      {| snap_uri := uri model;
         version := versionId model;
         snap_languageId := languageId model;
         symbols :=
           CodeStructureService.fileSymbol (uri model) (Text.split_lines (value model))
           :: fst (CodeStructureService.scanLines (uri model) 1
                     (Text.split_lines (value model)) ([], None));
         createdAt := now |}.
Proof.
  intros Hlive. unfold CodeStructureService.buildSnapshot, TextModel.getVersionId,
    TextModel.getValue, TextModel.assertNotDisposed, TextModel.getLanguageId.
  rewrite Hlive. simpl.
  destruct (CodeStructureService.scanLines _ _ _ _) as [symbols current]. reflexivity.
Qed.

Lemma buildSnapshot_disposed now model :
  isDisposed model = true ->
  CodeStructureService.buildSnapshot now model = Throw "Model is disposed!".
Proof.
  intros Hdisposed. unfold CodeStructureService.buildSnapshot, TextModel.getVersionId,
    TextModel.assertNotDisposed.
  rewrite Hdisposed. reflexivity.
Qed.

Lemma recomputeSnapshot_returned now model s snapshot :
  CodeStructureService.buildSnapshot now model = Return snapshot ->
  CodeStructureService.recomputeSnapshot now model s =
    let s' := CodeStructureService.set_snapshots
                (fun m => <[uri_toString (uri model) := snapshot]> m) s in
    (Return tt, s', [Fire (uri model) s']).
Proof.
  intros Hbuild. unfold CodeStructureService.recomputeSnapshot, Handler.try_catch,
    Handler.bind, Handler.lift, Handler.modify, Handler.fire.
  rewrite Hbuild. reflexivity.
Qed.

Lemma recomputeSnapshot_thrown now model s e :
  CodeStructureService.buildSnapshot now model = Throw e ->
  CodeStructureService.recomputeSnapshot now model s =
    (Return tt, s,
     [Log "[CodeStructureService] Failed to compute snapshot" (uri_toString (uri model))]).
Proof.
  intros Hbuild. unfold CodeStructureService.recomputeSnapshot, Handler.try_catch,
    Handler.bind, Handler.lift, Handler.log.
  rewrite Hbuild. reflexivity.
Qed.

(* ===================================================================== *)
(** ** The structure service: symbol lookup by position *)
(* ===================================================================== *)

Lemma firstContaining_spec symbols position :
  match CodeStructureService.firstContaining symbols position with
  | Some symbol =>
      exists before after,
        symbols = before ++ symbol :: after
        /\ Forall (fun other => ~ inside (range other) position) before
        /\ inside (range symbol) position
  | None => Forall (fun other => ~ inside (range other) position) symbols
  end.
Proof.
  induction symbols as [|symbol symbols IH]; simpl.
  - constructor.
  - destruct (CodeStructureService.containsPosition (range symbol) position) eqn:E.
    + exists [], symbols. split; [reflexivity|]. split; [constructor|].
      now apply containsPosition_inside.
    + apply containsPosition_outside in E.
      destruct (CodeStructureService.firstContaining symbols position) as [found|].
      * destruct IH as (before & after & -> & Hbefore & Hin).
        exists (symbol :: before), after. split; [reflexivity|]. split; [|assumption].
        constructor; assumption.
      * constructor; assumption.
Qed.

(** C7.  [getSymbolAtPosition] returns the first symbol, in the order of
    the snapshot, whose range contains the position; a position on the
    first line of a range must be at or after its start column, one on
    the last line at or before its end column.  It returns nothing when
    the file has no snapshot or no range contains the position. *)
Theorem getSymbolAtPosition_first_containing
    (s : CodeStructureService.state) (uri : URI) (position : Position) :
  match CodeStructureService.getSnapshot s uri with
  | None => CodeStructureService.getSymbolAtPosition s uri position = None
  | Some snapshot =>
      match CodeStructureService.getSymbolAtPosition s uri position with
      | Some symbol =>
          exists before after,
            symbols snapshot = before ++ symbol :: after
            /\ Forall (fun other => ~ inside (range other) position) before
            /\ inside (range symbol) position
      | None => Forall (fun other => ~ inside (range other) position) (symbols snapshot)
      end
  end.
Proof.
  unfold CodeStructureService.getSymbolAtPosition.
  destruct (CodeStructureService.getSnapshot s uri) as [snapshot|]; [|reflexivity].
  apply firstContaining_spec.
Qed.

Lemma fileSymbol_range uri text :
  range (CodeStructureService.fileSymbol uri (Text.split_lines text)) = TextModel.fullRange text.
Proof.
  unfold CodeStructureService.fileSymbol, TextModel.fullRange. simpl.
  pose proof (split_lines_not_nil text) as Hne.
  destruct (Text.split_lines text) as [|line lines] eqn:E; [congruence|].
  clear Hne.
  assert (Hlast : exists l, last (line :: lines) = Some l).
  { destruct (last (line :: lines)) eqn:El; [eauto|].
    apply last_None in El. discriminate. }
  destruct Hlast as [l Hl]. rewrite Hl. simpl fmap. simpl default.
  unfold CodeStructureService.number_or.
  pose proof (len_nonneg l).
  destruct (Text.len l + 1 =? 0) eqn:E0; [apply Z.eqb_eq in E0; lia|].
  simpl length. rewrite Range_ordered.
  - f_equal. lia.
  - lia.
Qed.

(** C9.  In a snapshot computed by the structure service the file symbol
    comes first and spans the whole document, so for every position
    within the full range of the document [getSymbolAtPosition] returns
    the symbol of kind [File], never a class, function or method. *)
Theorem getSymbolAtPosition_returns_file
    (now : Z) (model : ITextModel) (s : CodeStructureService.state) (position : Position) :
  isDisposed model = false ->
  inside (TextModel.fullRange (value model)) position ->
  let s' := Workbench.after (CodeStructureService.recomputeSnapshot now model) s in
  exists snapshot symbol others,
    CodeStructureService.getSnapshot s' (uri model) = Some snapshot
    /\ symbols snapshot = symbol :: others
    /\ kind symbol = File
    /\ CodeStructureService.getSymbolAtPosition s' (uri model) position = Some symbol.
Proof.
  intros Hlive Hinside s'.
  pose proof (buildSnapshot_live now model Hlive) as Hbuild.
  subst s'. unfold Workbench.after.
  rewrite (recomputeSnapshot_returned _ _ _ _ Hbuild). simpl.
  unfold CodeStructureService.getSymbolAtPosition, CodeStructureService.getSnapshot. simpl.
  rewrite lookup_insert_eq.
  eexists _, _, _. split; [reflexivity|]. split; [reflexivity|]. split; [reflexivity|].
  cbn [CodeStructureService.firstContaining symbols]. rewrite fileSymbol_range.
  apply containsPosition_inside in Hinside. rewrite Hinside. reflexivity.
Qed.

Lemma getSymbolAtPosition_returns_file_witness :
  let position := {| lineNumber := 1; column := 15 |} in
  let s' :=
    Workbench.after (CodeStructureService.recomputeSnapshot 0 Samples.callsDocument)
      CodeStructureService.initial in
  exists snapshot symbol others,
    CodeStructureService.getSnapshot s' Samples.sampleUri = Some snapshot
    /\ symbols snapshot = symbol :: others
    /\ kind symbol = File
    /\ CodeStructureService.getSymbolAtPosition s' Samples.sampleUri position = Some symbol.
Proof.
  apply (getSymbolAtPosition_returns_file 0 Samples.callsDocument CodeStructureService.initial
           {| lineNumber := 1; column := 15 |}).
  - reflexivity.
  - vm_compute. intuition discriminate.
Defined.

(* ===================================================================== *)
(** ** The structure service: failure of a recomputation pass *)
(* ===================================================================== *)

(** C6.  When extraction throws during a recomputation pass, the
    exception is caught and logged, the state of the service, and with it
    the snapshot stored for the file, stays as it was, and no
    [onDidUpdateSnapshot] event is fired; the snapshot map changes and the
    event fires only when extraction returns a snapshot. *)
Theorem recomputeSnapshot_failure_is_contained
    (now : Z) (model : ITextModel) (s : CodeStructureService.state) :
  let '(result, s', t) := CodeStructureService.recomputeSnapshot now model s in
  result = Return tt
  /\ (forall e,
        CodeStructureService.buildSnapshot now model = Throw e ->
        s' = s
        /\ (forall u, CodeStructureService.getSnapshot s' u = CodeStructureService.getSnapshot s u)
        /\ fired t = []
        /\ logged t = ["[CodeStructureService] Failed to compute snapshot"])
  /\ (s' <> s \/ fired t <> [] ->
      exists snapshot,
        CodeStructureService.buildSnapshot now model = Return snapshot
        /\ CodeStructureService.getSnapshot s' (uri model) = Some snapshot
        /\ fired t = [uri model]
        /\ logged t = []).
Proof.
  destruct (CodeStructureService.buildSnapshot now model) as [snapshot|e] eqn:Hbuild.
  - rewrite (recomputeSnapshot_returned _ _ _ _ Hbuild). cbv zeta.
    split; [reflexivity|]. split; [intros e He; discriminate|].
    intros _. exists snapshot. split; [reflexivity|].
    split; [|split; reflexivity].
    unfold CodeStructureService.getSnapshot. simpl. apply lookup_insert_eq.
  - rewrite (recomputeSnapshot_thrown _ _ _ _ Hbuild).
    split; [reflexivity|]. split.
    + intros e' _. repeat split; reflexivity.
    + intros [Hs|Hf]; [now elim Hs | now elim Hf].
Qed.

Lemma recomputeSnapshot_failure_is_contained_witness :
  let s :=
    Workbench.after (CodeStructureService.recomputeSnapshot 0 Samples.callsDocument)
      CodeStructureService.initial in
  let broken := Samples.disposed 2 "function c(){}" in
  CodeStructureService.buildSnapshot 7 broken = Throw "Model is disposed!"
  /\ CodeStructureService.getSnapshot s Samples.sampleUri <> None
  /\ let '(result, s', t) := CodeStructureService.recomputeSnapshot 7 broken s in
     s' = s /\ fired t = [].
Proof.
  intros s broken. split; [reflexivity|]. split; [vm_compute; discriminate|].
  pose proof (recomputeSnapshot_failure_is_contained 7 broken s) as H.
  destruct (CodeStructureService.recomputeSnapshot 7 broken s) as [[result s'] t].
  destruct H as (_ & Hthrow & _).
  destruct (Hthrow "Model is disposed!" eq_refl) as (Hs & _ & Hf & _).
  split; assumption.
Defined.

(* ===================================================================== *)
(** ** The size ceiling *)
(* ===================================================================== *)

Lemma recomputeSnapshot_live now model s :
  isDisposed model = false ->
  exists snapshot,
    CodeStructureService.buildSnapshot now model = Return snapshot
    /\ CodeStructureService.recomputeSnapshot now model s =
         (Return tt,
          CodeStructureService.set_snapshots
            (fun m => <[uri_toString (uri model) := snapshot]> m) s,
          [Fire (uri model)
             (CodeStructureService.set_snapshots
                (fun m => <[uri_toString (uri model) := snapshot]> m) s)]).
Proof.
  intros Hlive. eexists. split; [apply buildSnapshot_live, Hlive|].
  apply recomputeSnapshot_returned, buildSnapshot_live, Hlive.
Qed.

Lemma rebuildForUri_large structure modelService uri0 model snapshot g :
  CodeStructureService.getSnapshot structure uri0 = Some snapshot ->
  getModel modelService uri0 = Some model ->
  isDisposed model = false ->
  CodeGraphService.MAX_FILE_LENGTH_FOR_SCAN < Text.len (value model) ->
  CodeGraphService.rebuildForUri structure modelService uri0 g =
    (Return tt, g,
     [Log "[CodeGraphService] Skipping graph rebuild for large file" (uri_toString uri0)]).
Proof.
  intros Hsnap Hmodel Hlive Hlarge. unfold CodeGraphService.rebuildForUri.
  rewrite Hsnap, Hmodel.
  unfold Handler.bind, Handler.lift, TextModel.getValueLength, TextModel.assertNotDisposed.
  rewrite Hlive.
  apply Z.ltb_lt in Hlarge. rewrite Hlarge. reflexivity.
Qed.

Lemma len_lineFeeds n : Text.len (Samples.lineFeeds n) = Z.of_nat n.
Proof.
  unfold Text.len. f_equal. induction n as [|n IH]; simpl; [reflexivity|]. now rewrite IH.
Qed.

(** C4, the claim as stated is refuted: the structure service stores a
    snapshot for a supported document of 200001 code units and logs
    nothing. *)
Lemma indexer_has_no_size_ceiling :
  CodeStructureService.isSupported Samples.largeDocument = true
  /\ CodeGraphService.MAX_FILE_LENGTH_FOR_SCAN < Text.len (value Samples.largeDocument)
  /\ CodeStructureService.getSnapshot CodeStructureService.initial Samples.sampleUri = None
  /\ let '(result, s', t) :=
       CodeStructureService.recomputeSnapshot 0 Samples.largeDocument
         CodeStructureService.initial in
     CodeStructureService.getSnapshot s' Samples.sampleUri <> None
     /\ fired t = [Samples.sampleUri]
     /\ logged t = [].
Proof.
  split; [reflexivity|]. split.
  { unfold Samples.largeDocument, Samples.document. cbn [value].
    rewrite len_lineFeeds. unfold CodeGraphService.MAX_FILE_LENGTH_FOR_SCAN. lia. }
  split; [reflexivity|].
  destruct (recomputeSnapshot_live 0 Samples.largeDocument CodeStructureService.initial eq_refl)
    as (snapshot & _ & ->).
  split; [|split; reflexivity].
  unfold CodeStructureService.getSnapshot. cbn. rewrite lookup_insert_eq. discriminate.
Qed.

(** C4, amended.  The structure service applies no size ceiling: for
    every live document, whatever its size, a recomputation pass stores
    the snapshot and fires [onDidUpdateSnapshot].  The ceiling is applied
    by the call-graph service: for a document of more than 200000 code
    units it skips the rebuild, which leaves the graph state as it was,
    fires nothing, logs the skip and raises no error. *)
Theorem size_ceiling_applies_to_graph_rebuild
    (now : Z) (model : ITextModel) (s : CodeStructureService.state)
    (modelService : IModelService) (g : CodeGraphService.state) :
  isDisposed model = false ->
  getModel modelService (uri model) = Some model ->
  CodeGraphService.MAX_FILE_LENGTH_FOR_SCAN < Text.len (value model) ->
  let '(result, s', t) := CodeStructureService.recomputeSnapshot now model s in
  result = Return tt
  /\ CodeStructureService.getSnapshot s' (uri model) <> None
  /\ fired t = [uri model]
  /\ logged t = []
  /\ let '(result', g', t') := CodeGraphService.rebuildForUri s' modelService (uri model) g in
     result' = Return tt
     /\ g' = g
     /\ fired t' = []
     /\ logged t' = ["[CodeGraphService] Skipping graph rebuild for large file"].
Proof.
  intros Hlive Hmodel Hlarge.
  destruct (recomputeSnapshot_live now model s Hlive) as (snapshot & _ & ->).
  split; [reflexivity|].
  assert (Hsnap : CodeStructureService.getSnapshot
            (CodeStructureService.set_snapshots
               (fun m => <[uri_toString (uri model) := snapshot]> m) s) (uri model)
          = Some snapshot).
  { unfold CodeStructureService.getSnapshot. cbn. apply lookup_insert_eq. }
  split; [rewrite Hsnap; discriminate|].
  split; [reflexivity|]. split; [reflexivity|].
  rewrite (rebuildForUri_large _ _ _ _ _ _ Hsnap Hmodel Hlive Hlarge).
  repeat split; reflexivity.
Qed.

Lemma size_ceiling_applies_to_graph_rebuild_witness :
  let modelService : IModelService :=
    {[ uri_toString Samples.sampleUri := Samples.largeDocument ]} in
  let '(result, s', t) :=
    CodeStructureService.recomputeSnapshot 0 Samples.largeDocument
      CodeStructureService.initial in
  result = Return tt
  /\ CodeStructureService.getSnapshot s' Samples.sampleUri <> None
  /\ fired t = [Samples.sampleUri]
  /\ logged t = []
  /\ let '(result', g', t') :=
       CodeGraphService.rebuildForUri s' modelService Samples.sampleUri
         CodeGraphService.initial in
     result' = Return tt
     /\ g' = CodeGraphService.initial
     /\ fired t' = []
     /\ logged t' = ["[CodeGraphService] Skipping graph rebuild for large file"].
Proof.
  intros modelService.
  apply (size_ceiling_applies_to_graph_rebuild 0 Samples.largeDocument
           CodeStructureService.initial modelService CodeGraphService.initial).
  - reflexivity.
  - unfold getModel, modelService. apply lookup_singleton_eq.
  - unfold Samples.largeDocument, Samples.document. cbn [value].
    rewrite len_lineFeeds. unfold CodeGraphService.MAX_FILE_LENGTH_FOR_SCAN. lia.
Defined.

(* ===================================================================== *)
(** ** The structure service: containers *)
(* ===================================================================== *)

Lemma buildSnapshot_inv now model snapshot :
  CodeStructureService.buildSnapshot now model = Return snapshot ->
  isDisposed model = false
  /\ symbols snapshot =
       CodeStructureService.fileSymbol (uri model) (Text.split_lines (value model))
       :: fst (CodeStructureService.scanLines (uri model) 1
                 (Text.split_lines (value model)) ([], None)).
Proof.
  intros Hbuild. destruct (isDisposed model) eqn:Hd.
  - rewrite (buildSnapshot_disposed _ _ Hd) in Hbuild. discriminate.
  - rewrite (buildSnapshot_live _ _ Hd) in Hbuild. injection Hbuild as <-.
    split; reflexivity.
Qed.

Lemma declared_on_line uri0 kind0 idName name0 line lineNumber0 container :
  on_line lineNumber0
    (range (CodeStructureService.declared uri0 kind0 idName name0 line lineNumber0 container)).
Proof.
  unfold CodeStructureService.declared, on_line, Range. cbn [range].
  match goal with |- context [if ?c then _ else _] => destruct c end; split; reflexivity.
Qed.

Section ScanInvariant.

Variable uri0 : URI.

(** Pushing one declared symbol keeps the invariant, whatever the branch. *)
Lemma push_keeps_invariant lineNumber0 symbols current symbol current' :
  scan_invariant lineNumber0 (symbols, current) ->
  1 <= lineNumber0 ->
  on_line lineNumber0 (range symbol) ->
  (forall classId, containerId symbol = Some classId ->
     kind symbol = Method /\ current = Some classId) ->
  (current' = current \/ (kind symbol = Class /\ current' = Some (id symbol))) ->
  scan_invariant (lineNumber0 + 1) (symbols ++ [symbol], current').
Proof.
  intros (Hlines & Hcontainers & Hcurrent) Hpos Hline Hcontainer Hnext.
  split; [|split].
  - intros s Hs. apply in_app_or in Hs as [Hs|[<-|[]]].
    + destruct (Hlines s Hs) as (n & Hn & Hon). exists n. split; [lia|assumption].
    + exists lineNumber0. split; [lia|assumption].
  - intros s classId Hs Hc. apply in_app_or in Hs as [Hs|[<-|[]]].
    + destruct (Hcontainers s classId Hs Hc) as (Hk & c & Hin & Hid & Hkc & Hlt).
      split; [assumption|]. exists c. split; [apply in_or_app; now left|]. auto.
    + destruct (Hcontainer classId Hc) as (Hk & Hcur).
      split; [assumption|].
      destruct (Hcurrent classId Hcur) as (c & Hin & Hid & Hkc).
      exists c. split; [apply in_or_app; now left|]. split; [assumption|].
      split; [assumption|].
      destruct (Hlines c Hin) as (n & Hn & Hs & He). destruct Hline as (Hs' & _). lia.
  - intros classId Hcur. destruct Hnext as [->|(Hk & ->)].
    + destruct (Hcurrent classId Hcur) as (c & Hin & Hid & Hkc).
      exists c. split; [apply in_or_app; now left|]. auto.
    + injection Hcur as <-. exists symbol.
      split; [apply in_or_app; right; now left|]. auto.
Qed.

Lemma skip_keeps_invariant lineNumber0 symbols current current' :
  scan_invariant lineNumber0 (symbols, current) ->
  (current' = current \/ current' = None) ->
  scan_invariant (lineNumber0 + 1) (symbols, current').
Proof.
  intros (Hlines & Hcontainers & Hcurrent) Hnext. split; [|split].
  - intros s Hs. destruct (Hlines s Hs) as (n & Hn & Hon). exists n. split; [lia|assumption].
  - assumption.
  - intros classId Hcur. destruct Hnext as [->| ->]; [auto|discriminate].
Qed.

Lemma scanLine_keeps_invariant lineNumber0 line acc :
  1 <= lineNumber0 ->
  scan_invariant lineNumber0 acc ->
  scan_invariant (lineNumber0 + 1) (CodeStructureService.scanLine uri0 lineNumber0 line acc).
Proof.
  intros Hpos Hinv. destruct acc as [symbols current].
  unfold CodeStructureService.scanLine.
  destruct (RegExp.exec CodeStructureService.classRe line) as [classMatch|].
  { apply (push_keeps_invariant lineNumber0 symbols current _ _ Hinv Hpos).
    - apply declared_on_line.
    - intros classId Hc. discriminate.
    - right. split; reflexivity. }
  destruct (RegExp.exec CodeStructureService.functionRe line) as [functionMatch|].
  { apply (push_keeps_invariant lineNumber0 symbols current _ _ Hinv Hpos).
    - apply declared_on_line.
    - intros classId Hc. discriminate.
    - left. reflexivity. }
  destruct (RegExp.exec CodeStructureService.methodRe line) as [methodMatch|];
    destruct current as [classId|].
  - apply (push_keeps_invariant lineNumber0 symbols (Some classId) _ _ Hinv Hpos).
    + apply declared_on_line.
    + intros classId' Hc. cbn in Hc. injection Hc as <-. split; reflexivity.
    + left. reflexivity.
  - destruct (RegExp.test CodeStructureService.blankRe line);
      eapply skip_keeps_invariant; eauto.
  - destruct (RegExp.test CodeStructureService.blankRe line);
      eapply skip_keeps_invariant; eauto.
  - destruct (RegExp.test CodeStructureService.blankRe line);
      eapply skip_keeps_invariant; eauto.
Qed.

Lemma scanLines_keeps_invariant lines : forall lineNumber0 acc,
  1 <= lineNumber0 ->
  scan_invariant lineNumber0 acc ->
  scan_invariant (lineNumber0 + Z.of_nat (length lines))
    (CodeStructureService.scanLines uri0 lineNumber0 lines acc).
Proof.
  induction lines as [|line lines IH]; intros lineNumber0 acc Hpos Hinv.
  - simpl. now rewrite Z.add_0_r.
  - cbn [CodeStructureService.scanLines].
    replace (lineNumber0 + Z.of_nat (length (line :: lines)))
      with ((lineNumber0 + 1) + Z.of_nat (length lines)) by (simpl length; lia).
    apply IH; [lia|]. now apply scanLine_keeps_invariant.
Qed.

Lemma scan_invariant_initial : scan_invariant 1 ([], None).
Proof.
  split; [|split].
  - intros s [].
  - intros s c [].
  - intros c Hc. discriminate.
Qed.

End ScanInvariant.

Lemma fileSymbol_no_container uri0 lines :
  containerId (CodeStructureService.fileSymbol uri0 lines) = None.
Proof. reflexivity. Qed.

Lemma not_within_other_line inner outer n m :
  on_line n inner -> on_line m outer -> m < n -> ~ within inner outer.
Proof.
  intros (Hs & He) (Hs' & He') Hlt ((Hlines & _) & _).
  unfold startOf in Hlines. cbn in Hlines. lia.
Qed.

(** C3, the claim as stated is refuted: in the snapshot of
    ["class Foo {\n  bar() {}\n}"] the method [bar] carries the id of the
    class [Foo] as its container, and its range, on line 2, is not within
    the range of [Foo], on line 1. *)
Lemma method_range_outside_class_range :
  exists snapshot,
    CodeStructureService.buildSnapshot 0 Samples.classDocument = Return snapshot
    /\ ~ containment_invariant snapshot.
Proof.
  eexists. split; [vm_compute; reflexivity|].
  intros Hinv.
  match goal with
  | H : containment_invariant {| symbols := [_; ?c; ?m] |} |- _ =>
      specialize (H m c)
  end.
  cbn [symbols] in Hinv.
  assert (Hwithin : within
            {| startLineNumber := 2; startColumn := 3; endLineNumber := 2; endColumn := 6 |}
            {| startLineNumber := 1; startColumn := 7; endLineNumber := 1; endColumn := 10 |}).
  { apply Hinv.
    - right. right. left. reflexivity.
    - right. left. reflexivity.
    - discriminate.
    - reflexivity. }
  destruct Hwithin as ((Hlines & _) & _). cbn in Hlines. lia.
Qed.

(** C3, amended.  In every snapshot produced by the structure service, a
    symbol whose [containerId] is set is a method, and its container id is
    the id of a class of the same snapshot that was declared on an
    earlier line; both ranges span a name on one line, so the range of
    the method lies below the range of the class, not within it. *)
Theorem method_lies_below_its_class
    (now : Z) (model : ITextModel) (snapshot : FileStructureSnapshot)
    (symbol : SymbolNodeLite) (classId : string) :
  CodeStructureService.buildSnapshot now model = Return snapshot ->
  In symbol (symbols snapshot) ->
  containerId symbol = Some classId ->
  kind symbol = Method
  /\ exists container,
       In container (symbols snapshot)
       /\ id container = classId
       /\ kind container = Class
       /\ startLineNumber (range container) = endLineNumber (range container)
       /\ startLineNumber (range symbol) = endLineNumber (range symbol)
       /\ endLineNumber (range container) < startLineNumber (range symbol)
       /\ ~ within (range symbol) (range container).
Proof.
  intros Hbuild Hin Hcontainer.
  apply buildSnapshot_inv in Hbuild as (_ & Hsymbols).
  rewrite Hsymbols in Hin |- *.
  pose proof (scanLines_keeps_invariant (uri model) (Text.split_lines (value model)) 1
                ([], None) ltac:(lia) scan_invariant_initial) as Hinv.
  destruct (CodeStructureService.scanLines _ _ _ _) as [scanned current].
  destruct Hinv as (Hlines & Hcontainers & _). cbn [fst] in Hin |- *.
  destruct Hin as [<-|Hin]; [discriminate|].
  destruct (Hcontainers symbol classId Hin Hcontainer) as (Hk & c & Hc & Hid & Hkc & Hlt).
  split; [assumption|]. exists c.
  destruct (Hlines c Hc) as (m & Hm & Hcs & Hce).
  destruct (Hlines symbol Hin) as (n & Hn & Hss & Hse).
  split; [now right|]. repeat (split; [congruence || assumption|]).
  apply (not_within_other_line _ _ n m); [split; assumption | split; assumption | lia].
Qed.

Lemma method_lies_below_its_class_witness :
  exists snapshot symbol,
    CodeStructureService.buildSnapshot 0 Samples.classDocument = Return snapshot
    /\ In symbol (symbols snapshot)
    /\ name symbol = "bar"
    /\ kind symbol = Method
    /\ exists container,
         In container (symbols snapshot)
         /\ Some (id container) = containerId symbol
         /\ kind container = Class
         /\ startLineNumber (range container) = endLineNumber (range container)
         /\ startLineNumber (range symbol) = endLineNumber (range symbol)
         /\ endLineNumber (range container) < startLineNumber (range symbol)
         /\ ~ within (range symbol) (range container).
Proof.
  eexists. eexists.
  split; [vm_compute; reflexivity|].
  split; [right; right; left; reflexivity|].
  split; [reflexivity|].
  match goal with
  | |- kind ?symbol = Method /\ (exists c, In c (symbols ?snapshot) /\ _) =>
      pose proof
        (method_lies_below_its_class 0 Samples.classDocument snapshot symbol
           "file:///sample.ts::Foo@1"
           ltac:(vm_compute; reflexivity)
           ltac:(right; right; left; reflexivity)
           ltac:(reflexivity))
        as (Hk & container & Hc & Hid & Hrest)
  end.
  split; [exact Hk|].
  exists container. split; [exact Hc|]. split; [now rewrite Hid|]. exact Hrest.
Defined.

(* ===================================================================== *)
(** ** Insertion-ordered maps *)
(* ===================================================================== *)

Section JsMapFacts.

Context {V : Type}.

#[local] Arguments String.eqb : simpl never.

Lemma JsMap_has_In (m : JsMap.t V) k : JsMap.has m k = true <-> In k (JsMap.keys m).
Proof.
  unfold JsMap.has, JsMap.keys. rewrite existsb_exists. split.
  - intros ((k', v) & Hin & Heq). apply String.eqb_eq in Heq. cbn in Heq. subst k'.
    apply in_map_iff. exists (k, v). split; [reflexivity|assumption].
  - intros Hin. apply in_map_iff in Hin as ((k', v) & Hk & Hin). cbn in Hk. subst k'.
    exists (k, v). split; [assumption|]. apply String.eqb_refl.
Qed.

Lemma JsMap_get_None (m : JsMap.t V) k : JsMap.get m k = None <-> ~ In k (JsMap.keys m).
Proof.
  unfold JsMap.get, JsMap.keys. induction m as [|(k', v) m IH]; cbn.
  - split; [intros _ []|reflexivity].
  - destruct (String.eqb k' k) eqn:E.
    + apply String.eqb_eq in E. subst k'. split; [discriminate|]. intros H. elim H. now left.
    + apply String.eqb_neq in E. rewrite IH. split.
      * intros H [Hk|Hin]; [congruence|auto].
      * intros H Hin. apply H. now right.
Qed.

Lemma JsMap_keys_set (m : JsMap.t V) k v :
  JsMap.keys (JsMap.set m k v) =
    if JsMap.has m k then JsMap.keys m else JsMap.keys m ++ [k].
Proof.
  unfold JsMap.keys, JsMap.has. induction m as [|(k', v') m IH]; cbn; [reflexivity|].
  destruct (String.eqb k' k) eqn:E; cbn; [reflexivity|].
  rewrite IH. destruct (existsb _ m); reflexivity.
Qed.

Lemma JsMap_get_set (m : JsMap.t V) k v k' :
  JsMap.get (JsMap.set m k v) k' = if String.eqb k k' then Some v else JsMap.get m k'.
Proof.
  unfold JsMap.get. induction m as [|(k0, v0) m IH]; cbn.
  - destruct (String.eqb k k'); reflexivity.
  - destruct (String.eqb k0 k) eqn:E0; cbn.
    + apply String.eqb_eq in E0. subst k0. destruct (String.eqb k k'); reflexivity.
    + destruct (String.eqb k0 k') eqn:E1; cbn.
      * apply String.eqb_eq in E1. subst k0. rewrite String.eqb_sym, E0.
        reflexivity.
      * apply IH.
Qed.

Lemma JsMap_set_NoDup (m : JsMap.t V) k v :
  NoDup (JsMap.keys m) -> NoDup (JsMap.keys (JsMap.set m k v)).
Proof.
  intros Hnd. rewrite JsMap_keys_set. destruct (JsMap.has m k) eqn:E; [assumption|].
  apply NoDup_app. split; [assumption|]. split.
  - intros x Hx Hx'. apply list_elem_of_In in Hx, Hx'. destruct Hx' as [<-|[]].
    apply JsMap_has_In in Hx. congruence.
  - apply NoDup_singleton.
Qed.

Lemma JsMap_In_keys_set (m : JsMap.t V) k v k' :
  In k' (JsMap.keys (JsMap.set m k v)) <-> k' = k \/ In k' (JsMap.keys m).
Proof.
  rewrite JsMap_keys_set. destruct (JsMap.has m k) eqn:E.
  - apply JsMap_has_In in E. split; [now right|]. intros [->|H]; assumption.
  - rewrite in_app_iff. cbn. intuition.
Qed.

Lemma JsMap_get_In (m : JsMap.t V) k v :
  NoDup (JsMap.keys m) -> In (k, v) m -> JsMap.get m k = Some v.
Proof.
  unfold JsMap.get, JsMap.keys. induction m as [|(k0, v0) m IH]; cbn; [intros _ []|].
  intros Hnd [Heq|Hin].
  - injection Heq as -> ->. now rewrite String.eqb_refl.
  - apply NoDup_cons in Hnd as (Hnot & Hnd).
    destruct (String.eqb k0 k) eqn:E.
    + apply String.eqb_eq in E. subst k0. elim Hnot.
      apply list_elem_of_In, in_map_iff. exists (k, v). split; [reflexivity|assumption].
    + now apply IH.
Qed.

End JsMapFacts.

(* ===================================================================== *)
(** ** The history service: the id maps of a diff pass *)
(* ===================================================================== *)

Section ByIdFacts.

#[local] Arguments String.eqb : simpl never.

Lemma byId_fold_NoDup l : forall m,
  NoDup (JsMap.keys m) -> NoDup (JsMap.keys (fold_left byId_step l m)).
Proof.
  induction l as [|x l IH]; intros m Hnd; cbn [fold_left]; [assumption|].
  apply IH. now apply JsMap_set_NoDup.
Qed.

Lemma byId_fold_keys l : forall m k,
  In k (JsMap.keys (fold_left byId_step l m)) <-> In k (JsMap.keys m) \/ In k (List.map id l).
Proof.
  induction l as [|x l IH]; intros m k; cbn [fold_left List.map].
  - cbn. intuition.
  - rewrite IH. unfold byId_step at 1. rewrite JsMap_In_keys_set. cbn. intuition.
Qed.

Lemma last_filter_cons {A} (p : A -> bool) x l :
  last (List.filter p (x :: l)) =
    match last (List.filter p l) with
    | Some y => Some y
    | None => if p x then Some x else None
    end.
Proof.
  cbn. destruct (p x); [|now destruct (last (List.filter p l))].
  destruct (List.filter p l) as [|y l'] eqn:E; [reflexivity|].
  rewrite last_cons. destruct (last (y :: l')) eqn:El; [reflexivity|].
  apply last_None in El. discriminate.
Qed.

Lemma byId_fold_get l : forall m k,
  JsMap.get (fold_left byId_step l m) k =
    match last (List.filter (fun symbol => String.eqb (id symbol) k) l) with
    | Some symbol => Some (name symbol)
    | None => JsMap.get m k
    end.
Proof.
  induction l as [|x l IH]; intros m k; [reflexivity|].
  cbn [fold_left]. rewrite IH, last_filter_cons.
  destruct (last (List.filter _ l)); [reflexivity|].
  unfold byId_step. rewrite JsMap_get_set. destruct (String.eqb (id x) k); reflexivity.
Qed.

Lemma byId_NoDup snapshot : NoDup (JsMap.keys (CodeHistoryService.byId snapshot)).
Proof. apply (byId_fold_NoDup (symbols snapshot) []). constructor. Qed.

Lemma byId_keys snapshot k :
  In k (JsMap.keys (CodeHistoryService.byId snapshot)) <-> In k (ids snapshot).
Proof.
  change (CodeHistoryService.byId snapshot) with (fold_left byId_step (symbols snapshot) []).
  unfold ids. rewrite byId_fold_keys. cbn. intuition.
Qed.

Lemma byId_get snapshot k :
  JsMap.get (CodeHistoryService.byId snapshot) k = nameOf snapshot k.
Proof.
  change (CodeHistoryService.byId snapshot) with (fold_left byId_step (symbols snapshot) []).
  unfold nameOf. rewrite byId_fold_get.
  destruct (last _); reflexivity.
Qed.

Lemma byId_has snapshot k :
  JsMap.has (CodeHistoryService.byId snapshot) k = true <-> In k (ids snapshot).
Proof. rewrite JsMap_has_In. apply byId_keys. Qed.

End ByIdFacts.

(* ===================================================================== *)
(** ** The history service: the events of a diff pass *)
(* ===================================================================== *)

Section DiffFacts.

#[local] Arguments String.eqb : simpl never.

Variable clock : Z -> Z.
Variable next : FileStructureSnapshot.
Variable ref : SnapshotRef.
Variables prevById nextById : JsMap.t string.

Lemma removals_spec l : forall acc,
  exists removed,
    CodeHistoryService.removals clock next ref l nextById acc =
      (fst acc ++ removed, snd acc + Z.of_nat (length removed))
    /\ List.map shape removed = removedShapes ref l nextById.
Proof.
  unfold CodeHistoryService.removals, removedShapes.
  induction l as [|(i, prevName) l IH]; intros acc.
  - exists []. cbn. rewrite app_nil_r, Z.add_0_r. now destruct acc.
  - cbn [fold_left List.filter fst]. destruct (negb (JsMap.has nextById i)) eqn:E.
    + destruct (IH (CodeHistoryService.push acc (fun n =>
        CodeHistoryService.createEvent clock n (snap_uri next) (Some i) SymbolRemoved
          ("Removed symbol " +:+ prevName) ref))) as (removed & -> & Hshape).
      eexists (_ :: removed). split.
      * unfold CodeHistoryService.push. cbn [fst snd]. rewrite <- app_assoc. cbn [app length].
        f_equal. lia.
      * cbn [List.map]. rewrite Hshape. reflexivity.
    + destruct (IH acc) as (removed & -> & Hshape). exists removed. split; [reflexivity|assumption].
Qed.

Lemma additionsAndChanges_spec l : forall acc,
  exists added,
    CodeHistoryService.additionsAndChanges clock next ref prevById l acc =
      (fst acc ++ added, snd acc + Z.of_nat (length added))
    /\ List.map shape added = addedOrChangedShapes ref prevById l.
Proof.
  unfold CodeHistoryService.additionsAndChanges, addedOrChangedShapes.
  induction l as [|(i, nextName) l IH]; intros acc.
  - exists []. cbn. rewrite app_nil_r, Z.add_0_r. now destruct acc.
  - cbn [fold_left flat_map]. unfold addedOrChangedShape. cbn [fst snd].
    destruct (JsMap.get prevById i) as [prevName|].
    + destruct (negb (String.eqb prevName nextName)).
      * destruct (IH (CodeHistoryService.push acc (fun n =>
          CodeHistoryService.createEvent clock n (snap_uri next) (Some i) SymbolChanged
            ("Renamed symbol " +:+ prevName +:+ " " +:+ CodeHistoryService.renameSeparator
             +:+ " " +:+ nextName) ref))) as (added & -> & Hshape).
        eexists (_ :: added). split.
        -- unfold CodeHistoryService.push. cbn [fst snd]. rewrite <- app_assoc.
           cbn [app length]. f_equal. lia.
        -- cbn [List.map app]. rewrite Hshape. reflexivity.
      * destruct (IH acc) as (added & -> & Hshape). exists added.
        split; [reflexivity|assumption].
    + destruct (IH (CodeHistoryService.push acc (fun n =>
        CodeHistoryService.createEvent clock n (snap_uri next) (Some i) SymbolAdded
          ("Added symbol " +:+ nextName) ref))) as (added & -> & Hshape).
      eexists (_ :: added). split.
      * unfold CodeHistoryService.push. cbn [fst snd]. rewrite <- app_assoc.
        cbn [app length]. f_equal. lia.
      * cbn [List.map app]. rewrite Hshape. reflexivity.
Qed.

End DiffFacts.

Lemma computeDiffEvents_spec clock n previous next :
  exists removed added,
    CodeHistoryService.computeDiffEvents clock n previous next =
      (removed ++ added, n + Z.of_nat (length (removed ++ added)))
    /\ List.map shape removed =
         removedShapes {| ref_uri := snap_uri next; ref_version := version next |}
           (CodeHistoryService.byId previous) (CodeHistoryService.byId next)
    /\ List.map shape added =
         addedOrChangedShapes {| ref_uri := snap_uri next; ref_version := version next |}
           (CodeHistoryService.byId previous) (CodeHistoryService.byId next).
Proof.
  unfold CodeHistoryService.computeDiffEvents.
  set (ref := {| ref_uri := snap_uri next; ref_version := version next |}).
  destruct (removals_spec clock next ref (CodeHistoryService.byId next)
              (CodeHistoryService.byId previous) ([], n)) as (removed & -> & Hremoved).
  destruct (additionsAndChanges_spec clock next ref (CodeHistoryService.byId previous)
              (CodeHistoryService.byId next) ([] ++ removed, n + Z.of_nat (length removed)))
    as (added & Hrun & Hadded).
  exists removed, added. cbn [fst snd app] in *. rewrite Hrun.
  split; [|split; assumption].
  f_equal. rewrite length_app. lia.
Qed.

Section CountFacts.

#[local] Arguments String.eqb : simpl never.

Lemma count_events_shapes kind0 i events0 :
  count_events kind0 i events0 = count_shapes kind0 i (List.map shape events0).
Proof.
  unfold count_events, count_shapes. induction events0 as [|e l IH]; [reflexivity|].
  cbn [List.map List.filter].
  change (shape e) with (event_kind e, symbolId e, snapshot e). cbn [fst snd].
  destruct (bool_decide (event_kind e = kind0) && bool_decide (symbolId e = Some i));
    cbn [length]; rewrite IH; reflexivity.
Qed.

Lemma count_shapes_app kind0 i l1 l2 :
  count_shapes kind0 i (l1 ++ l2) = (count_shapes kind0 i l1 + count_shapes kind0 i l2)%nat.
Proof. unfold count_shapes. now rewrite List.filter_app, length_app. Qed.

Lemma absent_key_counts_zero {V} (m : JsMap.t V) i (q : string * V -> bool) :
  ~ In i (JsMap.keys m) ->
  length (List.filter (fun p => String.eqb (fst p) i && q p) m) = 0%nat.
Proof.
  induction m as [|(k, v) m IH]; intros Hnot; [reflexivity|].
  cbn [List.filter fst]. destruct (String.eqb k i) eqn:E.
  - apply String.eqb_eq in E. subst k. elim Hnot. now left.
  - cbn [andb]. apply IH. intros Hin. apply Hnot. now right.
Qed.

Lemma keyed_count {V} (m : JsMap.t V) i (q : string * V -> bool) :
  NoDup (JsMap.keys m) ->
  one_iff (exists v, In (i, v) m /\ q (i, v) = true)
    (length (List.filter (fun p => String.eqb (fst p) i && q p) m)).
Proof.
  induction m as [|(k, v) m IH]; intros Hnd.
  - split; [intros (v & [] & _)|reflexivity].
  - cbn [JsMap.keys List.map fst] in Hnd. apply NoDup_cons in Hnd as (Hnot & Hnd).
    rewrite list_elem_of_In in Hnot. specialize (IH Hnd).
    cbn [List.filter fst]. destruct (String.eqb k i) eqn:E.
    + apply String.eqb_eq in E. subst k. cbn [andb].
      assert (Hzero := absent_key_counts_zero m i q Hnot).
      destruct (q (i, v)) eqn:Eq; cbn [length]; rewrite Hzero; split.
      * reflexivity.
      * intros Hno. elim Hno. exists v. split; [now left|assumption].
      * intros (v' & [Heq|Hin] & Hq).
        -- injection Heq as <-. congruence.
        -- elim Hnot. apply in_map_iff. exists (i, v'). split; [reflexivity|assumption].
      * reflexivity.
    + apply String.eqb_neq in E. cbn [andb]. destruct IH as (IH1 & IH0). split.
      * intros (v' & [Heq|Hin] & Hq); [congruence|]. apply IH1. eauto.
      * intros Hno. apply IH0. intros (v' & Hin & Hq). apply Hno. exists v'.
        split; [now right|assumption].
Qed.

Lemma count_removedShapes kind0 i ref prevById nextById :
  count_shapes kind0 i (removedShapes ref prevById nextById) =
    if bool_decide (kind0 = SymbolRemoved) then
      length (List.filter
                (fun p => String.eqb (fst p) i && negb (JsMap.has nextById (fst p))) prevById)
    else 0%nat.
Proof.
  unfold count_shapes, removedShapes.
  destruct (decide (kind0 = SymbolRemoved)) as [->|Hk].
  - rewrite bool_decide_eq_true_2 by reflexivity.
    induction prevById as [|(k, v) m IH]; [reflexivity|].
    cbn [List.filter fst]. destruct (negb (JsMap.has nextById k)).
    + cbn [List.map List.filter fst snd]. rewrite andb_true_r.
      rewrite (bool_decide_eq_true_2 (SymbolRemoved = SymbolRemoved)) by reflexivity.
      cbn [andb]. destruct (String.eqb_spec k i) as [->|Hne].
      * rewrite bool_decide_eq_true_2 by reflexivity. cbn [length]. now rewrite IH.
      * rewrite bool_decide_eq_false_2 by congruence. exact IH.
    + rewrite andb_false_r. exact IH.
  - rewrite bool_decide_eq_false_2 by assumption.
    induction (List.filter _ prevById) as [|p m IH]; [reflexivity|].
    cbn [List.map List.filter fst snd].
    rewrite (bool_decide_eq_false_2 (SymbolRemoved = kind0)) by congruence. exact IH.
Qed.

Lemma count_addedOrChangedShapes kind0 i ref prevById nextById :
  count_shapes kind0 i (addedOrChangedShapes ref prevById nextById) =
    length (List.filter (fun p => String.eqb (fst p) i && yields kind0 prevById p) nextById).
Proof.
  unfold addedOrChangedShapes. induction nextById as [|(k, v) m IH]; [reflexivity|].
  cbn [flat_map List.filter fst]. rewrite count_shapes_app, IH. clear IH.
  unfold addedOrChangedShape, yields, count_shapes. cbn [fst snd].
  destruct (String.eqb_spec k i) as [->|Hi].
  - cbn [andb].
    assert (Hsame : bool_decide (Some i = Some i) = true)
      by (apply bool_decide_eq_true_2; reflexivity).
    destruct (JsMap.get prevById i) as [prevName|].
    + destruct (negb (String.eqb prevName v)); destruct kind0;
        cbn [List.filter fst snd]; rewrite ?Hsame; reflexivity.
    + destruct kind0; cbn [List.filter fst snd]; rewrite ?Hsame; reflexivity.
  - cbn [andb].
    assert (Hne : bool_decide (Some k = Some i) = false)
      by (apply bool_decide_eq_false_2; congruence).
    destruct (JsMap.get prevById k) as [prevName|].
    + destruct (negb (String.eqb prevName v)); cbn [List.filter fst snd];
        rewrite ?Hne, ?andb_false_r; reflexivity.
    + cbn [List.filter fst snd]. rewrite Hne, andb_false_r. reflexivity.
Qed.

End CountFacts.

Section DiffCharacterisation.

#[local] Arguments String.eqb : simpl never.

Lemma one_iff_equiv (P Q : Prop) n : (P <-> Q) -> one_iff P n -> one_iff Q n.
Proof. intros HPQ (H1 & H0). split; intros H; [apply H1|apply H0]; tauto. Qed.

Lemma one_iff_zero_l (P : Prop) n m : n = 0%nat -> one_iff P m -> one_iff P (n + m).
Proof. intros ->. exact (fun H => H). Qed.

Lemma one_iff_zero_r (P : Prop) n m : m = 0%nat -> one_iff P n -> one_iff P (n + m).
Proof. intros ->. now rewrite Nat.add_0_r. Qed.

Lemma In_keys_pairs {V} (m : JsMap.t V) i : In i (JsMap.keys m) <-> exists v, In (i, v) m.
Proof.
  unfold JsMap.keys. rewrite in_map_iff. split.
  - intros ((k, v) & Hk & Hin). cbn in Hk. subst k. eauto.
  - intros (v & Hin). exists (i, v). split; [reflexivity|assumption].
Qed.

Variables previous next : FileStructureSnapshot.

Let prevById := CodeHistoryService.byId previous.
Let nextById := CodeHistoryService.byId next.
Let ref := {| ref_uri := snap_uri next; ref_version := version next |}.

Lemma removed_condition i :
  (exists v, In (i, v) prevById /\ negb (JsMap.has nextById (fst (i, v))) = true)
  <-> In i (ids previous) /\ ~ In i (ids next).
Proof.
  cbn [fst]. split.
  - intros (v & Hin & Hhas). split.
    + apply (proj1 (byId_keys previous i)), (proj2 (In_keys_pairs _ i)). eauto.
    + intros Hnext. apply (proj2 (byId_has next i)) in Hnext.
      fold nextById in Hnext. rewrite Hnext in Hhas. discriminate.
  - intros (Hprev & Hnext).
    apply (proj2 (byId_keys previous i)), (proj1 (In_keys_pairs _ i)) in Hprev as (v & Hin).
    exists v. split; [assumption|].
    destruct (JsMap.has nextById i) eqn:E; [|reflexivity].
    apply (proj1 (byId_has next i)) in E. contradiction.
Qed.

Lemma never_removed_again i :
  ~ (exists v, In (i, v) nextById /\ yields SymbolRemoved prevById (i, v) = true).
Proof. intros (v & _ & Hy). discriminate. Qed.

Lemma added_condition i :
  (exists v, In (i, v) nextById /\ yields SymbolAdded prevById (i, v) = true)
  <-> In i (ids next) /\ ~ In i (ids previous).
Proof.
  unfold yields. cbn [fst]. split.
  - intros (v & Hin & Hy). split.
    + apply (proj1 (byId_keys next i)), (proj2 (In_keys_pairs _ i)). eauto.
    + intros Hprev. apply (proj2 (byId_keys previous i)) in Hprev.
      destruct (JsMap.get prevById i) eqn:Hget; [discriminate|].
      apply (proj1 (JsMap_get_None _ i)) in Hget. contradiction.
  - intros (Hnext & Hprev).
    apply (proj2 (byId_keys next i)), (proj1 (In_keys_pairs _ i)) in Hnext as (v & Hin).
    exists v. split; [assumption|].
    assert (Hget : JsMap.get prevById i = None).
    { apply JsMap_get_None. intros H. apply Hprev, (proj1 (byId_keys previous i)), H. }
    now rewrite Hget.
Qed.

Lemma changed_condition i :
  (exists v, In (i, v) nextById /\ yields SymbolChanged prevById (i, v) = true)
  <-> In i (ids previous) /\ In i (ids next) /\ nameOf previous i <> nameOf next i.
Proof.
  unfold yields. cbn [fst snd]. split.
  - intros (v & Hin & Hy).
    pose proof (JsMap_get_In nextById i v (byId_NoDup next) Hin) as Hnext.
    unfold nextById in Hnext. rewrite byId_get in Hnext.
    destruct (JsMap.get prevById i) as [prevName|] eqn:Hprev; [|discriminate].
    split; [|split].
    + apply (proj1 (byId_keys previous i)).
      destruct (In_dec String.string_dec i (JsMap.keys prevById)) as [Hin'|Hnot];
        [assumption|]. apply JsMap_get_None in Hnot. congruence.
    + apply (proj1 (byId_keys next i)), (proj2 (In_keys_pairs _ i)). eauto.
    + unfold prevById in Hprev. rewrite byId_get in Hprev.
      apply negb_true_iff, String.eqb_neq in Hy. congruence.
  - intros (Hprev & Hnext & Hne).
    apply (proj2 (byId_keys next i)), (proj1 (In_keys_pairs _ i)) in Hnext as (v & Hin).
    exists v. split; [assumption|].
    pose proof (JsMap_get_In nextById i v (byId_NoDup next) Hin) as Hget'.
    unfold nextById in Hget'. rewrite byId_get in Hget'. rewrite Hget' in Hne.
    destruct (JsMap.get prevById i) as [prevName|] eqn:Hget.
    + unfold prevById in Hget. rewrite byId_get in Hget.
      apply negb_true_iff, String.eqb_neq. congruence.
    + apply JsMap_get_None in Hget. elim Hget.
      apply (proj2 (byId_keys previous i)), Hprev.
Qed.

Lemma removedShapes_all :
  Forall (fun sh => fst (fst sh) = SymbolRemoved /\ (exists i, snd (fst sh) = Some i)
                    /\ snd sh = ref)
    (removedShapes ref prevById nextById).
Proof.
  unfold removedShapes. apply Forall_forall. intros sh Hin.
  apply list_elem_of_In, in_map_iff in Hin as (p & <- & _). cbn. eauto.
Qed.

Lemma addedOrChangedShapes_all :
  Forall (fun sh => fst (fst sh) <> SymbolRemoved /\ (exists i, snd (fst sh) = Some i)
                    /\ snd sh = ref)
    (addedOrChangedShapes ref prevById nextById).
Proof.
  unfold addedOrChangedShapes. apply Forall_forall. intros sh Hin.
  apply list_elem_of_In, in_flat_map in Hin as (p & _ & Hin).
  unfold addedOrChangedShape in Hin.
  destruct (JsMap.get prevById (fst p)) as [prevName|].
  - destruct (negb (String.eqb prevName (snd p))); [|destruct Hin].
    destruct Hin as [<-|[]]. cbn. split; [discriminate|]. eauto.
  - destruct Hin as [<-|[]]. cbn. split; [discriminate|]. eauto.
Qed.

Lemma computeDiffEvents_is_diff clock n :
  is_diff previous next (fst (CodeHistoryService.computeDiffEvents clock n previous next)).
Proof.
  destruct (computeDiffEvents_spec clock n previous next)
    as (removed & added & -> & Hremoved & Hadded).
  fold prevById nextById ref in Hremoved, Hadded. cbn [fst].
  assert (Hcount : forall kind0 i,
            count_events kind0 i (removed ++ added) =
              ((if bool_decide (kind0 = SymbolRemoved) then
                  length (List.filter
                            (fun p => String.eqb (fst p) i
                                      && negb (JsMap.has nextById (fst p))) prevById)
                else 0) +
               length (List.filter
                         (fun p => String.eqb (fst p) i && yields kind0 prevById p)
                         nextById))%nat).
  { intros kind0 i.
    rewrite count_events_shapes, map_app, count_shapes_app, Hremoved, Hadded.
    now rewrite count_removedShapes, count_addedOrChangedShapes. }
  pose proof (byId_NoDup previous) as Hnd_prev. pose proof (byId_NoDup next) as Hnd_next.
  fold prevById in Hnd_prev. fold nextById in Hnd_next.
  assert (Hr := removedShapes_all). rewrite <- Hremoved in Hr. apply Forall_map in Hr.
  assert (Ha := addedOrChangedShapes_all). rewrite <- Hadded in Ha. apply Forall_map in Ha.
  split; [|split; [|split; [|split; [|split]]]].
  - intros i. rewrite Hcount. rewrite bool_decide_eq_true_2 by reflexivity.
    apply one_iff_zero_r.
    + pose proof (keyed_count nextById i (yields SymbolRemoved prevById) Hnd_next) as (_ & H0).
      apply H0, never_removed_again.
    + eapply one_iff_equiv; [apply removed_condition|].
      apply (keyed_count prevById i (fun p => negb (JsMap.has nextById (fst p))) Hnd_prev).
  - intros i. rewrite Hcount. rewrite bool_decide_eq_false_2 by discriminate.
    apply one_iff_zero_l; [reflexivity|].
    eapply one_iff_equiv; [apply added_condition|].
    apply (keyed_count nextById i (yields SymbolAdded prevById) Hnd_next).
  - intros i. rewrite Hcount. rewrite bool_decide_eq_false_2 by discriminate.
    apply one_iff_zero_l; [reflexivity|].
    eapply one_iff_equiv; [apply changed_condition|].
    apply (keyed_count nextById i (yields SymbolChanged prevById) Hnd_next).
  - apply Forall_app. split.
    + eapply Forall_impl; [exact Hr|]. intros e (_ & Hi & _). exact Hi.
    + eapply Forall_impl; [exact Ha|]. intros e (_ & Hi & _). exact Hi.
  - exists removed, added. split; [reflexivity|]. split.
    + eapply Forall_impl; [exact Hr|]. intros e (Hk & _). exact Hk.
    + eapply Forall_impl; [exact Ha|]. intros e (Hk & _). exact Hk.
  - apply Forall_app. split.
    + eapply Forall_impl; [exact Hr|]. intros e (_ & _ & Hs). exact Hs.
    + eapply Forall_impl; [exact Ha|]. intros e (_ & _ & Hs). exact Hs.
Qed.

End DiffCharacterisation.

(* ===================================================================== *)
(** ** The history service: recording a diff pass *)
(* ===================================================================== *)

Section Recording.

Variable key : string.

Lemma record_events diff : forall s h,
  CodeHistoryService._perFile s !! key = Some h ->
  exists t,
    Handler.for_each diff (CodeHistoryService.record key) s =
      (Return tt,
       CodeHistoryService.set_perFile
         (fun m =>
            <[key := {| CodeHistoryService.h_uri := CodeHistoryService.h_uri h;
                        CodeHistoryService.events := CodeHistoryService.events h ++ diff;
                        CodeHistoryService.lastSnapshot := CodeHistoryService.lastSnapshot h |}]> m)
         s,
       t)
    /\ fired t = diff.
Proof.
  induction diff as [|e diff IH]; intros s h Hh.
  - exists []. split; [|reflexivity]. cbn. unfold Handler.ret. f_equal. f_equal.
    destruct s as [perFile n]. unfold CodeHistoryService.set_perFile. cbn in *. f_equal.
    rewrite app_nil_r. symmetry. apply insert_id. rewrite Hh. now destruct h.
  - cbn [Handler.for_each]. unfold Handler.bind at 1.
    unfold CodeHistoryService.record at 1. unfold Handler.bind at 1, Handler.modify, Handler.fire.
    unfold CodeHistoryService.update_history at 1.
    unfold CodeHistoryService.set_perFile at 1. cbn [CodeHistoryService._perFile].
    rewrite Hh. cbn [app].
    match goal with
    | |- context [Handler.for_each diff (CodeHistoryService.record key) ?s1] =>
        destruct (IH s1 {| CodeHistoryService.h_uri := CodeHistoryService.h_uri h;
                           CodeHistoryService.events := CodeHistoryService.events h ++ [e];
                           CodeHistoryService.lastSnapshot := CodeHistoryService.lastSnapshot h |})
          as (t & -> & Hfired)
    end.
    { cbn. apply lookup_insert_eq. }
    eexists. split.
    + f_equal. f_equal. unfold CodeHistoryService.set_perFile. cbn. f_equal.
      rewrite insert_insert_eq, <- app_assoc. reflexivity.
    + unfold fired in *. cbn [flat_map app]. now rewrite Hfired.
Qed.

End Recording.

Lemma onSnapshotUpdated_run clock structure modelService uri0 model next s :
  getModel modelService uri0 = Some model ->
  CodeStructureService.getSnapshot structure uri0 = Some next ->
  exists s' t,
    CodeHistoryService.onSnapshotUpdated clock structure modelService uri0 s = (Return tt, s', t)
    /\ fired t =
         match remembered s uri0 with
         | None => []
         | Some previous =>
             fst (CodeHistoryService.computeDiffEvents clock
                    (CodeHistoryService.NEXT_EVENT_ID s) previous next)
         end
    /\ CodeHistoryService.getEventsForFile s' uri0 =
         CodeHistoryService.getEventsForFile s uri0 ++ fired t
    /\ remembered s' uri0 = Some next.
Proof.
  intros Hmodel Hsnap. unfold CodeHistoryService.onSnapshotUpdated, remembered,
    CodeHistoryService.getEventsForFile.
  rewrite Hmodel, Hsnap. set (key := uri_toString uri0).
  unfold Handler.try_catch, Handler.bind at 1, Handler.get.
  destruct s as [perFile nextId]. cbn [CodeHistoryService._perFile CodeHistoryService.NEXT_EVENT_ID].
  destruct (perFile !! key) as [h|] eqn:Hh.
  - unfold Handler.bind at 1, Handler.ret at 1. unfold Handler.bind at 1, Handler.modify at 1.
    unfold CodeHistoryService.update_history at 1, CodeHistoryService.set_perFile at 1.
    cbn [CodeHistoryService._perFile CodeHistoryService.NEXT_EVENT_ID]. rewrite Hh.
    destruct (CodeHistoryService.lastSnapshot h) as [previous|] eqn:Hlast.
    + unfold Handler.bind at 1, Handler.get.
      cbn [CodeHistoryService._perFile CodeHistoryService.NEXT_EVENT_ID].
      destruct (CodeHistoryService.computeDiffEvents clock nextId previous next)
        as [diff nextId'] eqn:Hdiff.
      unfold Handler.bind at 1, Handler.modify at 1, CodeHistoryService.set_NEXT_EVENT_ID.
      cbn [CodeHistoryService._perFile CodeHistoryService.NEXT_EVENT_ID].
      match goal with
      | |- context [Handler.for_each diff (CodeHistoryService.record key) ?s1] =>
          destruct (record_events key diff s1
                      {| CodeHistoryService.h_uri := CodeHistoryService.h_uri h;
                         CodeHistoryService.events := CodeHistoryService.events h;
                         CodeHistoryService.lastSnapshot := Some next |})
            as (t & -> & Hfired)
      end.
      { cbn. apply lookup_insert_eq. }
      eexists _, _. split; [reflexivity|]. cbn [app fst]. split; [exact Hfired|].
      cbn. rewrite lookup_insert_eq. cbn. rewrite Hfired. split; reflexivity.
    + eexists _, _. split; [reflexivity|]. cbn. rewrite lookup_insert_eq. cbn.
      rewrite app_nil_r. repeat split; reflexivity.
  - unfold Handler.bind at 1. unfold Handler.bind at 1, Handler.modify at 1, Handler.ret at 1.
    unfold Handler.bind at 1, Handler.modify at 1.
    unfold CodeHistoryService.update_history at 1, CodeHistoryService.set_perFile.
    cbn [CodeHistoryService._perFile CodeHistoryService.NEXT_EVENT_ID
         CodeHistoryService.lastSnapshot].
    rewrite lookup_insert_eq.
    eexists _, _. split; [reflexivity|]. cbn. rewrite lookup_insert_eq. cbn.
    repeat split; reflexivity.
Qed.

(** When the ids of a snapshot are not repeated, the name that the
    snapshot gives to the id of a symbol is the name of that symbol. *)
Lemma nameOf_unique snapshot symbol :
  NoDup (ids snapshot) ->
  In symbol (symbols snapshot) ->
  nameOf snapshot (id symbol) = Some (name symbol).
Proof.
  unfold ids, nameOf. induction (symbols snapshot) as [|x l IH]; [intros _ []|].
  cbn [List.map]. intros Hnd Hin. apply NoDup_cons in Hnd as (Hnot & Hnd).
  rewrite last_filter_cons.
  destruct Hin as [->|Hin].
  - assert (Hnone : List.filter (fun s => String.eqb (id s) (id symbol)) l = []).
    { clear IH Hnd. induction l as [|y l IHl]; [reflexivity|]. cbn.
      destruct (String.eqb_spec (id y) (id symbol)) as [Heq|Hne].
      - elim Hnot. rewrite <- Heq. now left.
      - apply IHl. intros H. apply Hnot. now right. }
    rewrite Hnone. cbn. now rewrite String.eqb_refl.
  - specialize (IH Hnd Hin). destruct (last _) as [found|]; [exact IH|discriminate].
Qed.

(** C5.  For a remembered previous snapshot and a new snapshot of the
    same file, one diff pass emits exactly one [SymbolRemoved] event for
    each id of the previous snapshot that is absent from the next, one
    [SymbolAdded] event for each id of the next snapshot that is absent
    from the previous, and one [SymbolChanged] event for each id of both
    whose name differs; the removals come before the additions and
    changes; the [snapshot] reference of every event is the uri and
    version of the next snapshot; the events are appended to the history
    of the file.  Without a remembered previous snapshot the pass emits
    nothing. *)
Theorem diff_pass_emits_exactly
    (clock : Z -> Z) (structure : CodeStructureService.state) (modelService : IModelService)
    (uri0 : URI) (model : ITextModel) (next : FileStructureSnapshot)
    (s : CodeHistoryService.state) :
  getModel modelService uri0 = Some model ->
  CodeStructureService.getSnapshot structure uri0 = Some next ->
  let '(result, s', t) :=
    CodeHistoryService.onSnapshotUpdated clock structure modelService uri0 s in
  result = Return tt
  /\ match remembered s uri0 with
     | None => fired t = []
     | Some previous => is_diff previous next (fired t)
     end
  /\ CodeHistoryService.getEventsForFile s' uri0 =
       CodeHistoryService.getEventsForFile s uri0 ++ fired t.
Proof.
  intros Hmodel Hsnap.
  destruct (onSnapshotUpdated_run clock structure modelService uri0 model next s Hmodel Hsnap)
    as (s' & t & -> & Hfired & Hevents & _).
  split; [reflexivity|]. split; [|exact Hevents].
  rewrite Hfired. destruct (remembered s uri0) as [previous|]; [|reflexivity].
  apply computeDiffEvents_is_diff.
Qed.

Lemma diff_pass_emits_exactly_witness :
  let before := Samples.opened Samples.callsDocument in
  let structure :=
    Workbench.after (CodeStructureService.recomputeSnapshot 5 Samples.editedDocument)
      (Workbench.structure before) in
  let modelService : IModelService :=
    {[ uri_toString Samples.sampleUri := Samples.editedDocument ]} in
  exists previous next,
    remembered (Workbench.history before) Samples.sampleUri = Some previous
    /\ CodeStructureService.getSnapshot structure Samples.sampleUri = Some next
    /\ let '(result, s', t) :=
         CodeHistoryService.onSnapshotUpdated Samples.clock structure modelService
           Samples.sampleUri (Workbench.history before) in
       is_diff previous next (fired t)
       /\ List.map shape (fired t) =
            [ (SymbolRemoved, Some "file:///sample.ts::a@1",
               {| ref_uri := Samples.sampleUri; ref_version := 2 |});
              (SymbolRemoved, Some "file:///sample.ts::b@2",
               {| ref_uri := Samples.sampleUri; ref_version := 2 |});
              (SymbolAdded, Some "file:///sample.ts::a2@1",
               {| ref_uri := Samples.sampleUri; ref_version := 2 |});
              (SymbolAdded, Some "file:///sample.ts::c@3",
               {| ref_uri := Samples.sampleUri; ref_version := 2 |}) ].
Proof.
  intros before structure modelService.
  destruct (remembered (Workbench.history before) Samples.sampleUri) as [previous|] eqn:Hprev;
    [|vm_compute in Hprev; discriminate].
  destruct (CodeStructureService.getSnapshot structure Samples.sampleUri) as [next|] eqn:Hnext;
    [|vm_compute in Hnext; discriminate].
  exists previous, next. split; [reflexivity|]. split; [reflexivity|].
  pose proof (diff_pass_emits_exactly Samples.clock structure modelService Samples.sampleUri
                Samples.editedDocument next (Workbench.history before)
                ltac:(apply lookup_singleton_eq) Hnext) as H.
  rewrite Hprev in H.
  destruct (CodeHistoryService.onSnapshotUpdated Samples.clock structure modelService
              Samples.sampleUri (Workbench.history before)) as [[result s'] t] eqn:Hrun.
  destruct H as (_ & Hdiff & _). split; [exact Hdiff|].
  assert (Ht : List.map shape (fired (snd
            (CodeHistoryService.onSnapshotUpdated Samples.clock structure modelService
               Samples.sampleUri (Workbench.history before)))) = List.map shape (fired t))
    by (rewrite Hrun; reflexivity).
  rewrite <- Ht. vm_compute. reflexivity.
Defined.

(* ===================================================================== *)
(** ** The call-graph service: the two indexes *)
(* ===================================================================== *)

Section IndexFacts.

#[local] Arguments String.eqb : simpl never.

Lemma removeEdge_fileGraphs d s :
  CodeGraphService._fileGraphs (CodeGraphService.removeEdge d s) = CodeGraphService._fileGraphs s
  /\ CodeGraphService.allocated (CodeGraphService.removeEdge d s) = CodeGraphService.allocated s
  /\ CodeGraphService._symbolToFile (CodeGraphService.removeEdge d s) =
       CodeGraphService._symbolToFile s.
Proof.
  unfold CodeGraphService.removeEdge.
  destruct (CodeGraphService._outgoingEdges s !! from d);
    match goal with
    | |- context [CodeGraphService._incomingEdges ?s1 !! to d] =>
        destruct (CodeGraphService._incomingEdges s1 !! to d)
    end; repeat split; reflexivity.
Qed.

Lemma removeEdges_fileGraphs old : forall s,
  CodeGraphService._fileGraphs (CodeGraphService.removeEdges old s) = CodeGraphService._fileGraphs s
  /\ CodeGraphService.allocated (CodeGraphService.removeEdges old s) = CodeGraphService.allocated s
  /\ CodeGraphService._symbolToFile (CodeGraphService.removeEdges old s) =
       CodeGraphService._symbolToFile s.
Proof.
  unfold CodeGraphService.removeEdges.
  induction old as [|d old IH]; intros s; cbn [fold_left]; [repeat split; reflexivity|].
  destruct (IH (CodeGraphService.removeEdge d s)) as (-> & -> & ->).
  apply removeEdge_fileGraphs.
Qed.

Lemma addEdge_fileGraphs d s :
  CodeGraphService._fileGraphs (CodeGraphService.addEdge d s) = CodeGraphService._fileGraphs s
  /\ CodeGraphService.allocated (CodeGraphService.addEdge d s) = CodeGraphService.allocated s
  /\ CodeGraphService._symbolToFile (CodeGraphService.addEdge d s) =
       CodeGraphService._symbolToFile s.
Proof. repeat split; reflexivity. Qed.

Lemma addEdges_fileGraphs new : forall s,
  CodeGraphService._fileGraphs (CodeGraphService.addEdges new s) = CodeGraphService._fileGraphs s
  /\ CodeGraphService.allocated (CodeGraphService.addEdges new s) = CodeGraphService.allocated s
  /\ CodeGraphService._symbolToFile (CodeGraphService.addEdges new s) =
       CodeGraphService._symbolToFile s.
Proof.
  unfold CodeGraphService.addEdges.
  induction new as [|d new IH]; intros s; cbn [fold_left]; [repeat split; reflexivity|].
  destruct (IH (CodeGraphService.addEdge d s)) as (-> & -> & ->).
  apply addEdge_fileGraphs.
Qed.

Lemma filter_filter {A} (p q : A -> bool) l :
  List.filter q (List.filter p l) = List.filter (fun x => p x && q x) l.
Proof.
  induction l as [|x l IH]; [reflexivity|]. cbn. destruct (p x); cbn.
  - destruct (q x); now rewrite IH.
  - exact IH.
Qed.

Lemma removeEdge_getCallees d s sid :
  CodeGraphService.getCallees (CodeGraphService.removeEdge d s) sid =
    List.filter (survives from [d] sid) (CodeGraphService.getCallees s sid).
Proof.
  unfold CodeGraphService.getCallees, CodeGraphService.removeEdge, survives.
  cbn [forallb]. 
  assert (Hout : forall s1,
    CodeGraphService._outgoingEdges
      (match CodeGraphService._incomingEdges s1 !! to d with
       | Some incoming =>
           CodeGraphService.set_incomingEdges
             (fun m => <[to d := List.filter (CodeGraphService.not_same d) incoming]> m) s1
       | None => s1
       end) = CodeGraphService._outgoingEdges s1).
  { intros s1. now destruct (CodeGraphService._incomingEdges s1 !! to d). }
  rewrite Hout. clear Hout.
  destruct (CodeGraphService._outgoingEdges s !! from d) as [outgoing|] eqn:Hd.
  - cbn [CodeGraphService._outgoingEdges CodeGraphService.set_outgoingEdges].
    destruct (String.eqb_spec (from d) sid) as [<-|Hne].
    + rewrite lookup_insert_eq, Hd. cbn [default]. apply List.filter_ext. intros e.
      unfold CodeGraphService.not_same. cbn [andb]. now rewrite andb_true_r.
    + rewrite lookup_insert_ne by assumption.
      symmetry. rewrite <- (List.filter_ext (fun _ => true)) by reflexivity.
      induction (default [] (CodeGraphService._outgoingEdges s !! sid)) as [|x l IH];
        [reflexivity|]. cbn. now rewrite IH.
  - destruct (String.eqb_spec (from d) sid) as [<-|Hne].
    + rewrite Hd. reflexivity.
    + symmetry. rewrite <- (List.filter_ext (fun _ => true)) by reflexivity.
      induction (default [] (CodeGraphService._outgoingEdges s !! sid)) as [|x l IH];
        [reflexivity|]. cbn. now rewrite IH.
Qed.

Lemma filter_all {A} (p : A -> bool) l :
  (forall x, p x = true) -> List.filter p l = l.
Proof.
  intros Hp. induction l as [|x l IH]; [reflexivity|]. cbn. now rewrite Hp, IH.
Qed.

Lemma removeEdge_getCallers d s sid :
  CodeGraphService.getCallers (CodeGraphService.removeEdge d s) sid =
    List.filter (survives to [d] sid) (CodeGraphService.getCallers s sid).
Proof.
  unfold CodeGraphService.getCallers, CodeGraphService.removeEdge, survives.
  cbn [forallb].
  set (s1 := match CodeGraphService._outgoingEdges s !! from d with
             | Some outgoing =>
                 CodeGraphService.set_outgoingEdges
                   (fun m => <[from d := List.filter (CodeGraphService.not_same d) outgoing]> m) s
             | None => s
             end).
  assert (Hin : CodeGraphService._incomingEdges s1 = CodeGraphService._incomingEdges s).
  { subst s1. now destruct (CodeGraphService._outgoingEdges s !! from d). }
  rewrite Hin.
  destruct (CodeGraphService._incomingEdges s !! to d) as [incoming|] eqn:Hd.
  - cbn [CodeGraphService._incomingEdges CodeGraphService.set_incomingEdges]. rewrite Hin.
    destruct (String.eqb_spec (to d) sid) as [<-|Hne].
    + rewrite lookup_insert_eq, Hd. cbn [default]. apply List.filter_ext. intros e.
      unfold CodeGraphService.not_same. cbn [andb]. now rewrite andb_true_r.
    + rewrite lookup_insert_ne by assumption. symmetry. now apply filter_all.
  - rewrite Hin. destruct (String.eqb_spec (to d) sid) as [<-|Hne].
    + rewrite Hd. reflexivity.
    + symmetry. now apply filter_all.
Qed.

Lemma survives_cons select d old sid e :
  survives select (d :: old) sid e = survives select [d] sid e && survives select old sid e.
Proof. unfold survives. cbn [forallb]. now rewrite andb_true_r. Qed.

Lemma removeEdges_getCallees old : forall s sid,
  CodeGraphService.getCallees (CodeGraphService.removeEdges old s) sid =
    List.filter (survives from old sid) (CodeGraphService.getCallees s sid).
Proof.
  unfold CodeGraphService.removeEdges.
  induction old as [|d old IH]; intros s sid; cbn [fold_left].
  - symmetry. now apply filter_all.
  - rewrite IH, removeEdge_getCallees, filter_filter.
    apply List.filter_ext. intros e. now rewrite (survives_cons from d old).
Qed.

Lemma removeEdges_getCallers old : forall s sid,
  CodeGraphService.getCallers (CodeGraphService.removeEdges old s) sid =
    List.filter (survives to old sid) (CodeGraphService.getCallers s sid).
Proof.
  unfold CodeGraphService.removeEdges.
  induction old as [|d old IH]; intros s sid; cbn [fold_left].
  - symmetry. now apply filter_all.
  - rewrite IH, removeEdge_getCallers, filter_filter.
    apply List.filter_ext. intros e. now rewrite (survives_cons to d old).
Qed.

Lemma addEdge_getCallees d s sid :
  CodeGraphService.getCallees (CodeGraphService.addEdge d s) sid =
    CodeGraphService.getCallees s sid ++ List.filter (fun e => String.eqb (from e) sid) [d].
Proof.
  unfold CodeGraphService.getCallees, CodeGraphService.addEdge. cbn.
  destruct (String.eqb_spec (from d) sid) as [<-|Hne].
  - now rewrite lookup_insert_eq.
  - rewrite lookup_insert_ne by assumption. now rewrite app_nil_r.
Qed.

Lemma addEdge_getCallers d s sid :
  CodeGraphService.getCallers (CodeGraphService.addEdge d s) sid =
    CodeGraphService.getCallers s sid ++ List.filter (fun e => String.eqb (to e) sid) [d].
Proof.
  unfold CodeGraphService.getCallers, CodeGraphService.addEdge. cbn.
  destruct (String.eqb_spec (to d) sid) as [<-|Hne].
  - now rewrite lookup_insert_eq.
  - rewrite lookup_insert_ne by assumption. now rewrite app_nil_r.
Qed.

Lemma addEdges_getCallees new : forall s sid,
  CodeGraphService.getCallees (CodeGraphService.addEdges new s) sid =
    CodeGraphService.getCallees s sid ++ List.filter (fun e => String.eqb (from e) sid) new.
Proof.
  unfold CodeGraphService.addEdges.
  induction new as [|d new IH]; intros s sid; cbn [fold_left].
  - cbn. now rewrite app_nil_r.
  - rewrite IH, addEdge_getCallees, <- app_assoc. f_equal.
    change (d :: new) with ([d] ++ new). now rewrite List.filter_app.
Qed.

Lemma addEdges_getCallers new : forall s sid,
  CodeGraphService.getCallers (CodeGraphService.addEdges new s) sid =
    CodeGraphService.getCallers s sid ++ List.filter (fun e => String.eqb (to e) sid) new.
Proof.
  unfold CodeGraphService.addEdges.
  induction new as [|d new IH]; intros s sid; cbn [fold_left].
  - cbn. now rewrite app_nil_r.
  - rewrite IH, addEdge_getCallers, <- app_assoc. f_equal.
    change (d :: new) with ([d] ++ new). now rewrite List.filter_app.
Qed.

End IndexFacts.

(* ===================================================================== *)
(** ** The call-graph service: computing the edges of a file *)
(* ===================================================================== *)

Section LinkFacts.

#[local] Arguments String.eqb : simpl never.

Variable base : nat.
Variable symbols : list SymbolNodeLite.

Lemma extends_refl acc : extends acc acc.
Proof. split; [exists []; now rewrite app_nil_r | reflexivity]. Qed.

Lemma extends_trans acc1 acc2 acc3 : extends acc1 acc2 -> extends acc2 acc3 -> extends acc1 acc3.
Proof.
  intros ((m1 & H1) & S1) ((m2 & H2) & S2). split.
  - exists (m1 ++ m2). now rewrite H2, H1, app_assoc.
  - now transitivity (snd acc2).
Qed.

Lemma linkCandidate_linked fromSymbol target acc :
  linked base symbols acc ->
  In fromSymbol symbols ->
  In target symbols ->
  let acc' := CodeGraphService.linkCandidate base fromSymbol acc target in
  linked base symbols acc'
  /\ extends acc acc'
  /\ CodeGraphService.edgeKey (id fromSymbol) (id target) ∈ snd acc'.
Proof.
  intros (Hrefs & Hkeys & Hedges) Hfrom Htarget. unfold CodeGraphService.linkCandidate.
  case_bool_decide as Hseen; cbv zeta.
  - split; [split; [|split]; assumption|]. split; [apply extends_refl|exact Hseen].
  - unfold linked, extends. cbn [fst snd]. split; [split; [|split]|split].
    + rewrite List.map_app, length_app, seq_app, Hrefs. reflexivity.
    + intros k Hk. apply elem_of_union in Hk as [Hk|Hk].
      * apply elem_of_singleton in Hk. subst k. eexists. split.
        -- apply in_or_app. right. left. reflexivity.
        -- reflexivity.
      * destruct (Hkeys k Hk) as (e & He & Hkey). exists e.
        split; [apply in_or_app; now left|assumption].
    + intros e He. apply in_app_or in He as [He|[<-|[]]]; [now apply Hedges|].
      cbn. split; [reflexivity|]. split.
      * exists fromSymbol. split; [assumption|reflexivity].
      * exists target. split; [assumption|reflexivity].
    + split; [eexists; reflexivity|]. apply union_subseteq_r.
    + apply elem_of_union. left. now apply elem_of_singleton.
Qed.

Lemma linkCandidates_linked fromSymbol candidates : forall acc,
  linked base symbols acc ->
  In fromSymbol symbols ->
  (forall c, In c candidates -> In c symbols) ->
  let acc' := CodeGraphService.linkCandidates base fromSymbol candidates acc in
  linked base symbols acc'
  /\ extends acc acc'
  /\ (forall c, In c candidates ->
        CodeGraphService.edgeKey (id fromSymbol) (id c) ∈ snd acc').
Proof.
  unfold CodeGraphService.linkCandidates.
  induction candidates as [|target candidates IH]; intros acc Hlinked Hfrom Hcands.
  - cbn. split; [assumption|]. split; [apply extends_refl|]. intros c [].
  - cbn [fold_left].
    destruct (linkCandidate_linked fromSymbol target acc Hlinked Hfrom
                (Hcands target (or_introl eq_refl))) as (Hlinked1 & Hext1 & Hkey1).
    destruct (IH _ Hlinked1 Hfrom (fun c Hc => Hcands c (or_intror Hc)))
      as (Hlinked' & Hext' & Hkeys').
    split; [assumption|]. split; [eapply extends_trans; eassumption|].
    intros c [<-|Hc]; [|now apply Hkeys'].
    destruct Hext' as (_ & Hsub). apply Hsub, Hkey1.
Qed.

Lemma find_In {A} (p : A -> bool) l x : List.find p l = Some x -> In x l.
Proof. intros H. now apply find_some in H. Qed.

Lemma findContainingSymbol_In position found :
  CodeGraphService.findContainingSymbol symbols position = Some found -> In found symbols.
Proof.
  induction symbols as [|symbol rest IH]; cbn; [discriminate|].
  repeat match goal with
         | |- context [if ?c then _ else _] => destruct c
         end;
    try (intros H; right; now apply IH).
  intros H. injection H as <-. now left.
Qed.

Lemma resolve_In position found : resolve symbols position = Some found -> In found symbols.
Proof.
  unfold resolve. destruct (CodeGraphService.findContainingSymbol symbols position) eqn:E.
  - intros H. injection H as <-. eapply findContainingSymbol_In, E.
  - apply find_In.
Qed.

Variable model : ITextModel.
Hypothesis model_live : isDisposed model = false.

Let fileSymbol := List.find (fun s => bool_decide (kind s = File)) symbols.
Let positionOf (m : RegExp.result) : Position :=
  TextModel.position_from (value model) (RegExp.index m) 1 1.

Lemma linkOccurrence_linked candidates acc m :
  linked base symbols acc ->
  (forall c, In c candidates -> In c symbols) ->
  exists acc',
    CodeGraphService.linkOccurrence base model symbols fileSymbol candidates acc m = Return acc'
    /\ linked base symbols acc'
    /\ extends acc acc'
    /\ (forall f, resolve symbols (positionOf m) = Some f ->
         forall c, In c candidates -> CodeGraphService.edgeKey (id f) (id c) ∈ snd acc').
Proof.
  intros Hlinked Hcands. unfold CodeGraphService.linkOccurrence, TextModel.getPositionAt,
    TextModel.assertNotDisposed. rewrite model_live. cbn [Outcome.bind].
  fold (positionOf m).
  change (match CodeGraphService.findContainingSymbol symbols (positionOf m) with
          | Some symbol => Some symbol
          | None => fileSymbol
          end) with (resolve symbols (positionOf m)).
  destruct (resolve symbols (positionOf m)) as [f|] eqn:Hresolve.
  - destruct (linkCandidates_linked f candidates acc Hlinked
                (resolve_In _ _ Hresolve) Hcands) as (Hlinked' & Hext & Hkeys).
    eexists. split; [reflexivity|]. split; [assumption|]. split; [assumption|].
    intros f' Hf'. injection Hf' as <-. exact Hkeys.
  - exists acc. split; [reflexivity|]. split; [assumption|]. split; [apply extends_refl|].
    intros f' Hf'. discriminate.
Qed.

Lemma linkOccurrences_linked candidates matches : forall acc,
  linked base symbols acc ->
  (forall c, In c candidates -> In c symbols) ->
  exists acc',
    CodeGraphService.linkOccurrences base model symbols fileSymbol candidates matches acc
      = Return acc'
    /\ linked base symbols acc'
    /\ extends acc acc'
    /\ (forall m, In m matches ->
         forall f, resolve symbols (positionOf m) = Some f ->
         forall c, In c candidates -> CodeGraphService.edgeKey (id f) (id c) ∈ snd acc').
Proof.
  induction matches as [|m matches IH]; intros acc Hlinked Hcands.
  - exists acc. split; [reflexivity|]. split; [assumption|]. split; [apply extends_refl|].
    intros m [].
  - cbn [CodeGraphService.linkOccurrences].
    destruct (linkOccurrence_linked candidates acc m Hlinked Hcands)
      as (acc1 & -> & Hlinked1 & Hext1 & Hkeys1). cbn [Outcome.bind].
    destruct (IH acc1 Hlinked1 Hcands) as (acc' & -> & Hlinked' & Hext' & Hkeys').
    exists acc'. split; [reflexivity|]. split; [assumption|].
    split; [eapply extends_trans; eassumption|].
    intros m' [<-|Hm'] f Hf c Hc; [|now apply (Hkeys' m' Hm' f Hf c Hc)].
    destruct Hext' as (_ & Hsub). apply Hsub. now apply (Hkeys1 f Hf c Hc).
Qed.

Lemma linkNames_linked text symbolByName : forall acc,
  linked base symbols acc ->
  (forall n candidates c, In (n, candidates) symbolByName -> In c candidates -> In c symbols) ->
  exists acc',
    CodeGraphService.linkNames base model text symbols fileSymbol symbolByName acc = Return acc'
    /\ linked base symbols acc'
    /\ extends acc acc'
    /\ (forall n candidates m,
         In (n, candidates) symbolByName ->
         In m (RegExp.exec_all (CodeGraphService.callRe n) text) ->
         forall f, resolve symbols (positionOf m) = Some f ->
         forall c, In c candidates -> CodeGraphService.edgeKey (id f) (id c) ∈ snd acc').
Proof.
  induction symbolByName as [|(n0, candidates0) rest IH]; intros acc Hlinked Hcands.
  - exists acc. split; [reflexivity|]. split; [assumption|]. split; [apply extends_refl|].
    intros n candidates m [].
  - cbn [CodeGraphService.linkNames].
    destruct (linkOccurrences_linked candidates0
                (RegExp.exec_all (CodeGraphService.callRe n0) text) acc Hlinked
                (fun c Hc => Hcands n0 candidates0 c (or_introl eq_refl) Hc))
      as (acc1 & -> & Hlinked1 & Hext1 & Hkeys1). cbn [Outcome.bind].
    destruct (IH acc1 Hlinked1
                (fun n candidates c Hin Hc => Hcands n candidates c (or_intror Hin) Hc))
      as (acc' & -> & Hlinked' & Hext' & Hkeys').
    exists acc'. split; [reflexivity|]. split; [assumption|].
    split; [eapply extends_trans; eassumption|].
    intros n candidates m [Heq|Hin] Hm f Hf c Hc.
    + injection Heq as <- <-. destruct Hext' as (_ & Hsub). apply Hsub.
      now apply (Hkeys1 m Hm f Hf c Hc).
    + now apply (Hkeys' n candidates m Hin Hm f Hf c Hc).
Qed.

End LinkFacts.

Section GroupFacts.

#[local] Arguments String.eqb : simpl never.

Lemma JsMap_In_set_inv {V} (m : JsMap.t V) k v k' v' :
  In (k, v) (JsMap.set m k' v') -> (k = k' /\ v = v') \/ In (k, v) m.
Proof.
  induction m as [|(k0, v0) m IH]; cbn.
  - intros [H|[]]. injection H as <- <-. now left.
  - destruct (String.eqb_spec k0 k') as [->|Hne]; cbn.
    + intros [H|H]; [injection H as <- <-; now left|right; now right].
    + intros [H|H]; [right; now left|].
      destruct (IH H) as [?|?]; [now left|right; now right].
Qed.

Lemma JsMap_In_set_same {V} (m : JsMap.t V) k v : In (k, v) (JsMap.set m k v).
Proof.
  induction m as [|(k0, v0) m IH]; cbn; [now left|].
  destruct (String.eqb_spec k0 k) as [->|Hne]; cbn; [now left|now right].
Qed.

Lemma JsMap_In_set_other {V} (m : JsMap.t V) k v k' v' :
  k <> k' -> In (k, v) m -> In (k, v) (JsMap.set m k' v').
Proof.
  intros Hne. induction m as [|(k0, v0) m IH]; cbn; [intros []|].
  destruct (String.eqb_spec k0 k') as [->|Hne0]; cbn.
  - intros [H|H]; [injection H as <- <-; congruence|now right].
  - intros [H|H]; [now left|right; now apply IH].
Qed.

Lemma JsMap_get_Some_In {V} (m : JsMap.t V) k v : JsMap.get m k = Some v -> In (k, v) m.
Proof.
  unfold JsMap.get. induction m as [|(k0, v0) m IH]; cbn; [discriminate|].
  destruct (String.eqb_spec k0 k) as [->|Hne]; cbn.
  - intros H. injection H as <-. now left.
  - intros H. right. now apply IH.
Qed.

Lemma groupSymbol_grouped processed m x :
  grouped processed m -> grouped (processed ++ [x]) (CodeGraphService.groupSymbol m x).
Proof.
  intros (Hnd & Hsound & Hcomplete). unfold CodeGraphService.groupSymbol.
  destruct (CodeGraphService.is_callable x) eqn:Hx.
  - split; [|split].
    + now apply JsMap_set_NoDup.
    + intros n candidates c Hin Hc.
      apply JsMap_In_set_inv in Hin as [(-> & ->)|Hin].
      * apply in_app_or in Hc as [Hc|[<-|[]]].
        -- destruct (JsMap.get m (name x)) as [bucket|] eqn:Hget; [|destruct Hc].
           apply JsMap_get_Some_In in Hget.
           destruct (Hsound _ _ _ Hget Hc) as (Hp & Hcall & Hname).
           split; [apply in_or_app; now left|]. split; assumption.
        -- split; [apply in_or_app; right; now left|]. split; [assumption|reflexivity].
      * destruct (Hsound _ _ _ Hin Hc) as (Hp & Hcall & Hname).
        split; [apply in_or_app; now left|]. split; assumption.
    + intros s Hs Hcall. apply in_app_or in Hs as [Hs|[<-|[]]].
      * destruct (Hcomplete s Hs Hcall) as (candidates & Hin & Hc).
        destruct (String.string_dec (name s) (name x)) as [Heq|Hne].
        -- rewrite Heq in Hin |- *.
           rewrite (JsMap_get_In m (name x) candidates Hnd Hin). cbn [default].
           eexists. split; [apply JsMap_In_set_same|]. apply in_or_app. now left.
        -- exists candidates. split; [|assumption]. now apply JsMap_In_set_other.
      * eexists. split; [apply JsMap_In_set_same|]. apply in_or_app. right. now left.
  - split; [assumption|]. split.
    + intros n candidates c Hin Hc. destruct (Hsound _ _ _ Hin Hc) as (Hp & Hcall & Hname).
      split; [apply in_or_app; now left|]. split; assumption.
    + intros s Hs Hcall. apply in_app_or in Hs as [Hs|[<-|[]]]; [now apply Hcomplete|].
      congruence.
Qed.

Lemma groupByName_fold symbols : forall processed m,
  grouped processed m -> grouped (processed ++ symbols) (fold_left CodeGraphService.groupSymbol symbols m).
Proof.
  induction symbols as [|x symbols IH]; intros processed m Hg; cbn [fold_left].
  - now rewrite app_nil_r.
  - replace (processed ++ x :: symbols) with ((processed ++ [x]) ++ symbols)
      by (now rewrite <- app_assoc).
    apply IH, groupSymbol_grouped, Hg.
Qed.

Lemma groupByName_grouped symbols : grouped symbols (CodeGraphService.groupByName symbols).
Proof.
  apply (groupByName_fold symbols [] []). split; [constructor|]. split.
  - intros n candidates c [].
  - intros s [].
Qed.

End GroupFacts.

Lemma linked_initial base symbols : linked base symbols ([], ∅).
Proof.
  split; [reflexivity|]. split.
  - intros key Hkey. now apply elem_of_empty in Hkey.
  - intros e [].
Qed.

(** On a live buffer the computation of the edges returns; its result is
    described by the invariant of its loops. *)
Lemma computeIntraFileCallEdges_spec base snapshot model :
  isDisposed model = false ->
  exists edges0 seen,
    CodeGraphService.computeIntraFileCallEdges base snapshot model = Return edges0
    /\ linked base (symbols snapshot) (edges0, seen)
    /\ (forall n candidates m,
          In (n, candidates) (CodeGraphService.groupByName (symbols snapshot)) ->
          In m (RegExp.exec_all (CodeGraphService.callRe n) (value model)) ->
          forall f,
            resolve (symbols snapshot)
              (TextModel.position_from (value model) (RegExp.index m) 1 1) = Some f ->
            forall c, In c candidates -> CodeGraphService.edgeKey (id f) (id c) ∈ seen).
Proof.
  intros Hlive. unfold CodeGraphService.computeIntraFileCallEdges, TextModel.getValue,
    TextModel.assertNotDisposed. rewrite Hlive. cbn [Outcome.bind].
  destruct (groupByName_grouped (symbols snapshot)) as (_ & Hsound & _).
  destruct (linkNames_linked base (symbols snapshot) model Hlive (value model)
              (CodeGraphService.groupByName (symbols snapshot)) ([], ∅)
              (linked_initial base (symbols snapshot))
              (fun n candidates c Hin Hc => proj1 (Hsound n candidates c Hin Hc)))
    as ((edges0 & seen) & -> & Hlinked & _ & Hkeys).
  exists edges0, seen. split; [reflexivity|]. split; [assumption|]. exact Hkeys.
Qed.

(* ===================================================================== *)
(** ** The call-graph service: a rebuild pass *)
(* ===================================================================== *)

Section RebuildFacts.

#[local] Arguments String.eqb : simpl never.

Lemma for_each_modify {S P A} (xs : list A) (f : A -> S -> S) : forall s : S,
  Handler.for_each (P := P) xs (fun x => Handler.modify (f x)) s =
    (Return tt, fold_left (fun s x => f x s) xs s, []).
Proof.
  induction xs as [|x xs IH]; intros s; [reflexivity|].
  cbn [Handler.for_each fold_left]. unfold Handler.bind at 1, Handler.modify at 1.
  now rewrite IH.
Qed.

Lemma symbolToFile_frame {A} (xs : list A) (g : A -> gmap string string -> gmap string string) :
  forall s,
    let s' := fold_left (fun s x => CodeGraphService.set_symbolToFile (g x) s) xs s in
    CodeGraphService._fileGraphs s' = CodeGraphService._fileGraphs s
    /\ CodeGraphService._outgoingEdges s' = CodeGraphService._outgoingEdges s
    /\ CodeGraphService._incomingEdges s' = CodeGraphService._incomingEdges s
    /\ CodeGraphService.allocated s' = CodeGraphService.allocated s.
Proof.
  induction xs as [|x xs IH]; intros s; cbn [fold_left]; [repeat split; reflexivity|].
  destruct (IH (CodeGraphService.set_symbolToFile (g x) s)) as (-> & -> & -> & ->).
  repeat split; reflexivity.
Qed.

(** The state after a pass that was not skipped, in terms of what the
    queries return. *)
Lemma rebuildForUri_run structure modelService uri0 snapshot model s :
  CodeStructureService.getSnapshot structure uri0 = Some snapshot ->
  getModel modelService uri0 = Some model ->
  isDisposed model = false ->
  Text.len (value model) <= CodeGraphService.MAX_FILE_LENGTH_FOR_SCAN ->
  exists newEdges seen s',
    CodeGraphService.computeIntraFileCallEdges (CodeGraphService.allocated s) snapshot model
      = Return newEdges
    /\ linked (CodeGraphService.allocated s) (symbols snapshot) (newEdges, seen)
    /\ CodeGraphService.rebuildForUri structure modelService uri0 s
         = (Return tt, s', [Fire uri0 s'])
    /\ CodeGraphService._fileGraphs s' =
         <[uri_toString uri0 := {| CodeGraphService.fg_uri := uri0;
                                   CodeGraphService.edges := newEdges |}]>
           (CodeGraphService._fileGraphs s)
    /\ CodeGraphService.allocated s' = (CodeGraphService.allocated s + length newEdges)%nat
    /\ (forall sid,
          CodeGraphService.getCallees s' sid =
            List.filter (survives from (CodeGraphService.getEdgesForFile s uri0) sid)
              (CodeGraphService.getCallees s sid)
            ++ List.filter (fun e => String.eqb (from e) sid) newEdges)
    /\ (forall sid,
          CodeGraphService.getCallers s' sid =
            List.filter (survives to (CodeGraphService.getEdgesForFile s uri0) sid)
              (CodeGraphService.getCallers s sid)
            ++ List.filter (fun e => String.eqb (to e) sid) newEdges).
Proof.
  intros Hsnap Hmodel Hlive Hsmall.
  destruct (computeIntraFileCallEdges_spec (CodeGraphService.allocated s) snapshot model Hlive)
    as (newEdges & seen & Hcompute & Hlinked & _).
  exists newEdges, seen.
  unfold CodeGraphService.rebuildForUri. rewrite Hsnap, Hmodel.
  unfold Handler.bind at 1, Handler.lift at 1, TextModel.getValueLength,
    TextModel.assertNotDisposed. rewrite Hlive.
  assert (Hnot : (CodeGraphService.MAX_FILE_LENGTH_FOR_SCAN <? Text.len (value model)) = false)
    by (apply Z.ltb_ge; assumption).
  rewrite Hnot. unfold Handler.try_catch, Handler.bind at 1, Handler.get.
  set (old := CodeGraphService.getEdgesForFile s uri0).
  set (s1 := CodeGraphService.removeEdges old s).
  assert (Hremove :
    (match CodeGraphService._fileGraphs s !! uri_toString uri0 with
     | Some oldFileGraph =>
         Handler.modify (P := URI)
           (CodeGraphService.removeEdges (CodeGraphService.edges oldFileGraph))
     | None => Handler.ret tt
     end) s = (Return tt, s1, [])).
  { subst s1 old. unfold CodeGraphService.getEdgesForFile.
    destruct (CodeGraphService._fileGraphs s !! uri_toString uri0); reflexivity. }
  unfold Handler.bind at 1. rewrite Hremove.
  unfold Handler.bind at 1, Handler.lift at 1. rewrite Hcompute.
  unfold Handler.bind at 1, Handler.modify at 1.
  unfold Handler.bind at 1, Handler.modify at 1.
  unfold Handler.bind at 1, Handler.modify at 1.
  unfold Handler.bind at 1. rewrite for_each_modify. unfold Handler.fire.
  cbn [app].
  match goal with
  | |- context [fold_left ?f (symbols snapshot) ?s2] =>
      destruct (symbolToFile_frame (symbols snapshot)
                  (fun symbol m => <[id symbol := uri_toString uri0]> m) s2)
        as (Hfg & Hout & Hin & Halloc);
      set (s' := fold_left f (symbols snapshot) s2) in *
  end.
  exists s'. split; [reflexivity|]. split; [assumption|]. split; [reflexivity|].
  destruct (removeEdges_fileGraphs old s) as (Hfg1 & Halloc1 & _). fold s1 in Hfg1, Halloc1.
  split; [|split; [|split]].
  - rewrite Hfg.
    match goal with
    | |- CodeGraphService._fileGraphs (CodeGraphService.addEdges ?n ?s3) = _ =>
        destruct (addEdges_fileGraphs n s3) as (-> & _ & _)
    end.
    cbn. now rewrite Hfg1.
  - rewrite Halloc.
    match goal with
    | |- CodeGraphService.allocated (CodeGraphService.addEdges ?n ?s3) = _ =>
        destruct (addEdges_fileGraphs n s3) as (_ & -> & _)
    end.
    cbn. now rewrite Halloc1.
  - intros sid. unfold CodeGraphService.getCallees at 1. rewrite Hout.
    fold (CodeGraphService.getCallees
            (CodeGraphService.addEdges newEdges
               (CodeGraphService.set_fileGraphs
                  (fun m => <[uri_toString uri0 :=
                     {| CodeGraphService.fg_uri := uri0;
                        CodeGraphService.edges := newEdges |}]> m)
                  (CodeGraphService.set_allocated
                     (fun n => (n + length newEdges)%nat) s1))) sid).
    rewrite addEdges_getCallees. f_equal.
    unfold s1. rewrite <- removeEdges_getCallees. reflexivity.
  - intros sid. unfold CodeGraphService.getCallers at 1. rewrite Hin.
    fold (CodeGraphService.getCallers
            (CodeGraphService.addEdges newEdges
               (CodeGraphService.set_fileGraphs
                  (fun m => <[uri_toString uri0 :=
                     {| CodeGraphService.fg_uri := uri0;
                        CodeGraphService.edges := newEdges |}]> m)
                  (CodeGraphService.set_allocated
                     (fun n => (n + length newEdges)%nat) s1))) sid).
    rewrite addEdges_getCallers. f_equal.
    unfold s1. rewrite <- removeEdges_getCallers. reflexivity.
Qed.

End RebuildFacts.

Section Replacement.

#[local] Arguments String.eqb : simpl never.

Variables (s s' : CodeGraphService.state) (uri0 : URI) (newEdges : list GraphEdge).

Let key := uri_toString uri0.
Let old := CodeGraphService.getEdgesForFile s uri0.
Let base := CodeGraphService.allocated s.

Hypothesis was_consistent : consistent s.
Hypothesis new_refs : List.map edge_ref newEdges = seq base (length newEdges).
Hypothesis new_fileGraphs :
  CodeGraphService._fileGraphs s' =
    <[key := {| CodeGraphService.fg_uri := uri0; CodeGraphService.edges := newEdges |}]>
      (CodeGraphService._fileGraphs s).
Hypothesis new_allocated : CodeGraphService.allocated s' = (base + length newEdges)%nat.
Hypothesis new_callees : forall sid,
  CodeGraphService.getCallees s' sid =
    List.filter (survives from old sid) (CodeGraphService.getCallees s sid)
    ++ List.filter (fun e => String.eqb (from e) sid) newEdges.
Hypothesis new_callers : forall sid,
  CodeGraphService.getCallers s' sid =
    List.filter (survives to old sid) (CodeGraphService.getCallers s sid)
    ++ List.filter (fun e => String.eqb (to e) sid) newEdges.

Lemma survives_spec select sid e :
  survives select old sid e = true <->
  forall d, In d old -> ~ (select d = sid /\ edge_ref e = edge_ref d).
Proof.
  unfold survives. rewrite forallb_forall. split.
  - intros H d Hd (Hsel & Href). specialize (H d Hd).
    apply negb_true_iff, andb_false_iff in H as [H|H].
    + apply String.eqb_neq in H. contradiction.
    + apply Nat.eqb_neq in H. contradiction.
  - intros H d Hd. apply negb_true_iff, andb_false_iff.
    destruct (String.eqb_spec (select d) sid) as [Hsel|Hsel]; [|now left].
    right. apply Nat.eqb_neq. intros Href. now apply (H d Hd).
Qed.

Lemma old_in_file e :
  In e old <->
  exists fileGraph,
    CodeGraphService._fileGraphs s !! key = Some fileGraph
    /\ In e (CodeGraphService.edges fileGraph).
Proof.
  unfold old, CodeGraphService.getEdgesForFile. fold key.
  destruct (CodeGraphService._fileGraphs s !! key) as [fileGraph|]; cbn.
  - split; [eauto|]. intros (fg & Heq & Hin). now injection Heq as <-.
  - split; [intros []|]. intros (fg & Heq & _). discriminate.
Qed.

Lemma new_ref_fresh e : In e newEdges -> (base <= edge_ref e < base + length newEdges)%nat.
Proof.
  intros Hin. apply (in_map edge_ref) in Hin. rewrite new_refs in Hin.
  now apply in_seq in Hin.
Qed.

Lemma recorded_after e :
  recorded s' e <->
  In e newEdges
  \/ exists key' fileGraph,
       key' <> key
       /\ CodeGraphService._fileGraphs s !! key' = Some fileGraph
       /\ In e (CodeGraphService.edges fileGraph).
Proof.
  unfold recorded. rewrite new_fileGraphs. split.
  - intros (key' & fg & Hlookup & Hin).
    destruct (decide (key = key')) as [<-|Hne].
    + rewrite lookup_insert_eq in Hlookup. injection Hlookup as <-. now left.
    + rewrite lookup_insert_ne in Hlookup by assumption. right.
      exists key', fg. split; [congruence|]. split; assumption.
  - intros [Hin|(key' & fg & Hne & Hlookup & Hin)].
    + exists key. eexists. split; [apply lookup_insert_eq|exact Hin].
    + exists key', fg. split; [|assumption]. rewrite lookup_insert_ne by congruence.
      assumption.
Qed.

Lemma index_after (select : GraphEdge -> string)
    (index index' : CodeGraphService.state -> string -> list GraphEdge) :
  (forall sid e, In e (index s sid) <-> recorded s e /\ select e = sid) ->
  (forall sid,
     index s' sid =
       List.filter (survives select old sid) (index s sid)
       ++ List.filter (fun e => String.eqb (select e) sid) newEdges) ->
  forall sid e, In e (index s' sid) <-> recorded s' e /\ select e = sid.
Proof.
  intros Hindex Hafter sid e. destruct was_consistent as (_ & _ & _ & Hfiles & _).
  rewrite Hafter, in_app_iff, !filter_In, recorded_after. split.
  - intros [(Hin & Hsurv)|(Hin & Hsel)].
    + apply Hindex in Hin as ((key' & fg & Hlookup & Hin) & Hsel).
      split; [|assumption]. right. exists key', fg.
      split; [|split; assumption]. intros ->.
      apply (proj1 (survives_spec select sid e)) with (d := e) in Hsurv.
      * apply Hsurv. split; [assumption|reflexivity].
      * apply old_in_file. eauto.
    + apply String.eqb_eq in Hsel. split; [now left|assumption].
  - intros ([Hin|(key' & fg & Hne & Hlookup & Hin)] & Hsel).
    + right. split; [assumption|]. now apply String.eqb_eq.
    + left. split.
      * apply Hindex. split; [|assumption]. exists key', fg. split; assumption.
      * apply survives_spec. intros d Hd (_ & Href).
        apply old_in_file in Hd as (fg0 & Hlookup0 & Hd).
        apply Hne. exact (Hfiles key' key fg fg0 e d Hlookup Hlookup0 Hin Hd Href).
Qed.

Lemma replacement_consistent : consistent s'.
Proof.
  destruct was_consistent as (Hcallees & Hcallers & Hdistinct & Hfiles & Hbound).
  split; [|split; [|split; [|split]]].
  - exact (index_after from CodeGraphService.getCallees CodeGraphService.getCallees
             Hcallees new_callees).
  - exact (index_after to CodeGraphService.getCallers CodeGraphService.getCallers
             Hcallers new_callers).
  - intros key' fg. rewrite new_fileGraphs.
    destruct (decide (key = key')) as [<-|Hne].
    + rewrite lookup_insert_eq. intros H. injection H as <-. cbn.
      rewrite new_refs. apply NoDup_ListNoDup, seq_NoDup.
    + rewrite lookup_insert_ne by assumption. apply Hdistinct.
  - intros key1 key2 fg1 fg2 e1 e2. rewrite new_fileGraphs.
    destruct (decide (key = key1)) as [<-|Hne1]; destruct (decide (key = key2)) as [<-|Hne2];
      rewrite ?lookup_insert_eq, ?lookup_insert_ne by assumption.
    + reflexivity.
    + intros H1 H2 Hin1 Hin2 Href. injection H1 as <-. cbn in Hin1.
      apply new_ref_fresh in Hin1.
      assert (edge_ref e2 < base)%nat by (apply Hbound; exists key2, fg2; split; assumption).
      lia.
    + intros H1 H2 Hin1 Hin2 Href. injection H2 as <-. cbn in Hin2.
      apply new_ref_fresh in Hin2.
      assert (edge_ref e1 < base)%nat by (apply Hbound; exists key1, fg1; split; assumption).
      lia.
    + apply Hfiles.
  - intros e He. rewrite new_allocated. apply recorded_after in He as [Hin|(k & fg & _ & Hl & Hin)].
    + apply new_ref_fresh in Hin. lia.
    + assert (edge_ref e < base)%nat by (apply Hbound; exists k, fg; split; assumption). lia.
Qed.

Lemma old_edges_are_gone e :
  In e old ->
  ~ recorded s' e
  /\ (forall sid, ~ In e (CodeGraphService.getCallees s' sid))
  /\ (forall sid, ~ In e (CodeGraphService.getCallers s' sid)).
Proof.
  intros Hold. destruct was_consistent as (_ & _ & _ & Hfiles & Hbound).
  assert (Hgone : ~ recorded s' e).
  { intros Hrec. apply old_in_file in Hold as (fg0 & Hlookup0 & Hin0).
    apply recorded_after in Hrec as [Hin|(key' & fg & Hne & Hlookup & Hin)].
    - apply new_ref_fresh in Hin.
      assert (edge_ref e < base)%nat by (apply Hbound; exists key, fg0; split; assumption).
      lia.
    - apply Hne. exact (Hfiles key' key fg fg0 e e Hlookup Hlookup0 Hin Hin0 eq_refl). }
  destruct replacement_consistent as (Hcallees & Hcallers & _).
  split; [assumption|]. split; intros sid Hin.
  - apply Hcallees in Hin as (Hrec & _). contradiction.
  - apply Hcallers in Hin as (Hrec & _). contradiction.
Qed.

End Replacement.

Lemma consistent_initial : consistent CodeGraphService.initial.
Proof.
  split; [|split; [|split; [|split]]].
  - intros sid e. split; [intros []|]. intros ((key & fg & Hl & _) & _).
    cbn in Hl. now rewrite lookup_empty in Hl.
  - intros sid e. split; [intros []|]. intros ((key & fg & Hl & _) & _).
    cbn in Hl. now rewrite lookup_empty in Hl.
  - intros key fg Hl. cbn in Hl. now rewrite lookup_empty in Hl.
  - intros key key' fg fg' e e' Hl. cbn in Hl. now rewrite lookup_empty in Hl.
  - intros e (key & fg & Hl & _). cbn in Hl. now rewrite lookup_empty in Hl.
Qed.

Lemma getEdgesForFile_recorded s u e :
  In e (CodeGraphService.getEdgesForFile s u) -> recorded s e.
Proof.
  unfold CodeGraphService.getEdgesForFile, recorded.
  destruct (CodeGraphService._fileGraphs s !! uri_toString u) as [fg|] eqn:Hl; [|intros []].
  cbn. intros Hin. exists (uri_toString u), fg. split; assumption.
Qed.

Lemma consistent_serves_recorded s : consistent s -> serves_recorded s.
Proof.
  intros (Hcallees & Hcallers & _). split; [|split].
  - intros sid e Hin. now apply Hcallees in Hin as (Hrec & _).
  - intros sid e Hin. now apply Hcallers in Hin as (Hrec & _).
  - intros u e. apply getEdgesForFile_recorded.
Qed.

(** A pass from a consistent state ends in a consistent state, and either
    changes nothing or replaces the edge set of the file. *)
Lemma rebuildForUri_pass
    (structure : CodeStructureService.state) (modelService : IModelService) (uri0 : URI)
    (s : CodeGraphService.state) :
  consistent s ->
  let '(result, s', t) := CodeGraphService.rebuildForUri structure modelService uri0 s in
  consistent s'
  /\ serves_recorded s'
  /\ (fired t = [] /\ s' = s \/ replaced_as_a_unit structure modelService uri0 s s' t).
Proof.
  intros Hconsistent.
  pose proof (consistent_serves_recorded s Hconsistent) as Hserved.
  destruct (CodeStructureService.getSnapshot structure uri0) as [snapshot|] eqn:Hsnap;
    [|unfold CodeGraphService.rebuildForUri; rewrite Hsnap; cbn; auto].
  destruct (getModel modelService uri0) as [model|] eqn:Hmodel;
    [|unfold CodeGraphService.rebuildForUri; rewrite Hsnap, Hmodel; cbn; auto].
  destruct (isDisposed model) eqn:Hlive.
  { unfold CodeGraphService.rebuildForUri. rewrite Hsnap, Hmodel.
    unfold Handler.bind, Handler.lift, TextModel.getValueLength, TextModel.assertNotDisposed.
    rewrite Hlive. cbn. auto. }
  destruct (Z.ltb_spec CodeGraphService.MAX_FILE_LENGTH_FOR_SCAN (Text.len (value model)))
    as [Hlarge|Hsmall].
  { rewrite (rebuildForUri_large _ _ _ _ _ _ Hsnap Hmodel Hlive Hlarge). cbn. auto. }
  destruct (rebuildForUri_run structure modelService uri0 snapshot model s
              Hsnap Hmodel Hlive Hsmall)
    as (newEdges & seen & s' & Hcompute & (Hrefs & _) & -> & Hfg & Halloc & Hcallees & Hcallers).
  cbn [fst] in Hrefs.
  pose proof (replacement_consistent s s' uri0 newEdges Hconsistent Hrefs Hfg Halloc
                Hcallees Hcallers) as Hconsistent'.
  assert (Hfile : CodeGraphService.getEdgesForFile s' uri0 = newEdges).
  { unfold CodeGraphService.getEdgesForFile. rewrite Hfg, lookup_insert_eq. reflexivity. }
  split; [assumption|]. split; [now apply consistent_serves_recorded|].
  right. exists snapshot, model. rewrite Hfile.
  repeat (split; [assumption || reflexivity|]).
  intros e Hold.
  destruct (old_edges_are_gone s s' uri0 newEdges Hconsistent Hrefs Hfg Halloc
              Hcallees Hcallers e Hold) as (Hgone & Hg1 & Hg2).
  split; [|split; assumption].
  intros u Hin. apply Hgone. eapply getEdgesForFile_recorded, Hin.
Qed.

Lemma reachable_consistent s : reachable s -> consistent s.
Proof.
  induction 1 as [|s structure modelService uri0 Hreach IH].
  - apply consistent_initial.
  - pose proof (rebuildForUri_pass structure modelService uri0 s IH) as H.
    unfold Workbench.after.
    destruct (CodeGraphService.rebuildForUri structure modelService uri0 s) as [[result s'] t].
    exact (proj1 H).
Qed.

(** C2.  In every state that the call-graph service reaches, a rebuild
    pass either leaves the graph state as it was and fires nothing (no
    snapshot, no model, a document over the ceiling), or it replaces the
    edge set of the file as a unit: every edge object of the prior edge
    set is taken out of the callee index and of the caller index, the
    freshly computed edge set is put in, and [onDidUpdateGraphForUri]
    fires last, so that its listeners see the final state.  The state
    stays consistent: whatever [getCallees], [getCallers] and
    [getEdgesForFile] return is an edge of the edge set recorded for some
    file by its latest completed pass, and after a completed pass no
    query returns an edge of the prior edge set of the file. *)
Theorem rebuild_replaces_edge_set_as_a_unit
    (structure : CodeStructureService.state) (modelService : IModelService) (uri0 : URI)
    (s : CodeGraphService.state) :
  reachable s ->
  let '(result, s', t) := CodeGraphService.rebuildForUri structure modelService uri0 s in
  reachable s'
  /\ consistent s'
  /\ serves_recorded s'
  /\ (fired t = [] /\ s' = s \/ replaced_as_a_unit structure modelService uri0 s s' t).
Proof.
  intros Hreach.
  pose proof (rebuildForUri_pass structure modelService uri0 s (reachable_consistent s Hreach))
    as H.
  pose proof (reach_rebuild s structure modelService uri0 Hreach) as Hnext.
  unfold Workbench.after in Hnext.
  destruct (CodeGraphService.rebuildForUri structure modelService uri0 s) as [[result s'] t].
  split; [exact Hnext|exact H].
Qed.


Lemma rebuild_replaces_edge_set_as_a_unit_witness :
  let key := uri_toString Samples.sampleUri in
  let structure0 :=
    Workbench.after (CodeStructureService.recomputeSnapshot 0 Samples.callsDocument)
      CodeStructureService.initial in
  let models0 : IModelService := {[ key := Samples.callsDocument ]} in
  let s0 :=
    Workbench.after (CodeGraphService.rebuildForUri structure0 models0 Samples.sampleUri)
      CodeGraphService.initial in
  let structure1 :=
    Workbench.after (CodeStructureService.recomputeSnapshot 5 Samples.editedDocument)
      structure0 in
  let models1 : IModelService := {[ key := Samples.editedDocument ]} in
  reachable s0
  /\ length (CodeGraphService.getEdgesForFile s0 Samples.sampleUri) = 3%nat
  /\ let '(result, s', t) :=
       CodeGraphService.rebuildForUri structure1 models1 Samples.sampleUri s0 in
     consistent s'
     /\ serves_recorded s'
     /\ replaced_as_a_unit structure1 models1 Samples.sampleUri s0 s' t.
Proof.
  intros key structure0 models0 s0 structure1 models1.
  assert (H0 : reachable s0) by (apply reach_rebuild, reach_initial).
  split; [exact H0|]. split; [vm_compute; reflexivity|].
  pose proof (rebuild_replaces_edge_set_as_a_unit structure1 models1 Samples.sampleUri
                s0 H0) as H.
  assert (Hfired : fired (snd (CodeGraphService.rebuildForUri structure1 models1
                                 Samples.sampleUri s0)) = [Samples.sampleUri])
    by (vm_compute; reflexivity).
  destruct (CodeGraphService.rebuildForUri structure1 models1 Samples.sampleUri s0)
    as [[result s'] t].
  destruct H as (_ & Hc & Hs & [(Hf & _)|Hr]).
  - cbn [snd] in Hfired. rewrite Hf in Hfired. discriminate.
  - split; [exact Hc|]. split; [exact Hs|exact Hr].
Defined.

(* ===================================================================== *)
(** ** The call-graph service: self-edges *)
(* ===================================================================== *)

Lemma computeIntraFileCallEdges_inv base snapshot model edges0 :
  CodeGraphService.computeIntraFileCallEdges base snapshot model = Return edges0 ->
  isDisposed model = false.
Proof.
  unfold CodeGraphService.computeIntraFileCallEdges, TextModel.getValue,
    TextModel.assertNotDisposed.
  destruct (isDisposed model); [discriminate|reflexivity].
Qed.




(* ===================================================================== *)
(** ** The services together: the sample with a call *)
(* ===================================================================== *)

(** C1, the claim as stated is refuted: in the snapshot of
    ["function a(){ b(); }\nfunction b(){}"] the range of [a] is the span
    of its name, so the call [b()] on line 1 lies outside it and is
    attributed to the file symbol.  The edge set has no call edge from
    [a] to [b], and [getCallers] of [b] returns two edges, neither of
    them from [a]. *)
Lemma call_in_body_is_not_attributed_to_function :
  let w := Samples.opened Samples.callsDocument in
  let a := "file:///sample.ts::a@1" in
  let b := "file:///sample.ts::b@2" in
  (exists snapshot,
     CodeStructureService.getSnapshot (Workbench.structure w) Samples.sampleUri = Some snapshot
     /\ List.map (fun s => (name s, id s, kind s)) (symbols snapshot) =
          [ ("sample.ts", "file:///sample.ts::<file>@1", File);
            ("a", a, Function); ("b", b, Function) ])
  /\ ~ (exists e,
          In e (CodeGraphService.getEdgesForFile (Workbench.graph w) Samples.sampleUri)
          /\ edge_kind e = Call /\ from e = a /\ to e = b)
  /\ length (CodeGraphService.getCallers (Workbench.graph w) b) = 2%nat
  /\ ~ (exists e, In e (CodeGraphService.getCallers (Workbench.graph w) b) /\ from e = a).
Proof.
  intros w a b.
  split; [eexists; split; vm_compute; reflexivity|].
  assert (Hedges : CodeGraphService.getEdgesForFile (Workbench.graph w) Samples.sampleUri =
            [ {| edge_ref := 0; from := a; to := a; edge_kind := Call |};
              {| edge_ref := 1; from := "file:///sample.ts::<file>@1"; to := b;
                 edge_kind := Call |};
              {| edge_ref := 2; from := b; to := b; edge_kind := Call |} ])
    by (vm_compute; reflexivity).
  assert (Hcallers : CodeGraphService.getCallers (Workbench.graph w) b =
            [ {| edge_ref := 1; from := "file:///sample.ts::<file>@1"; to := b;
                 edge_kind := Call |};
              {| edge_ref := 2; from := b; to := b; edge_kind := Call |} ])
    by (vm_compute; reflexivity).
  rewrite Hedges, Hcallers. split; [|split; [reflexivity|]].
  - intros (e & [<-|[<-|[<-|[]]]] & _ & Hfrom & Hto); cbn in Hfrom, Hto;
      first [ revert Hfrom; apply String.eqb_neq; vm_compute; reflexivity
            | revert Hto; apply String.eqb_neq; vm_compute; reflexivity ].
  - intros (e & [<-|[<-|[]]] & Hfrom); cbn in Hfrom;
      revert Hfrom; apply String.eqb_neq; vm_compute; reflexivity.
Qed.

(** C1, amended.  For the document
    ["function a(){ b(); }\nfunction b(){}"], after the call-graph pass
    over the snapshot of the structure service, the edge set consists of
    three call edges: from [a] to itself, from the file symbol to [b],
    and from [b] to itself; [getCallers] of [b] returns the last two, in
    that order. *)
Theorem calls_document_edges :
  let w := Samples.opened Samples.callsDocument in
  let file := "file:///sample.ts::<file>@1" in
  let a := "file:///sample.ts::a@1" in
  let b := "file:///sample.ts::b@2" in
  List.map ends (CodeGraphService.getEdgesForFile (Workbench.graph w) Samples.sampleUri) =
    [ (a, a, Call); (file, b, Call); (b, b, Call) ]
  /\ List.map ends (CodeGraphService.getCallers (Workbench.graph w) b) =
       [ (file, b, Call); (b, b, Call) ]
  /\ List.map ends (CodeGraphService.getCallees (Workbench.graph w) a) = [ (a, a, Call) ].
Proof.
  intros w file a b. split; [|split]; vm_compute; reflexivity.
Qed.

(* ===================================================================== *)
(** ** The services together: removing a document *)
(* ===================================================================== *)

Lemma update_history_events key f s u :
  (forall h, CodeHistoryService.events (f h) = CodeHistoryService.events h) ->
  CodeHistoryService.getEventsForFile (CodeHistoryService.update_history key f s) u =
    CodeHistoryService.getEventsForFile s u.
Proof.
  intros Hf. unfold CodeHistoryService.getEventsForFile, CodeHistoryService.update_history,
    CodeHistoryService.set_perFile. cbn [CodeHistoryService._perFile].
  destruct (CodeHistoryService._perFile s !! key) as [h|] eqn:Hh; [|reflexivity].
  destruct (decide (key = uri_toString u)) as [<-|Hne].
  - rewrite lookup_insert_eq, Hh. cbn. now rewrite Hf.
  - now rewrite lookup_insert_ne.
Qed.

(** C8, the claim as stated is refuted: after the sample document is
    opened, indexed and removed, the call-graph service still returns its
    three edges and the callers of [b]. *)
Lemma graph_state_survives_removal :
  let w := Samples.opened Samples.callsDocument in
  let w' := Workbench.removeModel Samples.clock Samples.callsDocument w in
  CodeStructureService.getSnapshot (Workbench.structure w') Samples.sampleUri = None
  /\ length (CodeGraphService.getEdgesForFile (Workbench.graph w') Samples.sampleUri) = 3%nat
  /\ length (CodeGraphService.getCallers (Workbench.graph w') "file:///sample.ts::b@2") = 2%nat
  /\ length (CodeGraphService.getCallees (Workbench.graph w') "file:///sample.ts::a@1") = 1%nat.
Proof.
  intros w w'. repeat split; vm_compute; reflexivity.
Qed.

(** C8, amended.  When a tracked document is removed, the structure
    service disposes the scheduler registered for the file, which cancels
    its pending timer, forgets the scheduler and drops the snapshot of
    the file; the call-graph service has no handler for the removal and
    keeps its whole state, so [getEdgesForFile], [getCallers] and
    [getCallees] return what they returned before; the history service
    clears only the remembered last snapshot of the file: the recorded
    events of every file are still returned by [getEventsForFile], and
    what is remembered for other files is kept. *)
Theorem removal_drops_snapshot_and_timer_but_not_graph
    (clock : Z -> Z) (model : ITextModel) (w : Workbench.state) (scheduler : nat)
    (timer : RunOnceScheduler.t) :
  CodeStructureService._recomputeSchedulers (Workbench.structure w) !! uri_toString (uri model)
    = Some scheduler ->
  CodeStructureService.schedulers (Workbench.structure w) !! scheduler = Some timer ->
  let w' := Workbench.removeModel clock model w in
  CodeStructureService.getSnapshot (Workbench.structure w') (uri model) = None
  /\ CodeStructureService._recomputeSchedulers (Workbench.structure w')
       !! uri_toString (uri model) = None
  /\ CodeStructureService.schedulers (Workbench.structure w') !! scheduler
       = Some {| RunOnceScheduler.isScheduled := false; RunOnceScheduler.disposed := true |}
  /\ getModel (Workbench.models w') (uri model) = None
  /\ Workbench.graph w' = Workbench.graph w
  /\ (forall u,
        CodeGraphService.getEdgesForFile (Workbench.graph w') u =
          CodeGraphService.getEdgesForFile (Workbench.graph w) u)
  /\ (forall sid,
        CodeGraphService.getCallers (Workbench.graph w') sid =
          CodeGraphService.getCallers (Workbench.graph w) sid)
  /\ (forall sid,
        CodeGraphService.getCallees (Workbench.graph w') sid =
          CodeGraphService.getCallees (Workbench.graph w) sid)
  /\ remembered (Workbench.history w') (uri model) = None
  /\ (forall u,
        CodeHistoryService.getEventsForFile (Workbench.history w') u =
          CodeHistoryService.getEventsForFile (Workbench.history w) u)
  /\ (forall u,
        uri_toString u <> uri_toString (uri model) ->
        remembered (Workbench.history w') u = remembered (Workbench.history w) u).
Proof.
  intros Hregistered Htimer w'. subst w'.
  unfold Workbench.removeModel, Workbench.structure_step, Workbench.after, Workbench.trace.
  set (key := uri_toString (uri model)) in *.
  assert (Hstructure :
    CodeStructureService.onModelRemoved model (Workbench.structure w) =
      (Return tt,
       CodeStructureService.set_recomputeSchedulers (fun m => delete key m)
         (CodeStructureService.on_scheduler scheduler RunOnceScheduler.dispose
            (Workbench.structure w)),
       [])).
  { unfold CodeStructureService.onModelRemoved, Handler.bind, Handler.get, Handler.modify.
    fold key. rewrite Hregistered. reflexivity. }
  rewrite Hstructure.
  unfold CodeStructureService.onWillDispose, CodeHistoryService.onModelRemoved,
    Handler.bind, Handler.modify. fold key.
  cbn [fst snd app Workbench.deliver fold_left Workbench.structure Workbench.graph
       Workbench.history Workbench.models].
  split; [|split; [|split; [|split; [|split; [|split; [|split; [|split; [|split; [|split]]]]]]]]].
  - unfold CodeStructureService.getSnapshot. cbn. fold key. apply lookup_delete_eq.
  - cbn. rewrite lookup_delete_eq. reflexivity.
  - cbn. rewrite Htimer. rewrite list_lookup_insert_eq; [reflexivity|].
    eapply lookup_lt_Some, Htimer.
  - unfold getModel. fold key. apply lookup_delete_eq.
  - reflexivity.
  - reflexivity.
  - reflexivity.
  - reflexivity.
  - unfold remembered, CodeHistoryService.update_history, CodeHistoryService.set_perFile.
    fold key. cbn [CodeHistoryService._perFile].
    destruct (CodeHistoryService._perFile (Workbench.history w) !! key) as [h|] eqn:Hh.
    + rewrite lookup_insert_eq. reflexivity.
    + rewrite Hh. reflexivity.
  - intros u. apply update_history_events. reflexivity.
  - intros u Hne. unfold remembered, CodeHistoryService.update_history,
      CodeHistoryService.set_perFile. cbn [CodeHistoryService._perFile].
    destruct (CodeHistoryService._perFile (Workbench.history w) !! key) as [h|] eqn:Hh;
      [|reflexivity].
    rewrite lookup_insert_ne by congruence. reflexivity.
Qed.

Lemma removal_drops_snapshot_and_timer_but_not_graph_witness :
  let w := Workbench.changeContent Samples.clock 0 Samples.editedDocument
             (Samples.opened Samples.callsDocument) in
  let w' := Workbench.removeModel Samples.clock Samples.editedDocument w in
  CodeStructureService.schedulers (Workbench.structure w) !! 0%nat
    = Some {| RunOnceScheduler.isScheduled := true; RunOnceScheduler.disposed := false |}
  /\ CodeStructureService.getSnapshot (Workbench.structure w) Samples.sampleUri <> None
  /\ CodeStructureService.getSnapshot (Workbench.structure w') Samples.sampleUri = None
  /\ CodeStructureService.schedulers (Workbench.structure w') !! 0%nat
       = Some {| RunOnceScheduler.isScheduled := false; RunOnceScheduler.disposed := true |}
  /\ Workbench.graph w' = Workbench.graph w
  /\ remembered (Workbench.history w) Samples.sampleUri <> None
  /\ remembered (Workbench.history w') Samples.sampleUri = None.
Proof.
  intros w w'.
  pose proof (removal_drops_snapshot_and_timer_but_not_graph Samples.clock
                Samples.editedDocument w 0%nat
                {| RunOnceScheduler.isScheduled := true; RunOnceScheduler.disposed := false |}
                ltac:(vm_compute; reflexivity) ltac:(vm_compute; reflexivity))
    as (Hsnap & _ & Htimer & _ & Hgraph & _ & _ & _ & Hremembered & _).
  split; [vm_compute; reflexivity|].
  split; [vm_compute; discriminate|].
  split; [exact Hsnap|]. split; [exact Htimer|]. split; [exact Hgraph|].
  split; [vm_compute; discriminate|exact Hremembered].
Defined.

(* ===================================================================== *)
(** ** The matcher: what a successful match has read *)
(* ===================================================================== *)

Section MatcherFacts.

Lemma reads_nil cur : reads EmptyString cur cur.
Proof. reflexivity. Qed.

Lemma lit_reads {R} s : forall cur (k : RegExp.cursor -> option R) x,
  RegExp.lit s cur k = Some x -> exists cur', reads s cur cur' /\ k cur' = Some x.
Proof.
  induction s as [|c s IH]; intros cur k x H; cbn in H.
  - exists cur. split; [reflexivity|exact H].
  - unfold reads. cbn. destruct (RegExp.advance cur) as [[d cur1]|]; [|discriminate].
    destruct (Ascii.eqb c d); [|discriminate].
    apply IH in H. exact H.
Qed.

Lemma reads_lit {R} s : forall cur cur' (k : RegExp.cursor -> option R),
  reads s cur cur' -> RegExp.lit s cur k = k cur'.
Proof.
  unfold reads. induction s as [|c s IH]; intros cur cur' k H; cbn in *.
  - inversion H; subst. reflexivity.
  - destruct (RegExp.advance cur) as [[d cur1]|]; [|discriminate].
    destruct (Ascii.eqb c d); [|discriminate]. apply IH; assumption.
Qed.

Lemma reads_app w1 w2 cur cur1 cur2 :
  reads w1 cur cur1 -> reads w2 cur1 cur2 -> reads (w1 +:+ w2) cur cur2.
Proof.
  revert cur. induction w1 as [|c w1 IH]; intros cur H1 H2.
  - unfold reads in H1. cbn in H1. inversion H1; subst. exact H2.
  - change (String c w1 +:+ w2) with (String c (w1 +:+ w2)).
    unfold reads in *. cbn [RegExp.lit] in *.
    destruct (RegExp.advance cur) as [[d cur']|]; [|discriminate].
    destruct (Ascii.eqb c d); [|discriminate]. apply IH; assumption.
Qed.

Lemma reads_rest w : forall cur cur',
  reads w cur cur' ->
  RegExp.rest cur = w +:+ RegExp.rest cur'
  /\ RegExp.offset cur' = (RegExp.offset cur + String.length w)%nat.
Proof.
  unfold reads. induction w as [|c w IH]; intros cur cur' H; cbn in *.
  - inversion H; subst. split; [reflexivity|lia].
  - unfold RegExp.advance in H. destruct (RegExp.rest cur) as [|d r] eqn:E; [discriminate|].
    destruct (Ascii.eqb_spec c d) as [->|]; [|discriminate].
    apply IH in H. cbn in H. destruct H as [-> ->]. split; [reflexivity|lia].
Qed.

Lemma reads_step c r cur :
  RegExp.rest cur = String c r ->
  reads (String c EmptyString) cur
    {| RegExp.before := Some c; RegExp.rest := r; RegExp.offset := S (RegExp.offset cur) |}.
Proof.
  intros E. unfold reads. cbn. unfold RegExp.advance. rewrite E.
  rewrite Ascii.eqb_refl. reflexivity.
Qed.

Lemma star_reads {R} cls subject : forall cur (k : RegExp.cursor -> option R) x,
  RegExp.rest cur = subject ->
  RegExp.star cls subject cur k = Some x ->
  exists w cur', all_of cls w = true /\ reads w cur cur' /\ k cur' = Some x.
Proof.
  induction subject as [|c r IH]; intros cur k x E H; cbn in H.
  - exists EmptyString, cur. auto using reads_nil.
  - destruct (cls c) eqn:Ec.
    + destruct (RegExp.star cls r _ k) as [y|] eqn:Es.
      * inversion H; subst y. apply IH in Es; [|reflexivity].
        destruct Es as (w & cur' & Hall & Hr & Hk).
        exists (String c w), cur'. split; [cbn; rewrite Ec; exact Hall|].
        split; [|exact Hk].
        change (String c w) with (String c EmptyString +:+ w).
        eapply reads_app; [apply reads_step; exact E|exact Hr].
      * exists EmptyString, cur. auto using reads_nil.
    + exists EmptyString, cur. auto using reads_nil.
Qed.

(** The matcher is sound: whenever it succeeds, it has followed a path
    through the expression and then run its continuation. *)
Lemma run_matches {R} r : forall cur caps (k : RegExp.cursor -> RegExp.captures -> option R) x,
  RegExp.run r cur caps k = Some x ->
  exists cur' caps', matches r cur caps cur' caps' /\ k cur' caps' = Some x.
Proof.
  induction r as [| | |s|cls|cls|r1 IH1 r2 IH2|r IH|r1 IH1 r2 IH2|n r IH];
    intros cur caps k x H; cbn in H.
  - destruct (Nat.eqb_spec (RegExp.offset cur) 0); [|discriminate].
    exists cur, caps. split; [constructor; assumption|exact H].
  - destruct (RegExp.rest cur) eqn:E; [|discriminate].
    exists cur, caps. split; [constructor; assumption|exact H].
  - destruct (RegExp.at_word_boundary cur) eqn:E; [|discriminate].
    exists cur, caps. split; [constructor; assumption|exact H].
  - apply lit_reads in H. destruct H as (cur' & Hr & Hk).
    exists cur', caps. split; [constructor; assumption|exact Hk].
  - apply star_reads in H; [|reflexivity]. destruct H as (w & cur' & Hall & Hr & Hk).
    exists cur', caps. split; [econstructor; eassumption|exact Hk].
  - unfold RegExp.advance in H. destruct (RegExp.rest cur) as [|c r] eqn:E; [discriminate|].
    destruct (cls c) eqn:Ec; [|discriminate].
    apply star_reads in H; [|reflexivity]. destruct H as (w & cur' & Hall & Hr & Hk).
    exists cur', caps. split; [|exact Hk].
    apply (matches_Plus cls (String c w)); [discriminate|cbn; rewrite Ec; exact Hall|].
    change (String c w) with (String c EmptyString +:+ w).
    eapply reads_app; [apply reads_step; exact E|exact Hr].
  - apply IH1 in H. destruct H as (cur1 & caps1 & H1 & H).
    apply IH2 in H. destruct H as (cur2 & caps2 & H2 & H).
    exists cur2, caps2. split; [econstructor; eassumption|exact H].
  - destruct (RegExp.run r cur caps k) as [y|] eqn:E.
    + inversion H; subst y. apply IH in E. destruct E as (cur' & caps' & H1 & Hk).
      exists cur', caps'. split; [apply matches_Opt_taken; assumption|exact Hk].
    + exists cur, caps. split; [apply matches_Opt_skipped|exact H].
  - destruct (RegExp.run r1 cur caps k) as [y|] eqn:E.
    + inversion H; subst y. apply IH1 in E. destruct E as (cur' & caps' & H1 & Hk).
      exists cur', caps'. split; [apply matches_Alt_left; assumption|exact Hk].
    + apply IH2 in H. destruct H as (cur' & caps' & H1 & Hk).
      exists cur', caps'. split; [apply matches_Alt_right; assumption|exact Hk].
  - apply IH in H. destruct H as (cur' & caps' & H1 & Hk).
    eexists cur', _. split; [apply matches_Group; eassumption|exact Hk].
Qed.

(** A path reads a piece of the subject. *)
Lemma matches_reads r cur caps cur' caps' :
  matches r cur caps cur' caps' -> exists w, reads w cur cur'.
Proof.
  induction 1; try (exists EmptyString; apply reads_nil); eauto.
  destruct IHmatches1 as [w1 H1], IHmatches2 as [w2 H2].
  exists (w1 +:+ w2). eapply reads_app; eassumption.
Qed.

Lemma match_at_matches r cur m :
  RegExp.match_at r cur = Some m ->
  matches r cur [] (RegExp.last m) (RegExp.groups m) /\ RegExp.index m = RegExp.offset cur.
Proof.
  unfold RegExp.match_at. intros H. apply run_matches in H.
  destruct H as (cur' & caps' & Hm & Hk). inversion Hk; subst m. cbn. auto.
Qed.

(** A search succeeds at a cursor reached by skipping a piece of the
    subject. *)
Lemma search_matches r subject : forall cur m,
  RegExp.rest cur = subject ->
  RegExp.search r subject cur = Some m ->
  exists skipped cur0,
    reads skipped cur cur0 /\ RegExp.match_at r cur0 = Some m.
Proof.
  induction subject as [|c s IH]; intros cur m E H; cbn in H.
  - destruct (RegExp.match_at r cur) eqn:Em; [|discriminate].
    inversion H; subst. exists EmptyString, cur. auto using reads_nil.
  - destruct (RegExp.match_at r cur) eqn:Em.
    + inversion H; subst. exists EmptyString, cur. auto using reads_nil.
    + apply IH in H; [|reflexivity]. destruct H as (skipped & cur0 & Hr & Hm).
      exists (String c skipped), cur0. split; [|exact Hm].
      change (String c skipped) with (String c EmptyString +:+ skipped).
      eapply reads_app; [apply reads_step; exact E|exact Hr].
Qed.

End MatcherFacts.

Section NameFacts.

Lemma substring_prefix w r : String.substring 0 (String.length w) (w +:+ r) = w.
Proof.
  induction w as [|c w IH]; [destruct r; reflexivity|].
  change (String c w +:+ r) with (String c (w +:+ r)). cbn. rewrite IH. reflexivity.
Qed.

Lemma reads_capture w cur cur' :
  reads w cur cur' ->
  String.substring 0 (RegExp.offset cur' - RegExp.offset cur) (RegExp.rest cur) = w.
Proof.
  intros H. apply reads_rest in H. destruct H as [-> ->].
  replace (RegExp.offset cur + String.length w - RegExp.offset cur)%nat
    with (String.length w) by lia.
  apply substring_prefix.
Qed.

Lemma append_assoc (a b c : string) : (a +:+ b) +:+ c = a +:+ (b +:+ c).
Proof.
  induction a as [|x a IH]; [reflexivity|].
  change (String x a +:+ b) with (String x (a +:+ b)).
  change (String x (a +:+ b) +:+ c) with (String x ((a +:+ b) +:+ c)).
  rewrite IH. reflexivity.
Qed.

Lemma append_nil_r (a : string) : a +:+ EmptyString = a.
Proof.
  induction a as [|x a IH]; [reflexivity|].
  change (String x a +:+ EmptyString) with (String x (a +:+ EmptyString)).
  rewrite IH. reflexivity.
Qed.

Lemma append_length (a b : string) :
  String.length (a +:+ b) = (String.length a + String.length b)%nat.
Proof.
  induction a as [|x a IH]; [reflexivity|].
  change (String x a +:+ b) with (String x (a +:+ b)). cbn. rewrite IH. reflexivity.
Qed.

Lemma append_inv_head (u a b : string) : u +:+ a = u +:+ b -> a = b.
Proof.
  induction u as [|x u IH]; intros H; [exact H|].
  change (String x (u +:+ a) = String x (u +:+ b)) in H. inversion H; auto.
Qed.

(** Every capture of a match is a piece of the subject. *)
Lemma matches_within subject r cur caps cur' caps' :
  matches r cur caps cur' caps' ->
  (exists pre, subject = pre +:+ RegExp.rest cur) ->
  Forall (fun p => occurs (snd p) subject) caps ->
  (exists pre', subject = pre' +:+ RegExp.rest cur')
  /\ Forall (fun p => occurs (snd p) subject) caps'.
Proof.
  assert (Hreads : forall w c c',
            reads w c c' -> (exists pre, subject = pre +:+ RegExp.rest c) ->
            exists pre', subject = pre' +:+ RegExp.rest c').
  { intros w c c' Hr [pre ->]. apply reads_rest in Hr. destruct Hr as [-> _].
    exists (pre +:+ w). rewrite append_assoc. reflexivity. }
  induction 1; intros Hpre Hcaps; eauto.
  - destruct (IHmatches1 Hpre Hcaps) as [Hpre1 Hcaps1]. eauto.
  - destruct (IHmatches Hpre Hcaps) as [Hpre' Hcaps']. split; [exact Hpre'|].
    constructor; [|exact Hcaps']. cbn.
    destruct (matches_reads _ _ _ _ _ H) as [w Hw].
    rewrite (reads_capture _ _ _ Hw).
    destruct Hpre as [pre ->]. apply reads_rest in Hw. destruct Hw as [-> _].
    exists pre, (RegExp.rest cur'). reflexivity.
Qed.

Lemma exec_matches r line m :
  RegExp.exec r line = Some m ->
  exists cur0,
    matches r cur0 [] (RegExp.last m) (RegExp.groups m)
    /\ Forall (fun p => occurs (snd p) line) (RegExp.groups m).
Proof.
  unfold RegExp.exec. intros H.
  apply search_matches in H; [|reflexivity].
  destruct H as (skipped & cur0 & Hr & Hm).
  apply match_at_matches in Hm. destruct Hm as [Hm _].
  exists cur0. split; [exact Hm|].
  eapply (matches_within line); [exact Hm| |constructor].
  apply reads_rest in Hr. cbn in Hr. destruct Hr as [-> _]. eauto.
Qed.

Ltac invert_spine :=
  repeat match goal with
  | H : matches (RegExp.Seq _ _) _ _ _ _ |- _ => inversion H; clear H; subst
  | H : matches (RegExp.Group _ (RegExp.Plus _)) _ _ _ _ |- _ => inversion H; clear H; subst
  | H : matches (RegExp.Plus _) _ _ _ _ |- _ => inversion H; clear H; subst
  | H : matches (RegExp.Star _) _ _ _ _ |- _ => inversion H; clear H; subst
  | H : matches (RegExp.Lit _) _ _ _ _ |- _ => inversion H; clear H; subst
  end.

Lemma class_name line m :
  RegExp.exec CodeStructureService.classRe line = Some m ->
  is_identifier (CodeStructureService.group 3 m)
  /\ occurs (CodeStructureService.group 3 m) line.
Proof.
  intros H. apply exec_matches in H. destruct H as (cur0 & Hm & Hocc).
  unfold CodeStructureService.group.
  cbv [CodeStructureService.classRe RegExp.seq] in Hm. invert_spine.
  match goal with H : _ = RegExp.groups m |- _ => rewrite <- H in *; clear H end.
  cbn. inversion Hocc; subst. cbn in *.
  match goal with H : reads ?w _ _ |- _ => rewrite (reads_capture _ _ _ H) in * end.
  split; [split|]; assumption.
Qed.

Lemma function_name line m :
  RegExp.exec CodeStructureService.functionRe line = Some m ->
  is_identifier (CodeStructureService.group 3 m)
  /\ occurs (CodeStructureService.group 3 m) line.
Proof.
  intros H. apply exec_matches in H. destruct H as (cur0 & Hm & Hocc).
  unfold CodeStructureService.group.
  cbv [CodeStructureService.functionRe RegExp.seq] in Hm. invert_spine.
  match goal with H : _ = RegExp.groups m |- _ => rewrite <- H in *; clear H end.
  cbn. inversion Hocc; subst. cbn in *.
  match goal with H : reads ?w _ _ |- _ => rewrite (reads_capture _ _ _ H) in * end.
  split; [split|]; assumption.
Qed.

Lemma method_name line m :
  RegExp.exec CodeStructureService.methodRe line = Some m ->
  is_identifier (CodeStructureService.group 4 m)
  /\ occurs (CodeStructureService.group 4 m) line.
Proof.
  intros H. apply exec_matches in H. destruct H as (cur0 & Hm & Hocc).
  unfold CodeStructureService.group.
  cbv [CodeStructureService.methodRe RegExp.seq] in Hm. invert_spine.
  match goal with H : _ = RegExp.groups m |- _ => rewrite <- H in *; clear H end.
  cbn. inversion Hocc; subst. cbn in *.
  match goal with H : reads ?w _ _ |- _ => rewrite (reads_capture _ _ _ H) in * end.
  split; [split|]; assumption.
Qed.

End NameFacts.

(* ===================================================================== *)
(** ** The structure service: what a snapshot holds *)
(* ===================================================================== *)

Section DeclarationFacts.

Lemma substring_length s : forall i n,
  String.length (String.substring i n s) = Nat.min n (String.length s - i).
Proof.
  induction s as [|c s IH]; intros i n.
  - destruct i, n; reflexivity.
  - destruct i as [|i]; cbn.
    + destruct n as [|n]; cbn; [reflexivity|]. rewrite IH. rewrite Nat.sub_0_r. reflexivity.
    + apply IH.
Qed.

Lemma substring_occurs pre : forall name post,
  String.substring (String.length pre) (String.length name) (pre +:+ name +:+ post) = name.
Proof.
  induction pre as [|c pre IH]; intros name post.
  - exact (substring_prefix name post).
  - change (String c pre +:+ name +:+ post) with (String c (pre +:+ name +:+ post)).
    cbn. apply IH.
Qed.

(** [line.indexOf(name)] finds the first occurrence of a name that
    occurs on the line. *)
Lemma indexOf_occurs name line :
  name <> EmptyString ->
  occurs name line ->
  exists i, Text.indexOf line name = Z.of_nat i /\ first_at i name line.
Proof.
  intros Hne (pre & post & ->). unfold Text.indexOf.
  destruct (String.index 0 name (pre +:+ name +:+ post)) as [i|] eqn:E.
  - exists i. split; [reflexivity|].
    pose proof (String.index_correct1 _ _ _ _ E) as H1.
    split; [exact H1|]. split.
    + pose proof (substring_length (pre +:+ name +:+ post) i (String.length name)) as Hl.
      rewrite H1 in Hl.
      assert (String.length name <> 0%nat) by (destruct name; [congruence|discriminate]).
      lia.
    + intros j Hj. apply (String.index_correct2 _ _ _ _ E); lia.
  - exfalso.
    apply (String.index_correct3 0 (String.length pre) _ _ E Hne); [lia|].
    apply substring_occurs.
Qed.

Lemma declared_facts uri0 kind0 idName0 name0 line lineNumber0 container :
  name0 <> EmptyString ->
  occurs name0 line ->
  exists i,
    first_at i name0 line
    /\ range (CodeStructureService.declared uri0 kind0 idName0 name0 line lineNumber0 container) =
         {| startLineNumber := lineNumber0;
            startColumn := Z.of_nat i + 1;
            endLineNumber := lineNumber0;
            endColumn := Z.of_nat i + 1 + Text.len name0 |}.
Proof.
  intros Hne Hocc. destruct (indexOf_occurs _ _ Hne Hocc) as (i & Hi & Hfirst).
  exists i. split; [exact Hfirst|].
  cbn [CodeStructureService.declared range]. rewrite Hi.
  apply Range_ordered. right. pose proof (len_nonneg name0). lia.
Qed.

Lemma declaration_more uri0 done more symbol :
  declaration uri0 done symbol -> declaration uri0 (done ++ more) symbol.
Proof.
  intros (k & i & line & Hk & H). exists k, i, line. split; [|exact H].
  apply lookup_app_l_Some. exact Hk.
Qed.

Lemma declaration_line uri0 done symbol :
  declaration uri0 done symbol -> 1 <= lineOf symbol <= Z.of_nat (length done).
Proof.
  intros (k & i & line & Hk & _ & _ & Hr & _). unfold lineOf. rewrite Hr. cbn.
  apply lookup_lt_Some in Hk. lia.
Qed.

Lemma in_line_order_push symbols symbol :
  in_line_order symbols ->
  (forall a, In a symbols -> lineOf a < lineOf symbol) ->
  in_line_order (symbols ++ [symbol]).
Proof.
  intros Hord Hlt i j a b Hij Ha Hb.
  destruct (decide (j < length symbols)%nat) as [Hj|Hj].
  - rewrite lookup_app_l in Ha by lia. rewrite lookup_app_l in Hb by lia. eauto.
  - rewrite lookup_app_r in Hb by lia.
    destruct (j - length symbols)%nat as [|n] eqn:E; [|destruct n; discriminate].
    cbn in Hb. inversion Hb; subst b.
    rewrite lookup_app_l in Ha by lia.
    apply Hlt. apply list_elem_of_In. eapply list_elem_of_lookup_2. exact Ha.
Qed.

Section Scan.

Variable uri0 : URI.

Lemma scanned_push done line symbols current symbol current' :
  scanned uri0 done (symbols, current) ->
  declaration uri0 (done ++ [line]) symbol ->
  lineOf symbol = Z.of_nat (length done) + 1 ->
  (forall classId,
     current' = Some classId ->
     current = Some classId
     \/ exists className,
          is_identifier className
          /\ classId = CodeStructureService.buildSymbolId uri0 className
                         (Z.of_nat (length done) + 1)) ->
  scanned uri0 (done ++ [line]) (symbols ++ [symbol], current').
Proof.
  intros (Hdecl & Hord & Hcur) Hsym Hline Hcur'. cbn [fst snd] in *.
  split; [|split]; cbn [fst snd].
  - apply Forall_app. split; [|constructor; [exact Hsym|constructor]].
    eapply List.Forall_impl; [|exact Hdecl]. intros a Ha. apply declaration_more. exact Ha.
  - apply in_line_order_push; [exact Hord|].
    intros a Ha. rewrite List.Forall_forall in Hdecl.
    pose proof (declaration_line _ _ _ (Hdecl a Ha)). lia.
  - intros classId E. rewrite length_app. cbn [length].
    destruct (Hcur' classId E) as [E'|(className & Hid & ->)].
    + destruct (Hcur classId E') as (className & j & Hj & Hid & ->).
      exists className, j. split; [lia|auto].
    + exists className, (length done). split; [lia|auto].
Qed.

Lemma scanned_skip done line symbols current current' :
  scanned uri0 done (symbols, current) ->
  (current' = current \/ current' = None) ->
  scanned uri0 (done ++ [line]) (symbols, current').
Proof.
  intros (Hdecl & Hord & Hcur) Hcur'. cbn [fst snd] in *.
  split; [|split]; cbn [fst snd].
  - eapply List.Forall_impl; [|exact Hdecl]. intros a Ha. apply declaration_more. exact Ha.
  - exact Hord.
  - intros classId E. rewrite length_app. cbn [length].
    destruct Hcur' as [->| ->]; [|discriminate].
    destruct (Hcur classId E) as (className & j & Hj & Hid & ->).
    exists className, j. split; [lia|auto].
Qed.

Lemma declared_declaration done line kind0 name0 container :
  is_identifier name0 ->
  occurs name0 line ->
  match kind0 with
  | Class | Function => container = None
  | Method =>
      exists (className : string) (j : nat),
        (j < length done)%nat
        /\ is_identifier className
        /\ container =
             Some (CodeStructureService.buildSymbolId uri0 className (Z.of_nat j + 1))
  | _ => False
  end ->
  let symbol :=
    CodeStructureService.declared uri0 kind0
      (match container with Some c => name0 +:+ "@" +:+ c | None => name0 end)
      name0 line (Z.of_nat (length done) + 1) container in
  declaration uri0 (done ++ [line]) symbol
  /\ lineOf symbol = Z.of_nat (length done) + 1.
Proof.
  intros [Hne Hall] Hocc Hkind symbol.
  destruct (declared_facts uri0 kind0
              (match container with Some c => name0 +:+ "@" +:+ c | None => name0 end)
              name0 line (Z.of_nat (length done) + 1) container Hne Hocc)
    as (i & Hfirst & Hrange).
  fold symbol in Hrange.
  split; [|unfold lineOf; rewrite Hrange; reflexivity].
  exists (length done), i, line.
  split; [apply list_lookup_middle; reflexivity|].
  split; [split; assumption|].
  split; [exact Hfirst|].
  split; [exact Hrange|].
  repeat (split; [reflexivity|]).
  exact Hkind.
Qed.

Lemma scanLine_scanned done line acc :
  scanned uri0 done acc ->
  scanned uri0 (done ++ [line])
    (CodeStructureService.scanLine uri0 (Z.of_nat (length done) + 1) line acc).
Proof.
  destruct acc as [symbols current]. intros Hinv.
  unfold CodeStructureService.scanLine.
  destruct (RegExp.exec CodeStructureService.classRe line) as [classMatch|] eqn:Ec.
  { destruct (class_name _ _ Ec) as [Hid Hocc].
    destruct (declared_declaration done line Class _ None Hid Hocc eq_refl) as [Hd Hl].
    cbn zeta in Hd, Hl.
    eapply scanned_push; [exact Hinv|exact Hd|exact Hl|].
    intros classId E. right. inversion E; subst classId.
    eexists. split; [exact Hid|reflexivity]. }
  destruct (RegExp.exec CodeStructureService.functionRe line) as [functionMatch|] eqn:Ef.
  { destruct (function_name _ _ Ef) as [Hid Hocc].
    destruct (declared_declaration done line Function _ None Hid Hocc eq_refl) as [Hd Hl].
    cbn zeta in Hd, Hl.
    eapply scanned_push; [exact Hinv|exact Hd|exact Hl|].
    intros classId E. left. exact E. }
  destruct (RegExp.exec CodeStructureService.methodRe line) as [methodMatch|] eqn:Em.
  - destruct current as [classId|].
    + destruct (method_name _ _ Em) as [Hid Hocc].
      destruct Hinv as (Hdecl & Hord & Hcur).
      destruct (Hcur classId eq_refl) as (className & j & Hj & Hcid & ->).
      assert (Hinv : scanned uri0 done
                (symbols, Some (CodeStructureService.buildSymbolId uri0 className
                                  (Z.of_nat j + 1)))) by (split; [|split]; assumption).
      destruct (declared_declaration done line Method _
                  (Some (CodeStructureService.buildSymbolId uri0 className (Z.of_nat j + 1)))
                  Hid Hocc) as [Hd Hl].
      { exists className, j. auto. }
      cbn zeta in Hd, Hl.
      eapply scanned_push; [exact Hinv|exact Hd|exact Hl|].
      intros classId E. left. exact E.
    + destruct (RegExp.test CodeStructureService.blankRe line);
        eapply scanned_skip; eauto.
  - destruct (RegExp.test CodeStructureService.blankRe line);
      eapply scanned_skip; eauto.
Qed.

Lemma scanLines_scanned lines : forall done acc,
  scanned uri0 done acc ->
  scanned uri0 (done ++ lines)
    (CodeStructureService.scanLines uri0 (Z.of_nat (length done) + 1) lines acc).
Proof.
  induction lines as [|line lines IH]; intros done acc Hinv.
  - rewrite app_nil_r. exact Hinv.
  - cbn [CodeStructureService.scanLines].
    replace (done ++ line :: lines) with ((done ++ [line]) ++ lines)
      by (rewrite <- app_assoc; reflexivity).
    replace (Z.of_nat (length done) + 1 + 1) with (Z.of_nat (length (done ++ [line])) + 1)
      by (rewrite length_app; cbn [length]; lia).
    apply IH. apply scanLine_scanned. exact Hinv.
Qed.

Lemma scanned_initial : scanned uri0 [] ([], None).
Proof.
  split; [constructor|split].
  - intros i j a b _ Ha. cbn in Ha. destruct i; discriminate.
  - intros classId E. discriminate.
Qed.

End Scan.

Lemma buildSnapshot_scanned now model snapshot :
  CodeStructureService.buildSnapshot now model = Return snapshot ->
  exists declarations,
    symbols snapshot =
      CodeStructureService.fileSymbol (uri model) (Text.split_lines (value model))
      :: declarations
    /\ Forall (declaration (uri model) (Text.split_lines (value model))) declarations
    /\ in_line_order declarations.
Proof.
  intros H. apply buildSnapshot_inv in H. destruct H as [_ ->].
  eexists. split; [reflexivity|].
  pose proof (scanLines_scanned (uri model) (Text.split_lines (value model)) [] ([], None)
                (scanned_initial (uri model))) as (Hd & Ho & _).
  cbn in Hd, Ho. auto.
Qed.

End DeclarationFacts.

(* ===================================================================== *)
(** ** Symbol ids *)
(* ===================================================================== *)

Section IdFacts.

Lemma all_of_app cls (a b : string) :
  all_of cls (a +:+ b) = all_of cls a && all_of cls b.
Proof.
  induction a as [|c a IH]; [reflexivity|].
  change (String c a +:+ b) with (String c (a +:+ b)). cbn. rewrite IH.
  rewrite andb_assoc. reflexivity.
Qed.

Lemma all_of_impl (p q : ascii -> bool) w :
  (forall c, p c = true -> q c = true) -> all_of p w = true -> all_of q w = true.
Proof.
  intros Hpq. induction w as [|c w IH]; cbn; [reflexivity|].
  intros H. apply andb_true_iff in H. destruct H as [Hc Hw].
  rewrite (Hpq c Hc), (IH Hw). reflexivity.
Qed.

Lemma ident_not_at c : Text.is_ident c = true -> not_at c = true.
Proof.
  intros H. unfold not_at. destruct (Ascii.eqb_spec c "@") as [->|]; [|reflexivity].
  vm_compute in H. discriminate.
Qed.

Lemma identifier_not_at name0 : is_identifier name0 -> all_of not_at name0 = true.
Proof. intros [_ H]. eapply all_of_impl; [exact ident_not_at|exact H]. Qed.

Lemma at_in_the_middle (a b : string) : all_of not_at (a +:+ "@" +:+ b) = false.
Proof.
  rewrite all_of_app. change ("@" +:+ b) with (String "@" b). cbn.
  apply andb_false_r.
Qed.

(** An id is split at its first [@] when the part before it has none. *)
Lemma split_first (a1 : string) : forall a2 b1 b2 : string,
  all_of not_at a1 = true -> all_of not_at a2 = true ->
  a1 +:+ "@" +:+ b1 = a2 +:+ "@" +:+ b2 -> a1 = a2 /\ b1 = b2.
Proof.
  induction a1 as [|c a1 IH]; intros [|d a2] b1 b2 H1 H2 E.
  - inversion E. auto.
  - change (String "@" b1 = String d (a2 +:+ "@" +:+ b2)) in E. inversion E; subst d.
    cbn in H2. discriminate.
  - change (String c (a1 +:+ "@" +:+ b1) = String "@" b2) in E. inversion E; subst c.
    cbn in H1. discriminate.
  - change (String c (a1 +:+ "@" +:+ b1) = String d (a2 +:+ "@" +:+ b2)) in E.
    inversion E; subst d. cbn in H1, H2.
    apply andb_true_iff in H1. apply andb_true_iff in H2.
    destruct (IH a2 b1 b2) as [-> ->]; tauto.
Qed.

(** An id is split at its last [@] when the part after it has none. *)
Lemma split_last (a1 : string) : forall a2 b1 b2 : string,
  all_of not_at b1 = true -> all_of not_at b2 = true ->
  a1 +:+ "@" +:+ b1 = a2 +:+ "@" +:+ b2 -> a1 = a2 /\ b1 = b2.
Proof.
  induction a1 as [|c a1 IH]; intros [|d a2] b1 b2 H1 H2 E.
  - inversion E. auto.
  - change (String "@" b1 = String d (a2 +:+ "@" +:+ b2)) in E. inversion E; subst.
    rewrite at_in_the_middle in H1. discriminate.
  - change (String c (a1 +:+ "@" +:+ b1) = String "@" b2) in E. inversion E; subst.
    rewrite at_in_the_middle in H2. discriminate.
  - change (String c (a1 +:+ "@" +:+ b1) = String d (a2 +:+ "@" +:+ b2)) in E.
    inversion E; subst d.
    destruct (IH a2 b1 b2) as [-> ->]; auto.
Qed.

Lemma pretty_N_go_not_at x : forall s,
  all_of not_at s = true -> all_of not_at (pretty_N_go x s) = true.
Proof.
  induction (N.lt_wf_0 x) as [x _ IH]; intros s Hs.
  assert (x = 0 \/ 0 < x)%N as [->|Hx] by lia.
  - rewrite pretty_N_go_0. exact Hs.
  - rewrite pretty_N_go_step by exact Hx. apply IH.
    + apply N.div_lt; [exact Hx|reflexivity].
    + cbn. rewrite Hs. rewrite andb_true_r.
      unfold pretty_N_char. repeat case_match; reflexivity.
Qed.

(** The decimal rendering of a number holds no [@]. *)
Lemma decimal_not_at n : all_of not_at (Text.decimal n) = true.
Proof.
  unfold Text.decimal, pretty, pretty_Z.
  destruct n as [|p|p]; [reflexivity| |].
  - unfold pretty, pretty_positive, pretty, pretty_N.
    case_decide; [reflexivity|]. apply pretty_N_go_not_at. reflexivity.
  - change ("-" +:+ pretty p) with (String "-" (pretty p)). cbn.
    unfold pretty, pretty_positive, pretty, pretty_N.
    case_decide; [reflexivity|]. apply pretty_N_go_not_at. reflexivity.
Qed.

Lemma decimal_inj n1 n2 : Text.decimal n1 = Text.decimal n2 -> n1 = n2.
Proof. unfold Text.decimal. apply pretty_Z_inj. Qed.

(** The id of a symbol determines its name part and its line. *)
Lemma buildSymbolId_inj uri1 uri2 idName1 idName2 line1 line2 :
  uri_toString uri1 = uri_toString uri2 ->
  CodeStructureService.buildSymbolId uri1 idName1 line1 =
    CodeStructureService.buildSymbolId uri2 idName2 line2 ->
  idName1 = idName2 /\ line1 = line2.
Proof.
  unfold CodeStructureService.buildSymbolId. intros -> E.
  apply append_inv_head in E. apply append_inv_head in E.
  apply split_last in E; auto using decimal_not_at.
  destruct E as [-> E]. split; [reflexivity|]. apply decimal_inj. exact E.
Qed.

Lemma buildSymbolId_not_empty uri0 idName0 line0 :
  CodeStructureService.buildSymbolId uri0 idName0 line0 <> EmptyString.
Proof.
  unfold CodeStructureService.buildSymbolId.
  destruct (uri_toString uri0); discriminate.
Qed.

(** The name part of the id of a declared symbol determines its name. *)
Lemma idName_name uri1 lines1 uri2 lines2 a b :
  declaration uri1 lines1 a -> declaration uri2 lines2 b ->
  idName a = idName b -> name a = name b.
Proof.
  intros (_ & _ & _ & _ & Ha & _) (_ & _ & _ & _ & Hb & _).
  apply identifier_not_at in Ha. apply identifier_not_at in Hb.
  unfold idName.
  destruct (containerId a) as [ca|], (containerId b) as [cb|]; intros E.
  - apply split_first in E; tauto.
  - rewrite <- E in Hb. rewrite at_in_the_middle in Hb. discriminate.
  - rewrite E in Ha. rewrite at_in_the_middle in Ha. discriminate.
  - exact E.
Qed.

Lemma idName_not_file uri0 lines a :
  declaration uri0 lines a -> idName a <> "<file>".
Proof.
  intros (_ & _ & _ & _ & Ha & _). unfold idName.
  destruct (containerId a) as [ca|]; intros E.
  - assert (H : all_of not_at (name a +:+ "@" +:+ ca) = true) by (rewrite E; reflexivity).
    rewrite at_in_the_middle in H. discriminate.
  - destruct Ha as [_ Ha]. rewrite E in Ha. vm_compute in Ha. discriminate.
Qed.

Lemma declaration_id uri0 lines a :
  declaration uri0 lines a ->
  id a = CodeStructureService.buildSymbolId uri0 (idName a) (lineOf a).
Proof.
  intros (k & i & line & _ & _ & _ & Hr & _ & _ & Hid & _).
  unfold lineOf. rewrite Hr. exact Hid.
Qed.

End IdFacts.

(* ===================================================================== *)
(** ** The structure service: the symbols of a snapshot *)
(* ===================================================================== *)

(** X1.  A snapshot lists the file symbol first and only once: every
    other symbol is a class, a function or a method of the same file,
    without documentation summary or metrics, and it carries a container
    id exactly when it is a method. *)
Theorem snapshot_is_file_then_declarations
    (now : Z) (model : ITextModel) (snapshot : FileStructureSnapshot) :
  CodeStructureService.buildSnapshot now model = Return snapshot ->
  exists file declarations,
    symbols snapshot = file :: declarations
    /\ kind file = File
    /\ name file = uri_basename (uri model)
    /\ id file = CodeStructureService.buildSymbolId (uri model) "<file>" 1
    /\ containerId file = None
    /\ Forall
         (fun symbol =>
            (kind symbol = Class \/ kind symbol = Function \/ kind symbol = Method)
            /\ (kind symbol = Method <-> containerId symbol <> None)
            /\ sym_uri symbol = uri model
            /\ jsDocSummary symbol = None
            /\ metrics symbol = None)
         declarations.
Proof.
  intros H. destruct (buildSnapshot_scanned _ _ _ H) as (declarations & -> & Hdecl & _).
  eexists _, declarations. split; [reflexivity|].
  repeat (split; [reflexivity|]).
  eapply List.Forall_impl; [|exact Hdecl].
  intros symbol (k & i & line & _ & _ & _ & _ & _ & Huri & _ & Hdoc & Hmetrics & Hkind).
  destruct (kind symbol) eqn:Ek; try contradiction.
  - split; [auto|]. split; [|auto]. split; [discriminate|]. rewrite Hkind. congruence.
  - destruct Hkind as (className & j & _ & _ & Hc).
    split; [auto|]. split; [|auto]. split; [|reflexivity]. rewrite Hc. discriminate.
  - split; [auto|]. split; [|auto]. split; [discriminate|]. rewrite Hkind. congruence.
Qed.

Lemma snapshot_is_file_then_declarations_witness :
  exists snapshot file declarations,
    CodeStructureService.buildSnapshot 0 Samples.classDocument = Return snapshot
    /\ symbols snapshot = file :: declarations
    /\ kind file = File
    /\ name file = "sample.ts"
    /\ id file = "file:///sample.ts::<file>@1"
    /\ containerId file = None
    /\ Forall
         (fun symbol =>
            (kind symbol = Class \/ kind symbol = Function \/ kind symbol = Method)
            /\ (kind symbol = Method <-> containerId symbol <> None)
            /\ sym_uri symbol = Samples.sampleUri
            /\ jsDocSummary symbol = None
            /\ metrics symbol = None)
         declarations.
Proof.
  destruct (snapshot_is_file_then_declarations 0 Samples.classDocument _
              (buildSnapshot_live 0 Samples.classDocument eq_refl))
    as (file & declarations & H).
  eexists _, file, declarations.
  split; [apply buildSnapshot_live; reflexivity|exact H].
Defined.

Lemma lookup_map {A B} (f : A -> B) (l : list A) : forall i : nat,
  List.map f l !! i = f <$> (l !! i).
Proof. induction l as [|x l IH]; intros [|i]; cbn; auto. Qed.



(** X3.  The name of a declared symbol is an identifier, and its range
    and selection range are the span of the first occurrence of that
    name on the line of the declaration, from the column of its first
    code unit to the column after its last. *)
Theorem declared_symbol_spans_its_name
    (now : Z) (model : ITextModel) (snapshot : FileStructureSnapshot)
    (symbol : SymbolNodeLite) :
  CodeStructureService.buildSnapshot now model = Return snapshot ->
  In symbol (symbols snapshot) ->
  kind symbol <> File ->
  is_identifier (name symbol)
  /\ selectionRange symbol = range symbol
  /\ exists (k i : nat) (line : string),
       Text.split_lines (value model) !! k = Some line
       /\ first_at i (name symbol) line
       /\ range symbol =
            {| startLineNumber := Z.of_nat k + 1;
               startColumn := Z.of_nat i + 1;
               endLineNumber := Z.of_nat k + 1;
               endColumn := Z.of_nat i + 1 + Text.len (name symbol) |}.
Proof.
  intros H Hin Hkind.
  destruct (buildSnapshot_scanned _ _ _ H) as (declarations & E & Hdecl & _).
  rewrite E in Hin. destruct Hin as [<-|Hin]; [contradiction Hkind; reflexivity|].
  rewrite List.Forall_forall in Hdecl.
  destruct (Hdecl symbol Hin) as (k & i & line & Hk & Hid & Hfirst & Hr & Hsel & _).
  split; [exact Hid|]. split; [exact Hsel|]. exists k, i, line. auto.
Qed.

Lemma declared_symbol_spans_its_name_witness :
  exists snapshot symbol,
    CodeStructureService.buildSnapshot 0 Samples.keywordDocument = Return snapshot
    /\ In symbol (symbols snapshot)
    /\ name symbol = "f"
    /\ is_identifier (name symbol)
    /\ selectionRange symbol = range symbol
    /\ exists (k i : nat) (line : string),
         Text.split_lines (value Samples.keywordDocument) !! k = Some line
         /\ first_at i (name symbol) line
         /\ range symbol =
              {| startLineNumber := Z.of_nat k + 1;
                 startColumn := Z.of_nat i + 1;
                 endLineNumber := Z.of_nat k + 1;
                 endColumn := Z.of_nat i + 1 + Text.len (name symbol) |}.
Proof.
  eexists. eexists.
  split; [vm_compute; reflexivity|].
  split; [right; left; reflexivity|].
  split; [reflexivity|].
  match goal with
  | |- is_identifier (name ?symbol) /\ _ =>
      let built := eval vm_compute in
        (CodeStructureService.buildSnapshot 0 Samples.keywordDocument) in
      match built with
      | Return ?snapshot =>
          apply (declared_symbol_spans_its_name 0 Samples.keywordDocument snapshot symbol)
      end
  end.
  - vm_compute. reflexivity.
  - right. left. reflexivity.
  - discriminate.
Defined.

(* ===================================================================== *)
(** ** The structure service: ranges and lookup by position *)
(* ===================================================================== *)

Lemma within_inside inner outer position :
  within inner outer -> inside inner position -> inside outer position.
Proof.
  unfold within, inside, startOf, endOf. cbn. intros. lia.
Qed.

Lemma declaration_within uri0 text symbol :
  declaration uri0 (Text.split_lines text) symbol ->
  within (range symbol) (TextModel.fullRange text).
Proof.
  intros (k & i & line & Hk & _ & (_ & Hlen & _) & Hr & _).
  rewrite Hr. unfold within, inside, startOf, endOf, TextModel.fullRange. cbn.
  pose proof (lookup_lt_Some _ _ _ Hk) as Hlt.
  pose proof (len_nonneg (name symbol)).
  assert (Hlast : Z.of_nat k + 1 = Z.of_nat (length (Text.split_lines text)) ->
                  last (Text.split_lines text) = Some line).
  { intros E. rewrite last_lookup. rewrite <- Hk. f_equal. lia. }
  unfold Text.len in *.
  repeat split; try lia.
  - intros E. rewrite (Hlast E). cbn. lia.
  - intros E. rewrite (Hlast E). cbn. lia.
Qed.

Lemma fullRange_within_itself text :
  within (TextModel.fullRange text) (TextModel.fullRange text).
Proof.
  unfold within, inside, startOf, endOf, TextModel.fullRange. cbn.
  pose proof (split_lines_not_nil text).
  pose proof (len_nonneg (default EmptyString (last (Text.split_lines text)))).
  destruct (Text.split_lines text) as [|l ls] eqn:E; [congruence|].
  cbn [length]. repeat split; lia.
Qed.

(** X4.  The range of every symbol of a snapshot lies within the full
    range of the document, which is the range of the file symbol. *)
Theorem symbol_ranges_lie_within_the_file
    (now : Z) (model : ITextModel) (snapshot : FileStructureSnapshot)
    (symbol : SymbolNodeLite) :
  CodeStructureService.buildSnapshot now model = Return snapshot ->
  In symbol (symbols snapshot) ->
  within (range symbol) (TextModel.fullRange (value model))
  /\ exists file others,
       symbols snapshot = file :: others
       /\ range file = TextModel.fullRange (value model).
Proof.
  intros H Hin.
  destruct (buildSnapshot_scanned _ _ _ H) as (declarations & E & Hdecl & _).
  rewrite E in Hin |- *. split.
  - destruct Hin as [<-|Hin].
    + rewrite fileSymbol_range. apply fullRange_within_itself.
    + rewrite List.Forall_forall in Hdecl. apply (declaration_within (uri model)). auto.
  - eexists _, _. split; [reflexivity|]. apply fileSymbol_range.
Qed.

Lemma symbol_ranges_lie_within_the_file_witness :
  exists snapshot symbol,
    CodeStructureService.buildSnapshot 0 Samples.classDocument = Return snapshot
    /\ In symbol (symbols snapshot)
    /\ name symbol = "bar"
    /\ within (range symbol) (TextModel.fullRange (value Samples.classDocument))
    /\ exists file others,
         symbols snapshot = file :: others
         /\ range file = TextModel.fullRange (value Samples.classDocument).
Proof.
  eexists. eexists.
  split; [vm_compute; reflexivity|].
  split; [right; right; left; reflexivity|].
  split; [reflexivity|].
  match goal with
  | |- within (range ?symbol) _ /\ _ =>
      let built := eval vm_compute in
        (CodeStructureService.buildSnapshot 0 Samples.classDocument) in
      match built with
      | Return ?snapshot =>
          apply (symbol_ranges_lie_within_the_file 0 Samples.classDocument snapshot symbol)
      end
  end.
  - vm_compute. reflexivity.
  - right. right. left. reflexivity.
Defined.

Lemma firstContaining_built now model snapshot position symbol :
  CodeStructureService.buildSnapshot now model = Return snapshot ->
  CodeStructureService.firstContaining (symbols snapshot) position = Some symbol ->
  kind symbol = File
  /\ inside (TextModel.fullRange (value model)) position
  /\ exists others, symbols snapshot = symbol :: others.
Proof.
  intros H Hfound.
  destruct (buildSnapshot_scanned _ _ _ H) as (declarations & E & Hdecl & _).
  rewrite E in Hfound |- *. cbn [CodeStructureService.firstContaining] in Hfound.
  destruct (CodeStructureService.containsPosition _ position) eqn:Ec.
  - inversion Hfound; subst symbol. split; [reflexivity|].
    apply containsPosition_inside in Ec. rewrite fileSymbol_range in Ec.
    split; [exact Ec|]. eexists. reflexivity.
  - exfalso. apply containsPosition_outside in Ec. apply Ec.
    rewrite fileSymbol_range.
    pose proof (firstContaining_spec declarations position) as Hspec.
    rewrite Hfound in Hspec. destruct Hspec as (before & after & -> & _ & Hinside).
    rewrite List.Forall_forall in Hdecl.
    eapply within_inside; [|exact Hinside].
    apply (declaration_within (uri model)). apply Hdecl.
    apply in_or_app. right. left. reflexivity.
Qed.

Section IndexedStates.

Lemma snapshots_built_frame s s' :
  CodeStructureService._snapshots s' = CodeStructureService._snapshots s ->
  snapshots_built s -> snapshots_built s'.
Proof. unfold snapshots_built. intros ->. auto. Qed.

Lemma recomputeSnapshot_built now model s :
  snapshots_built s ->
  snapshots_built (Workbench.after (CodeStructureService.recomputeSnapshot now model) s).
Proof.
  intros Hs. unfold Workbench.after.
  destruct (CodeStructureService.buildSnapshot now model) as [snapshot|e] eqn:E.
  - rewrite (recomputeSnapshot_returned _ _ _ _ E). cbn.
    intros key snapshot' Hl. cbn in Hl.
    destruct (decide (uri_toString (uri model) = key)) as [<-|Hne].
    + rewrite lookup_insert_eq in Hl. inversion Hl; subst. eauto.
    + rewrite lookup_insert_ne in Hl by exact Hne. eauto.
  - rewrite (recomputeSnapshot_thrown _ _ _ _ E). exact Hs.
Qed.

Lemma indexed_snapshots_built s : indexed s -> snapshots_built s.
Proof.
  induction 1 as [|model s _ IH|model s _ IH|scheduler model s _ IH|key s _ IH
                   |scheduler now model s _ IH].
  - intros key snapshot Hl. cbn in Hl. rewrite lookup_empty in Hl. discriminate.
  - eapply snapshots_built_frame; [|exact IH].
    unfold Workbench.after, CodeStructureService.onModelAdded.
    destruct (CodeStructureService.isSupported model); [|reflexivity]. cbn.
    destruct (CodeStructureService._recomputeSchedulers s !! _); reflexivity.
  - eapply snapshots_built_frame; [|exact IH].
    unfold Workbench.after, CodeStructureService.onModelRemoved. cbn.
    destruct (CodeStructureService._recomputeSchedulers s !! _); reflexivity.
  - eapply snapshots_built_frame; [|exact IH].
    unfold Workbench.after, CodeStructureService.onDidChangeContent.
    destruct (CodeStructureService.isSupported model); reflexivity.
  - intros k snapshot Hl. unfold Workbench.after in Hl. cbn in Hl.
    destruct (decide (key = k)) as [->|Hne].
    + rewrite lookup_delete_eq in Hl. discriminate.
    + rewrite lookup_delete_ne in Hl by exact Hne. eauto.
  - unfold CodeStructureService.onTimeout, Workbench.after. cbn.
    destruct (CodeStructureService.schedulers s !! scheduler) as [o|] eqn:Eo;
      [|exact IH].
    destruct (RunOnceScheduler.isScheduled o); [|exact IH].
    cbn.
    pose proof (recomputeSnapshot_built now model
                  (CodeStructureService.on_scheduler scheduler RunOnceScheduler.cancel s))
      as Hb.
    unfold Workbench.after in Hb.
    destruct (CodeStructureService.recomputeSnapshot now model _) as [[r s1] t1].
    cbn in *. apply Hb. eapply snapshots_built_frame; [|exact IH]. reflexivity.
Qed.

End IndexedStates.

(** X5.  Lookup by position never finds a class, a function or a
    method: whatever the service has indexed, the symbol that
    [getSymbolAtPosition] returns is the file symbol, the first symbol
    of the snapshot. *)
Theorem getSymbolAtPosition_finds_only_the_file
    (s : CodeStructureService.state) (uri0 : URI) (position : Position)
    (symbol : SymbolNodeLite) :
  indexed s ->
  CodeStructureService.getSymbolAtPosition s uri0 position = Some symbol ->
  kind symbol = File
  /\ exists snapshot others,
       CodeStructureService.getSnapshot s uri0 = Some snapshot
       /\ symbols snapshot = symbol :: others.
Proof.
  intros Hs Hfound. apply indexed_snapshots_built in Hs.
  unfold CodeStructureService.getSymbolAtPosition in Hfound.
  destruct (CodeStructureService.getSnapshot s uri0) as [snapshot|] eqn:E; [|discriminate].
  destruct (Hs _ _ E) as (now & model & Hbuilt & _).
  destruct (firstContaining_built _ _ _ _ _ Hbuilt Hfound) as (Hk & _ & others & Ho).
  split; [exact Hk|]. exists snapshot, others. auto.
Qed.

Lemma getSymbolAtPosition_finds_only_the_file_witness :
  let s :=
    Workbench.after (CodeStructureService.onTimeout 0 0 Samples.classDocument)
      (Workbench.after (CodeStructureService.onModelAdded Samples.classDocument)
         CodeStructureService.initial) in
  let onFoo := {| lineNumber := 1; column := 8 |} in
  exists symbol,
    CodeStructureService.getSymbolAtPosition s Samples.sampleUri onFoo = Some symbol
    /\ kind symbol = File
    /\ exists snapshot others,
         CodeStructureService.getSnapshot s Samples.sampleUri = Some snapshot
         /\ symbols snapshot = symbol :: others.
Proof.
  intros s onFoo. eexists. split; [vm_compute; reflexivity|].
  apply (getSymbolAtPosition_finds_only_the_file s Samples.sampleUri onFoo).
  - apply indexed_onTimeout. apply indexed_onModelAdded. apply indexed_initial.
  - vm_compute. reflexivity.
Defined.

Lemma built_ids_NoDup now model snapshot :
  CodeStructureService.buildSnapshot now model = Return snapshot ->
  NoDup (ids snapshot).
Proof.
  intros H.
  destruct (buildSnapshot_scanned _ _ _ H) as (declarations & E & Hdecl & Hord).
  unfold ids. rewrite E. cbn [List.map]. rewrite List.Forall_forall in Hdecl.
  constructor.
  - intros Hin. apply list_elem_of_In in Hin. apply in_map_iff in Hin.
    destruct Hin as (a & Hid & Ha).
    pose proof (Hdecl a Ha) as Hda.
    rewrite (declaration_id _ _ _ Hda) in Hid. cbn [id CodeStructureService.fileSymbol] in Hid.
    apply buildSymbolId_inj in Hid; [|reflexivity].
    destruct Hid as [Hid _]. exact (idName_not_file _ _ _ Hda Hid).
  - apply NoDup_alt. intros i j x Hi Hj.
    rewrite lookup_map in Hi, Hj.
    destruct (declarations !! i) as [a|] eqn:Ea; [|discriminate].
    destruct (declarations !! j) as [b|] eqn:Eb; [|discriminate].
    cbn in Hi, Hj. inversion Hi; inversion Hj; subst x.
    assert (Hina : In a declarations)
      by (apply list_elem_of_In; eapply list_elem_of_lookup_2; exact Ea).
    assert (Hinb : In b declarations)
      by (apply list_elem_of_In; eapply list_elem_of_lookup_2; exact Eb).
    match goal with Heq : id b = id a |- _ => rename Heq into Hid end.
    rewrite (declaration_id _ _ _ (Hdecl a Hina)), (declaration_id _ _ _ (Hdecl b Hinb)) in Hid.
    apply buildSymbolId_inj in Hid; [|reflexivity]. destruct Hid as [_ Hline].
    destruct (Nat.lt_total i j) as [Hlt|[Heq|Hgt]]; [|exact Heq|].
    + pose proof (Hord i j a b Hlt Ea Eb). lia.
    + pose proof (Hord j i b a Hgt Eb Ea). lia.
Qed.

Lemma find_by_id symbols0 symbol :
  NoDup (List.map id symbols0) ->
  In symbol symbols0 ->
  List.find (fun s => String.eqb (id s) (id symbol)) symbols0 = Some symbol.
Proof.
  induction symbols0 as [|x rest IH]; intros Hnodup Hin; [destruct Hin|].
  cbn [List.map] in Hnodup. apply NoDup_cons in Hnodup. destruct Hnodup as [Hx Hrest].
  cbn [List.find]. destruct Hin as [->|Hin].
  - rewrite String.eqb_refl. reflexivity.
  - destruct (String.eqb_spec (id x) (id symbol)) as [E|_]; [|auto].
    exfalso. apply Hx. rewrite E. apply list_elem_of_In, in_map. exact Hin.
Qed.

(** X6.  The ids of the symbols of a snapshot are pairwise different:
    looking a symbol of the snapshot up by its id finds that symbol, and
    the name that the history service reads for the id is the name of
    that symbol. *)
Theorem snapshot_ids_are_unique
    (now : Z) (model : ITextModel) (snapshot : FileStructureSnapshot) :
  CodeStructureService.buildSnapshot now model = Return snapshot ->
  NoDup (ids snapshot)
  /\ forall symbol,
       In symbol (symbols snapshot) ->
       List.find (fun s => String.eqb (id s) (id symbol)) (symbols snapshot) = Some symbol
       /\ JsMap.get (CodeHistoryService.byId snapshot) (id symbol) = Some (name symbol).
Proof.
  intros H. pose proof (built_ids_NoDup _ _ _ H) as Hnodup.
  split; [exact Hnodup|]. intros symbol Hin. split.
  - apply find_by_id; assumption.
  - rewrite byId_get. apply nameOf_unique; assumption.
Qed.

Lemma snapshot_ids_are_unique_witness :
  exists snapshot,
    CodeStructureService.buildSnapshot 0 Samples.classDocument = Return snapshot
    /\ ids snapshot =
         [ "file:///sample.ts::<file>@1"; "file:///sample.ts::Foo@1";
           "file:///sample.ts::bar@file:///sample.ts::Foo@1@2" ]
    /\ NoDup (ids snapshot)
    /\ forall symbol,
         In symbol (symbols snapshot) ->
         List.find (fun s => String.eqb (id s) (id symbol)) (symbols snapshot) = Some symbol
         /\ JsMap.get (CodeHistoryService.byId snapshot) (id symbol) = Some (name symbol).
Proof.
  eexists. split; [apply buildSnapshot_live; reflexivity|].
  split; [vm_compute; reflexivity|].
  apply (snapshot_ids_are_unique 0 Samples.classDocument).
  apply buildSnapshot_live. reflexivity.
Defined.

(* ===================================================================== *)
(** ** The history service: the numbers of the events *)
(* ===================================================================== *)

Section Numbering.

Variable clock : Z -> Z.

Lemma push_numbered n acc uri0 sid kind0 summary0 ref :
  numbered clock n acc ->
  numbered clock n
    (CodeHistoryService.push acc (fun m =>
       CodeHistoryService.createEvent clock m uri0 sid kind0 summary0 ref)).
Proof.
  intros [Hn Hid]. unfold CodeHistoryService.push. split; cbn [fst snd].
  - rewrite length_app. cbn [length]. lia.
  - intros i e Hi.
    destruct (decide (i < length (fst acc))%nat) as [Hlt|Hge].
    + rewrite lookup_app_l in Hi by exact Hlt. auto.
    + rewrite lookup_app_r in Hi by lia.
      destruct (i - length (fst acc))%nat as [|k] eqn:E; [|destruct k; discriminate].
      cbn in Hi. inversion Hi; subst e. cbn.
      rewrite Hn. replace (n + Z.of_nat i) with (n + Z.of_nat (length (fst acc))) by lia.
      auto.
Qed.

Lemma removals_numbered n next ref nextById l : forall acc,
  numbered clock n acc ->
  numbered clock n (CodeHistoryService.removals clock next ref l nextById acc).
Proof.
  unfold CodeHistoryService.removals.
  induction l as [|(i, prevName) l IH]; intros acc Hacc; [exact Hacc|].
  cbn [fold_left]. apply IH.
  destruct (negb (JsMap.has nextById i)); [apply push_numbered|]; exact Hacc.
Qed.

Lemma additionsAndChanges_numbered n next ref prevById l : forall acc,
  numbered clock n acc ->
  numbered clock n (CodeHistoryService.additionsAndChanges clock next ref prevById l acc).
Proof.
  unfold CodeHistoryService.additionsAndChanges.
  induction l as [|(i, nextName) l IH]; intros acc Hacc; [exact Hacc|].
  cbn [fold_left]. apply IH.
  destruct (JsMap.get prevById i) as [prevName|].
  - destruct (negb (String.eqb prevName nextName)); [apply push_numbered|]; exact Hacc.
  - apply push_numbered. exact Hacc.
Qed.

Lemma computeDiffEvents_numbered n previous next :
  numbered clock n (CodeHistoryService.computeDiffEvents clock n previous next).
Proof.
  unfold CodeHistoryService.computeDiffEvents.
  apply additionsAndChanges_numbered, removals_numbered.
  split; [cbn; lia|]. intros i e Hi. cbn in Hi. destruct i; discriminate.
Qed.

End Numbering.


(* ===================================================================== *)
(** ** The history service: the state after a pass *)
(* ===================================================================== *)

Section HistoryState.

Lemma onSnapshotUpdated_result clock structure modelService uri0 model next s :
  getModel modelService uri0 = Some model ->
  CodeStructureService.getSnapshot structure uri0 = Some next ->
  exists s' t h',
    CodeHistoryService.onSnapshotUpdated clock structure modelService uri0 s = (Return tt, s', t)
    /\ CodeHistoryService._perFile s' =
         <[uri_toString uri0 := h']> (CodeHistoryService._perFile s)
    /\ CodeHistoryService.lastSnapshot h' = Some next
    /\ CodeHistoryService.events h' = CodeHistoryService.getEventsForFile s uri0 ++ fired t
    /\ CodeHistoryService.NEXT_EVENT_ID s' =
         CodeHistoryService.NEXT_EVENT_ID s + Z.of_nat (length (fired t))
    /\ fired t =
         match remembered s uri0 with
         | None => []
         | Some previous =>
             fst (CodeHistoryService.computeDiffEvents clock
                    (CodeHistoryService.NEXT_EVENT_ID s) previous next)
         end.
Proof.
  intros Hmodel Hsnap. unfold CodeHistoryService.onSnapshotUpdated, remembered,
    CodeHistoryService.getEventsForFile.
  rewrite Hmodel, Hsnap. set (key := uri_toString uri0).
  unfold Handler.try_catch, Handler.bind at 1, Handler.get.
  destruct s as [perFile nextId].
  cbn [CodeHistoryService._perFile CodeHistoryService.NEXT_EVENT_ID].
  destruct (perFile !! key) as [h|] eqn:Hh.
  - unfold Handler.bind at 1, Handler.ret at 1. unfold Handler.bind at 1, Handler.modify at 1.
    unfold CodeHistoryService.update_history at 1, CodeHistoryService.set_perFile at 1.
    cbn [CodeHistoryService._perFile CodeHistoryService.NEXT_EVENT_ID]. rewrite Hh.
    destruct (CodeHistoryService.lastSnapshot h) as [previous|] eqn:Hlast.
    + unfold Handler.bind at 1, Handler.get.
      cbn [CodeHistoryService._perFile CodeHistoryService.NEXT_EVENT_ID].
      pose proof (computeDiffEvents_numbered clock nextId previous next) as [Hnum _].
      destruct (CodeHistoryService.computeDiffEvents clock nextId previous next)
        as [diff nextId'] eqn:Hdiff.
      unfold Handler.bind at 1, Handler.modify at 1, CodeHistoryService.set_NEXT_EVENT_ID.
      cbn [CodeHistoryService._perFile CodeHistoryService.NEXT_EVENT_ID].
      match goal with
      | |- context [Handler.for_each diff (CodeHistoryService.record key) ?s1] =>
          destruct (record_events key diff s1
                      {| CodeHistoryService.h_uri := CodeHistoryService.h_uri h;
                         CodeHistoryService.events := CodeHistoryService.events h;
                         CodeHistoryService.lastSnapshot := Some next |})
            as (t & -> & Hfired)
      end.
      { cbn. apply lookup_insert_eq. }
      eexists _, _, _. split; [reflexivity|]. cbn [app fst snd] in *.
      cbn. rewrite insert_insert_eq, Hfired.
      split; [reflexivity|]. split; [reflexivity|]. split; [reflexivity|].
      split; [exact Hnum|reflexivity].
    + eexists _, _, _. split; [reflexivity|]. cbn.
      split; [reflexivity|]. split; [reflexivity|].
      split; [rewrite app_nil_r; reflexivity|]. split; [lia|reflexivity].
  - unfold Handler.bind at 1. unfold Handler.bind at 1, Handler.modify at 1, Handler.ret at 1.
    unfold Handler.bind at 1, Handler.modify at 1.
    unfold CodeHistoryService.update_history at 1, CodeHistoryService.set_perFile.
    cbn [CodeHistoryService._perFile CodeHistoryService.NEXT_EVENT_ID
         CodeHistoryService.lastSnapshot].
    rewrite lookup_insert_eq.
    eexists _, _, _. split; [reflexivity|]. cbn. rewrite insert_insert_eq.
    split; [reflexivity|]. split; [reflexivity|]. split; [reflexivity|].
    split; [lia|reflexivity].
Qed.

Lemma onSnapshotUpdated_idle clock structure modelService uri0 s :
  getModel modelService uri0 = None \/ CodeStructureService.getSnapshot structure uri0 = None ->
  CodeHistoryService.onSnapshotUpdated clock structure modelService uri0 s = (Return tt, s, []).
Proof.
  unfold CodeHistoryService.onSnapshotUpdated. intros [->| ->]; [reflexivity|].
  destruct (getModel modelService uri0); reflexivity.
Qed.

Lemma onModelRemoved_state model s :
  let s' := Workbench.after (CodeHistoryService.onModelRemoved model) s in
  CodeHistoryService.NEXT_EVENT_ID s' = CodeHistoryService.NEXT_EVENT_ID s
  /\ (forall key,
        CodeHistoryService.events <$> CodeHistoryService._perFile s' !! key =
        CodeHistoryService.events <$> CodeHistoryService._perFile s !! key)
  /\ remembered s' (uri model) = None
  /\ (forall u, uri_toString u <> uri_toString (uri model) -> remembered s' u = remembered s u).
Proof.
  unfold Workbench.after, CodeHistoryService.onModelRemoved, remembered. cbn.
  split; [reflexivity|].
  destruct (CodeHistoryService._perFile s !! uri_toString (uri model)) as [h|] eqn:Hh.
  - split; [|split].
    + intros key. destruct (decide (uri_toString (uri model) = key)) as [<-|Hne].
      * rewrite lookup_insert_eq, Hh. reflexivity.
      * rewrite lookup_insert_ne by exact Hne. reflexivity.
    + rewrite lookup_insert_eq. reflexivity.
    + intros u Hne. rewrite lookup_insert_ne by congruence. reflexivity.
  - split; [|split].
    + reflexivity.
    + rewrite Hh. reflexivity.
    + reflexivity.
Qed.

End HistoryState.

(* ===================================================================== *)
(** ** The history service: what every reachable history keeps *)
(* ===================================================================== *)

Section HistoryInvariants.






Lemma onSnapshotUpdated_appends clock structure modelService uri0 s u :
  exists later,
    CodeHistoryService.getEventsForFile
      (Workbench.after
         (CodeHistoryService.onSnapshotUpdated clock structure modelService uri0) s) u
    = CodeHistoryService.getEventsForFile s u ++ later.
Proof.
  destruct (getModel modelService uri0) as [model|] eqn:Hmodel;
    [|unfold Workbench.after; rewrite onSnapshotUpdated_idle by auto;
      exists []; rewrite app_nil_r; reflexivity].
  destruct (CodeStructureService.getSnapshot structure uri0) as [next|] eqn:Hsnap;
    [|unfold Workbench.after; rewrite onSnapshotUpdated_idle by auto;
      exists []; rewrite app_nil_r; reflexivity].
  destruct (onSnapshotUpdated_result clock structure modelService uri0 model next s
              Hmodel Hsnap)
    as (s' & t & h' & Hrun & Hper & _ & Hev & _).
  unfold Workbench.after. rewrite Hrun. cbn [fst snd].
  unfold CodeHistoryService.getEventsForFile at 1. rewrite Hper.
  destruct (decide (uri_toString uri0 = uri_toString u)) as [E|Hne].
  - rewrite E, lookup_insert_eq. cbn. rewrite Hev. exists (fired t).
    unfold CodeHistoryService.getEventsForFile. rewrite E. reflexivity.
  - rewrite lookup_insert_ne by exact Hne. exists []. rewrite app_nil_r. reflexivity.
Qed.

Lemma onModelRemoved_keeps_events model s u :
  CodeHistoryService.getEventsForFile
    (Workbench.after (CodeHistoryService.onModelRemoved model) s) u
  = CodeHistoryService.getEventsForFile s u.
Proof.
  destruct (onModelRemoved_state model s) as (_ & Hev & _). cbn zeta in Hev.
  unfold CodeHistoryService.getEventsForFile. rewrite Hev. reflexivity.
Qed.

End HistoryInvariants.

(** X8.  The history of a file only ever grows at its end: whatever
    the service does after a state, the events it returned for a file in
    that state are still the first events it returns for the file. *)
Theorem history_is_append_only
    (s s' : CodeHistoryService.state) (u : URI) :
  history_steps s s' ->
  exists later,
    CodeHistoryService.getEventsForFile s' u =
      CodeHistoryService.getEventsForFile s u ++ later.
Proof.
  induction 1 as [|clock structure modelService uri0 s' _ (later & IH)
                   |model s' _ (later & IH)].
  - exists []. rewrite app_nil_r. reflexivity.
  - destruct (onSnapshotUpdated_appends clock structure modelService uri0 s' u)
      as (more & ->).
    exists (later ++ more). rewrite IH, app_assoc. reflexivity.
  - exists later. rewrite onModelRemoved_keeps_events. exact IH.
Qed.


Lemma history_is_append_only_witness :
  let key := uri_toString Samples.sampleUri in
  let structure0 :=
    Workbench.after (CodeStructureService.recomputeSnapshot 0 Samples.callsDocument)
      CodeStructureService.initial in
  let models0 : IModelService := {[ key := Samples.callsDocument ]} in
  let h0 :=
    Workbench.after
      (CodeHistoryService.onSnapshotUpdated Samples.clock structure0 models0 Samples.sampleUri)
      CodeHistoryService.initial in
  let structure1 :=
    Workbench.after (CodeStructureService.recomputeSnapshot 5 Samples.editedDocument)
      structure0 in
  let models1 : IModelService := {[ key := Samples.editedDocument ]} in
  let h1 :=
    Workbench.after
      (CodeHistoryService.onSnapshotUpdated Samples.clock structure1 models1 Samples.sampleUri)
      h0 in
  let h2 := Workbench.after (CodeHistoryService.onModelRemoved Samples.editedDocument) h1 in
  length (CodeHistoryService.getEventsForFile h1 Samples.sampleUri) = 4%nat
  /\ exists later,
       CodeHistoryService.getEventsForFile h2 Samples.sampleUri =
         CodeHistoryService.getEventsForFile h1 Samples.sampleUri ++ later.
Proof.
  intros key structure0 models0 h0 structure1 models1 h1 h2.
  split; [vm_compute; reflexivity|].
  apply (history_is_append_only h1 h2 Samples.sampleUri).
  apply history_onModelRemoved. apply history_stays.
Defined.


(** X10.  A file that was removed and comes back starts from a new
    baseline: the first snapshot after the removal records no event,
    gives out no event number and leaves the history of the file as it
    was, and it becomes the snapshot that the next pass is compared
    with. *)
Theorem reopened_file_starts_from_a_new_baseline
    (clock : Z -> Z) (structure : CodeStructureService.state) (modelService : IModelService)
    (removed reopened : ITextModel) (next : FileStructureSnapshot)
    (s : CodeHistoryService.state) :
  getModel modelService (uri removed) = Some reopened ->
  CodeStructureService.getSnapshot structure (uri removed) = Some next ->
  let s1 := Workbench.after (CodeHistoryService.onModelRemoved removed) s in
  let '(result, s2, t) :=
    CodeHistoryService.onSnapshotUpdated clock structure modelService (uri removed) s1 in
  result = Return tt
  /\ fired t = []
  /\ CodeHistoryService.getEventsForFile s2 (uri removed) =
       CodeHistoryService.getEventsForFile s (uri removed)
  /\ CodeHistoryService.NEXT_EVENT_ID s2 = CodeHistoryService.NEXT_EVENT_ID s
  /\ remembered s2 (uri removed) = Some next.
Proof.
  intros Hmodel Hsnap s1.
  destruct (onModelRemoved_state removed s) as (Hn & _ & Hrem & _). cbn zeta in Hn, Hrem.
  fold s1 in Hn, Hrem.
  destruct (onSnapshotUpdated_result clock structure modelService (uri removed) reopened
              next s1 Hmodel Hsnap)
    as (s2 & t & h' & -> & Hper & Hlast & Hev & Hn2 & Hfired).
  rewrite Hrem in Hfired. rewrite Hfired in *. cbn [length] in Hn2.
  split; [reflexivity|]. split; [reflexivity|].
  split; [|split].
  - unfold CodeHistoryService.getEventsForFile at 1. rewrite Hper, lookup_insert_eq. cbn.
    rewrite Hev, app_nil_r. apply onModelRemoved_keeps_events.
  - lia.
  - unfold remembered. rewrite Hper, lookup_insert_eq. exact Hlast.
Qed.

Lemma reopened_file_starts_from_a_new_baseline_witness :
  let key := uri_toString Samples.sampleUri in
  let structure0 :=
    Workbench.after (CodeStructureService.recomputeSnapshot 0 Samples.callsDocument)
      CodeStructureService.initial in
  let models0 : IModelService := {[ key := Samples.callsDocument ]} in
  let h0 :=
    Workbench.after
      (CodeHistoryService.onSnapshotUpdated Samples.clock structure0 models0 Samples.sampleUri)
      CodeHistoryService.initial in
  let structure1 :=
    Workbench.after (CodeStructureService.recomputeSnapshot 5 Samples.editedDocument)
      structure0 in
  let models1 : IModelService := {[ key := Samples.editedDocument ]} in
  remembered h0 Samples.sampleUri <> None
  /\ let s1 := Workbench.after (CodeHistoryService.onModelRemoved Samples.callsDocument) h0 in
     let '(result, s2, t) :=
       CodeHistoryService.onSnapshotUpdated Samples.clock structure1 models1
         (uri Samples.callsDocument) s1 in
     result = Return tt
     /\ fired t = []
     /\ CodeHistoryService.getEventsForFile s2 (uri Samples.callsDocument) =
          CodeHistoryService.getEventsForFile h0 (uri Samples.callsDocument)
     /\ CodeHistoryService.NEXT_EVENT_ID s2 = CodeHistoryService.NEXT_EVENT_ID h0
     /\ remembered s2 (uri Samples.callsDocument)
        = CodeStructureService.getSnapshot structure1 Samples.sampleUri.
Proof.
  intros key structure0 models0 h0 structure1 models1.
  split; [vm_compute; discriminate|].
  let found := eval vm_compute in
    (CodeStructureService.getSnapshot structure1 Samples.sampleUri) in
  match found with
  | Some ?next =>
      change (CodeStructureService.getSnapshot structure1 Samples.sampleUri) with (Some next);
      apply (reopened_file_starts_from_a_new_baseline Samples.clock structure1 models1
               Samples.callsDocument Samples.editedDocument next h0)
  end.
  - vm_compute. reflexivity.
  - vm_compute. reflexivity.
Defined.

(* ===================================================================== *)
(** ** The history service on the snapshots of the structure service *)
(* ===================================================================== *)

Section BuiltDiff.

Lemma built_symbol now model snapshot a :
  CodeStructureService.buildSnapshot now model = Return snapshot ->
  In a (symbols snapshot) ->
  a = CodeStructureService.fileSymbol (uri model) (Text.split_lines (value model))
  \/ declaration (uri model) (Text.split_lines (value model)) a.
Proof.
  intros H Hin.
  destruct (buildSnapshot_scanned _ _ _ H) as (declarations & E & Hdecl & _).
  rewrite E in Hin. destruct Hin as [<-|Hin]; [left; reflexivity|right].
  rewrite List.Forall_forall in Hdecl. auto.
Qed.

(** Across the snapshots of one file, the id of a symbol determines its
    name. *)
Lemma built_id_name now1 now2 model1 model2 previous next a b :
  uri model1 = uri model2 ->
  CodeStructureService.buildSnapshot now1 model1 = Return previous ->
  CodeStructureService.buildSnapshot now2 model2 = Return next ->
  In a (symbols previous) -> In b (symbols next) ->
  id a = id b -> name a = name b.
Proof.
  intros Huri H1 H2 Ha Hb Hid.
  destruct (built_symbol _ _ _ _ H1 Ha) as [->|Hda];
    destruct (built_symbol _ _ _ _ H2 Hb) as [->|Hdb].
  - cbn. rewrite Huri. reflexivity.
  - exfalso. rewrite (declaration_id _ _ _ Hdb) in Hid.
    cbn [id CodeStructureService.fileSymbol] in Hid.
    apply buildSymbolId_inj in Hid; [|rewrite Huri; reflexivity].
    destruct Hid as [Hid _]. symmetry in Hid. exact (idName_not_file _ _ _ Hdb Hid).
  - exfalso. rewrite (declaration_id _ _ _ Hda) in Hid.
    cbn [id CodeStructureService.fileSymbol] in Hid.
    apply buildSymbolId_inj in Hid; [|rewrite Huri; reflexivity].
    destruct Hid as [Hid _]. exact (idName_not_file _ _ _ Hda Hid).
  - rewrite (declaration_id _ _ _ Hda), (declaration_id _ _ _ Hdb) in Hid.
    apply buildSymbolId_inj in Hid; [|rewrite Huri; reflexivity].
    destruct Hid as [Hid _]. exact (idName_name _ _ _ _ _ _ Hda Hdb Hid).
Qed.

Lemma counted kind0 i e emitted :
  In e emitted -> event_kind e = kind0 -> symbolId e = Some i ->
  (1 <= count_events kind0 i emitted)%nat.
Proof.
  intros Hin Hk Hi. unfold count_events.
  assert (Hf : In e (List.filter
                       (fun e => bool_decide (event_kind e = kind0)
                                 && bool_decide (symbolId e = Some i)) emitted)).
  { apply filter_In. split; [exact Hin|].
    rewrite !bool_decide_eq_true_2 by assumption. reflexivity. }
  destruct (List.filter _ emitted); [destruct Hf|cbn; lia].
Qed.

End BuiltDiff.

(** X11.  Between two snapshots that the structure service built for one
    file, the history service never records a change: the id of a symbol
    contains its name, so a symbol whose name changes is recorded as
    removed under its old id and as added under its new one. *)
Theorem rename_is_recorded_as_removal_and_addition
    (clock : Z -> Z) (n now1 now2 : Z) (model1 model2 : ITextModel)
    (previous next : FileStructureSnapshot) :
  uri model1 = uri model2 ->
  CodeStructureService.buildSnapshot now1 model1 = Return previous ->
  CodeStructureService.buildSnapshot now2 model2 = Return next ->
  Forall (fun e => event_kind e = SymbolRemoved \/ event_kind e = SymbolAdded)
    (fst (CodeHistoryService.computeDiffEvents clock n previous next)).
Proof.
  intros Huri H1 H2.
  destruct (computeDiffEvents_is_diff previous next clock n)
    as (_ & _ & Hchanged & Hsome & _).
  apply List.Forall_forall. intros e Hin.
  destruct (event_kind e) eqn:Ek; [right; reflexivity|left; reflexivity|exfalso].
  rewrite List.Forall_forall in Hsome. destruct (Hsome e Hin) as (i & Hi).
  pose proof (counted SymbolChanged i e _ Hin Ek Hi) as Hcount.
  destruct (Hchanged i) as [_ Hzero].
  rewrite Hzero in Hcount; [lia|].
  intros (Hprev & Hnext & Hne). apply Hne.
  unfold ids in Hprev, Hnext. apply in_map_iff in Hprev, Hnext.
  destruct Hprev as (a & <- & Ha). destruct Hnext as (b & Hid & Hb).
  rewrite (nameOf_unique previous a (built_ids_NoDup _ _ _ H1) Ha).
  rewrite <- Hid.
  rewrite (nameOf_unique next b (built_ids_NoDup _ _ _ H2) Hb).
  f_equal. exact (built_id_name _ _ _ _ _ _ _ _ Huri H1 H2 Ha Hb (eq_sym Hid)).
Qed.

Lemma rename_is_recorded_as_removal_and_addition_witness :
  exists previous next,
    CodeStructureService.buildSnapshot 0 Samples.callsDocument = Return previous
    /\ CodeStructureService.buildSnapshot 5 Samples.editedDocument = Return next
    /\ List.map (fun e => (event_kind e, symbolId e))
         (fst (CodeHistoryService.computeDiffEvents Samples.clock 1 previous next)) =
         [ (SymbolRemoved, Some "file:///sample.ts::a@1");
           (SymbolRemoved, Some "file:///sample.ts::b@2");
           (SymbolAdded, Some "file:///sample.ts::a2@1");
           (SymbolAdded, Some "file:///sample.ts::c@3") ]
    /\ Forall (fun e => event_kind e = SymbolRemoved \/ event_kind e = SymbolAdded)
         (fst (CodeHistoryService.computeDiffEvents Samples.clock 1 previous next)).
Proof.
  eexists. eexists.
  split; [apply buildSnapshot_live; reflexivity|].
  split; [apply buildSnapshot_live; reflexivity|].
  split; [vm_compute; reflexivity|].
  apply (rename_is_recorded_as_removal_and_addition Samples.clock 1 0 5
           Samples.callsDocument Samples.editedDocument).
  - reflexivity.
  - apply buildSnapshot_live. reflexivity.
  - apply buildSnapshot_live. reflexivity.
Defined.

(** X12.  A pass over a snapshot with the same symbols as the remembered
    one records nothing, whatever else differs between the two. *)
Theorem unchanged_symbols_record_nothing
    (clock : Z -> Z) (n : Z) (previous next : FileStructureSnapshot) :
  symbols previous = symbols next ->
  CodeHistoryService.computeDiffEvents clock n previous next = ([], n).
Proof.
  intros Hsame.
  destruct (computeDiffEvents_is_diff previous next clock n)
    as (Hremoved & Hadded & Hchanged & Hsome & _).
  pose proof (computeDiffEvents_numbered clock n previous next) as [Hn _].
  destruct (CodeHistoryService.computeDiffEvents clock n previous next)
    as [emitted nextEventId].
  cbn [fst snd] in *.
  assert (Hids : ids previous = ids next) by (unfold ids; rewrite Hsame; reflexivity).
  assert (Hnames : forall i, nameOf previous i = nameOf next i)
    by (intros i; unfold nameOf; rewrite Hsame; reflexivity).
  destruct emitted as [|e emitted]; [f_equal; cbn in Hn; lia|exfalso].
  inversion Hsome as [|? ? (i & Hi) _]; subst.
  assert (Hin : In e (e :: emitted)) by (left; reflexivity).
  destruct (event_kind e) eqn:Ek.
  - pose proof (counted SymbolAdded i e _ Hin Ek Hi) as Hcount.
    destruct (Hadded i) as [_ Hzero]. rewrite Hzero in Hcount; [lia|].
    rewrite Hids. tauto.
  - pose proof (counted SymbolRemoved i e _ Hin Ek Hi) as Hcount.
    destruct (Hremoved i) as [_ Hzero]. rewrite Hzero in Hcount; [lia|].
    rewrite Hids. tauto.
  - pose proof (counted SymbolChanged i e _ Hin Ek Hi) as Hcount.
    destruct (Hchanged i) as [_ Hzero]. rewrite Hzero in Hcount; [lia|].
    rewrite Hnames. tauto.
Qed.

Lemma unchanged_symbols_record_nothing_witness :
  exists previous next,
    CodeStructureService.buildSnapshot 0 Samples.callsDocument = Return previous
    /\ CodeStructureService.buildSnapshot 9 (Samples.document 2 (value Samples.callsDocument))
       = Return next
    /\ version previous <> version next
    /\ CodeHistoryService.computeDiffEvents Samples.clock 1 previous next = ([], 1).
Proof.
  eexists. eexists.
  split; [apply buildSnapshot_live; reflexivity|].
  split; [apply buildSnapshot_live; reflexivity|].
  split; [discriminate|].
  apply (unchanged_symbols_record_nothing Samples.clock 1).
  reflexivity.
Defined.

(* ===================================================================== *)
(** ** The call-graph service: every edge is a call found in the text *)
(* ===================================================================== *)

Section JustifiedFacts.

#[local] Arguments String.eqb : simpl never.

Variable base : nat.
Variable model : ITextModel.
Variable symbols : list SymbolNodeLite.

Let text := value model.
Let fileSymbol := List.find (fun s => bool_decide (kind s = File)) symbols.
Let positionOf (m : RegExp.result) : Position :=
  TextModel.position_from text (RegExp.index m) 1 1.

Lemma linkCandidate_justified source target m acc :
  justified text symbols acc ->
  In target symbols ->
  CodeGraphService.is_callable target = true ->
  In m (RegExp.exec_all (CodeGraphService.callRe (name target)) text) ->
  resolve symbols (positionOf m) = Some source ->
  justified text symbols (CodeGraphService.linkCandidate base source acc target).
Proof.
  intros (Hnodup & Hseen & Hcalls) Htarget Hcallable Hm Hsource.
  unfold CodeGraphService.linkCandidate.
  case_bool_decide as Hkey; cbv zeta; [split; [|split]; assumption|].
  unfold justified. cbn [fst snd]. split; [|split].
  - rewrite List.map_app. cbn [List.map]. apply NoDup_app.
    split; [exact Hnodup|]. split; [|apply NoDup_singleton].
    intros k Hk Hk'. apply list_elem_of_In in Hk. apply in_map_iff in Hk.
    destruct Hk as (e & <- & He).
    apply list_elem_of_In in Hk'. destruct Hk' as [Hk'|[]]. symmetry in Hk'.
    apply Hkey. unfold keyOf in Hk'. cbn in Hk'. rewrite <- Hk'. apply Hseen. exact He.
  - intros e He. apply in_app_or in He. destruct He as [He|[<-|[]]].
    + apply elem_of_union. right. apply Hseen. exact He.
    + apply elem_of_union. left. apply elem_of_singleton. reflexivity.
  - intros e He. apply in_app_or in He. destruct He as [He|[<-|[]]]; [auto|].
    split; [reflexivity|]. exists source, target, m. cbn.
    repeat (split; [assumption || reflexivity|]). reflexivity.
Qed.

Lemma linkCandidates_justified source m n candidates : forall acc,
  justified text symbols acc ->
  (forall c, In c candidates ->
     In c symbols /\ CodeGraphService.is_callable c = true /\ name c = n) ->
  In m (RegExp.exec_all (CodeGraphService.callRe n) text) ->
  resolve symbols (positionOf m) = Some source ->
  justified text symbols (CodeGraphService.linkCandidates base source candidates acc).
Proof.
  unfold CodeGraphService.linkCandidates.
  induction candidates as [|target candidates IH]; intros acc Hacc Hcands Hm Hsource;
    [exact Hacc|].
  cbn [fold_left]. apply IH; [|intros c Hc; apply Hcands; right; exact Hc|exact Hm|exact Hsource].
  destruct (Hcands target (or_introl eq_refl)) as (Hin & Hcallable & Hname).
  eapply linkCandidate_justified; eauto. rewrite Hname. exact Hm.
Qed.

Lemma linkOccurrence_justified n candidates acc m acc' :
  justified text symbols acc ->
  (forall c, In c candidates ->
     In c symbols /\ CodeGraphService.is_callable c = true /\ name c = n) ->
  In m (RegExp.exec_all (CodeGraphService.callRe n) text) ->
  CodeGraphService.linkOccurrence base model symbols fileSymbol candidates acc m = Return acc' ->
  justified text symbols acc'.
Proof.
  intros Hacc Hcands Hm. unfold CodeGraphService.linkOccurrence, TextModel.getPositionAt,
    TextModel.assertNotDisposed.
  destruct (isDisposed model); [discriminate|]. cbn [Outcome.bind].
  fold text. fold (positionOf m).
  change (match CodeGraphService.findContainingSymbol symbols (positionOf m) with
          | Some symbol => Some symbol
          | None => fileSymbol
          end) with (resolve symbols (positionOf m)).
  destruct (resolve symbols (positionOf m)) as [source|] eqn:Hsource; intros E;
    inversion E; subst acc'; [|exact Hacc].
  eapply linkCandidates_justified; eauto.
Qed.

Lemma linkOccurrences_justified n candidates matches : forall acc acc',
  justified text symbols acc ->
  (forall c, In c candidates ->
     In c symbols /\ CodeGraphService.is_callable c = true /\ name c = n) ->
  (forall m, In m matches -> In m (RegExp.exec_all (CodeGraphService.callRe n) text)) ->
  CodeGraphService.linkOccurrences base model symbols fileSymbol candidates matches acc
    = Return acc' ->
  justified text symbols acc'.
Proof.
  induction matches as [|m matches IH]; intros acc acc' Hacc Hcands Hms E.
  - inversion E; subst. exact Hacc.
  - cbn [CodeGraphService.linkOccurrences] in E.
    destruct (CodeGraphService.linkOccurrence base model symbols fileSymbol candidates acc m)
      as [acc1|e] eqn:E1; [|discriminate]. cbn [Outcome.bind] in E.
    eapply IH; [|exact Hcands|intros m' Hm'; apply Hms; right; exact Hm'|exact E].
    eapply linkOccurrence_justified; [exact Hacc|exact Hcands| |exact E1].
    apply Hms. left. reflexivity.
Qed.

Lemma linkNames_justified symbolByName : forall acc acc',
  justified text symbols acc ->
  (forall n candidates c, In (n, candidates) symbolByName -> In c candidates ->
     In c symbols /\ CodeGraphService.is_callable c = true /\ name c = n) ->
  CodeGraphService.linkNames base model text symbols fileSymbol symbolByName acc = Return acc' ->
  justified text symbols acc'.
Proof.
  induction symbolByName as [|(n0, candidates0) rest IH]; intros acc acc' Hacc Hcands E.
  - inversion E; subst. exact Hacc.
  - cbn [CodeGraphService.linkNames] in E.
    destruct (CodeGraphService.linkOccurrences base model symbols fileSymbol candidates0
                (RegExp.exec_all (CodeGraphService.callRe n0) text) acc)
      as [acc1|e] eqn:E1; [|discriminate]. cbn [Outcome.bind] in E.
    eapply IH; [| |exact E].
    + eapply linkOccurrences_justified; [exact Hacc| | |exact E1].
      * intros c Hc. eapply Hcands; [left; reflexivity|exact Hc].
      * auto.
    + intros n candidates c Hin Hc. eapply Hcands; [right; exact Hin|exact Hc].
Qed.

End JustifiedFacts.

Lemma computeIntraFileCallEdges_justified base snapshot model edges0 :
  CodeGraphService.computeIntraFileCallEdges base snapshot model = Return edges0 ->
  NoDup (List.map keyOf edges0)
  /\ (forall e, In e edges0 -> call_found (value model) (symbols snapshot) e).
Proof.
  unfold CodeGraphService.computeIntraFileCallEdges, TextModel.getValue,
    TextModel.assertNotDisposed.
  destruct (isDisposed model); [discriminate|]. cbn [Outcome.bind].
  destruct (CodeGraphService.linkNames base model (value model) (symbols snapshot) _ _ _)
    as [acc|e] eqn:E; [|discriminate]. cbn [Outcome.bind].
  intros H. inversion H; subst edges0.
  destruct (linkNames_justified base model (symbols snapshot)
              (CodeGraphService.groupByName (symbols snapshot)) ([], ∅) acc)
    as (Hn & _ & Hc).
  - split; [constructor|]. split; intros e [].
  - intros n candidates c Hin Hc.
    destruct (groupByName_grouped (symbols snapshot)) as (_ & Hsound & _).
    destruct (Hsound n candidates c Hin Hc) as (H1 & H2 & H3). auto.
  - exact E.
  - auto.
Qed.

(** X13.  The edge set computed for a file is exactly the calls found in
    its text, each once: every edge is a call edge from the symbol that
    an occurrence of the call pattern of a function or method name is
    attributed to, to a function or method of that name; every such
    occurrence is covered by an edge with the key of that pair; and no
    two edges of the set have the same key. *)
Theorem edge_set_is_the_calls_found
    (base : nat) (snapshot : FileStructureSnapshot) (model : ITextModel)
    (edges0 : list GraphEdge) :
  CodeGraphService.computeIntraFileCallEdges base snapshot model = Return edges0 ->
  NoDup (List.map keyOf edges0)
  /\ (forall e, In e edges0 -> call_found (value model) (symbols snapshot) e)
  /\ (forall source target m,
        In target (symbols snapshot) ->
        CodeGraphService.is_callable target = true ->
        In m (RegExp.exec_all (CodeGraphService.callRe (name target)) (value model)) ->
        resolve (symbols snapshot)
          (TextModel.position_from (value model) (RegExp.index m) 1 1) = Some source ->
        exists e, In e edges0 /\ keyOf e = CodeGraphService.edgeKey (id source) (id target)).
Proof.
  intros Hcompute.
  destruct (computeIntraFileCallEdges_justified _ _ _ _ Hcompute) as (Hnodup & Hcalls).
  split; [exact Hnodup|]. split; [exact Hcalls|].
  intros source target m Hin Hcallable Hm Hresolve.
  pose proof (computeIntraFileCallEdges_inv _ _ _ _ Hcompute) as Hlive.
  destruct (computeIntraFileCallEdges_spec base snapshot model Hlive)
    as (edges1 & seen & Hcompute' & (_ & Hseen & _) & Hkeys).
  rewrite Hcompute in Hcompute'. injection Hcompute' as <-.
  destruct (groupByName_grouped (symbols snapshot)) as (_ & _ & Hcomplete).
  destruct (Hcomplete target Hin Hcallable) as (candidates & Hgroup & Hcandidate).
  pose proof (Hkeys _ _ m Hgroup Hm source Hresolve target Hcandidate) as Hkey.
  destruct (Hseen _ Hkey) as (e & He & Hekey). exists e. auto.
Qed.

Lemma edge_set_is_the_calls_found_witness :
  exists snapshot edges0,
    CodeStructureService.buildSnapshot 0 Samples.callsDocument = Return snapshot
    /\ CodeGraphService.computeIntraFileCallEdges 0 snapshot Samples.callsDocument
       = Return edges0
    /\ length edges0 = 3%nat
    /\ NoDup (List.map keyOf edges0)
    /\ (forall e, In e edges0 ->
          call_found (value Samples.callsDocument) (symbols snapshot) e)
    /\ (forall source target m,
          In target (symbols snapshot) ->
          CodeGraphService.is_callable target = true ->
          In m (RegExp.exec_all (CodeGraphService.callRe (name target))
                  (value Samples.callsDocument)) ->
          resolve (symbols snapshot)
            (TextModel.position_from (value Samples.callsDocument) (RegExp.index m) 1 1)
            = Some source ->
          exists e,
            In e edges0 /\ keyOf e = CodeGraphService.edgeKey (id source) (id target)).
Proof.
  eexists. eexists.
  split; [apply buildSnapshot_live; reflexivity|].
  split; [vm_compute; reflexivity|].
  split; [reflexivity|].
  match goal with
  | |- NoDup (List.map keyOf ?edges0) /\ _ =>
      apply (edge_set_is_the_calls_found 0 _ Samples.callsDocument edges0)
  end.
  vm_compute. reflexivity.
Defined.

(* ===================================================================== *)
(** ** The call-graph service: the edge set does not depend on the objects *)
(* ===================================================================== *)

Section SameEnds.

Variables base base' : nat.
Variable model : ITextModel.
Variable symbols : list SymbolNodeLite.
Variable fileSymbol : option SymbolNodeLite.






End SameEnds.




(* ===================================================================== *)
(** ** The call-graph service: the symbol around a position *)
(* ===================================================================== *)

(** X15.  The call-graph service looks a position up as the structure
    service does, but among the symbols other than file symbols: it
    returns the first symbol, not a file symbol, whose range contains
    the position, both end points included. *)
Theorem findContainingSymbol_skips_files
    (symbols : list SymbolNodeLite) (position : Position) :
  CodeGraphService.findContainingSymbol symbols position =
    CodeStructureService.firstContaining
      (List.filter (fun symbol => negb (bool_decide (kind symbol = File))) symbols) position.
Proof.
  induction symbols as [|symbol symbols IH]; [reflexivity|].
  cbn [CodeGraphService.findContainingSymbol List.filter].
  destruct (negb (bool_decide (kind symbol = File))) eqn:Ek;
    cbn [CodeStructureService.firstContaining];
    unfold CodeStructureService.containsPosition;
    repeat match goal with
           | |- context [if ?c then _ else _] => destruct c
           end; auto.
Qed.

(* ===================================================================== *)
(** ** The call-graph service: passes for different files *)
(* ===================================================================== *)

Lemma rebuildForUri_other_files structure modelService uri0 s key :
  key <> uri_toString uri0 ->
  CodeGraphService._fileGraphs
    (Workbench.after (CodeGraphService.rebuildForUri structure modelService uri0) s) !! key
  = CodeGraphService._fileGraphs s !! key.
Proof.
  intros Hne. unfold Workbench.after.
  destruct (CodeStructureService.getSnapshot structure uri0) as [snapshot|] eqn:Hsnap;
    [|unfold CodeGraphService.rebuildForUri; rewrite Hsnap; reflexivity].
  destruct (getModel modelService uri0) as [model|] eqn:Hmodel;
    [|unfold CodeGraphService.rebuildForUri; rewrite Hsnap, Hmodel; reflexivity].
  destruct (isDisposed model) eqn:Hlive.
  { unfold CodeGraphService.rebuildForUri. rewrite Hsnap, Hmodel.
    unfold TextModel.getValueLength, TextModel.assertNotDisposed. rewrite Hlive. reflexivity. }
  destruct (Z_lt_le_dec CodeGraphService.MAX_FILE_LENGTH_FOR_SCAN (Text.len (value model)))
    as [Hlarge|Hsmall].
  - rewrite (rebuildForUri_large _ _ _ _ _ s Hsnap Hmodel Hlive Hlarge). reflexivity.
  - destruct (rebuildForUri_run _ _ _ _ _ s Hsnap Hmodel Hlive Hsmall)
      as (newEdges & seen & s' & _ & _ & -> & Hfg & _).
    cbn [fst snd]. rewrite Hfg. apply lookup_insert_ne. congruence.
Qed.

(** X16.  A pass for one file leaves the edges of every other file
    alone: their edge sets are the same objects as before, and each of
    them is still served under its source and under its target. *)
Theorem rebuild_leaves_other_files_alone
    (structure : CodeStructureService.state) (modelService : IModelService)
    (uri0 other : URI) (s : CodeGraphService.state) :
  reachable s ->
  uri_toString other <> uri_toString uri0 ->
  let s' := Workbench.after (CodeGraphService.rebuildForUri structure modelService uri0) s in
  CodeGraphService.getEdgesForFile s' other = CodeGraphService.getEdgesForFile s other
  /\ forall e,
       In e (CodeGraphService.getEdgesForFile s other) ->
       In e (CodeGraphService.getCallees s' (from e))
       /\ In e (CodeGraphService.getCallers s' (to e)).
Proof.
  intros Hs Hne s'.
  assert (Hfg : CodeGraphService._fileGraphs s' !! uri_toString other =
                CodeGraphService._fileGraphs s !! uri_toString other)
    by (apply rebuildForUri_other_files; exact Hne).
  assert (Hedges : CodeGraphService.getEdgesForFile s' other =
                   CodeGraphService.getEdgesForFile s other)
    by (unfold CodeGraphService.getEdgesForFile; rewrite Hfg; reflexivity).
  split; [exact Hedges|].
  intros e He. rewrite <- Hedges in He.
  apply getEdgesForFile_recorded in He.
  pose proof (rebuildForUri_pass structure modelService uri0 s (reachable_consistent s Hs))
    as Hpass.
  unfold s', Workbench.after in *.
  destruct (CodeGraphService.rebuildForUri structure modelService uri0 s) as [[r s1] t].
  cbn [fst snd] in *. destruct Hpass as ((Hout & Hin & _) & _).
  split; [apply Hout|apply Hin]; auto.
Qed.

Lemma rebuild_leaves_other_files_alone_witness :
  let key := uri_toString Samples.sampleUri in
  let otherUri := {| uri_toString := "file:///other.ts"; uri_basename := "other.ts" |} in
  let otherDocument :=
    {| uri := otherUri; languageId := "typescript"; versionId := 1;
       value := "function g(){}"; isDisposed := false |} in
  let structure0 :=
    Workbench.after (CodeStructureService.recomputeSnapshot 0 otherDocument)
      (Workbench.after (CodeStructureService.recomputeSnapshot 0 Samples.callsDocument)
         CodeStructureService.initial) in
  let models0 : IModelService :=
    <[ uri_toString otherUri := otherDocument ]> {[ key := Samples.callsDocument ]} in
  let s0 :=
    Workbench.after (CodeGraphService.rebuildForUri structure0 models0 otherUri)
      CodeGraphService.initial in
  let s' := Workbench.after (CodeGraphService.rebuildForUri structure0 models0 Samples.sampleUri) s0 in
  length (CodeGraphService.getEdgesForFile s0 otherUri) = 1%nat
  /\ length (CodeGraphService.getEdgesForFile s' Samples.sampleUri) = 3%nat
  /\ CodeGraphService.getEdgesForFile s' otherUri = CodeGraphService.getEdgesForFile s0 otherUri
  /\ forall e,
       In e (CodeGraphService.getEdgesForFile s0 otherUri) ->
       In e (CodeGraphService.getCallees s' (from e))
       /\ In e (CodeGraphService.getCallers s' (to e)).
Proof.
  intros key otherUri otherDocument structure0 models0 s0 s'.
  split; [vm_compute; reflexivity|]. split; [vm_compute; reflexivity|].
  apply (rebuild_leaves_other_files_alone structure0 models0 Samples.sampleUri otherUri s0).
  - apply reach_rebuild. apply reach_initial.
  - discriminate.
Defined.

(* ===================================================================== *)
(** ** The call-graph service: adding and removing edges *)
(* ===================================================================== *)

Lemma filter_none {A} (p : A -> bool) l :
  (forall x, In x l -> p x = false) -> List.filter p l = [].
Proof.
  induction l as [|x l IH]; intros H; [reflexivity|]. cbn.
  rewrite (H x (or_introl eq_refl)). apply IH. intros y Hy. apply H. right. exact Hy.
Qed.

Lemma filter_all_in {A} (p : A -> bool) l :
  (forall x, In x l -> p x = true) -> List.filter p l = l.
Proof.
  induction l as [|x l IH]; intros H; [reflexivity|]. cbn.
  rewrite (H x (or_introl eq_refl)). f_equal. apply IH. intros y Hy. apply H. right. exact Hy.
Qed.

Lemma survives_fresh select old sid e :
  (forall d, In d old -> edge_ref d <> edge_ref e) -> survives select old sid e = true.
Proof.
  intros H. unfold survives. apply forallb_forall. intros d Hd.
  apply negb_true_iff, andb_false_iff. right. apply Nat.eqb_neq.
  intros E. apply (H d Hd). symmetry. exact E.
Qed.

Lemma survives_itself select old sid e :
  In e old -> select e = sid -> survives select old sid e = false.
Proof.
  intros Hin Hsel. unfold survives.
  destruct (forallb _ old) eqn:E; [|reflexivity].
  rewrite forallb_forall in E. specialize (E e Hin).
  rewrite Hsel, String.eqb_refl, Nat.eqb_refl in E. discriminate.
Qed.

(** X17.  Removing a list of edges undoes adding it: when none of the
    edge objects of the list is already served, both indexes return for
    every symbol id what they returned before the list was added. *)
Theorem removeEdges_undoes_addEdges
    (added : list GraphEdge) (s : CodeGraphService.state) (sid : string) :
  (forall e d sid',
     In e added ->
     In d (CodeGraphService.getCallees s sid') \/ In d (CodeGraphService.getCallers s sid') ->
     edge_ref e <> edge_ref d) ->
  let s' := CodeGraphService.removeEdges added (CodeGraphService.addEdges added s) in
  CodeGraphService.getCallees s' sid = CodeGraphService.getCallees s sid
  /\ CodeGraphService.getCallers s' sid = CodeGraphService.getCallers s sid.
Proof.
  intros Hfresh s'. unfold s'.
  rewrite removeEdges_getCallees, addEdges_getCallees.
  rewrite removeEdges_getCallers, addEdges_getCallers.
  rewrite !List.filter_app. split.
  - rewrite filter_all_in, filter_none; [apply app_nil_r| |].
    + intros e He. apply filter_In in He. destruct He as [He Hsel].
      apply survives_itself; [exact He|]. apply String.eqb_eq. exact Hsel.
    + intros d Hd. apply survives_fresh. intros e He. eapply Hfresh; eauto.
  - rewrite filter_all_in, filter_none; [apply app_nil_r| |].
    + intros e He. apply filter_In in He. destruct He as [He Hsel].
      apply survives_itself; [exact He|]. apply String.eqb_eq. exact Hsel.
    + intros d Hd. apply survives_fresh. intros e He. eapply Hfresh; eauto.
Qed.

Lemma removeEdges_undoes_addEdges_witness :
  let otherUri := {| uri_toString := "file:///other.ts"; uri_basename := "other.ts" |} in
  let otherDocument :=
    {| uri := otherUri; languageId := "typescript"; versionId := 1;
       value := "function g(){}"; isDisposed := false |} in
  let structure0 :=
    Workbench.after (CodeStructureService.recomputeSnapshot 0 otherDocument)
      CodeStructureService.initial in
  let models0 : IModelService := {[ uri_toString otherUri := otherDocument ]} in
  let s0 :=
    Workbench.after (CodeGraphService.rebuildForUri structure0 models0 otherUri)
      CodeGraphService.initial in
  let g := "file:///other.ts::g@1" in
  let added :=
    [ {| edge_ref := 1; from := g; to := g; edge_kind := Call |};
      {| edge_ref := 2; from := "file:///other.ts::<file>@1"; to := g; edge_kind := Call |} ] in
  let s' := CodeGraphService.removeEdges added (CodeGraphService.addEdges added s0) in
  length (CodeGraphService.getCallers s0 g) = 1%nat
  /\ length (CodeGraphService.getCallers (CodeGraphService.addEdges added s0) g) = 3%nat
  /\ CodeGraphService.getCallees s' g = CodeGraphService.getCallees s0 g
  /\ CodeGraphService.getCallers s' g = CodeGraphService.getCallers s0 g.
Proof.
  intros otherUri otherDocument structure0 models0 s0 g added s'.
  split; [vm_compute; reflexivity|]. split; [vm_compute; reflexivity|].
  apply (removeEdges_undoes_addEdges added s0 g).
  intros e d sid' He Hd.
  assert (Hs0 : consistent s0)
    by (apply reachable_consistent, reach_rebuild, reach_initial).
  assert (Hd' : recorded s0 d).
  { destruct (consistent_serves_recorded s0 Hs0) as (Hout & Hin & _).
    destruct Hd as [Hd|Hd]; [exact (Hout _ _ Hd)|exact (Hin _ _ Hd)]. }
  destruct Hs0 as (_ & _ & _ & _ & Hbound). apply Hbound in Hd'.
  change (CodeGraphService.allocated s0) with 1%nat in Hd'.
  destruct He as [<-|[<-|[]]]; cbn; lia.
Defined.

(* ===================================================================== *)
(** ** The call-graph service: exported symbols *)
(* ===================================================================== *)

(** X18.  The exported symbols of a file are the classes and the
    functions of its snapshot, in snapshot order: the file symbol and
    the methods are left out, and nothing else is. *)
Theorem exported_symbols_are_classes_and_functions
    (s : CodeStructureService.state) (uri0 : URI) :
  indexed s ->
  CodeGraphService.getExportedSymbols s uri0 =
    match CodeStructureService.getSnapshot s uri0 with
    | None => []
    | Some snapshot =>
        List.filter
          (fun symbol =>
             bool_decide (kind symbol = Class) || bool_decide (kind symbol = Function))
          (symbols snapshot)
    end.
Proof.
  intros Hs. apply indexed_snapshots_built in Hs.
  unfold CodeGraphService.getExportedSymbols.
  destruct (CodeStructureService.getSnapshot s uri0) as [snapshot|] eqn:E; [|reflexivity].
  destruct (Hs _ _ E) as (now & model & Hbuilt & _).
  apply filter_ext_in. intros a Ha.
  destruct (built_symbol _ _ _ _ Hbuilt Ha) as [->|Hd]; [reflexivity|].
  destruct Hd as (k & i & line & _ & _ & _ & _ & _ & _ & _ & _ & _ & Hkind).
  destruct (kind a) eqn:Ek; try contradiction.
  - rewrite Hkind. reflexivity.
  - destruct Hkind as (className & j & _ & _ & ->). cbn.
    apply String.eqb_neq. apply buildSymbolId_not_empty.
  - rewrite Hkind. reflexivity.
Qed.

Lemma exported_symbols_are_classes_and_functions_witness :
  let s :=
    Workbench.after (CodeStructureService.onTimeout 0 0 Samples.classDocument)
      (Workbench.after (CodeStructureService.onModelAdded Samples.classDocument)
         CodeStructureService.initial) in
  List.map name (CodeGraphService.getExportedSymbols s Samples.sampleUri) = ["Foo"]
  /\ CodeGraphService.getExportedSymbols s Samples.sampleUri =
       match CodeStructureService.getSnapshot s Samples.sampleUri with
       | None => []
       | Some snapshot =>
           List.filter
             (fun symbol =>
                bool_decide (kind symbol = Class) || bool_decide (kind symbol = Function))
             (symbols snapshot)
       end.
Proof.
  intros s. split; [vm_compute; reflexivity|].
  apply (exported_symbols_are_classes_and_functions s Samples.sampleUri).
  apply indexed_onTimeout. apply indexed_onModelAdded. apply indexed_initial.
Defined.

(* ===================================================================== *)
(** ** The deletion impact command: the loop over the callers *)
(* ===================================================================== *)

Section ImpactFacts.

Variable graph : CodeGraphService.state.
Variable symbolId : string.

Let universe := callers_of_all graph.

Lemma caller_in_universe x e :
  In e (CodeGraphService.getCallers graph x) -> from e ∈ universe.
Proof.
  unfold CodeGraphService.getCallers, universe, callers_of_all. intros He.
  destruct (CodeGraphService._incomingEdges graph !! x) as [es|] eqn:E; [|destruct He].
  cbn in He. apply elem_of_list_to_set, list_elem_of_In, in_concat.
  exists (List.map from es). split.
  - apply in_map_iff. exists (x, es). split; [reflexivity|].
    apply list_elem_of_In, elem_of_map_to_list. exact E.
  - apply in_map. exact He.
Qed.

(** The measure that every iteration decreases. *)
Let measure (st : Commands.search) : nat :=
  (length (Commands.queue st) + (size universe - size (Commands.impacted st)))%nat.

Lemma enqueueCaller_step st e current :
  In e (CodeGraphService.getCallers graph current) ->
  (current = symbolId \/ current ∈ Commands.impacted st) ->
  (forall x, x ∈ Commands.impacted st -> hit graph symbolId x) ->
  Commands.impacted st ⊆ universe ->
  let st' := Commands.enqueueCaller st e in
  Commands.visited st' = Commands.visited st
  /\ measure st' = measure st
  /\ (forall x, x ∈ Commands.impacted st' -> hit graph symbolId x)
  /\ Commands.impacted st' ⊆ universe
  /\ Commands.impacted st ⊆ Commands.impacted st'
  /\ from e ∈ Commands.impacted st'
  /\ (forall x, In x (Commands.queue st') ->
        In x (Commands.queue st) \/ x ∈ Commands.impacted st')
  /\ (forall x, In x (Commands.queue st) -> In x (Commands.queue st'))
  /\ (forall x, x ∈ Commands.impacted st' ->
        x ∈ Commands.impacted st \/ In x (Commands.queue st')).
Proof.
  intros He Hcurrent Hhit Hsub st'. unfold st', Commands.enqueueCaller.
  assert (Hnew : hit graph symbolId (from e)).
  { destruct Hcurrent as [->|Hc]; [apply hit_caller; exact He|].
    eapply hit_further; [apply Hhit; exact Hc|exact He]. }
  pose proof (caller_in_universe _ _ He) as Hu.
  case_bool_decide as Hseen.
  - split; [reflexivity|]. split; [reflexivity|]. split; [exact Hhit|].
    split; [exact Hsub|]. split; [reflexivity|]. split; [exact Hseen|].
    split; [auto|]. split; auto.
  - cbn [Commands.visited Commands.queue Commands.impacted].
    assert (Hsub' : {[from e]} ∪ Commands.impacted st ⊆ universe).
    { apply union_subseteq. split; [apply singleton_subseteq_l; exact Hu|exact Hsub]. }
    split; [reflexivity|]. split.
    { unfold measure. cbn [Commands.queue Commands.impacted].
      rewrite length_app. cbn [length].
      rewrite size_union by (apply disjoint_singleton_l; exact Hseen).
      rewrite size_singleton.
      pose proof (subseteq_size _ _ Hsub') as Hle.
      rewrite size_union in Hle by (apply disjoint_singleton_l; exact Hseen).
      rewrite size_singleton in Hle. lia. }
    split.
    { intros x Hx. apply elem_of_union in Hx. destruct Hx as [Hx|Hx]; [|auto].
      apply elem_of_singleton in Hx. subst x. exact Hnew. }
    split; [exact Hsub'|].
    split; [apply union_subseteq_r|].
    split; [apply elem_of_union; left; apply elem_of_singleton; reflexivity|].
    split.
    { intros x Hx. apply in_app_or in Hx. destruct Hx as [Hx|[<-|[]]]; [left; exact Hx|].
      right. apply elem_of_union. left. apply elem_of_singleton. reflexivity. }
    split.
    { intros x Hx. apply in_or_app. left. exact Hx. }
    intros x Hx. apply elem_of_union in Hx. destruct Hx as [Hx|Hx]; [|left; exact Hx].
    apply elem_of_singleton in Hx. subst x. right. apply in_or_app. right. left. reflexivity.
Qed.

Lemma enqueueCallers_steps current es : forall st,
  (forall e, In e es -> In e (CodeGraphService.getCallers graph current)) ->
  (current = symbolId \/ current ∈ Commands.impacted st) ->
  (forall x, x ∈ Commands.impacted st -> hit graph symbolId x) ->
  Commands.impacted st ⊆ universe ->
  let st' := fold_left Commands.enqueueCaller es st in
  Commands.visited st' = Commands.visited st
  /\ measure st' = measure st
  /\ (forall x, x ∈ Commands.impacted st' -> hit graph symbolId x)
  /\ Commands.impacted st' ⊆ universe
  /\ Commands.impacted st ⊆ Commands.impacted st'
  /\ (forall e, In e es -> from e ∈ Commands.impacted st')
  /\ (forall x, In x (Commands.queue st') ->
        In x (Commands.queue st) \/ x ∈ Commands.impacted st')
  /\ (forall x, In x (Commands.queue st) -> In x (Commands.queue st'))
  /\ (forall x, x ∈ Commands.impacted st' ->
        x ∈ Commands.impacted st \/ In x (Commands.queue st')).
Proof.
  induction es as [|e es IH]; intros st Hes Hcurrent Hhit Hsub.
  - cbn. split; [reflexivity|]. split; [reflexivity|]. split; [exact Hhit|].
    split; [exact Hsub|]. split; [reflexivity|]. split; [intros e []|].
    split; [auto|]. split; auto.
  - cbn [fold_left].
    destruct (enqueueCaller_step st e current (Hes e (or_introl eq_refl)) Hcurrent Hhit Hsub)
      as (Hv1 & Hm1 & Hh1 & Hs1 & Hi1 & He1 & Hq1 & Hq1' & Hn1).
    cbn zeta in *.
    destruct (IH (Commands.enqueueCaller st e)) as (Hv & Hm & Hh & Hs & Hi & He & Hq & Hq' & Hn).
    + intros e' He'. apply Hes. right. exact He'.
    + destruct Hcurrent as [->|Hc]; [left; reflexivity|right; apply Hi1; exact Hc].
    + exact Hh1.
    + exact Hs1.
    + cbn zeta in *.
      split; [congruence|]. split; [congruence|]. split; [exact Hh|]. split; [exact Hs|].
      split; [etransitivity; eassumption|].
      split.
      { intros e' [<-|He']; [apply Hi; exact He1|apply He; exact He']. }
      split.
      { intros x Hx. destruct (Hq x Hx) as [Hx'|Hx']; [|right; exact Hx'].
        destruct (Hq1 x Hx') as [Hx''|Hx'']; [left; exact Hx''|right; apply Hi; exact Hx'']. }
      split; [auto|].
      intros x Hx. destruct (Hn x Hx) as [Hx'|Hx']; [|right; exact Hx'].
      destruct (Hn1 x Hx') as [Hx''|Hx'']; [left; exact Hx''|right; apply Hq'; exact Hx''].
Qed.

(** The loop ends within any number of iterations above its measure,
    and it keeps its invariant. *)
Lemma impactLoop_ends fuel : forall st,
  searching graph symbolId st ->
  (measure st < fuel)%nat ->
  exists st',
    Commands.impactLoop fuel graph st = Some st'
    /\ searching graph symbolId st'
    /\ Commands.queue st' = [].
Proof.
  induction fuel as [|fuel IH]; intros st Hst Hfuel; [lia|].
  cbn [Commands.impactLoop].
  destruct (Commands.queue st) as [|current rest] eqn:Eq.
  { exists st. auto. }
  destruct Hst as (Hhit & Hsub & Hqueue & Hclosed & Hfrontier).
  rewrite Eq in Hqueue, Hfrontier.
  case_bool_decide as Hvisited.
  - apply IH.
    + split; [exact Hhit|]. split; [exact Hsub|]. cbn. split; [|split; [exact Hclosed|]].
      * intros x Hx. apply Hqueue. right. exact Hx.
      * intros x Hx. destruct (Hfrontier x Hx) as [Hv|[<-|Hq]]; auto.
    + unfold measure in *. rewrite Eq in Hfuel. cbn in *. lia.
  - set (st1 := {| Commands.visited := {[current]} ∪ Commands.visited st;
                   Commands.queue := rest;
                   Commands.impacted := Commands.impacted st |}).
    destruct (enqueueCallers_steps current (CodeGraphService.getCallers graph current) st1
                (fun e He => He) (Hqueue current (or_introl eq_refl)) Hhit Hsub)
      as (Hv & Hm & Hh & Hs & Hi & He & Hq & Hq' & Hn).
    cbn zeta in *. apply IH.
    + split; [exact Hh|]. split; [exact Hs|]. split; [|split].
      * intros x Hx. destruct (Hq x Hx) as [Hx'|Hx']; [|right; exact Hx'].
        destruct (Hqueue x (or_intror Hx')) as [->|Hx'']; [left; reflexivity|].
        right. apply Hi. exact Hx''.
      * intros v e Hv' He'. rewrite Hv in Hv'. cbn in Hv'.
        apply elem_of_union in Hv'. destruct Hv' as [Hv'|Hv'].
        -- apply elem_of_singleton in Hv'. subst v. apply He. exact He'.
        -- apply Hi. eapply Hclosed; eassumption.
      * intros x Hx. rewrite Hv. cbn.
        assert (Hold : x = symbolId \/ x ∈ Commands.impacted st -> 
                       x ∈ {[current]} ∪ Commands.visited st
                       \/ In x (Commands.queue
                                  (fold_left Commands.enqueueCaller
                                     (CodeGraphService.getCallers graph current) st1))).
        { intros Hx'. destruct (Hfrontier x Hx') as [Hv'|[<-|Hr]].
          - left. apply elem_of_union. right. exact Hv'.
          - left. apply elem_of_union. left. apply elem_of_singleton. reflexivity.
          - right. apply Hq'. exact Hr. }
        destruct Hx as [->|Hx]; [apply Hold; left; reflexivity|].
        destruct (Hn x Hx) as [Hx'|Hx']; [apply Hold; right; exact Hx'|right; exact Hx'].
    + rewrite Hm. unfold measure in *. rewrite Eq in Hfuel. cbn in *. lia.
Qed.

Lemma searching_start : searching graph symbolId (Commands.start symbolId).
Proof.
  unfold searching, Commands.start. cbn. split; [|split; [|split; [|split]]].
  - intros x Hx. apply elem_of_empty in Hx. destruct Hx.
  - apply empty_subseteq.
  - intros x [<-|[]]. left. reflexivity.
  - intros v e Hv. apply elem_of_empty in Hv. destruct Hv.
  - intros x [->|Hx]; [right; left; reflexivity|]. apply elem_of_empty in Hx. destruct Hx.
Qed.

Lemma searching_done st x :
  searching graph symbolId st ->
  Commands.queue st = [] ->
  hit graph symbolId x -> x ∈ Commands.impacted st.
Proof.
  intros (_ & _ & _ & Hclosed & Hfrontier) Hq. rewrite Hq in Hfrontier.
  induction 1 as [e He|y e _ IH He].
  - destruct (Hfrontier symbolId (or_introl eq_refl)) as [Hv|[]]. eapply Hclosed; eassumption.
  - destruct (Hfrontier y (or_intror IH)) as [Hv|[]]. eapply Hclosed; eassumption.
Qed.

End ImpactFacts.

(** X19.  The loop of the deletion impact command ends, whatever the
    call graph (cycles included), within a number of iterations bounded
    by the number of symbols that edges come from; when it ends, the
    impacted set holds exactly the symbols hit by the deletion: the
    direct and indirect callers of the symbol. *)
Theorem deletion_impact_is_the_set_of_all_callers
    (graph : CodeGraphService.state) (symbolId : string) (fuel : nat) :
  (impactFuel graph <= fuel)%nat ->
  exists st,
    Commands.impactLoop fuel graph (Commands.start symbolId) = Some st
    /\ forall x, x ∈ Commands.impacted st <-> hit graph symbolId x.
Proof.
  intros Hfuel.
  destruct (impactLoop_ends graph symbolId fuel (Commands.start symbolId)
              (searching_start graph symbolId)) as (st & Hrun & Hst & Hq).
  { unfold impactFuel in Hfuel. cbn. rewrite size_empty. lia. }
  exists st. split; [exact Hrun|]. intros x. split.
  - destruct Hst as (Hhit & _). apply Hhit.
  - apply searching_done; assumption.
Qed.

Lemma deletion_impact_is_the_set_of_all_callers_witness :
  let key := uri_toString Samples.sampleUri in
  let structure0 :=
    Workbench.after (CodeStructureService.recomputeSnapshot 0 Samples.callsDocument)
      CodeStructureService.initial in
  let models0 : IModelService := {[ key := Samples.callsDocument ]} in
  let graph :=
    Workbench.after (CodeGraphService.rebuildForUri structure0 models0 Samples.sampleUri)
      CodeGraphService.initial in
  let b := "file:///sample.ts::b@2" in
  List.map from (CodeGraphService.getCallers graph b) = ["file:///sample.ts::<file>@1"; b]
  /\ exists st,
       Commands.impactLoop 5 graph (Commands.start b) = Some st
       /\ forall x, x ∈ Commands.impacted st <-> hit graph b x.
Proof.
  intros key structure0 models0 graph b.
  split; [vm_compute; reflexivity|].
  apply (deletion_impact_is_the_set_of_all_callers graph b 5).
  vm_compute. lia.
Defined.

(* ===================================================================== *)
(** ** The id of a file symbol is the id of no declared symbol *)
(* ===================================================================== *)

Section FileIdFacts.

Lemma last_char_app (a b : string) :
  b <> EmptyString -> last_char (a +:+ b) = last_char b.
Proof.
  intros Hb. induction a as [|c a IH]; [reflexivity|].
  change (String c a +:+ b) with (String c (a +:+ b)). cbn [last_char].
  destruct (a +:+ b) eqn:E; [|exact IH].
  destruct a; [cbn in E; contradiction|discriminate].
Qed.

Lemma all_of_last p (s : string) :
  all_of p s = true -> s <> EmptyString ->
  exists c, last_char s = Some c /\ p c = true.
Proof.
  induction s as [|c s IH]; intros Hall Hne; [contradiction|].
  cbn in Hall. apply andb_true_iff in Hall. destruct Hall as [Hc Hs].
  destruct s as [|d s]; [exists c; auto|].
  destruct (IH Hs) as (x & Hx & Hp); [discriminate|]. exists x. auto.
Qed.

Lemma pretty_N_go_decimal x : forall s,
  all_of is_decimal_char s = true -> all_of is_decimal_char (pretty_N_go x s) = true.
Proof.
  induction (N.lt_wf_0 x) as [x _ IH]; intros s Hs.
  assert (x = 0 \/ 0 < x)%N as [->|Hx] by lia.
  - rewrite pretty_N_go_0. exact Hs.
  - rewrite pretty_N_go_step by exact Hx. apply IH.
    + apply N.div_lt; [exact Hx|reflexivity].
    + cbn. rewrite Hs. rewrite andb_true_r.
      unfold pretty_N_char. repeat case_match; reflexivity.
Qed.

Lemma pretty_N_go_nonempty x : forall s,
  s <> EmptyString -> pretty_N_go x s <> EmptyString.
Proof.
  induction (N.lt_wf_0 x) as [x _ IH]; intros s Hs.
  assert (x = 0 \/ 0 < x)%N as [->|Hx] by lia.
  - rewrite pretty_N_go_0. exact Hs.
  - rewrite pretty_N_go_step by exact Hx. apply IH.
    + apply N.div_lt; [exact Hx|reflexivity].
    + discriminate.
Qed.

Lemma decimal_chars n : all_of is_decimal_char (Text.decimal n) = true.
Proof.
  unfold Text.decimal, pretty, pretty_Z.
  destruct n as [|p|p]; [reflexivity| |].
  - unfold pretty, pretty_positive, pretty, pretty_N.
    case_decide; [reflexivity|]. apply pretty_N_go_decimal. reflexivity.
  - change ("-" +:+ pretty p) with (String "-" (pretty p)). cbn.
    unfold pretty, pretty_positive, pretty, pretty_N.
    case_decide; [reflexivity|]. apply pretty_N_go_decimal. reflexivity.
Qed.

Lemma decimal_nonempty n : Text.decimal n <> EmptyString.
Proof.
  unfold Text.decimal, pretty, pretty_Z.
  destruct n as [|p|p]; [discriminate| |discriminate].
  unfold pretty, pretty_positive, pretty, pretty_N.
  case_decide; [discriminate|].
  rewrite pretty_N_go_step by lia. apply pretty_N_go_nonempty. discriminate.
Qed.

Lemma ends_like_an_id_name uri0 lines target :
  declaration uri0 lines target ->
  exists c, last_char (idName target) = Some c
            /\ (Text.is_ident c = true \/ is_decimal_char c = true).
Proof.
  intros (k & i & line & _ & (Hne & Hall) & _ & _ & _ & _ & _ & _ & _ & Hkind).
  unfold idName.
  destruct (containerId target) as [classId|] eqn:Ec.
  - destruct (kind target); try contradiction; try discriminate.
    destruct Hkind as (className & j & _ & _ & Hc). inversion Hc; subst classId.
    unfold CodeStructureService.buildSymbolId.
    rewrite !last_char_app.
    + destruct (all_of_last _ _ (decimal_chars (Z.of_nat j + 1)) (decimal_nonempty _))
        as (c & Hc' & Hp).
      exists c. auto.
    + apply decimal_nonempty.
    + discriminate.
    + destruct className; discriminate.
    + discriminate.
    + destruct (uri_toString uri0); discriminate.
    + discriminate.
  - destruct (all_of_last _ _ Hall Hne) as (c & Hc' & Hp). exists c. auto.
Qed.

(** Whatever the two files, the id of a file symbol is not the id of a
    declared symbol. *)
Lemma file_id_not_declared uri0 uri1 lines target :
  declaration uri1 lines target ->
  id target <> CodeStructureService.buildSymbolId uri0 "<file>" 1.
Proof.
  intros Hd E. rewrite (declaration_id _ _ _ Hd) in E.
  unfold CodeStructureService.buildSymbolId in E.
  rewrite <- !append_assoc in E. rewrite !(append_assoc _ "@" _) in E.
  apply split_last in E; auto using decimal_not_at. destruct E as [E _].
  assert (Hl : last_char ((uri_toString uri1 +:+ "::") +:+ idName target) = Some ">"%char).
  { rewrite E. rewrite last_char_app by discriminate. reflexivity. }
  destruct (ends_like_an_id_name _ _ _ Hd) as (c & Hc & Hp).
  rewrite last_char_app in Hl.
  - rewrite Hc in Hl. inversion Hl; subst c. destruct Hp as [Hp|Hp]; vm_compute in Hp; discriminate.
  - intros Hempty. rewrite Hempty in Hc. discriminate.
Qed.

End FileIdFacts.

(* ===================================================================== *)
(** ** The services together: what the commands find *)
(* ===================================================================== *)

Section WorkbenchFacts.

Lemma trace_onModelAdded model s :
  Workbench.trace (CodeStructureService.onModelAdded model) s = [].
Proof.
  unfold Workbench.trace, CodeStructureService.onModelAdded.
  destruct (CodeStructureService.isSupported model); [|reflexivity]. cbn.
  destruct (CodeStructureService._recomputeSchedulers s !! _); reflexivity.
Qed.

Lemma trace_onModelRemoved model s :
  Workbench.trace (CodeStructureService.onModelRemoved model) s = [].
Proof.
  unfold Workbench.trace, CodeStructureService.onModelRemoved. cbn.
  destruct (CodeStructureService._recomputeSchedulers s !! _); reflexivity.
Qed.

Lemma trace_onDidChangeContent scheduler model s :
  Workbench.trace (CodeStructureService.onDidChangeContent scheduler model) s = [].
Proof.
  unfold Workbench.trace, CodeStructureService.onDidChangeContent.
  destruct (CodeStructureService.isSupported model); reflexivity.
Qed.

Lemma trace_onWillDispose key s :
  Workbench.trace (CodeStructureService.onWillDispose key) s = [].
Proof. reflexivity. Qed.

Lemma trace_recomputeSnapshot now model s :
  snapshots_built s ->
  fires_built (Workbench.trace (CodeStructureService.recomputeSnapshot now model) s).
Proof.
  intros Hs. pose proof (recomputeSnapshot_built now model s Hs) as Hb.
  unfold Workbench.trace, Workbench.after in *.
  destruct (CodeStructureService.buildSnapshot now model) as [snapshot|e] eqn:E.
  - rewrite (recomputeSnapshot_returned _ _ _ _ E) in *. cbn in *.
    constructor; [exact Hb|constructor].
  - rewrite (recomputeSnapshot_thrown _ _ _ _ E). cbn. constructor; [exact I|constructor].
Qed.

Lemma trace_onTimeout scheduler now model s :
  snapshots_built s ->
  fires_built (Workbench.trace (CodeStructureService.onTimeout scheduler now model) s).
Proof.
  intros Hs. unfold CodeStructureService.onTimeout, Workbench.trace. cbn.
  destruct (CodeStructureService.schedulers s !! scheduler) as [o|]; [|constructor].
  destruct (RunOnceScheduler.isScheduled o); [|constructor]. cbn.
  pose proof (trace_recomputeSnapshot now model
                (CodeStructureService.on_scheduler scheduler RunOnceScheduler.cancel s))
    as Ht.
  unfold Workbench.trace in Ht.
  destruct (CodeStructureService.recomputeSnapshot now model _) as [[r s1] t1].
  cbn in *. apply Ht. eapply snapshots_built_frame; [|exact Hs]. reflexivity.
Qed.

Lemma rebuildForUri_targets structure modelService uri0 g :
  snapshots_built structure ->
  targets_declared g ->
  targets_declared
    (Workbench.after (CodeGraphService.rebuildForUri structure modelService uri0) g).
Proof.
  intros Hbuilt Hg. unfold Workbench.after.
  destruct (CodeStructureService.getSnapshot structure uri0) as [snapshot|] eqn:Hsnap;
    [|unfold CodeGraphService.rebuildForUri; rewrite Hsnap; exact Hg].
  destruct (getModel modelService uri0) as [model|] eqn:Hmodel;
    [|unfold CodeGraphService.rebuildForUri; rewrite Hsnap, Hmodel; exact Hg].
  destruct (isDisposed model) eqn:Hlive.
  { unfold CodeGraphService.rebuildForUri. rewrite Hsnap, Hmodel.
    unfold TextModel.getValueLength, TextModel.assertNotDisposed. rewrite Hlive. exact Hg. }
  destruct (Z_lt_le_dec CodeGraphService.MAX_FILE_LENGTH_FOR_SCAN (Text.len (value model)))
    as [Hlarge|Hsmall].
  - rewrite (rebuildForUri_large _ _ _ _ _ g Hsnap Hmodel Hlive Hlarge). exact Hg.
  - destruct (rebuildForUri_run _ _ _ _ _ g Hsnap Hmodel Hlive Hsmall)
      as (newEdges & seen & g' & Hcompute & _ & -> & Hfg & _).
    cbn [fst snd]. intros e (key & fileGraph & Hkey & He). rewrite Hfg in Hkey.
    destruct (decide (uri_toString uri0 = key)) as [<-|Hne].
    + rewrite lookup_insert_eq in Hkey. inversion Hkey; subst fileGraph. cbn in He.
      destruct (computeIntraFileCallEdges_justified _ _ _ _ Hcompute) as (_ & Hcalls).
      destruct (Hcalls e He) as (_ & source & target & m & Hin & Hcallable & _ & _ & _ & Hto).
      destruct (Hbuilt _ _ Hsnap) as (now & model' & Hb & _).
      destruct (built_symbol _ _ _ _ Hb Hin) as [->|Hd]; [discriminate Hcallable|].
      eauto.
    + rewrite lookup_insert_ne in Hkey by exact Hne. apply Hg. exists key, fileGraph. auto.
Qed.

Lemma deliver_sound clock t : forall w,
  fires_built t ->
  reachable (Workbench.graph w) ->
  targets_declared (Workbench.graph w) ->
  let w' := Workbench.deliver clock w t in
  Workbench.structure w' = Workbench.structure w
  /\ reachable (Workbench.graph w')
  /\ targets_declared (Workbench.graph w').
Proof.
  unfold Workbench.deliver.
  induction t as [|e t IH]; intros w Ht Hr Hd; [cbn; auto|].
  inversion Ht as [|? ? He Ht']; subst. cbn [fold_left].
  destruct e as [message context|uri0 visible].
  - apply IH; assumption.
  - match goal with
    | |- context [fold_left _ t ?w1] =>
        destruct (IH w1 Ht') as (Hs' & Hr' & Hd')
    end.
    + cbn. apply reach_rebuild. exact Hr.
    + cbn. apply rebuildForUri_targets; assumption.
    + cbn zeta in *. split; [rewrite Hs'; reflexivity|]. auto.
Qed.

Lemma structure_step_sound {A} clock (c : CodeStructureService.M A) w :
  fires_built (Workbench.trace c (Workbench.structure w)) ->
  reachable (Workbench.graph w) ->
  targets_declared (Workbench.graph w) ->
  let w' := Workbench.structure_step clock c w in
  Workbench.structure w' = Workbench.after c (Workbench.structure w)
  /\ reachable (Workbench.graph w')
  /\ targets_declared (Workbench.graph w').
Proof.
  intros Ht Hr Hd. unfold Workbench.structure_step.
  match goal with
  | |- context [Workbench.deliver clock ?w1 ?t] =>
      destruct (deliver_sound clock t w1 Ht Hr Hd) as (Hs' & Hr' & Hd')
  end.
  cbn zeta in *. rewrite Hs'. auto.
Qed.

Lemma targets_declared_initial : targets_declared CodeGraphService.initial.
Proof.
  intros e (key & fileGraph & Hkey & _). cbn in Hkey. rewrite lookup_empty in Hkey.
  discriminate.
Qed.

(** In every state of the workbench, the structure service holds built
    snapshots, and the call-graph service is consistent and holds only
    edges that lead to declared symbols. *)
Lemma running_sound w :
  running w ->
  indexed (Workbench.structure w)
  /\ reachable (Workbench.graph w)
  /\ targets_declared (Workbench.graph w).
Proof.
  induction 1 as [|clock model w _ (Hi & Hr & Hd)|clock scheduler model w _ (Hi & Hr & Hd)
                   |clock now model w _ (Hi & Hr & Hd)|clock model w _ (Hi & Hr & Hd)].
  - split; [apply indexed_initial|]. split; [apply reach_initial|].
    apply targets_declared_initial.
  - unfold Workbench.addModel.
    match goal with
    | |- context [Workbench.structure_step clock ?c ?w1] =>
        destruct (structure_step_sound clock c w1) as (Hs' & Hr' & Hd')
    end; try assumption.
    { cbn. rewrite trace_onModelAdded. constructor. }
    cbn zeta in *. rewrite Hs'. split; [apply indexed_onModelAdded; exact Hi|auto].
  - unfold Workbench.changeContent.
    match goal with
    | |- context [Workbench.structure_step clock ?c ?w1] =>
        destruct (structure_step_sound clock c w1) as (Hs' & Hr' & Hd')
    end; try assumption.
    { cbn. rewrite trace_onDidChangeContent. constructor. }
    cbn zeta in *. rewrite Hs'. split; [apply indexed_onDidChangeContent; exact Hi|auto].
  - unfold Workbench.timeout.
    destruct (CodeStructureService._recomputeSchedulers (Workbench.structure w) !! _)
      as [scheduler|]; [|auto].
    destruct (structure_step_sound clock
                (CodeStructureService.onTimeout scheduler now model) w)
      as (Hs' & Hr' & Hd'); try assumption.
    { apply trace_onTimeout, indexed_snapshots_built, Hi. }
    cbn zeta in *. rewrite Hs'. split; [apply indexed_onTimeout; exact Hi|auto].
  - unfold Workbench.removeModel.
    match goal with
    | |- context [Workbench.structure_step clock ?c ?w1] =>
        destruct (structure_step_sound clock c w1) as (Hs' & Hr' & Hd')
    end; try assumption.
    { cbn. constructor. }
    cbn zeta in *. rewrite Hs'. cbn.
    split; [apply indexed_onWillDispose, indexed_onModelRemoved; exact Hi|auto].
Qed.

Lemma no_hit_without_callers graph symbolId x :
  CodeGraphService.getCallers graph symbolId = [] -> ~ hit graph symbolId x.
Proof.
  intros Hnone Hhit. induction Hhit as [e He|y e _ IH He]; [|exact IH].
  rewrite Hnone in He. destruct He.
Qed.

End WorkbenchFacts.

(** X20.  In every state of the workbench, the symbol under the cursor
    that the commands work on has no callers: the lookup by position
    only ever finds the file symbol, and no edge leads to a file symbol.
    So the deletion impact command always finds the impacted set empty
    and reports no impact, and the explain command counts no direct
    caller. *)
Theorem deletion_impact_is_always_empty
    (w : Workbench.state) (editor : Commands.ActiveEditor) (active : Commands.ActiveSymbol)
    (fuel : nat) :
  running w ->
  Commands.getActiveSymbol editor (Workbench.structure w) = Some active ->
  (impactFuel (Workbench.graph w) <= fuel)%nat ->
  CodeGraphService.getCallers (Workbench.graph w) (Commands.active_symbolId active) = []
  /\ Commands.deletionImpact fuel editor (Workbench.structure w) (Workbench.graph w) =
       Some "No direct impact detected from deleting this symbol in the current graph.".
Proof.
  intros Hw Hactive Hfuel.
  destruct (running_sound w Hw) as (Hi & Hr & Hd).
  assert (Hfile : exists uri0,
            Commands.active_symbolId active =
              CodeStructureService.buildSymbolId uri0 "<file>" 1).
  { unfold Commands.getActiveSymbol in Hactive.
    destruct editor as [[uri0 position]|]; [|discriminate].
    destruct (CodeStructureService.getSymbolAtPosition (Workbench.structure w) uri0 position)
      as [symbol|] eqn:Hfound; [|discriminate].
    inversion Hactive; subst active. cbn.
    pose proof (indexed_snapshots_built _ Hi) as Hbuilt.
    unfold CodeStructureService.getSymbolAtPosition in Hfound.
    destruct (CodeStructureService.getSnapshot (Workbench.structure w) uri0)
      as [snapshot|] eqn:Hsnap; [|discriminate].
    destruct (Hbuilt _ _ Hsnap) as (now & model & Hb & _).
    destruct (firstContaining_built _ _ _ _ _ Hb Hfound) as (_ & _ & others & Ho).
    destruct (buildSnapshot_scanned _ _ _ Hb) as (declarations & E & _).
    rewrite E in Ho. inversion Ho; subst. exists (uri model). reflexivity. }
  destruct Hfile as (uri0 & Hid).
  assert (Hnone : CodeGraphService.getCallers (Workbench.graph w)
                    (Commands.active_symbolId active) = []).
  { destruct (CodeGraphService.getCallers (Workbench.graph w)
                (Commands.active_symbolId active)) as [|e es] eqn:E; [reflexivity|exfalso].
    destruct (reachable_consistent _ Hr) as (_ & Hin & _).
    destruct (proj1 (Hin (Commands.active_symbolId active) e)) as [Hrec Hto].
    { rewrite E. left. reflexivity. }
    destruct (Hd e Hrec) as (uri1 & lines & target & Hdecl & Hto').
    apply (file_id_not_declared uri0 uri1 lines target Hdecl). congruence. }
  split; [exact Hnone|].
  unfold Commands.deletionImpact. rewrite Hactive.
  destruct (impactLoop_ends (Workbench.graph w) (Commands.active_symbolId active) fuel
              (Commands.start (Commands.active_symbolId active))
              (searching_start _ _)) as (st & -> & (Hhit & _) & _).
  { unfold impactFuel in Hfuel. cbn. rewrite size_empty. lia. }
  assert (Hempty : Commands.impacted st = ∅).
  { apply leibniz_equiv. apply elem_of_equiv_empty. intros x Hx.
    exact (no_hit_without_callers _ _ x Hnone (Hhit x Hx)). }
  rewrite Hempty, size_empty. reflexivity.
Qed.

Lemma deletion_impact_is_always_empty_witness :
  let w := Samples.opened Samples.callsDocument in
  let b := "file:///sample.ts::b@2" in
  let editor : Commands.ActiveEditor := Some (Samples.sampleUri, {| lineNumber := 2; column := 10 |}) in
  exists active,
    Commands.getActiveSymbol editor (Workbench.structure w) = Some active
    /\ length (CodeGraphService.getCallers (Workbench.graph w) b) = 2%nat
    /\ CodeGraphService.getCallers (Workbench.graph w) (Commands.active_symbolId active) = []
    /\ Commands.deletionImpact 5 editor (Workbench.structure w) (Workbench.graph w) =
         Some "No direct impact detected from deleting this symbol in the current graph.".
Proof.
  intros w b editor. eexists.
  split; [vm_compute; reflexivity|].
  split; [vm_compute; reflexivity|].
  apply (deletion_impact_is_always_empty w editor).
  - apply running_timeout. apply running_addModel. apply running_initial.
  - vm_compute. reflexivity.
  - vm_compute. lia.
Defined.

(* ===================================================================== *)
(** ** The structure service: timers *)
(* ===================================================================== *)

Section TimerFacts.

Lemma on_scheduler_fields scheduler f s :
  CodeStructureService._snapshots (CodeStructureService.on_scheduler scheduler f s) =
    CodeStructureService._snapshots s
  /\ CodeStructureService._recomputeSchedulers (CodeStructureService.on_scheduler scheduler f s) =
       CodeStructureService._recomputeSchedulers s
  /\ length (CodeStructureService.schedulers (CodeStructureService.on_scheduler scheduler f s)) =
       length (CodeStructureService.schedulers s).
Proof.
  unfold CodeStructureService.on_scheduler. cbn. split; [reflexivity|]. split; [reflexivity|].
  destruct (CodeStructureService.schedulers s !! scheduler); [|reflexivity].
  apply length_insert.
Qed.

Lemma on_scheduler_lookup scheduler f s o :
  CodeStructureService.schedulers s !! scheduler = Some o ->
  CodeStructureService.schedulers (CodeStructureService.on_scheduler scheduler f s) !! scheduler
  = Some (f o).
Proof.
  intros Ho. unfold CodeStructureService.on_scheduler. cbn. rewrite Ho.
  apply list_lookup_insert_eq. apply lookup_lt_Some in Ho. exact Ho.
Qed.

Lemma schedulers_valid_frame s s' :
  CodeStructureService._recomputeSchedulers s' = CodeStructureService._recomputeSchedulers s ->
  length (CodeStructureService.schedulers s') = length (CodeStructureService.schedulers s) ->
  schedulers_valid s -> schedulers_valid s'.
Proof. unfold schedulers_valid. intros -> ->. auto. Qed.

Lemma schedulers_valid_delete key s s' :
  CodeStructureService._recomputeSchedulers s' =
    delete key (CodeStructureService._recomputeSchedulers s) ->
  length (CodeStructureService.schedulers s') = length (CodeStructureService.schedulers s) ->
  schedulers_valid s -> schedulers_valid s'.
Proof.
  unfold schedulers_valid. intros -> -> Hs k scheduler Hk.
  destruct (decide (key = k)) as [->|Hne].
  - rewrite lookup_delete_eq in Hk. discriminate.
  - rewrite lookup_delete_ne in Hk by exact Hne. eauto.
Qed.

(** What [onModelAdded] does for a supported document. *)
Lemma onModelAdded_supported model s :
  CodeStructureService.isSupported model = true ->
  schedulers_valid s ->
  exists scheduler s',
    CodeStructureService.onModelAdded model s = (Return (Some scheduler), s', [])
    /\ CodeStructureService._snapshots s' = CodeStructureService._snapshots s
    /\ CodeStructureService._recomputeSchedulers s' !! uri_toString (uri model) = Some scheduler
    /\ pending s' scheduler
    /\ schedulers_valid s'.
Proof.
  intros Hsup Hvalid. unfold CodeStructureService.onModelAdded. rewrite Hsup. cbn [negb].
  unfold Handler.bind at 1, Handler.get.
  destruct (CodeStructureService._recomputeSchedulers s !! uri_toString (uri model))
    as [scheduler|] eqn:Hk.
  - pose proof (Hvalid _ _ Hk) as Hlt.
    destruct (lookup_lt_is_Some_2 _ _ Hlt) as [o Ho].
    exists scheduler. eexists. split; [reflexivity|].
    destruct (on_scheduler_fields scheduler RunOnceScheduler.schedule s) as (H1 & H2 & H3).
    split; [exact H1|]. split; [rewrite H2; exact Hk|]. split.
    + exists (RunOnceScheduler.schedule o). split; [|reflexivity].
      apply on_scheduler_lookup. exact Ho.
    + eapply schedulers_valid_frame; eassumption.
  - exists (length (CodeStructureService.schedulers s)). eexists.
    split; [reflexivity|].
    set (s0 := CodeStructureService.set_recomputeSchedulers
                 (fun m => <[uri_toString (uri model) :=
                               length (CodeStructureService.schedulers s)]> m)
                 (CodeStructureService.set_schedulers
                    (fun h => h ++ [RunOnceScheduler.create]) s)).
    assert (Ho : CodeStructureService.schedulers s0
                 !! length (CodeStructureService.schedulers s)
                 = Some RunOnceScheduler.create).
    { cbn. rewrite lookup_app_r by lia. rewrite Nat.sub_diag. reflexivity. }
    destruct (on_scheduler_fields (length (CodeStructureService.schedulers s))
                RunOnceScheduler.schedule s0) as (H1 & H2 & H3).
    split; [rewrite H1; reflexivity|].
    split; [rewrite H2; cbn; apply lookup_insert_eq|]. split.
    + eexists. split; [apply on_scheduler_lookup; exact Ho|reflexivity].
    + intros k scheduler Hk'. rewrite H2 in Hk'. rewrite H3. cbn in Hk' |- *.
      rewrite length_app. cbn.
      destruct (decide (uri_toString (uri model) = k)) as [<-|Hne].
      * rewrite lookup_insert_eq in Hk'. inversion Hk'. lia.
      * rewrite lookup_insert_ne in Hk' by exact Hne. apply Hvalid in Hk'. lia.
Qed.

Lemma indexed_schedulers_valid s : indexed s -> schedulers_valid s.
Proof.
  induction 1 as [|model s _ IH|model s _ IH|scheduler model s _ IH|key s _ IH
                   |scheduler now model s _ IH].
  - intros key scheduler Hk. cbn in Hk. rewrite lookup_empty in Hk. discriminate.
  - destruct (CodeStructureService.isSupported model) eqn:Hsup.
    + destruct (onModelAdded_supported model s Hsup IH) as (sch & s' & Hrun & _ & _ & _ & Hv).
      unfold Workbench.after. rewrite Hrun. exact Hv.
    + unfold Workbench.after, CodeStructureService.onModelAdded. rewrite Hsup. exact IH.
  - unfold Workbench.after, CodeStructureService.onModelRemoved. cbn.
    destruct (CodeStructureService._recomputeSchedulers s !! uri_toString (uri model))
      as [scheduler|]; cbn.
    + destruct (on_scheduler_fields scheduler RunOnceScheduler.dispose s) as (_ & H2 & H3).
      apply (schedulers_valid_delete (uri_toString (uri model))
               (CodeStructureService.on_scheduler scheduler RunOnceScheduler.dispose s));
        [reflexivity|reflexivity|].
      eapply schedulers_valid_frame; eassumption.
    + eapply schedulers_valid_delete; [reflexivity|reflexivity|exact IH].
  - unfold Workbench.after, CodeStructureService.onDidChangeContent.
    destruct (CodeStructureService.isSupported model); [|exact IH]. cbn.
    destruct (on_scheduler_fields scheduler RunOnceScheduler.schedule s) as (_ & H2 & H3).
    eapply schedulers_valid_frame; eassumption.
  - eapply schedulers_valid_delete; [reflexivity|reflexivity|exact IH].
  - unfold CodeStructureService.onTimeout, Workbench.after. cbn.
    destruct (CodeStructureService.schedulers s !! scheduler) as [o|] eqn:Eo; [|exact IH].
    destruct (RunOnceScheduler.isScheduled o); [|exact IH]. cbn.
    destruct (on_scheduler_fields scheduler RunOnceScheduler.cancel s) as (_ & H2 & H3).
    destruct (CodeStructureService.buildSnapshot now model) as [snapshot|e] eqn:E.
    + rewrite (recomputeSnapshot_returned _ _ _ _ E). cbn.
      eapply schedulers_valid_frame; [| |exact IH]; [exact H2|exact H3].
    + rewrite (recomputeSnapshot_thrown _ _ _ _ E). cbn.
      eapply schedulers_valid_frame; [| |exact IH]; [exact H2|exact H3].
Qed.

Lemma onDidChangeContent_supported scheduler edit s :
  CodeStructureService.isSupported edit = true ->
  Workbench.after (CodeStructureService.onDidChangeContent scheduler edit) s =
    CodeStructureService.on_scheduler scheduler RunOnceScheduler.schedule s.
Proof.
  intros Hedit. unfold Workbench.after, CodeStructureService.onDidChangeContent.
  rewrite Hedit. reflexivity.
Qed.

Lemma afterChanges_pending scheduler edits : forall s,
  pending s scheduler ->
  Forall (fun edit => CodeStructureService.isSupported edit = true) edits ->
  pending (afterChanges scheduler edits s) scheduler
  /\ CodeStructureService._snapshots (afterChanges scheduler edits s) =
       CodeStructureService._snapshots s.
Proof.
  unfold afterChanges.
  induction edits as [|edit edits IH]; intros s Hp Hsup; [auto|].
  inversion Hsup as [|? ? Hedit Hrest]; subst. cbn [fold_left].
  rewrite (onDidChangeContent_supported scheduler edit s Hedit).
  destruct Hp as (o & Ho & _).
  destruct (IH (CodeStructureService.on_scheduler scheduler RunOnceScheduler.schedule s))
    as (Hp' & Hs'); [|exact Hrest|].
  - exists (RunOnceScheduler.schedule o). split; [|reflexivity].
    apply on_scheduler_lookup. exact Ho.
  - split; [exact Hp'|]. rewrite Hs'.
    apply (on_scheduler_fields scheduler RunOnceScheduler.schedule s).
Qed.

End TimerFacts.

(** X21.  Opening a supported document computes nothing at once, and a
    burst of content changes is answered by one pass: [onModelAdded]
    fires no event and touches no snapshot but leaves the timer of the
    file pending; content changes delivered before the timer elapses
    leave it pending and touch no snapshot either; when the timer
    elapses, the snapshot of the buffer is computed and announced once;
    and when it elapses again without a change in between, nothing
    happens. *)
Theorem changes_coalesce_into_one_pass
    (s : CodeStructureService.state) (model latest : ITextModel) (edits : list ITextModel)
    (now now' : Z) :
  indexed s ->
  CodeStructureService.isSupported model = true ->
  Forall (fun edit => CodeStructureService.isSupported edit = true) edits ->
  isDisposed latest = false ->
  exists scheduler s1,
    CodeStructureService.onModelAdded model s = (Return (Some scheduler), s1, [])
    /\ (forall u, CodeStructureService.getSnapshot s1 u = CodeStructureService.getSnapshot s u)
    /\ let s2 := afterChanges scheduler edits s1 in
       (forall u, CodeStructureService.getSnapshot s2 u = CodeStructureService.getSnapshot s u)
       /\ pending s2 scheduler
       /\ exists s3 snapshot,
            CodeStructureService.onTimeout scheduler now latest s2 =
              (Return tt, s3, [Fire (uri latest) s3])
            /\ CodeStructureService.buildSnapshot now latest = Return snapshot
            /\ CodeStructureService.getSnapshot s3 (uri latest) = Some snapshot
            /\ ~ pending s3 scheduler
            /\ CodeStructureService.onTimeout scheduler now' latest s3 = (Return tt, s3, []).
Proof.
  intros Hs Hsup Hedits Hlive.
  destruct (onModelAdded_supported model s Hsup (indexed_schedulers_valid s Hs))
    as (scheduler & s1 & Hrun & Hsnap1 & _ & Hp1 & _).
  exists scheduler, s1. split; [exact Hrun|].
  split; [intros u; unfold CodeStructureService.getSnapshot; rewrite Hsnap1; reflexivity|].
  destruct (afterChanges_pending scheduler edits s1 Hp1 Hedits) as (Hp2 & Hsnap2).
  cbn zeta. set (s2 := afterChanges scheduler edits s1) in *.
  split; [intros u; unfold CodeStructureService.getSnapshot; rewrite Hsnap2, Hsnap1;
          reflexivity|].
  split; [exact Hp2|].
  destruct Hp2 as (o & Ho & Hscheduled).
  destruct (recomputeSnapshot_live now latest
              (CodeStructureService.on_scheduler scheduler RunOnceScheduler.cancel s2) Hlive)
    as (snapshot & Hbuilt & Hrecompute).
  eexists _, snapshot.
  assert (Hrun3 : CodeStructureService.onTimeout scheduler now latest s2 =
            (Return tt,
             CodeStructureService.set_snapshots
               (fun m => <[uri_toString (uri latest) := snapshot]> m)
               (CodeStructureService.on_scheduler scheduler RunOnceScheduler.cancel s2),
             [Fire (uri latest)
                (CodeStructureService.set_snapshots
                   (fun m => <[uri_toString (uri latest) := snapshot]> m)
                   (CodeStructureService.on_scheduler scheduler RunOnceScheduler.cancel s2))])).
  { unfold CodeStructureService.onTimeout. unfold Handler.bind at 1, Handler.get.
    rewrite Ho, Hscheduled. unfold Handler.bind at 1, Handler.modify at 1.
    rewrite Hrecompute. reflexivity. }
  split; [exact Hrun3|]. split; [exact Hbuilt|].
  assert (Ho3 : CodeStructureService.schedulers
                  (CodeStructureService.set_snapshots
                     (fun m => <[uri_toString (uri latest) := snapshot]> m)
                     (CodeStructureService.on_scheduler scheduler RunOnceScheduler.cancel s2))
                !! scheduler = Some (RunOnceScheduler.cancel o)).
  { cbn [CodeStructureService.set_snapshots CodeStructureService.schedulers].
    apply on_scheduler_lookup. exact Ho. }
  split; [unfold CodeStructureService.getSnapshot; cbn; apply lookup_insert_eq|].
  split.
  - intros (o' & Ho' & Hs'). rewrite Ho3 in Ho'. inversion Ho'; subst o'. discriminate.
  - unfold CodeStructureService.onTimeout. unfold Handler.bind at 1, Handler.get.
    rewrite Ho3. reflexivity.
Qed.

Lemma changes_coalesce_into_one_pass_witness :
  let edits := [ Samples.document 2 "class Foo {"; Samples.document 3 "class Foo {}" ] in
  let latest := Samples.document 3 "class Foo {}" in
  exists scheduler s1,
    CodeStructureService.onModelAdded Samples.classDocument CodeStructureService.initial =
      (Return (Some scheduler), s1, [])
    /\ (forall u, CodeStructureService.getSnapshot s1 u =
                  CodeStructureService.getSnapshot CodeStructureService.initial u)
    /\ let s2 := afterChanges scheduler edits s1 in
       (forall u, CodeStructureService.getSnapshot s2 u =
                  CodeStructureService.getSnapshot CodeStructureService.initial u)
       /\ pending s2 scheduler
       /\ exists s3 snapshot,
            CodeStructureService.onTimeout scheduler 0 latest s2 =
              (Return tt, s3, [Fire (uri latest) s3])
            /\ CodeStructureService.buildSnapshot 0 latest = Return snapshot
            /\ CodeStructureService.getSnapshot s3 (uri latest) = Some snapshot
            /\ ~ pending s3 scheduler
            /\ CodeStructureService.onTimeout scheduler 1 latest s3 = (Return tt, s3, []).
Proof.
  intros edits latest.
  apply (changes_coalesce_into_one_pass CodeStructureService.initial Samples.classDocument
           latest edits 0 1).
  - apply indexed_initial.
  - reflexivity.
  - repeat constructor.
  - reflexivity.
Defined.

(* ===================================================================== *)
(** ** The call-graph service: the scan for the calls of a name ends *)
(* ===================================================================== *)

Section ScanFacts.

Variable name0 : string.

Lemma reads_length w cur cur' :
  reads w cur cur' ->
  String.length (RegExp.rest cur) =
    (String.length w + String.length (RegExp.rest cur'))%nat
  /\ RegExp.offset cur' = (RegExp.offset cur + String.length w)%nat.
Proof.
  intros H. apply reads_rest in H. destruct H as [-> ->].
  rewrite append_length. auto.
Qed.

(** A match of the call pattern ends after where it starts: it reads at
    least the opening parenthesis. *)
Lemma call_match_consumes cur m :
  RegExp.match_at (CodeGraphService.callRe name0) cur = Some m ->
  RegExp.index m = RegExp.offset cur
  /\ (RegExp.offset cur < RegExp.offset (RegExp.last m))%nat
  /\ (String.length (RegExp.rest (RegExp.last m)) < String.length (RegExp.rest cur))%nat.
Proof.
  intros H. apply match_at_matches in H. destruct H as [Hm Hi].
  split; [exact Hi|].
  cbv [CodeGraphService.callRe RegExp.seq] in Hm.
  repeat match goal with
         | H : matches (RegExp.Seq _ _) _ _ _ _ |- _ => inversion H; clear H; subst
         | H : matches (RegExp.Star _) _ _ _ _ |- _ => inversion H; clear H; subst
         | H : matches (RegExp.Lit _) _ _ _ _ |- _ => inversion H; clear H; subst
         | H : matches RegExp.WordBoundary _ _ _ _ |- _ => inversion H; clear H; subst
         end.
  repeat match goal with
         | H : reads _ _ _ |- _ => apply reads_length in H; destruct H
         end.
  cbn [String.length] in *. lia.
Qed.

Lemma call_search_consumes subject : forall cur m,
  RegExp.rest cur = subject ->
  RegExp.search (CodeGraphService.callRe name0) subject cur = Some m ->
  (RegExp.offset cur <= RegExp.index m)%nat
  /\ (RegExp.index m < RegExp.offset (RegExp.last m))%nat
  /\ (String.length (RegExp.rest (RegExp.last m)) < String.length (RegExp.rest cur))%nat.
Proof.
  intros cur m E H. destruct (search_matches _ _ _ _ E H) as (skipped & cur0 & Hr & Hm).
  apply call_match_consumes in Hm. destruct Hm as (Hi & Ho & Hl).
  apply reads_length in Hr. destruct Hr as [Hr1 Hr2]. lia.
Qed.

(** Any fuel above the length of the text that is left gives the same
    matches. *)
Lemma exec_all_from_enough fuel : forall fuel' cur,
  (String.length (RegExp.rest cur) < fuel)%nat ->
  (String.length (RegExp.rest cur) < fuel')%nat ->
  RegExp.exec_all_from fuel (CodeGraphService.callRe name0) cur =
    RegExp.exec_all_from fuel' (CodeGraphService.callRe name0) cur.
Proof.
  induction fuel as [|fuel IH]; intros fuel' cur H H'; [lia|].
  destruct fuel' as [|fuel']; [lia|]. cbn [RegExp.exec_all_from].
  destruct (RegExp.search (CodeGraphService.callRe name0) (RegExp.rest cur) cur)
    as [m|] eqn:E; [|reflexivity].
  destruct (call_search_consumes _ _ _ eq_refl E) as (_ & _ & Hl).
  f_equal. apply IH; lia.
Qed.

Lemma exec_all_from_after fuel : forall cur (k : nat) c,
  RegExp.exec_all_from fuel (CodeGraphService.callRe name0) cur !! k = Some c ->
  (RegExp.offset cur <= RegExp.index c)%nat.
Proof.
  induction fuel as [|fuel IH]; intros cur k c Hk; [destruct k; discriminate|].
  cbn [RegExp.exec_all_from] in Hk.
  destruct (RegExp.search (CodeGraphService.callRe name0) (RegExp.rest cur) cur)
    as [m|] eqn:E; [|destruct k; discriminate].
  destruct (call_search_consumes _ _ _ eq_refl E) as (H1 & H2 & _).
  destruct k as [|k]; cbn in Hk.
  - inversion Hk; subst. exact H1.
  - apply IH in Hk. lia.
Qed.

Lemma exec_all_from_ordered fuel : forall cur (i j : nat) a b,
  (i < j)%nat ->
  RegExp.exec_all_from fuel (CodeGraphService.callRe name0) cur !! i = Some a ->
  RegExp.exec_all_from fuel (CodeGraphService.callRe name0) cur !! j = Some b ->
  (RegExp.offset cur <= RegExp.index a)%nat
  /\ (RegExp.index a < RegExp.offset (RegExp.last a))%nat
  /\ (RegExp.offset (RegExp.last a) <= RegExp.index b)%nat.
Proof.
  induction fuel as [|fuel IH]; intros cur i j a b Hij Ha Hb; [destruct i; discriminate|].
  cbn [RegExp.exec_all_from] in Ha, Hb.
  destruct (RegExp.search (CodeGraphService.callRe name0) (RegExp.rest cur) cur)
    as [m|] eqn:E; [|destruct i; discriminate].
  destruct (call_search_consumes _ _ _ eq_refl E) as (H1 & H2 & _).
  destruct j as [|j]; [lia|]. cbn in Hb.
  destruct i as [|i]; cbn in Ha.
  - inversion Ha; subst a. split; [exact H1|]. split; [exact H2|].
    eapply exec_all_from_after. exact Hb.
  - destruct (IH (RegExp.last m) i j a b ltac:(lia) Ha Hb) as (H3 & H4 & H5).
    split; [lia|]. split; assumption.
Qed.

Lemma exec_all_from_length fuel : forall cur,
  (length (RegExp.exec_all_from fuel (CodeGraphService.callRe name0) cur)
   <= String.length (RegExp.rest cur))%nat.
Proof.
  induction fuel as [|fuel IH]; intros cur; [cbn; lia|].
  cbn [RegExp.exec_all_from].
  destruct (RegExp.search (CodeGraphService.callRe name0) (RegExp.rest cur) cur)
    as [m|] eqn:E; [|cbn; lia].
  destruct (call_search_consumes _ _ _ eq_refl E) as (_ & _ & Hl).
  cbn [length]. specialize (IH (RegExp.last m)). lia.
Qed.

End ScanFacts.

(** X22.  The scan of a text for the calls of a name ends: every match
    of the call pattern reads at least the opening parenthesis, so each
    search resumes further on and, after at most as many matches as the
    text has code units, finds nothing; more iterations give no more
    matches.  The matches come in text order and do not overlap. *)
Theorem call_scan_ends
    (name0 text : string) (more : nat) :
  RegExp.exec_all_from (S (String.length text) + more) (CodeGraphService.callRe name0)
    (RegExp.start_of text)
  = RegExp.exec_all (CodeGraphService.callRe name0) text
  /\ (length (RegExp.exec_all (CodeGraphService.callRe name0) text) <= String.length text)%nat
  /\ forall (i j : nat) a b,
       (i < j)%nat ->
       RegExp.exec_all (CodeGraphService.callRe name0) text !! i = Some a ->
       RegExp.exec_all (CodeGraphService.callRe name0) text !! j = Some b ->
       (RegExp.index a < RegExp.offset (RegExp.last a))%nat
       /\ (RegExp.offset (RegExp.last a) <= RegExp.index b)%nat.
Proof.
  unfold RegExp.exec_all. split; [|split].
  - apply exec_all_from_enough; cbn; lia.
  - apply (exec_all_from_length name0 _ (RegExp.start_of text)).
  - intros i j a b Hij Ha Hb.
    destruct (exec_all_from_ordered name0 _ _ i j a b Hij Ha Hb) as (_ & H1 & H2). auto.
Qed.

(* ===================================================================== *)
(** ** The timeline of a file *)
(* ===================================================================== *)



(* ===================================================================== *)
(** ** The services together: a pass *)
(* ===================================================================== *)

Lemma onTimeout_pending scheduler now model s :
  pending s scheduler ->
  isDisposed model = false ->
  exists snapshot s',
    CodeStructureService.buildSnapshot now model = Return snapshot
    /\ CodeStructureService.onTimeout scheduler now model s =
         (Return tt, s', [Fire (uri model) s'])
    /\ CodeStructureService.getSnapshot s' (uri model) = Some snapshot.
Proof.
  intros (o & Ho & Hscheduled) Hlive.
  destruct (recomputeSnapshot_live now model
              (CodeStructureService.on_scheduler scheduler RunOnceScheduler.cancel s) Hlive)
    as (snapshot & Hbuilt & Hrecompute).
  exists snapshot. eexists. split; [exact Hbuilt|]. split.
  - unfold CodeStructureService.onTimeout. unfold Handler.bind at 1, Handler.get.
    rewrite Ho, Hscheduled. unfold Handler.bind at 1, Handler.modify at 1.
    rewrite Hrecompute. reflexivity.
  - unfold CodeStructureService.getSnapshot. cbn. apply lookup_insert_eq.
Qed.

(** X24.  When the timer of a document elapses, the three services end
    in step: the structure service holds the snapshot built from the
    buffer, the edge set of the file in the call-graph service is the
    one computed from that snapshot and that buffer, and the history
    service remembers that snapshot as the one to compare the next
    with. *)
Theorem pass_leaves_the_services_in_step
    (clock : Z -> Z) (now : Z) (model : ITextModel) (w : Workbench.state) (scheduler : nat) :
  Workbench.models w !! uri_toString (uri model) = Some model ->
  isDisposed model = false ->
  Text.len (value model) <= CodeGraphService.MAX_FILE_LENGTH_FOR_SCAN ->
  CodeStructureService._recomputeSchedulers (Workbench.structure w)
    !! uri_toString (uri model) = Some scheduler ->
  pending (Workbench.structure w) scheduler ->
  let w' := Workbench.timeout clock now model w in
  exists snapshot,
    CodeStructureService.buildSnapshot now model = Return snapshot
    /\ CodeStructureService.getSnapshot (Workbench.structure w') (uri model) = Some snapshot
    /\ CodeGraphService.computeIntraFileCallEdges
         (CodeGraphService.allocated (Workbench.graph w)) snapshot model
       = Return (CodeGraphService.getEdgesForFile (Workbench.graph w') (uri model))
    /\ remembered (Workbench.history w') (uri model) = Some snapshot.
Proof.
  intros Hmodel Hlive Hsmall Hkey Hpending w'.
  destruct (onTimeout_pending scheduler now model (Workbench.structure w) Hpending Hlive)
    as (snapshot & s' & Hbuilt & Hrun & Hsnap).
  exists snapshot. split; [exact Hbuilt|].
  unfold w', Workbench.timeout. rewrite Hkey.
  unfold Workbench.structure_step, Workbench.trace, Workbench.after. rewrite Hrun.
  cbn [fst snd Workbench.deliver fold_left Workbench.models Workbench.structure
       Workbench.graph Workbench.history].
  split; [exact Hsnap|].
  assert (Hget : getModel (Workbench.models w) (uri model) = Some model) by exact Hmodel.
  split.
  - destruct (rebuildForUri_run s' (Workbench.models w) (uri model) snapshot model
                (Workbench.graph w) Hsnap Hget Hlive Hsmall)
      as (newEdges & seen & g' & Hcompute & _ & Hrebuild & Hfg & _).
    unfold Workbench.after. rewrite Hrebuild. cbn [fst snd].
    unfold CodeGraphService.getEdgesForFile. rewrite Hfg, lookup_insert_eq. exact Hcompute.
  - destruct (onSnapshotUpdated_run clock s' (Workbench.models w) (uri model) model snapshot
                (Workbench.history w) Hget Hsnap)
      as (h' & t & Hupdated & _ & _ & Hremembered).
    unfold Workbench.after. rewrite Hupdated. exact Hremembered.
Qed.

Lemma pass_leaves_the_services_in_step_witness :
  let w := Workbench.addModel Samples.clock Samples.callsDocument Workbench.initial in
  let w' := Workbench.timeout Samples.clock 0 Samples.callsDocument w in
  exists snapshot,
    CodeStructureService.buildSnapshot 0 Samples.callsDocument = Return snapshot
    /\ CodeStructureService.getSnapshot (Workbench.structure w') (uri Samples.callsDocument)
       = Some snapshot
    /\ CodeGraphService.computeIntraFileCallEdges
         (CodeGraphService.allocated (Workbench.graph w)) snapshot Samples.callsDocument
       = Return (CodeGraphService.getEdgesForFile (Workbench.graph w')
                   (uri Samples.callsDocument))
    /\ remembered (Workbench.history w') (uri Samples.callsDocument) = Some snapshot.
Proof.
  intros w.
  apply (pass_leaves_the_services_in_step Samples.clock 0 Samples.callsDocument w 0%nat).
  - vm_compute. reflexivity.
  - reflexivity.
  - vm_compute. discriminate.
  - vm_compute. reflexivity.
  - eexists. split; [vm_compute; reflexivity|reflexivity].
Defined.

(* ===================================================================== *)
(** ** The structure service: blank lines *)
(* ===================================================================== *)

Section BlankFacts.

Lemma space_is_not_ident c : Text.is_space c = true -> Text.is_ident c = false.
Proof.
  destruct c as [[] [] [] [] [] [] [] []]; vm_compute; congruence.
Qed.

Lemma all_of_occurs cls piece subject :
  occurs piece subject -> all_of cls subject = true -> all_of cls piece = true.
Proof.
  intros (pre & post & ->). rewrite !all_of_app. intros H.
  apply andb_true_iff in H. destruct H as [_ H].
  apply andb_true_iff in H. destruct H as [H _]. exact H.
Qed.

Lemma identifier_not_spaces name0 :
  is_identifier name0 -> all_of Text.is_space name0 = false.
Proof.
  intros [Hne Hall]. destruct name0 as [|c rest]; [contradiction|].
  cbn in Hall |- *. apply andb_true_iff in Hall. destruct Hall as [Hc _].
  destruct (Text.is_space c) eqn:E; [|reflexivity].
  apply space_is_not_ident in E. congruence.
Qed.

Lemma reads_empty w cur cur' :
  reads w cur cur' -> RegExp.offset cur' = RegExp.offset cur -> w = EmptyString /\ cur' = cur.
Proof.
  intros H Ho. pose proof (reads_rest _ _ _ H) as [_ Hoff].
  destruct w as [|c w]; [|cbn in Hoff; lia].
  unfold reads in H. cbn in H. inversion H. auto.
Qed.

(** A blank line holds white space only. *)
Lemma blank_is_white line :
  RegExp.test CodeStructureService.blankRe line = true -> all_of Text.is_space line = true.
Proof.
  unfold RegExp.test, RegExp.exec.
  destruct (RegExp.search CodeStructureService.blankRe line (RegExp.start_of line))
    as [m|] eqn:E; [|discriminate].
  intros _. apply search_matches in E; [|reflexivity].
  destruct E as (skipped & cur0 & Hr & Hm).
  apply match_at_matches in Hm. destruct Hm as [Hm _].
  cbv [CodeStructureService.blankRe RegExp.seq] in Hm.
  repeat match goal with
         | H : matches (RegExp.Seq _ _) _ _ _ _ |- _ => inversion H; clear H; subst
         | H : matches (RegExp.Star _) _ _ _ _ |- _ => inversion H; clear H; subst
         | H : matches RegExp.Bol _ _ _ _ |- _ => inversion H; clear H; subst
         | H : matches RegExp.Eol _ _ _ _ |- _ => inversion H; clear H; subst
         end.
  match goal with
  | Hb : RegExp.offset ?c = 0%nat |- _ =>
      destruct (reads_empty _ _ _ Hr) as [-> ->]; [cbn; exact Hb|]
  end.
  match goal with
  | Hw : reads ?w (RegExp.start_of line) ?c, He : RegExp.rest ?c = EmptyString,
    Ha : all_of Text.is_space ?w = true |- _ =>
      apply reads_rest in Hw; destruct Hw as [Hw _]; cbn in Hw; rewrite He in Hw;
      rewrite append_nil_r in Hw; rewrite Hw; exact Ha
  end.
Qed.

(** A line that declares something is not blank. *)
Lemma declaring_line_is_not_blank line name0 :
  is_identifier name0 -> occurs name0 line ->
  RegExp.test CodeStructureService.blankRe line = false.
Proof.
  intros Hid Hocc.
  destruct (RegExp.test CodeStructureService.blankRe line) eqn:E; [|reflexivity].
  apply blank_is_white in E.
  pose proof (all_of_occurs _ _ _ Hocc E) as H1.
  pose proof (identifier_not_spaces _ Hid) as H2. congruence.
Qed.

End BlankFacts.

(* ===================================================================== *)
(** ** The structure service: the class that is open *)
(* ===================================================================== *)

Section Tracking.

Variable uri0 : URI.

Lemma open_class_more done more k classId :
  (k <= length done)%nat ->
  open_class uri0 done k classId -> open_class uri0 (done ++ more) k classId.
Proof.
  intros Hk (j & line & classMatch & Hj & Hline & Hmatch & Hid & Hbetween).
  exists j, line, classMatch. split; [exact Hj|].
  split; [apply lookup_app_l_Some; exact Hline|]. split; [exact Hmatch|].
  split; [exact Hid|]. intros l between Hl Hb.
  rewrite lookup_app_l in Hb by lia. eauto.
Qed.

(** The class stays open over a line that is neither blank nor a class
    declaration. *)
Lemma open_class_over done line classId :
  RegExp.test CodeStructureService.blankRe line = false ->
  RegExp.exec CodeStructureService.classRe line = None ->
  open_class uri0 done (length done) classId ->
  open_class uri0 (done ++ [line]) (length done + 1) classId.
Proof.
  intros Hblank Hclass (j & line0 & classMatch & Hj & Hline & Hmatch & Hid & Hbetween).
  exists j, line0, classMatch. split; [lia|].
  split; [apply lookup_app_l_Some; exact Hline|]. split; [exact Hmatch|].
  split; [exact Hid|]. intros l between Hl Hb.
  destruct (decide (l < length done)%nat) as [Hlt|Hge].
  - rewrite lookup_app_l in Hb by exact Hlt. apply (Hbetween l); [lia|exact Hb].
  - assert (l = length done) by lia. subst l.
    rewrite list_lookup_middle in Hb by reflexivity. inversion Hb; subst between. auto.
Qed.

Lemma tracking_step done line symbols current symbols' current' :
  tracking uri0 done (symbols, current) ->
  (forall symbol, In symbol symbols' ->
     In symbol symbols
     \/ (lineOf symbol = Z.of_nat (length done) + 1
         /\ forall classId, containerId symbol = Some classId -> current = Some classId)) ->
  (forall classId, current' = Some classId ->
     open_class uri0 (done ++ [line]) (length done + 1) classId) ->
  tracking uri0 (done ++ [line]) (symbols', current').
Proof.
  intros (Hsym & Hcur) Hnew Hcur'. split; cbn [fst snd].
  - intros symbol classId Hin Hc. destruct (Hnew symbol Hin) as [Hold|(Hline & Hcontainer)].
    + destruct (Hsym symbol classId Hold Hc) as (k & Hk & Hlt & Hopen).
      exists k. split; [exact Hk|]. rewrite length_app. cbn [length].
      split; [lia|]. apply open_class_more; [lia|exact Hopen].
    + exists (length done). split; [exact Hline|]. rewrite length_app. cbn [length].
      split; [lia|]. apply open_class_more; [lia|]. apply Hcur. apply Hcontainer. exact Hc.
  - intros classId E. rewrite length_app. cbn [length]. apply Hcur'. exact E.
Qed.

Lemma scanLine_tracking done line acc :
  tracking uri0 done acc ->
  tracking uri0 (done ++ [line])
    (CodeStructureService.scanLine uri0 (Z.of_nat (length done) + 1) line acc).
Proof.
  destruct acc as [symbols current]. intros Hinv.
  assert (Hdeclared : forall kind0 idName0 name0 container,
            is_identifier name0 -> occurs name0 line ->
            lineOf (CodeStructureService.declared uri0 kind0 idName0 name0 line
                      (Z.of_nat (length done) + 1) container)
            = Z.of_nat (length done) + 1).
  { intros kind0 idName0 name0 container [Hne _] Hocc.
    destruct (declared_facts uri0 kind0 idName0 name0 line (Z.of_nat (length done) + 1)
                container Hne Hocc) as (i & _ & Hr).
    unfold lineOf. rewrite Hr. reflexivity. }
  unfold CodeStructureService.scanLine.
  destruct (RegExp.exec CodeStructureService.classRe line) as [classMatch|] eqn:Ec.
  { destruct (class_name _ _ Ec) as [Hid Hocc].
    eapply tracking_step; [exact Hinv| |].
    - intros symbol Hin. apply in_app_or in Hin. destruct Hin as [Hin|[<-|[]]]; [auto|].
      right. split; [apply Hdeclared; assumption|]. intros classId Hc. discriminate.
    - intros classId E. inversion E; subst classId.
      exists (length done), line, classMatch. split; [lia|].
      split; [apply list_lookup_middle; reflexivity|]. split; [exact Ec|].
      split; [reflexivity|]. intros l between Hl. lia. }
  destruct (RegExp.exec CodeStructureService.functionRe line) as [functionMatch|] eqn:Ef.
  { destruct (function_name _ _ Ef) as [Hid Hocc].
    eapply tracking_step; [exact Hinv| |].
    - intros symbol Hin. apply in_app_or in Hin. destruct Hin as [Hin|[<-|[]]]; [auto|].
      right. split; [apply Hdeclared; assumption|]. intros classId Hc. discriminate.
    - intros classId E. apply open_class_over; [|exact Ec|].
      + eapply declaring_line_is_not_blank; eassumption.
      + destruct Hinv as [_ Hcur]. apply Hcur. exact E. }
  destruct (RegExp.exec CodeStructureService.methodRe line) as [methodMatch|] eqn:Em.
  - destruct (method_name _ _ Em) as [Hid Hocc].
    destruct current as [classId|].
    + eapply tracking_step; [exact Hinv| |].
      * intros symbol Hin. apply in_app_or in Hin. destruct Hin as [Hin|[<-|[]]]; [auto|].
        right. split; [apply Hdeclared; assumption|]. intros c Hc. exact Hc.
      * intros c E. apply open_class_over; [|exact Ec|].
        -- eapply declaring_line_is_not_blank; eassumption.
        -- destruct Hinv as [_ Hcur]. apply Hcur. exact E.
    + rewrite (declaring_line_is_not_blank _ _ Hid Hocc).
      eapply tracking_step; [exact Hinv|auto|]. intros c E. discriminate.
  - destruct (RegExp.test CodeStructureService.blankRe line) eqn:Eb.
    + eapply tracking_step; [exact Hinv|auto|]. intros c E. discriminate.
    + eapply tracking_step; [exact Hinv|auto|].
      intros c E. apply open_class_over; [exact Eb|exact Ec|].
      destruct Hinv as [_ Hcur]. apply Hcur. exact E.
Qed.

Lemma scanLines_tracking lines : forall done acc,
  tracking uri0 done acc ->
  tracking uri0 (done ++ lines)
    (CodeStructureService.scanLines uri0 (Z.of_nat (length done) + 1) lines acc).
Proof.
  induction lines as [|line lines IH]; intros done acc Hinv.
  - rewrite app_nil_r. exact Hinv.
  - cbn [CodeStructureService.scanLines].
    replace (done ++ line :: lines) with ((done ++ [line]) ++ lines)
      by (rewrite <- app_assoc; reflexivity).
    replace (Z.of_nat (length done) + 1 + 1) with (Z.of_nat (length (done ++ [line])) + 1)
      by (rewrite length_app; cbn [length]; lia).
    apply IH. apply scanLine_tracking. exact Hinv.
Qed.

Lemma tracking_initial : tracking uri0 [] ([], None).
Proof. split; cbn; [intros symbol classId []|discriminate]. Qed.

(** Every class line and every function line read is indexed. *)
Lemma scanLine_all_indexed done line acc :
  all_indexed uri0 done (fst acc) ->
  all_indexed uri0 (done ++ [line])
    (fst (CodeStructureService.scanLine uri0 (Z.of_nat (length done) + 1) line acc)).
Proof.
  destruct acc as [symbols current]. cbn [fst]. intros Hinv k line0 Hk.
  assert (Hgrow : forall x,
            In x symbols ->
            In x (fst (CodeStructureService.scanLine uri0 (Z.of_nat (length done) + 1) line
                         (symbols, current)))).
  { intros x Hx. unfold CodeStructureService.scanLine.
    repeat match goal with
           | |- context [match ?c with _ => _ end] => destruct c
           end; cbn [fst]; try (apply in_or_app; left); exact Hx. }
  destruct (decide (k < length done)%nat) as [Hlt|Hge].
  - rewrite lookup_app_l in Hk by exact Hlt. specialize (Hinv k line0 Hk).
    destruct (RegExp.exec CodeStructureService.classRe line0); [auto|].
    destruct (RegExp.exec CodeStructureService.functionRe line0); auto.
  - assert (k = length done).
    { apply lookup_lt_Some in Hk. rewrite length_app in Hk. cbn in Hk. lia. }
    subst k. rewrite list_lookup_middle in Hk by reflexivity. inversion Hk; subst line0.
    unfold CodeStructureService.scanLine.
    destruct (RegExp.exec CodeStructureService.classRe line) as [classMatch|].
    + cbn [fst]. apply in_or_app. right. left. reflexivity.
    + destruct (RegExp.exec CodeStructureService.functionRe line) as [functionMatch|];
        [|exact I].
      cbn [fst]. apply in_or_app. right. left. reflexivity.
Qed.

Lemma scanLines_all_indexed lines : forall done acc,
  all_indexed uri0 done (fst acc) ->
  all_indexed uri0 (done ++ lines)
    (fst (CodeStructureService.scanLines uri0 (Z.of_nat (length done) + 1) lines acc)).
Proof.
  induction lines as [|line lines IH]; intros done acc Hinv.
  - rewrite app_nil_r. exact Hinv.
  - cbn [CodeStructureService.scanLines].
    replace (done ++ line :: lines) with ((done ++ [line]) ++ lines)
      by (rewrite <- app_assoc; reflexivity).
    replace (Z.of_nat (length done) + 1 + 1) with (Z.of_nat (length (done ++ [line])) + 1)
      by (rewrite length_app; cbn [length]; lia).
    apply IH. apply scanLine_all_indexed. exact Hinv.
Qed.

End Tracking.

(** X25.  The container of a method is the class that is open at its
    line: the nearest class declared above it, with no blank line and no
    other class declaration between the line of the class and the line
    of the method. *)
Theorem method_belongs_to_the_open_class
    (now : Z) (model : ITextModel) (snapshot : FileStructureSnapshot)
    (symbol : SymbolNodeLite) (classId : string) :
  CodeStructureService.buildSnapshot now model = Return snapshot ->
  In symbol (symbols snapshot) ->
  containerId symbol = Some classId ->
  exists k : nat,
    lineOf symbol = Z.of_nat k + 1
    /\ open_class (uri model) (Text.split_lines (value model)) k classId.
Proof.
  intros H Hin Hc. apply buildSnapshot_inv in H. destruct H as [_ E].
  rewrite E in Hin. destruct Hin as [<-|Hin]; [discriminate|].
  pose proof (scanLines_tracking (uri model) (Text.split_lines (value model)) [] ([], None)
                (tracking_initial (uri model))) as (Hsym & _).
  cbn [app length] in Hsym.
  destruct (Hsym symbol classId Hin Hc) as (k & Hk & _ & Hopen). eauto.
Qed.

Lemma method_belongs_to_the_open_class_witness :
  exists snapshot symbol,
    CodeStructureService.buildSnapshot 0 Samples.classDocument = Return snapshot
    /\ In symbol (symbols snapshot)
    /\ name symbol = "bar"
    /\ exists k : nat,
         lineOf symbol = Z.of_nat k + 1
         /\ open_class Samples.sampleUri (Text.split_lines (value Samples.classDocument)) k
              "file:///sample.ts::Foo@1".
Proof.
  eexists. eexists.
  split; [vm_compute; reflexivity|].
  split; [right; right; left; reflexivity|].
  split; [reflexivity|].
  match goal with
  | |- exists k : nat, lineOf ?symbol = _ /\ _ =>
      let built := eval vm_compute in
        (CodeStructureService.buildSnapshot 0 Samples.classDocument) in
      match built with
      | Return ?snapshot =>
          apply (method_belongs_to_the_open_class 0 Samples.classDocument snapshot symbol
                   "file:///sample.ts::Foo@1")
      end
  end.
  - vm_compute. reflexivity.
  - right. right. left. reflexivity.
  - reflexivity.
Defined.

(** X26.  No class and no function declaration is missed: every line
    that matches the class pattern has a class symbol in the snapshot,
    and every other line that matches the function pattern has a
    function symbol, declared on that line under the captured name. *)
Theorem class_and_function_lines_are_indexed
    (now : Z) (model : ITextModel) (snapshot : FileStructureSnapshot)
    (k : nat) (line : string) :
  CodeStructureService.buildSnapshot now model = Return snapshot ->
  Text.split_lines (value model) !! k = Some line ->
  (forall classMatch,
     RegExp.exec CodeStructureService.classRe line = Some classMatch ->
     exists symbol,
       In symbol (symbols snapshot)
       /\ kind symbol = Class
       /\ name symbol = CodeStructureService.group 3 classMatch
       /\ lineOf symbol = Z.of_nat k + 1)
  /\ (forall functionMatch,
        RegExp.exec CodeStructureService.classRe line = None ->
        RegExp.exec CodeStructureService.functionRe line = Some functionMatch ->
        exists symbol,
          In symbol (symbols snapshot)
          /\ kind symbol = Function
          /\ name symbol = CodeStructureService.group 3 functionMatch
          /\ lineOf symbol = Z.of_nat k + 1).
Proof.
  intros H Hk. apply buildSnapshot_inv in H. destruct H as [_ E]. rewrite E.
  pose proof (scanLines_all_indexed (uri model) (Text.split_lines (value model)) []
                ([], None)) as Hall.
  cbn [app length fst] in Hall.
  assert (Hinit : all_indexed (uri model) [] []).
  { intros k0 line0 Hk0. destruct k0; discriminate. }
  specialize (Hall Hinit k line Hk).
  assert (Hline : forall kind0 name0,
            is_identifier name0 -> occurs name0 line ->
            lineOf (CodeStructureService.declared (uri model) kind0 name0 name0 line
                      (Z.of_nat k + 1) None) = Z.of_nat k + 1).
  { intros kind0 name0 [Hne _] Hocc.
    destruct (declared_facts (uri model) kind0 name0 name0 line (Z.of_nat k + 1) None
                Hne Hocc) as (i & _ & Hr).
    unfold lineOf. rewrite Hr. reflexivity. }
  split.
  - intros classMatch Ec. rewrite Ec in Hall.
    destruct (class_name _ _ Ec) as [Hid Hocc].
    eexists. split; [right; exact Hall|]. split; [reflexivity|]. split; [reflexivity|].
    apply Hline; assumption.
  - intros functionMatch Ec Ef. rewrite Ec, Ef in Hall.
    destruct (function_name _ _ Ef) as [Hid Hocc].
    eexists. split; [right; exact Hall|]. split; [reflexivity|]. split; [reflexivity|].
    apply Hline; assumption.
Qed.

Lemma class_and_function_lines_are_indexed_witness :
  exists snapshot line,
    CodeStructureService.buildSnapshot 0 Samples.callsDocument = Return snapshot
    /\ Text.split_lines (value Samples.callsDocument) !! 1%nat = Some line
    /\ RegExp.exec CodeStructureService.classRe line = None
    /\ RegExp.exec CodeStructureService.functionRe line <> None
    /\ (forall classMatch,
          RegExp.exec CodeStructureService.classRe line = Some classMatch ->
          exists symbol,
            In symbol (symbols snapshot)
            /\ kind symbol = Class
            /\ name symbol = CodeStructureService.group 3 classMatch
            /\ lineOf symbol = Z.of_nat 1 + 1)
    /\ (forall functionMatch,
          RegExp.exec CodeStructureService.classRe line = None ->
          RegExp.exec CodeStructureService.functionRe line = Some functionMatch ->
          exists symbol,
            In symbol (symbols snapshot)
            /\ kind symbol = Function
            /\ name symbol = CodeStructureService.group 3 functionMatch
            /\ lineOf symbol = Z.of_nat 1 + 1).
Proof.
  eexists. eexists.
  split; [apply buildSnapshot_live; reflexivity|].
  split; [vm_compute; reflexivity|].
  split; [vm_compute; reflexivity|].
  split; [vm_compute; discriminate|].
  apply (class_and_function_lines_are_indexed 0 Samples.callsDocument _ 1%nat).
  - apply buildSnapshot_live. reflexivity.
  - vm_compute. reflexivity.
Defined.

(* ===================================================================== *)
(** ** The services together: what the explain command says *)
(* ===================================================================== *)

Lemma active_symbol_is_the_file w editor active :
  running w ->
  Commands.getActiveSymbol editor (Workbench.structure w) = Some active ->
  exists snapshot file others,
    CodeStructureService.getSnapshot (Workbench.structure w) (Commands.active_uri active)
      = Some snapshot
    /\ symbols snapshot = file :: others
    /\ kind file = File
    /\ Commands.active_symbolId active = id file
    /\ NoDup (ids snapshot)
    /\ exists uri0, id file = CodeStructureService.buildSymbolId uri0 "<file>" 1.
Proof.
  intros Hw Hactive. destruct (running_sound w Hw) as (Hi & _).
  unfold Commands.getActiveSymbol in Hactive.
  destruct editor as [[uri0 position]|]; [|discriminate].
  destruct (CodeStructureService.getSymbolAtPosition (Workbench.structure w) uri0 position)
    as [symbol|] eqn:Hfound; [|discriminate].
  inversion Hactive; subst active. cbn.
  pose proof (indexed_snapshots_built _ Hi) as Hbuilt.
  unfold CodeStructureService.getSymbolAtPosition in Hfound.
  destruct (CodeStructureService.getSnapshot (Workbench.structure w) uri0)
    as [snapshot|] eqn:Hsnap; [|discriminate].
  destruct (Hbuilt _ _ Hsnap) as (now & model & Hb & _).
  destruct (firstContaining_built _ _ _ _ _ Hb Hfound) as (Hk & _ & others & Ho).
  exists snapshot, symbol, others.
  split; [reflexivity|]. split; [exact Ho|]. split; [exact Hk|]. split; [reflexivity|].
  split; [exact (built_ids_NoDup _ _ _ Hb)|].
  destruct (buildSnapshot_scanned _ _ _ Hb) as (declarations & E & _).
  rewrite E in Ho. inversion Ho; subst. exists (uri model). reflexivity.
Qed.

Lemma file_symbol_has_no_callers w uri0 :
  running w ->
  CodeGraphService.getCallers (Workbench.graph w)
    (CodeStructureService.buildSymbolId uri0 "<file>" 1) = [].
Proof.
  intros Hw. destruct (running_sound w Hw) as (_ & Hr & Hd).
  destruct (CodeGraphService.getCallers (Workbench.graph w) _) as [|e es] eqn:E;
    [reflexivity|exfalso].
  destruct (reachable_consistent _ Hr) as (_ & Hin & _).
  destruct (proj1 (Hin (CodeStructureService.buildSymbolId uri0 "<file>" 1) e))
    as [Hrec Hto].
  { rewrite E. left. reflexivity. }
  destruct (Hd e Hrec) as (uri1 & lines & target & Hdecl & Hto').
  apply (file_id_not_declared uri0 uri1 lines target Hdecl). congruence.
Qed.

(** X27.  In every state of the workbench, the explain command explains
    the file symbol, whatever the cursor is on: its message names the
    file symbol of the snapshot and its location, counts no direct
    caller, and counts as direct callees the edges that come from the
    file symbol. *)
Theorem explain_command_explains_the_file
    (w : Workbench.state) (fsPath : URI -> string) (editor : Commands.ActiveEditor)
    (active : Commands.ActiveSymbol) :
  running w ->
  Commands.getActiveSymbol editor (Workbench.structure w) = Some active ->
  exists snapshot file others,
    CodeStructureService.getSnapshot (Workbench.structure w) (Commands.active_uri active)
      = Some snapshot
    /\ symbols snapshot = file :: others
    /\ kind file = File
    /\ Commands.explainSymbol fsPath editor (Workbench.structure w) (Workbench.graph w) =
         String.concat Samples.nl
           [ "Symbol: " +:+ name file;
             "Location: " +:+ fsPath (sym_uri file);
             "Direct callers: 0";
             "Direct callees: " +:+
               Text.decimal
                 (Z.of_nat (length (CodeGraphService.getCallees (Workbench.graph w) (id file)))) ].
Proof.
  intros Hw Hactive.
  destruct (active_symbol_is_the_file w editor active Hw Hactive)
    as (snapshot & file & others & Hsnap & Hsymbols & Hkind & Hid & Hnodup & uri0 & Hfile).
  exists snapshot, file, others.
  split; [exact Hsnap|]. split; [exact Hsymbols|]. split; [exact Hkind|].
  unfold Commands.explainSymbol. rewrite Hactive. cbv zeta. rewrite Hsnap, Hid.
  rewrite (find_by_id (symbols snapshot) file Hnodup)
    by (rewrite Hsymbols; left; reflexivity).
  rewrite Hfile at 1. rewrite (file_symbol_has_no_callers w uri0 Hw).
  reflexivity.
Qed.

Lemma explain_command_explains_the_file_witness :
  let w := Samples.opened Samples.callsDocument in
  let editor : Commands.ActiveEditor :=
    Some (Samples.sampleUri, {| lineNumber := 2; column := 10 |}) in
  exists snapshot file others,
    CodeStructureService.getSnapshot (Workbench.structure w) Samples.sampleUri = Some snapshot
    /\ symbols snapshot = file :: others
    /\ kind file = File
    /\ Commands.explainSymbol uri_toString editor (Workbench.structure w) (Workbench.graph w) =
         String.concat Samples.nl
           [ "Symbol: " +:+ name file;
             "Location: " +:+ uri_toString (sym_uri file);
             "Direct callers: 0";
             "Direct callees: " +:+
               Text.decimal
                 (Z.of_nat (length (CodeGraphService.getCallees (Workbench.graph w) (id file)))) ].
Proof.
  intros w editor.
  let found := eval vm_compute in (Commands.getActiveSymbol editor (Workbench.structure w)) in
  match found with
  | Some ?active =>
      apply (explain_command_explains_the_file w uri_toString editor active)
  end.
  - apply running_timeout. apply running_addModel. apply running_initial.
  - vm_compute. reflexivity.
Defined.

(* ===================================================================== *)
(** ** The services together: where the events are filed *)
(* ===================================================================== *)

Section FiledFacts.

Lemma removals_about clock next ref nextById l : forall acc,
  Forall (fun e => event_uri e = snap_uri next) (fst acc) ->
  Forall (fun e => event_uri e = snap_uri next)
    (fst (CodeHistoryService.removals clock next ref l nextById acc)).
Proof.
  unfold CodeHistoryService.removals.
  induction l as [|(i, prevName) l IH]; intros acc Hacc; [exact Hacc|].
  cbn [fold_left]. apply IH.
  destruct (negb (JsMap.has nextById i)); [|exact Hacc].
  unfold CodeHistoryService.push. cbn [fst]. apply Forall_app. split; [exact Hacc|].
  constructor; [reflexivity|constructor].
Qed.

Lemma additionsAndChanges_about clock next ref prevById l : forall acc,
  Forall (fun e => event_uri e = snap_uri next) (fst acc) ->
  Forall (fun e => event_uri e = snap_uri next)
    (fst (CodeHistoryService.additionsAndChanges clock next ref prevById l acc)).
Proof.
  unfold CodeHistoryService.additionsAndChanges.
  induction l as [|(i, nextName) l IH]; intros acc Hacc; [exact Hacc|].
  cbn [fold_left]. apply IH.
  destruct (JsMap.get prevById i) as [prevName|].
  - destruct (negb (String.eqb prevName nextName)); [|exact Hacc].
    unfold CodeHistoryService.push. cbn [fst]. apply Forall_app. split; [exact Hacc|].
    constructor; [reflexivity|constructor].
  - unfold CodeHistoryService.push. cbn [fst]. apply Forall_app. split; [exact Hacc|].
    constructor; [reflexivity|constructor].
Qed.

Lemma computeDiffEvents_about clock n previous next e :
  In e (fst (CodeHistoryService.computeDiffEvents clock n previous next)) ->
  event_uri e = snap_uri next
  /\ ref_uri (snapshot e) = snap_uri next
  /\ exists i, symbolId e = Some i.
Proof.
  intros Hin.
  destruct (computeDiffEvents_is_diff previous next clock n)
    as (_ & _ & _ & Hsome & _ & Href).
  rewrite List.Forall_forall in Hsome, Href.
  split; [|split; [rewrite (Href e Hin); reflexivity|exact (Hsome e Hin)]].
  assert (Hall : Forall (fun e => event_uri e = snap_uri next)
                   (fst (CodeHistoryService.computeDiffEvents clock n previous next))).
  { unfold CodeHistoryService.computeDiffEvents.
    apply additionsAndChanges_about, removals_about. constructor. }
  rewrite List.Forall_forall in Hall. exact (Hall e Hin).
Qed.

Lemma built_snap_uri now model snapshot :
  CodeStructureService.buildSnapshot now model = Return snapshot ->
  snap_uri snapshot = uri model.
Proof.
  intros H. pose proof (buildSnapshot_inv _ _ _ H) as [Hlive _].
  rewrite (buildSnapshot_live now model Hlive) in H. inversion H. reflexivity.
Qed.

Lemma onSnapshotUpdated_filed clock structure modelService uri0 h :
  snapshots_built structure ->
  events_filed h ->
  events_filed
    (Workbench.after
       (CodeHistoryService.onSnapshotUpdated clock structure modelService uri0) h).
Proof.
  intros Hbuilt Hh.
  destruct (getModel modelService uri0) as [model|] eqn:Hmodel;
    [|unfold Workbench.after; rewrite onSnapshotUpdated_idle by auto; exact Hh].
  destruct (CodeStructureService.getSnapshot structure uri0) as [next|] eqn:Hsnap;
    [|unfold Workbench.after; rewrite onSnapshotUpdated_idle by auto; exact Hh].
  destruct (onSnapshotUpdated_result clock structure modelService uri0 model next h
              Hmodel Hsnap)
    as (h' & t & hist' & Hrun & Hper & _ & Hev & _ & Hfired).
  unfold Workbench.after. rewrite Hrun. cbn [fst snd].
  destruct (Hbuilt _ _ Hsnap) as (now & built & Hb & Hkey).
  pose proof (built_snap_uri _ _ _ Hb) as Huri.
  intros key hist e Hlookup Hin. rewrite Hper in Hlookup.
  destruct (decide (uri_toString uri0 = key)) as [<-|Hne].
  - rewrite lookup_insert_eq in Hlookup. inversion Hlookup; subst hist.
    rewrite Hev in Hin. apply in_app_or in Hin. destruct Hin as [Hold|Hnew].
    + unfold CodeHistoryService.getEventsForFile in Hold.
      destruct (CodeHistoryService._perFile h !! uri_toString uri0) as [hist0|] eqn:E;
        [|destruct Hold].
      exact (Hh _ _ _ E Hold).
    + rewrite Hfired in Hnew. destruct (remembered h uri0) as [previous|]; [|destruct Hnew].
      destruct (computeDiffEvents_about _ _ _ _ _ Hnew) as (H1 & H2 & H3).
      split; [rewrite H1, Huri; exact Hkey|]. split; [congruence|exact H3].
  - rewrite lookup_insert_ne in Hlookup by exact Hne. exact (Hh _ _ _ Hlookup Hin).
Qed.

Lemma onModelRemoved_filed model h :
  events_filed h ->
  events_filed (Workbench.after (CodeHistoryService.onModelRemoved model) h).
Proof.
  intros Hh key hist e Hlookup Hin.
  destruct (onModelRemoved_state model h) as (_ & Hev & _). cbn zeta in Hev.
  specialize (Hev key). rewrite Hlookup in Hev. cbn in Hev.
  destruct (CodeHistoryService._perFile h !! key) as [hist0|] eqn:E; [|discriminate].
  cbn in Hev. inversion Hev as [Heq]. rewrite Heq in Hin. exact (Hh _ _ _ E Hin).
Qed.

Lemma deliver_filed clock t : forall w,
  fires_built t ->
  events_filed (Workbench.history w) ->
  events_filed (Workbench.history (Workbench.deliver clock w t)).
Proof.
  unfold Workbench.deliver.
  induction t as [|e t IH]; intros w Ht Hh; [exact Hh|].
  inversion Ht as [|? ? He Ht']; subst. cbn [fold_left].
  destruct e as [message context|uri0 visible]; [apply IH; assumption|].
  apply IH; [exact Ht'|]. cbn. apply onSnapshotUpdated_filed; assumption.
Qed.

Lemma running_filed w : running w -> events_filed (Workbench.history w).
Proof.
  induction 1 as [|clock model w Hw IH|clock scheduler model w Hw IH
                   |clock now model w Hw IH|clock model w Hw IH].
  - intros key hist e Hlookup. cbn in Hlookup. rewrite lookup_empty in Hlookup. discriminate.
  - unfold Workbench.addModel, Workbench.structure_step. apply deliver_filed; [|exact IH].
    cbn. rewrite trace_onModelAdded. constructor.
  - unfold Workbench.changeContent, Workbench.structure_step. apply deliver_filed; [|exact IH].
    cbn. rewrite trace_onDidChangeContent. constructor.
  - unfold Workbench.timeout.
    destruct (CodeStructureService._recomputeSchedulers (Workbench.structure w) !! _)
      as [scheduler|]; [|exact IH].
    unfold Workbench.structure_step. apply deliver_filed; [|exact IH].
    cbn. apply trace_onTimeout, indexed_snapshots_built.
    destruct (running_sound w Hw) as (Hi & _). exact Hi.
  - unfold Workbench.removeModel, Workbench.structure_step. apply deliver_filed.
    + cbn. constructor.
    + cbn. apply onModelRemoved_filed. exact IH.
Qed.

End FiledFacts.

(** X28.  In every state of the workbench, every event that the history
    service returns for a file is about that file and names a symbol:
    the uri of the event and the uri of its snapshot reference are the
    uri under which it is filed, and its symbol id is defined. *)
Theorem events_are_filed_under_their_file
    (w : Workbench.state) (u : URI) (e : CodeHistoryEvent) :
  running w ->
  In e (CodeHistoryService.getEventsForFile (Workbench.history w) u) ->
  uri_toString (event_uri e) = uri_toString u
  /\ ref_uri (snapshot e) = event_uri e
  /\ exists i, symbolId e = Some i.
Proof.
  intros Hw Hin. apply running_filed in Hw.
  unfold CodeHistoryService.getEventsForFile in Hin.
  destruct (CodeHistoryService._perFile (Workbench.history w) !! uri_toString u)
    as [hist|] eqn:E; [|destruct Hin].
  exact (Hw _ _ _ E Hin).
Qed.

Lemma events_are_filed_under_their_file_witness :
  let w0 := Samples.opened Samples.callsDocument in
  let w1 := Workbench.changeContent Samples.clock 0 Samples.editedDocument w0 in
  let w2 := Workbench.timeout Samples.clock 5 Samples.editedDocument w1 in
  length (CodeHistoryService.getEventsForFile (Workbench.history w2) Samples.sampleUri) = 4%nat
  /\ exists e,
       CodeHistoryService.getEventsForFile (Workbench.history w2) Samples.sampleUri !! 0%nat
         = Some e
       /\ uri_toString (event_uri e) = uri_toString Samples.sampleUri
       /\ ref_uri (snapshot e) = event_uri e
       /\ exists i, symbolId e = Some i.
Proof.
  intros w0 w1 w2. split; [vm_compute; reflexivity|].
  eexists. split; [vm_compute; reflexivity|].
  apply (events_are_filed_under_their_file w2 Samples.sampleUri).
  - apply running_timeout. apply running_changeContent.
    apply running_timeout. apply running_addModel. apply running_initial.
  - vm_compute. left. reflexivity.
Defined.
